(** * Blender-Tools-for-DSCS: a shallow embedding of the importer core

    The development follows the Python sources

    - [FileReaders/GeomReader/MaterialReader.py]  (24-byte material records,
      shader identifier text form),
    - [CollatedData/FromReadWrites.py]            (assembly of the intermediate
      format: triangle strips, vertex groups, skeleton, materials, animations),
    - [CollatedData/IntermediateFormat.py]        (the intermediate classes),
    - [BlenderIO/Import.py]                       (armature construction).

    Python lists are Rocq lists, dictionaries are [gmap]s, Python sets are
    [gset]s, byte strings are lists of [Byte.byte].  A Python exception is the
    [None] of an [option].

    Floating point numbers.  In the record codec a Python float is carried by
    its binary64 bit pattern, and [struct]'s conversions from and to single
    precision are written out on the patterns, rounding and NaNs included.
    Where the assembly layer computes with floats (the UV flip) they are
    binary64 floats ([PrimFloat]); the skeleton is parametric in its numbers
    and in numpy's product.  A finite float that the code only copies,
    compares or truncates to an integer is read as the exact rational it
    denotes ([Q]). *)

From Stdlib Require Import ZArith QArith Qround Strings.Byte Ascii String.
From Stdlib Require Import PrimFloat.
From stdpp Require Import gmap strings list fin_maps pretty sorting.

Open Scope Z_scope.

(* ===================================================================== *)
(** * Part I: definitions                                                 *)
(* ===================================================================== *)

(** ** Python built-ins used by the sources *)

Module Py.

(** [l[i]] for a Python sequence: a negative index counts from the end,
    an index outside [-len, len) raises [IndexError]. *)
Definition resolve (len : nat) (i : Z) : option nat :=
  if decide (0 ≤ i) then
    if decide (i < Z.of_nat len) then Some (Z.to_nat i) else None
  else if decide (- Z.of_nat len ≤ i) then Some (Z.to_nat (Z.of_nat len + i))
  else None.

Definition index {A} (l : list A) (i : Z) : option A :=
  n ← resolve (length l) i; l !! n.

(** [l[i] = f(l[i])], an in-place change of the element at index [i]. *)
Definition update {A} (l : list A) (i : Z) (f : A → A) : option (list A) :=
  n ← resolve (length l) i; x ← l !! n; Some (<[n := f x]> l).

(** [l[start::step]] for a positive step. *)
Definition every {A} (start step : nat) (l : list A) : list A :=
  omap (λ ix : nat * A, if decide (ix.1 mod step = 0)%nat then Some ix.2 else None)
       (imap (λ i x, (i, x)) (drop start l)).

(** [int(x)] for a float: the integer part, rounding toward zero. *)
Definition int (x : Q) : Z := Z.quot (Qnum x) (Zpos (Qden x)).

(** [enumerate(l)] *)
Definition enumerate {A} (l : list A) : list (nat * A) :=
  imap (λ i x, (i, x)) l.

(** [zip(a, b, c)] *)
Definition zip3 {A B C} (a : list A) (b : list B) (c : list C) : list (A * B * C) :=
  zip_with (λ x yz, (x, yz.1, yz.2)) a (zip b c).

End Py.

(** ** CollatedData/FromReadWrites.py: polygon data type converters *)

Module Polys.

(** A triangle is a Python 3-tuple of vertex indices. *)
Definition tri : Type := Z * Z * Z.

(** [tri[k]] for [k] in 0..2 (the only subscripts the source computes). *)
Definition tri_get (t : tri) (k : nat) : Z :=
  let '(a, b, c) := t in
  match k with O => a | S O => b | _ => c end.

(** [set(tri)] *)
Definition py_set (t : tri) : gset Z :=
  let '(a, b, c) := t in list_to_set [a; b; c].

(** One iteration of the loop body of [triangle_strips_to_polys]. *)
Definition strip_step (triangles : list tri) (it : nat * tri) : list tri :=
  let '(i, t) := it in
  let order := (i mod 2)%nat in
  let t := (tri_get t (0 + order), tri_get t (1 - order), tri_get t 2) in
  let triangle := py_set t in
  if negb (bool_decide (size triangle ≠ 3%nat) || bool_decide (t ∈ triangles))
  then triangles ++ [t]
  else triangles.

Definition triangle_strips_to_polys (idxs : list Z) : list tri :=
  fold_left strip_step
    (Py.enumerate (Py.zip3 idxs (drop 1 idxs) (drop 2 idxs))) [].

Definition triangles_to_polys (idxs : list Z) : list tri :=
  Py.zip3 (Py.every 0 3 idxs) (Py.every 1 3 idxs) (Py.every 2 3 idxs).

Definition triangle_converters : gmap string (list Z → list tri) :=
  {[ "Triangles" := triangles_to_polys;
     "TriangleStrips" := triangle_strips_to_polys ]}.

(** The triple the strip proposes at position [k]: [(i_k, i_k+1, i_k+2)],
    first two entries exchanged when [k] is odd. *)
Definition wound (k : nat) (a b c : Z) : tri :=
  if Nat.even k then (a, b, c) else (b, a, c).

(** [len(set(tri)) == 3] says that the three indices differ pairwise. *)
Definition pairwise_distinct (t : tri) : Prop :=
  let '(a, b, c) := t in a ≠ b ∧ b ≠ c ∧ a ≠ c.

#[global] Instance pairwise_distinct_dec t : Decision (pairwise_distinct t).
Proof. destruct t as [[a b] c]. simpl. apply _. Defined.

(** The guarded [append] of the loop body on an already rewound triple. *)
Definition emit (triangles : list tri) (t : tri) : list tri :=
  if negb (bool_decide (size (py_set t) ≠ 3%nat) || bool_decide (t ∈ triangles))
  then triangles ++ [t]
  else triangles.

(** All triples the strip proposes, in strip order. *)
Definition candidates (idxs : list Z) : list tri :=
  imap (λ k t, wound k t.1.1 t.1.2 t.2)
       (Py.zip3 idxs (drop 1 idxs) (drop 2 idxs)).

(** What decides, from the proposed triples alone, whether the triple [t]
    proposed at position [k] is emitted: its indices are pairwise distinct,
    and no earlier position proposes the same ordered triple. *)
Definition kept (cands : list tri) (kt : nat * tri) : Prop :=
  pairwise_distinct kt.2 ∧ kt.2 ∉ take kt.1 cands.

#[global] Instance kept_dec cands kt : Decision (kept cands kt).
Proof. unfold kept. apply _. Defined.

(** The property the specification words as "a triangle that duplicates, as
    an unordered set of 3 indices, one already emitted is skipped": no two
    entries of the output have the same index set. *)
Definition no_unordered_duplicates (out : list tri) : Prop :=
  ∀ i j t1 t2, out !! i = Some t1 → out !! j = Some t2 → i ≠ j →
               py_set t1 ≠ py_set t2.

End Polys.

(** ** The [struct] module, for the format codes the sources use *)

Module Struct.

(** A value produced or consumed by [struct]: a Python [int], or a Python
    [float].  A [float] is a double-precision number and is carried by its
    binary64 pattern, a number below 2^64: one sign bit, 11 exponent bits,
    52 fraction bits. *)
Inductive num : Type :=
| Int (z : Z)
| Float (bits : Z).

#[global] Instance byte_eq_decision : EqDecision byte := Byte.byte_eq_dec.

#[global] Instance num_eq_dec : EqDecision num.
Proof. solve_decision. Defined.

Inductive code : Type := cB | cH | cI | cf.

Definition code_of (c : ascii) : option code :=
  if decide (c = "B"%char) then Some cB
  else if decide (c = "H"%char) then Some cH
  else if decide (c = "I"%char) then Some cI
  else if decide (c = "f"%char) then Some cf
  else None.

Definition size_of (c : code) : nat :=
  match c with cB => 1 | cH => 2 | cI => 4 | cf => 4 end.

Definition digit_of (c : ascii) : option nat :=
  let n := nat_of_ascii c in
  if decide (48 ≤ n ≤ 57)%nat then Some (n - 48)%nat else None.

(** A format string: codes, each with an optional decimal repeat count. *)
Fixpoint parse_format (s : string) (count : option nat) : option (list code) :=
  match s with
  | EmptyString => match count with None => Some [] | Some _ => None end
  | String c s' =>
      match digit_of c with
      | Some d => parse_format s' (Some (10 * default 0 count + d))%nat
      | None =>
          k ← code_of c;
          rest ← parse_format s' None;
          Some (replicate (default 1 count)%nat k ++ rest)
      end
  end.

Definition byte_of_Z (z : Z) : byte :=
  default x00 (Byte.of_N (Z.to_N (z mod 256))).

Definition Z_of_byte (b : byte) : Z := Z.of_N (Byte.to_N b).

(** Little-endian integers. *)
Definition le_int (bs : list byte) : Z :=
  foldr (λ b acc, Z_of_byte b + 256 * acc) 0 bs.

Fixpoint le_bytes (n : nat) (z : Z) : list byte :=
  match n with
  | O => []
  | S n' => byte_of_Z (z mod 256) :: le_bytes n' (z / 256)
  end.

(** Native alignment: an item of size [sz] starts at a multiple of [sz]. *)
Definition padding (off sz : nat) : nat := ((sz - off mod sz) mod sz)%nat.

(** *** Code [f]: single precision in the buffer, double precision in Python

    In native mode [unpack] copies the four bytes into a C [float] and
    converts it to [double]; [pack] converts the [double] to [float] and
    copies its four bytes.  Both conversions are written out on the bit
    patterns. *)

(** [sig / 2^shift], rounded to the nearest integer, a tie to the even
    one. *)
Definition round_half_even (sig shift : Z) : Z :=
  let q := sig / 2 ^ shift in
  let r := sig mod 2 ^ shift in
  let h := 2 ^ (shift - 1) in
  if decide (h < r ∨ (r = h ∧ Z.odd q = true)) then q + 1 else q.

(** The 23-bit fraction of a NaN with its quiet bit set. *)
Definition quiet23 (m : Z) : Z := if decide (m < 2 ^ 22) then m + 2 ^ 22 else m.

(** [(double)x] on patterns: exact; a denormal becomes a normal number, a
    signalling NaN becomes quiet. *)
Definition f32_to_f64 (b : Z) : Z :=
  let s := b / 2 ^ 31 in
  let e := (b / 2 ^ 23) mod 256 in
  let m := b mod 2 ^ 23 in
  if decide (e = 255) then
    if decide (m = 0) then s * 2 ^ 63 + 2047 * 2 ^ 52
    else s * 2 ^ 63 + 2047 * 2 ^ 52 + quiet23 m * 2 ^ 29
  else if decide (e = 0) then
    if decide (m = 0) then s * 2 ^ 63
    else let k := Z.log2 m in
         s * 2 ^ 63 + (k + 874) * 2 ^ 52 + (m - 2 ^ k) * 2 ^ (52 - k)
  else s * 2 ^ 63 + (e + 896) * 2 ^ 52 + m * 2 ^ 29.

(** [(float)x] on patterns: to the nearest single-precision number, a tie
    to the even one; a number too large becomes an infinity, one too small a
    denormal or zero; a NaN keeps the upper bits of its fraction and is
    quiet. *)
Definition f64_to_f32 (d : Z) : Z :=
  let s := (d / 2 ^ 63) mod 2 in
  let e := (d / 2 ^ 52) mod 2048 in
  let m := d mod 2 ^ 52 in
  if decide (e = 2047) then
    if decide (m = 0) then s * 2 ^ 31 + 255 * 2 ^ 23
    else s * 2 ^ 31 + 255 * 2 ^ 23 + quiet23 (m / 2 ^ 29)
  else if decide (e = 0) then s * 2 ^ 31
  else
    let sig := 2 ^ 52 + m in
    let mag := if decide (897 ≤ e)
               then (e - 897) * 2 ^ 23 + round_half_even sig 29
               else round_half_even sig (29 + (897 - e)) in
    s * 2 ^ 31 + Z.min mag (255 * 2 ^ 23).

(** [float(z)] for a Python [int]: the nearest double, a tie to the even
    one; [OverflowError] when that is no finite double. *)
Definition int_to_f64 (z : Z) : option Z :=
  let s := if decide (z < 0) then 1 else 0 in
  let a := Z.abs z in
  if decide (a = 0) then Some 0
  else
    let k := Z.log2 a in
    if decide (k ≤ 52)
    then Some (s * 2 ^ 63 + (k + 1023) * 2 ^ 52 + (a * 2 ^ (52 - k) - 2 ^ 52))
    else
      let q := round_half_even a (k - 52) in
      let bits := (k + 1023) * 2 ^ 52 + (q - 2 ^ 52) in
      if decide (2047 * 2 ^ 52 ≤ bits) then None else Some (s * 2 ^ 63 + bits).

(** A single-precision pattern that is a signalling NaN: exponent bits all
    set, a fraction that is not zero and has its top bit clear. *)
Definition signalling32 (b : Z) : Prop :=
  (b / 2 ^ 23) mod 256 = 255 ∧ 0 < b mod 2 ^ 23 < 2 ^ 22.

#[global] Instance signalling32_dec b : Decision (signalling32 b).
Proof. unfold signalling32. apply _. Defined.

(** The same pattern with the quiet bit set, when it is a signalling NaN. *)
Definition quiet32 (b : Z) : Z :=
  if decide (signalling32 b) then b + 2 ^ 22 else b.

(** The double [pack] takes under code [f]: a [float] as it is, an [int]
    converted. *)
Definition float_value (v : num) : option Z :=
  match v with
  | Float d => Some d
  | Int z => int_to_f64 z
  end.

Definition decode_item (c : code) (bs : list byte) : option num :=
  match c with
  | cf => match bs with
          | [_; _; _; _] => Some (Float (f32_to_f64 (le_int bs)))
          | _ => None
          end
  | _ => Some (Int (le_int bs))
  end.

(** [pack] refuses a float where an integer code stands and an integer out
    of the code's range. *)
Definition encode_item (c : code) (v : num) : option (list byte) :=
  match c, v with
  | cf, _ => d ← float_value v; Some (le_bytes 4 (f64_to_f32 d))
  | _, Int z =>
      if decide (0 ≤ z < 256 ^ Z.of_nat (size_of c))
      then Some (le_bytes (size_of c) z) else None
  | _, Float _ => None
  end.

Fixpoint unpack_codes (cs : list code) (off : nat) (bs : list byte)
  : option (list num) :=
  match cs with
  | [] => if decide (bs = []) then Some [] else None
  | c :: cs' =>
      let pad := padding off (size_of c) in
      let bs1 := drop pad bs in
      if decide (pad + size_of c ≤ length bs)%nat then
        v ← decode_item c (take (size_of c) bs1);
        vs ← unpack_codes cs' (off + pad + size_of c) (drop (size_of c) bs1);
        Some (v :: vs)
      else None
  end.

Fixpoint pack_codes (cs : list code) (off : nat) (vs : list num)
  : option (list byte) :=
  match cs, vs with
  | [], [] => Some []
  | c :: cs', v :: vs' =>
      let pad := padding off (size_of c) in
      b ← encode_item c v;
      rest ← pack_codes cs' (off + pad + size_of c) vs';
      Some (replicate pad x00 ++ b ++ rest)
  | _, _ => None
  end.

(** [struct.unpack(fmt, buffer)]: the buffer must have exactly the size
    the format calls for. *)
Definition unpack (fmt : string) (bs : list byte) : option (list num) :=
  cs ← parse_format fmt None; unpack_codes cs 0 bs.

(** [struct.pack(fmt, *values)] *)
Definition pack (fmt : string) (vs : list num) : option (list byte) :=
  cs ← parse_format fmt None; pack_codes cs 0 vs.

End Struct.

(** ** FileReaders/GeomReader/MaterialReader.py *)

Module MaterialReader.
Import Struct.

(** [bytes[a:b]] for [0 <= a <= b]. *)
Definition slice {A} (a b : nat) (l : list A) : list A := take (b - a) (drop a l).

(** [str * n] *)
Fixpoint str_repeat (s : string) (n : nat) : string :=
  match n with O => EmptyString | S n' => s +:+ str_repeat s n' end.

(** *** The shader identifier *)

Definition hexdigits : string := "0123456789abcdef".

Definition hex_digit (n : N) : ascii :=
  default "0"%char (String.get (N.to_nat n) hexdigits).

(** [bytes.hex()] *)
Fixpoint bytes_hex (bs : list byte) : string :=
  match bs with
  | [] => EmptyString
  | b :: bs' =>
      String (hex_digit (Byte.to_N b / 16))
        (String (hex_digit (Byte.to_N b mod 16)) (bytes_hex bs'))
  end.

Definition hex_value (c : ascii) : option N :=
  let n := N_of_ascii c in
  if decide (48 ≤ n ≤ 57)%N then Some (n - 48)%N
  else if decide (97 ≤ n ≤ 102)%N then Some (n - 87)%N
  else if decide (65 ≤ n ≤ 70)%N then Some (n - 55)%N
  else None.

(** ASCII whitespace: space, tab, line feed, vertical tab, form feed,
    carriage return. *)
Definition is_space (c : ascii) : bool :=
  let n := N_of_ascii c in
  bool_decide (n = 32 ∨ 9 ≤ n ≤ 13)%N.

(** [bytes.fromhex(s)]: two hexadecimal digits per byte, white space
    between bytes is skipped, anything else raises [ValueError]. *)
Fixpoint bytes_fromhex (s : string) : option (list byte) :=
  match s with
  | EmptyString => Some []
  | String c s' =>
      if is_space c then bytes_fromhex s'
      else
        hi ← hex_value c;
        match s' with
        | EmptyString => None
        | String d s'' =>
            lo ← hex_value d;
            rest ← bytes_fromhex s'';
            Some (byte_of_Z (Z.of_N (16 * hi + lo)) :: rest)
        end
  end.

(** [s.split(sep)] for a one-character separator. *)
Fixpoint str_split (sep : ascii) (s : string) : list string :=
  match s with
  | EmptyString => [EmptyString]
  | String c s' =>
      if decide (c = sep) then EmptyString :: str_split sep s'
      else match str_split sep s' with
           | p :: ps => String c p :: ps
           | [] => [String c EmptyString]
           end
  end.

(** The separator does not occur in the string. *)
Fixpoint str_free (sep : ascii) (s : string) : Prop :=
  match s with
  | EmptyString => True
  | String c s' => c ≠ sep ∧ str_free sep s'
  end.

(** Lines 124-129 of [interpret_material]: the text form of the 16 raw
    bytes of [shader_hex]. *)
Definition interpret_shader_hex (shader_hex : list byte) : string :=
  let shader_hex_pt_1 := bytes_hex (reverse (slice 0 4 shader_hex)) in
  let shader_hex_pt_2 := bytes_hex (reverse (slice 4 8 shader_hex)) in
  let shader_hex_pt_3 := bytes_hex (reverse (slice 8 12 shader_hex)) in
  let shader_hex_pt_4 := bytes_hex (reverse (slice 12 16 shader_hex)) in
  String.concat "_" [shader_hex_pt_1; shader_hex_pt_2; shader_hex_pt_3; shader_hex_pt_4].

(** Lines 136-142 of [reinterpret_material]. *)
Definition reinterpret_shader_hex (shader_hex : string) : option (list byte) :=
  let hex_parts := str_split "_" shader_hex in
  shader_hex_pt_1 ← reverse <$> (hex_parts !! 0%nat ≫= bytes_fromhex);
  shader_hex_pt_2 ← reverse <$> (hex_parts !! 1%nat ≫= bytes_fromhex);
  shader_hex_pt_3 ← reverse <$> (hex_parts !! 2%nat ≫= bytes_fromhex);
  shader_hex_pt_4 ← reverse <$> (hex_parts !! 3%nat ≫= bytes_fromhex);
  Some (shader_hex_pt_1 ++ shader_hex_pt_2 ++ shader_hex_pt_3 ++ shader_hex_pt_4).

(** *** The 24-byte records *)

(** The literal of [shader_uniform_from_ids], in source order. *)
Definition shader_uniform_items : list (Z * string) :=
  [
    (50, "DiffuseTextureID"); (51, "DiffuseColour");
    (53, "NormalMapTextureID"); (54, "Bumpiness");
    (56, "SpecularStrength"); (57, "SpecularPower");
    (58, "CubeMapTextureID"); (59, "ReflectionStrength");
    (60, "FresnelExp"); (61, "FresnelMin");
    (62, "FuzzySpecColor"); (63, "SubColor");
    (64, "SurfaceColor"); (65, "Rolloff");
    (66, "VelvetStrength"); (67, "UnknownTextureSlot1");
    (68, "OverlayTextureID"); (69, "UnknownTextureSlot2");
    (70, "OverlayBumpiness"); (71, "OverlayStrength");
    (72, "ToonTextureID"); (75, "Curvature");
    (76, "GlassStrength"); (77, "UpsideDown");
    (79, "ParallaxBiasX"); (80, "ParallaxBiasY");
    (84, "Time"); (85, "ScrollSpeedSet1");
    (88, "ScrollSpeedSet2"); (91, "ScrollSpeedSet3");
    (94, "OffsetSet1"); (97, "OffsetSet2");
    (100, "DistortionStrength"); (113, "LightMapStrength");
    (114, "LightMapPower"); (116, "OffsetSet3");
    (119, "Fat"); (120, "RotationSet1");
    (123, "RotationSet2"); (129, "ScaleSet1");
    (141, "ZBias"); (142, "UnknownTextureSlot3")
  ].

(** A Python dictionary built from a sequence of pairs: a later pair with
    the same key replaces an earlier one. *)
Definition py_dict `{Countable K} {V} (items : list (K * V)) : gmap K V :=
  list_to_map (reverse items).

Definition shader_uniform_from_ids : gmap Z string :=
  py_dict shader_uniform_items.

(** [dict([reversed(i) for i in shader_uniform_from_ids.items()])] *)
Definition shader_uniform_from_names : gmap string Z :=
  py_dict (prod_swap <$> shader_uniform_items).

(** A decoded shader uniform: the object the classes of
    [shader_uniforms_from_defn] build. *)
Record ShaderUniform : Type := { num_floats : Z; data : list num }.

(** Modelled from the spec: [FileReaders/GeomReader/ShaderUniforms.py] is
    not among the sources.  Its table [shader_uniforms_from_defn] is keyed by
    (uniform name, float count), with the float count that the comment
    column of [shader_uniform_from_ids] (and the type table of the
    specification) gives for each name; the class found there keeps the
    payload as [data] and answers the key's float count as [num_floats]. *)
Definition shader_uniform_defns : list (string * Z) :=
  [
    ("DiffuseTextureID", 0); ("DiffuseColour", 4);
    ("NormalMapTextureID", 0); ("Bumpiness", 1);
    ("SpecularStrength", 1); ("SpecularPower", 1);
    ("CubeMapTextureID", 0); ("ReflectionStrength", 1);
    ("FresnelExp", 1); ("FresnelMin", 1);
    ("FuzzySpecColor", 3); ("SubColor", 3);
    ("SurfaceColor", 3); ("Rolloff", 1);
    ("VelvetStrength", 1); ("UnknownTextureSlot1", 0);
    ("OverlayTextureID", 0); ("UnknownTextureSlot2", 0);
    ("OverlayBumpiness", 1); ("OverlayStrength", 1);
    ("ToonTextureID", 0); ("Curvature", 1);
    ("GlassStrength", 1); ("UpsideDown", 1);
    ("ParallaxBiasX", 1); ("ParallaxBiasY", 1);
    ("Time", 1); ("ScrollSpeedSet1", 2);
    ("ScrollSpeedSet2", 2); ("ScrollSpeedSet3", 2);
    ("OffsetSet1", 2); ("OffsetSet2", 2);
    ("DistortionStrength", 1); ("LightMapStrength", 1);
    ("LightMapPower", 1); ("OffsetSet3", 2);
    ("Fat", 1); ("RotationSet1", 1);
    ("RotationSet2", 1); ("ScaleSet1", 2);
    ("ZBias", 1); ("UnknownTextureSlot3", 0)
  ].

Definition shader_uniforms_from_defn (key : string * Z)
  : option (list num → ShaderUniform) :=
  if decide (key ∈ shader_uniform_defns)
  then Some (λ payload, {| num_floats := key.2; data := payload |})
  else None.

(** Modelled from the spec: [BaseRW] is not among the sources; its
    [pad_byte] is the single zero byte that the "must be zero" fields of the
    records are filled with. *)
Definition pad_byte : list byte := [x00].

(** [n * bytes] *)
Definition bytes_repeat (n : Z) (bs : list byte) : list byte :=
  mjoin (replicate (Z.to_nat n) bs).

(** [datum == 0] *)
Definition num_is_zero (d : num) : bool :=
  match d with
  | Int z => bool_decide (z = 0)
  | Float d => bool_decide (d = 0 ∨ d = 2 ^ 63)
  end.

(** [assert cond] followed by the rest of the function. *)
Definition assert {A} (cond : bool) (k : option A) : option A :=
  if cond then k else None.

(** [struct.unpack(fmt, buf)[0]] *)
Definition unpack0 (fmt : string) (buf : list byte) : option num :=
  unpack fmt buf ≫= λ vs, vs !! 0%nat.

Definition shader_uniform_factory (data : list byte)
  : option (string * ShaderUniform) :=
  let payload := take 16 data in
  uniform_type ← Py.index data 16 ≫= λ b, shader_uniform_from_ids !! Z_of_byte b;
  num_floats ← Z_of_byte <$> Py.index data 17;
  always_65280 ← unpack0 "H" (slice 18 20 data);
  padding_0x14 ← unpack0 "I" (drop 20 data);
  assert (bool_decide (always_65280 = Int 65280)) (
  assert (bool_decide (padding_0x14 = Int 0)) (
    payload ←
      (if decide (num_floats = 0) then
         payload ← unpack (str_repeat "H" 8) payload;
         assert (forallb num_is_zero (slice 1 6 payload)) (
           p0 ← payload !! 0%nat;
           Some (p0 :: drop 6 payload))
       else
         payload ← unpack (str_repeat "f" (Z.to_nat num_floats))
                          (take (Z.to_nat (num_floats * 4)) payload);
         assert (forallb num_is_zero (drop (Z.to_nat num_floats) payload)) (
           Some (take (Z.to_nat num_floats) payload)));
    mk ← shader_uniforms_from_defn (uniform_type, num_floats);
    Some (uniform_type, mk payload))).

Definition shader_uniform_data_factory
    (uniform_type : string) (shader_uniform : ShaderUniform)
  : option (list byte) :=
  let nf := num_floats shader_uniform in
  data ←
    (if decide (nf = 0) then
       d0 ← (data shader_uniform !! 0%nat) ≫= λ d, pack "H" [d];
       d1 ← pack "HH" (drop 1 (data shader_uniform));
       Some (d0 ++ bytes_repeat 10 pad_byte ++ d1)
     else
       d ← pack (pretty nf +:+ "f") (data shader_uniform);
       Some (d ++ bytes_repeat (4 - nf) (bytes_repeat 4 pad_byte)));
  ty ← shader_uniform_from_names !! uniform_type ≫= λ v, pack "B" [Int v];
  n ← pack "B" [Int nf];
  s ← pack "H" [Int 65280];
  z ← pack "I" [Int 0];
  Some (data ++ ty ++ n ++ s ++ z).

Definition possibly_umc_types : gmap Z string :=
  py_dict [(160, "If"); (161, "II"); (162, "II"); (163, "HHI"); (164, "II");
           (166, "II"); (167, "II"); (168, "II"); (169, "II"); (172, "II")].

Definition umc_factory (data : list byte) : option (Z * list num) :=
  padding_0x08 ← unpack0 "H" (slice 8 10 data);
  padding_0x0A ← unpack0 "H" (slice 10 12 data);
  padding_0x0C ← unpack0 "H" (slice 12 14 data);
  padding_0x0E ← unpack0 "H" (slice 14 16 data);
  assert (bool_decide (padding_0x08 = Int 0)) (
  assert (bool_decide (padding_0x0A = Int 0)) (
  assert (bool_decide (padding_0x0C = Int 0)) (
  assert (bool_decide (padding_0x0E = Int 0)) (
    maybe_component_type ← Z_of_byte <$> Py.index data 16;
    always_100 ← Z_of_byte <$> Py.index data 17;
    always_65280 ← unpack0 "H" (slice 18 20 data);
    padding_0x14 ← unpack0 "I" (slice 20 24 data);
    assert (bool_decide (always_100 = 100)) (
    assert (bool_decide (always_65280 = Int 65280)) (
    assert (bool_decide (padding_0x14 = Int 0)) (
      fmt ← possibly_umc_types !! maybe_component_type;
      vals ← unpack fmt (slice 0 8 data);
      Some (maybe_component_type, vals)))))))).

Definition umc_data_factory (maybe_component_type : Z) (data : list num)
  : option (list byte) :=
  d ← possibly_umc_types !! maybe_component_type ≫= λ fmt, pack fmt data;
  p1 ← pack "H" [Int 0];
  p2 ← pack "H" [Int 0];
  p3 ← pack "H" [Int 0];
  p4 ← pack "H" [Int 0];
  ty ← pack "B" [Int maybe_component_type];
  c ← pack "B" [Int 100];
  s ← pack "H" [Int 65280];
  z ← pack "I" [Int 0];
  let data := d ++ p1 ++ p2 ++ p3 ++ p4 ++ ty ++ c ++ s ++ z in
  assert (bool_decide (length data = 24%nat)) (Some data).

(** A "Bumpiness" record (type 54, one float): the float 1.0, then a
    payload byte 01 past the float prefix, then sentinel and padding. *)
Definition bumpiness_dirty_record : list byte :=
  [x00; x00; x80; x3f;  x01; x00; x00; x00;  x00; x00; x00; x00;
   x00; x00; x00; x00;  x36; x01;  x00; xff;  x00; x00; x00; x00].

(** The same record with a clean payload tail. *)
Definition bumpiness_clean_record : list byte :=
  [x00; x00; x80; x3f;  x00; x00; x00; x00;  x00; x00; x00; x00;
   x00; x00; x00; x00;  x36; x01;  x00; xff;  x00; x00; x00; x00].

End MaterialReader.

(** ** CollatedData/IntermediateFormat.py and FromReadWrites.py: animations *)

Module Anims.

(** [FCurve] and [Animation] of the intermediate format. *)
Record FCurve (V : Type) : Type := { frames : list Z; values : list V }.
Arguments frames {V}. Arguments values {V}.

Record Animation (V : Type) : Type := {
  rotations : gmap Z (FCurve V);
  locations : gmap Z (FCurve V);
  scales : gmap Z (FCurve V);
  playback_rate : Z
}.
Arguments rotations {V}. Arguments locations {V}. Arguments scales {V}.
Arguments playback_rate {V}.

(** One keyframe block of the animation reader (an element of the reader's
    [unknown_data_8]). *)
Module Substructure.
Record t (V : Type) : Type := {
  unknown_data_1 : list V;
  unknown_data_2 : list V;
  unknown_data_3 : list V;
  unknown_data_5 : string;
  unknown_data_6 : list V;
  unknown_data_7 : list V;
  unknown_data_8 : list V
}.
Arguments unknown_data_1 {V}. Arguments unknown_data_2 {V}.
Arguments unknown_data_3 {V}. Arguments unknown_data_5 {V}.
Arguments unknown_data_6 {V}. Arguments unknown_data_7 {V}.
Arguments unknown_data_8 {V}.
End Substructure.

(** The fields of [AnimReader] that [add_anims] reads. *)
Record AnimReader (V : Type) : Type := {
  num_bones : nat;
  initial_pose_rotations_bone_idxs : list Z;
  initial_pose_bone_rotations : list V;
  initial_pose_locations_bone_idxs : list Z;
  initial_pose_bone_locations : list V;
  initial_pose_scales_bone_idxs : list Z;
  initial_pose_bone_scales : list V;
  keyframe_counts : list (Z * Z);
  unknown_data_8 : list (Substructure.t V);
  keyframe_rotations_bone_idxs : list Z;
  keyframe_locations_bone_idxs : list Z;
  keyframe_scales_bone_idxs : list Z
}.
Arguments num_bones {V}.
Arguments initial_pose_rotations_bone_idxs {V}.
Arguments initial_pose_bone_rotations {V}.
Arguments initial_pose_locations_bone_idxs {V}.
Arguments initial_pose_bone_locations {V}.
Arguments initial_pose_scales_bone_idxs {V}.
Arguments initial_pose_bone_scales {V}.
Arguments keyframe_counts {V}.
Arguments unknown_data_8 {V}.
Arguments keyframe_rotations_bone_idxs {V}.
Arguments keyframe_locations_bone_idxs {V}.
Arguments keyframe_scales_bone_idxs {V}.

(** The pieces [lst[i:i+n]] for [i = 0, n, 2n, ...] below [len(lst)], for
    a positive [n]. *)
Fixpoint chunks_upto {A} (fuel : nat) (lst : list A) (n : nat) : list (list A) :=
  match fuel, lst with
  | S fuel', _ :: _ => take n lst :: chunks_upto fuel' (drop n lst) n
  | _, _ => []
  end.

(** [chunks(lst, n)], read to the end.  [range(0, len(lst), n)] is empty
    for a negative [n], and raises [ValueError] for [n = 0]. *)
Definition chunks {A} (lst : list A) (n : Z) : option (list (list A)) :=
  if decide (n = 0) then None
  else Some (if decide (0 < n) then chunks_upto (length lst) lst (Z.to_nat n) else []).

(** [d[k].extend(xs)]; a missing key raises [KeyError]. *)
Definition dict_extend {A} (d : gmap Z (list A)) (k : Z) (xs : list A)
  : option (gmap Z (list A)) :=
  l ← d !! k; Some (<[k := l ++ xs]> d).

(** [{bone_idx: [] for bone_idx in range(n)}] *)
Definition empty_fcurves {A} (n : nat) : gmap Z (list A) :=
  list_to_map ((λ i : nat, (Z.of_nat i, [])) <$> seq 0 n).

(** [for bone_idx, value in zip(bone_idxs, vals)]: append frame [frame]
    and the value to the curve of [bone_idx]. *)
Fixpoint add_samples {V} (frame : Z) (samples : list (Z * V))
    (fr : gmap Z (list Z)) (vl : gmap Z (list V))
  : option (gmap Z (list Z) * gmap Z (list V)) :=
  match samples with
  | [] => Some (fr, vl)
  | (bone_idx, value) :: samples' =>
      fr' ← dict_extend fr bone_idx [frame];
      vl' ← dict_extend vl bone_idx [value];
      add_samples frame samples' fr' vl'
  end.

(** [[j+cumulative_frames+1 for j, elem in enumerate(mask) if elem == '1']] *)
Definition mask_frames (cumulative_frames : Z) (mask : list ascii) : list Z :=
  omap (λ je : nat * ascii,
          if decide (je.2 = "1"%char)
          then Some (Z.of_nat je.1 + cumulative_frames + 1) else None)
       (Py.enumerate mask).

(** [for bone_idx, mask in zip(bone_idxs, masks)] with [masks] a generator
    and [stream] an iterator: the loop takes one mask per bone and
    [len(frames)] values from the stream ([itertools.islice]); what it
    leaves of both is handed on. *)
Fixpoint mask_loop {V} (cumulative_frames : Z) (bone_idxs : list Z)
    (masks : list (list ascii)) (stream : list V)
    (fr : gmap Z (list Z)) (vl : gmap Z (list V))
  : option (list (list ascii) * list V * gmap Z (list Z) * gmap Z (list V)) :=
  match bone_idxs, masks with
  | bone_idx :: bone_idxs', mask :: masks' =>
      let frames := mask_frames cumulative_frames mask in
      let values := take (length frames) stream in
      fr' ← dict_extend fr bone_idx frames;
      vl' ← dict_extend vl bone_idx values;
      mask_loop cumulative_frames bone_idxs' masks'
                (drop (length frames) stream) fr' vl'
  | _, _ => Some (drop (length bone_idxs) masks, stream, fr, vl)
  end.

(** The six curve dictionaries of [add_anims]. *)
Record Curves (V : Type) : Type := {
  rotation_fcurves_frames : gmap Z (list Z);
  rotation_fcurves_values : gmap Z (list V);
  location_fcurves_frames : gmap Z (list Z);
  location_fcurves_values : gmap Z (list V);
  scale_fcurves_frames : gmap Z (list Z);
  scale_fcurves_values : gmap Z (list V)
}.
Arguments rotation_fcurves_frames {V}. Arguments rotation_fcurves_values {V}.
Arguments location_fcurves_frames {V}. Arguments location_fcurves_values {V}.
Arguments scale_fcurves_frames {V}. Arguments scale_fcurves_values {V}.

(** The body of the loop over the keyframe blocks. *)
Definition add_block {V} (ar : AnimReader V) (c : Curves V)
    (block : (Z * Z) * Substructure.t V) : option (Curves V) :=
  let '((cumulative_frames, nframes), substructure) := block in
  '(rf, rv) ← add_samples cumulative_frames
      (zip (keyframe_rotations_bone_idxs ar) (Substructure.unknown_data_1 substructure))
      (rotation_fcurves_frames c) (rotation_fcurves_values c);
  '(lf, lv) ← add_samples cumulative_frames
      (zip (keyframe_locations_bone_idxs ar) (Substructure.unknown_data_2 substructure))
      (location_fcurves_frames c) (location_fcurves_values c);
  '(sf, sv) ← add_samples cumulative_frames
      (zip (keyframe_scales_bone_idxs ar) (Substructure.unknown_data_3 substructure))
      (scale_fcurves_frames c) (scale_fcurves_values c);
  masks ←
    (if decide (nframes ≠ 0)
     then chunks (list_ascii_of_string (Substructure.unknown_data_5 substructure)) nframes
     else Some []);
  let rotations := Substructure.unknown_data_6 substructure in
  let locations := Substructure.unknown_data_7 substructure in
  let scales := Substructure.unknown_data_8 substructure in
  '(masks, _, rf, rv) ← mask_loop cumulative_frames
      (keyframe_rotations_bone_idxs ar) masks rotations rf rv;
  '(masks, _, lf, lv) ← mask_loop cumulative_frames
      (keyframe_locations_bone_idxs ar) masks locations lf lv;
  '(masks, _, sf, sv) ← mask_loop cumulative_frames
      (keyframe_scales_bone_idxs ar) masks scales sf sv;
  Some {| rotation_fcurves_frames := rf; rotation_fcurves_values := rv;
          location_fcurves_frames := lf; location_fcurves_values := lv;
          scale_fcurves_frames := sf; scale_fcurves_values := sv |}.

Fixpoint add_blocks {V} (ar : AnimReader V) (c : Curves V)
    (blocks : list ((Z * Z) * Substructure.t V)) : option (Curves V) :=
  match blocks with
  | [] => Some c
  | b :: blocks' => c' ← add_block ar c b; add_blocks ar c' blocks'
  end.

(** [for bone_idx in range(n): ad.add_..._fcurve(bone_idx, frames[bone_idx],
    values[bone_idx])] *)
Fixpoint add_fcurves {V} (bone_idxs : list Z)
    (fr : gmap Z (list Z)) (vl : gmap Z (list V)) (acc : gmap Z (FCurve V))
  : option (gmap Z (FCurve V)) :=
  match bone_idxs with
  | [] => Some acc
  | bone_idx :: rest =>
      f ← fr !! bone_idx;
      v ← vl !! bone_idx;
      add_fcurves rest fr vl (<[bone_idx := {| frames := f; values := v |}]> acc)
  end.

(** The body of the loop of [add_anims], for one animation reader. *)
Definition add_anim {V} (ar : AnimReader V) : option (Animation V) :=
  let n := num_bones ar in
  '(rf, rv) ← add_samples 0
      (zip (initial_pose_rotations_bone_idxs ar) (initial_pose_bone_rotations ar))
      (empty_fcurves n) (empty_fcurves n);
  '(lf, lv) ← add_samples 0
      (zip (initial_pose_locations_bone_idxs ar) (initial_pose_bone_locations ar))
      (empty_fcurves n) (empty_fcurves n);
  '(sf, sv) ← add_samples 0
      (zip (initial_pose_scales_bone_idxs ar) (initial_pose_bone_scales ar))
      (empty_fcurves n) (empty_fcurves n);
  c ← add_blocks ar
      {| rotation_fcurves_frames := rf; rotation_fcurves_values := rv;
         location_fcurves_frames := lf; location_fcurves_values := lv;
         scale_fcurves_frames := sf; scale_fcurves_values := sv |}
      (zip (keyframe_counts ar)
           (take (length (unknown_data_8 ar) - 1) (unknown_data_8 ar)));
  let bones := (λ i : nat, Z.of_nat i) <$> seq 0 n in
  r ← add_fcurves bones (rotation_fcurves_frames c) (rotation_fcurves_values c) ∅;
  l ← add_fcurves bones (location_fcurves_frames c) (location_fcurves_values c) ∅;
  s ← add_fcurves bones (scale_fcurves_frames c) (scale_fcurves_values c) ∅;
  Some {| rotations := r; locations := l; scales := s; playback_rate := 24 |}.

(** [add_anims]: one [Animation] per entry of [imported_animdata], stored
    under the entry's key. *)
Fixpoint add_anims {V} (animations : gmap string (Animation V))
    (imported_animdata : list (string * AnimReader V))
  : option (gmap string (Animation V)) :=
  match imported_animdata with
  | [] => Some animations
  | (key, ar) :: rest =>
      ad ← add_anim ar;
      add_anims (<[key := ad]> animations) rest
  end.

(** How many values the first [i] masks take from the stream. *)
Definition consumed (cumulative_frames : Z) (masks : list (list ascii)) (i : nat) : nat :=
  sum_list ((λ m, length (mask_frames cumulative_frames m)) <$> take i masks).

End Anims.

(** ** CollatedData/IntermediateFormat.py and FromReadWrites.py: meshes *)

Module VertexGroup.
Record t : Type := {
  bone_idx : Z;
  vertex_indices : list nat;
  weights : list Q
}.
End VertexGroup.

Module Vertex.
Record t : Type := {
  position : list Q;
  normal : option (list Q);
  UV : option (float * float);
  vertex_groups : option (list Z);
  vertex_group_weights : option (list Q);
  unknown_data : gmap string (list Q)
}.
End Vertex.

Module Polygon.
Record t : Type := { indices : Polys.tri }.
End Polygon.

Module MeshData.
Record t (U : Type) : Type := {
  vertices : list Vertex.t;
  vertex_groups : list VertexGroup.t;
  polygons : list Polygon.t;
  material_id : option Z;
  unknown_data : gmap string U
}.
Arguments vertices {U}. Arguments vertex_groups {U}. Arguments polygons {U}.
Arguments material_id {U}. Arguments unknown_data {U}.
End MeshData.

(** One entry of [mesh.vertex_data]: a dictionary from channel name to the
    channel's numbers.  The five channels that [add_meshes] reads by name are
    fields, absent ([None]) when the key is absent; [other] holds the
    remaining channels. *)
Module GeomVertex.
Record t : Type := {
  Position : option (list Q);
  Normal : option (list Q);
  UV : option (list float);
  WeightedBoneID : option (list Z);
  BoneWeight : option (list Q);
  other : gmap string (list Q)
}.
End GeomVertex.

(** The fields of a geometry-reader mesh that [add_meshes] reads. *)
Module GeomMesh.
Record t (U : Type) : Type := {
  weighted_bone_idxs : list Z;
  vertex_data : list GeomVertex.t;
  max_vertex_groups_per_vertex : Z;
  polygon_data_type : string;
  polygon_data : list Z;
  material_id : Z;
  unknown_0x31 : U;
  unknown_0x34 : U;
  unknown_0x36 : U;
  unknown_0x4C : U
}.
Arguments weighted_bone_idxs {U}. Arguments vertex_data {U}.
Arguments max_vertex_groups_per_vertex {U}. Arguments polygon_data_type {U}.
Arguments polygon_data {U}. Arguments material_id {U}.
Arguments unknown_0x31 {U}. Arguments unknown_0x34 {U}.
Arguments unknown_0x36 {U}. Arguments unknown_0x4C {U}.
End GeomMesh.

Module Meshes.

Definition uk_keys : list string :=
  ["UnknownVertexUsage1"; "UnknownVertexUsage2"; "UV2";
   "UnknownVertexUsage4"; "UnknownVertexUsage5"].

(** [vertex_groups[idx].vertex_indices.append(i)] and
    [vertex_groups[idx].weights.append(weight)] *)
Definition group_append (groups : list VertexGroup.t) (idx : Z) (i : nat) (weight : Q)
  : option (list VertexGroup.t) :=
  Py.update groups idx
    (λ g, {| VertexGroup.bone_idx := VertexGroup.bone_idx g;
             VertexGroup.vertex_indices := VertexGroup.vertex_indices g ++ [i];
             VertexGroup.weights := VertexGroup.weights g ++ [weight] |}).

(** The loop over [enumerate(zip(vgroups, weights))] of the branch for
    explicit per-vertex arrays; [j] is the position reached. *)
Fixpoint weighted_loop (i : nat) (j : nat) (pairs : list (Z * Q))
    (vgroups : list Z) (groups : list VertexGroup.t)
  : option (list Z * list VertexGroup.t) :=
  match pairs with
  | [] => Some (vgroups, groups)
  | (three_x_bone_id, weight) :: rest =>
      if Qeq_bool weight 0 then weighted_loop i (S j) rest vgroups groups
      else
        let vertex_group_idx := three_x_bone_id `div` 3 in
        let vgroups := <[j := vertex_group_idx]> vgroups in
        groups ← group_append groups vertex_group_idx i weight;
        weighted_loop i (S j) rest vgroups groups
  end.

(** [uv = (uv[0], 1 - uv[-1])] when the vertex has a UV channel.  The
    components are Python floats and the subtraction is theirs: the
    double-precision one, with its rounding. *)
Definition flip_uv (uv : option (list float)) : option (option (float * float)) :=
  match uv with
  | Some uv =>
      u ← Py.index uv 0;
      v ← Py.index uv (-1);
      Some (Some (u, 1 - v)%float)
  | None => Some None
  end.

(** The [if]/[elif] chain on the weight layout: the vertex-group list of
    the vertex and the vertex groups of the mesh after it. *)
Definition assign_groups (max_vertex_groups_per_vertex : Z) (i : nat)
    (vertex : GeomVertex.t) (groups : list VertexGroup.t)
  : option (option (list Z) * list VertexGroup.t) :=
  let pos := GeomVertex.Position vertex in
  let vgroups := GeomVertex.WeightedBoneID vertex in
  let weights := GeomVertex.BoneWeight vertex in
  match vgroups with
  | Some vgroups =>
      weights ← weights;
      r ← weighted_loop i 0 (zip vgroups weights) vgroups groups;
      Some (Some r.1, r.2)
  | None =>
      if decide (max_vertex_groups_per_vertex = 0) then
        let bone_idx := 0 in
        groups ← group_append groups bone_idx i 1;
        Some (Some [bone_idx], groups)
      else if decide (max_vertex_groups_per_vertex = 1) then
        pos ← pos;
        raw ← Py.index pos 3;
        let bone_idx := Py.int raw `div` 3 in
        groups ← group_append groups bone_idx i 1;
        Some (Some [bone_idx], groups)
      else Some (None, groups)
  end.

(** The body of the loop over [enumerate(mesh.vertex_data)]. *)
Definition add_vertex_step {U} (max_vertex_groups_per_vertex : Z)
    (current_IF_mesh : MeshData.t U) (iv : nat * GeomVertex.t)
  : option (MeshData.t U) :=
  let '(i, vertex) := iv in
  let norm := GeomVertex.Normal vertex in
  let weights := GeomVertex.BoneWeight vertex in
  uv ← flip_uv (GeomVertex.UV vertex);
  '(vgroups, groups) ← assign_groups max_vertex_groups_per_vertex i vertex
                         (MeshData.vertex_groups current_IF_mesh);
  pos ← GeomVertex.Position vertex;
  let new_vertex :=
    {| Vertex.position := take 3 pos;
       Vertex.normal := norm;
       Vertex.UV := uv;
       Vertex.vertex_groups := vgroups;
       Vertex.vertex_group_weights := weights;
       Vertex.unknown_data :=
         filter (λ kv, kv.1 ∈ uk_keys) (GeomVertex.other vertex) |} in
  Some {| MeshData.vertices := MeshData.vertices current_IF_mesh ++ [new_vertex];
          MeshData.vertex_groups := groups;
          MeshData.polygons := MeshData.polygons current_IF_mesh;
          MeshData.material_id := MeshData.material_id current_IF_mesh;
          MeshData.unknown_data := MeshData.unknown_data current_IF_mesh |}.

Fixpoint add_vertices {U} (max_vertex_groups_per_vertex : Z)
    (current_IF_mesh : MeshData.t U) (ivs : list (nat * GeomVertex.t))
  : option (MeshData.t U) :=
  match ivs with
  | [] => Some current_IF_mesh
  | iv :: ivs' =>
      m ← add_vertex_step max_vertex_groups_per_vertex current_IF_mesh iv;
      add_vertices max_vertex_groups_per_vertex m ivs'
  end.

(** The body of the loop of [add_meshes] over [imported_geomdata.meshes]. *)
Definition add_mesh {U} (mesh : GeomMesh.t U) : option (MeshData.t U) :=
  let current_IF_mesh :=
    {| MeshData.vertices := [];
       MeshData.vertex_groups :=
         (λ bone_id, {| VertexGroup.bone_idx := bone_id;
                        VertexGroup.vertex_indices := [];
                        VertexGroup.weights := [] |})
           <$> GeomMesh.weighted_bone_idxs mesh;
       MeshData.polygons := [];
       MeshData.material_id := None;
       MeshData.unknown_data := ∅ |} in
  m ← add_vertices (GeomMesh.max_vertex_groups_per_vertex mesh) current_IF_mesh
        (Py.enumerate (GeomMesh.vertex_data mesh));
  converter ← Polys.triangle_converters !! GeomMesh.polygon_data_type mesh;
  let triangles := converter (GeomMesh.polygon_data mesh) in
  Some {| MeshData.vertices := MeshData.vertices m;
          MeshData.vertex_groups := MeshData.vertex_groups m;
          MeshData.polygons :=
            MeshData.polygons m ++ ((λ tri, {| Polygon.indices := tri |}) <$> triangles);
          MeshData.material_id := Some (GeomMesh.material_id mesh);
          MeshData.unknown_data :=
            <["unknown_0x4C" := GeomMesh.unknown_0x4C mesh]>
            (<["unknown_0x36" := GeomMesh.unknown_0x36 mesh]>
            (<["unknown_0x34" := GeomMesh.unknown_0x34 mesh]>
            (<["unknown_0x31" := GeomMesh.unknown_0x31 mesh]>
               (MeshData.unknown_data m)))) |}.

(** [add_meshes], on the meshes of the geometry reader.  (The camera and
    footer blocks that it copies into [model_data.unknown_data] afterwards are
    opaque and left out.) *)
Definition add_meshes {U} (meshes : list (MeshData.t U))
    (imported_meshes : list (GeomMesh.t U)) : option (list (MeshData.t U)) :=
  new ← mapM add_mesh imported_meshes;
  Some (meshes ++ new).

(** Two small raw vertices and a mesh, for the examples. *)
Definition vertex_with_uv : GeomVertex.t :=
  {| GeomVertex.Position := Some [0; 0; 0; 7]%Q;
     GeomVertex.Normal := None;
     GeomVertex.UV := Some [0.25; 0.25]%float;
     GeomVertex.WeightedBoneID := None;
     GeomVertex.BoneWeight := None;
     GeomVertex.other := ∅ |}.

Definition vertex_without_uv : GeomVertex.t :=
  {| GeomVertex.Position := Some [1; 0; 0; 3]%Q;
     GeomVertex.Normal := None;
     GeomVertex.UV := None;
     GeomVertex.WeightedBoneID := None;
     GeomVertex.BoneWeight := None;
     GeomVertex.other := ∅ |}.

Definition example_mesh (mode : Z) : GeomMesh.t unit :=
  {| GeomMesh.weighted_bone_idxs := [5; 9; 12];
     GeomMesh.vertex_data := [vertex_with_uv; vertex_without_uv];
     GeomMesh.max_vertex_groups_per_vertex := mode;
     GeomMesh.polygon_data_type := "Triangles";
     GeomMesh.polygon_data := [];
     GeomMesh.material_id := 0;
     GeomMesh.unknown_0x31 := ();
     GeomMesh.unknown_0x34 := ();
     GeomMesh.unknown_0x36 := ();
     GeomMesh.unknown_0x4C := () |}.

Definition example_groups : list VertexGroup.t :=
  (λ bone_id, {| VertexGroup.bone_idx := bone_id;
                 VertexGroup.vertex_indices := [];
                 VertexGroup.weights := [] |}) <$> [5; 9; 12].

End Meshes.

(** ** IntermediateFormat.py and FromReadWrites.py: the skeleton *)

Module Skeleton.
Section AddSkeleton.
(** [F] is the type of the numbers of a bone transform record, [fneg] their
    negation, and [np_dot] numpy's product of a 3x3 array with a vector of 3,
    with numpy's rounding.  [U] is the type of the fields of the skeleton
    reader that [add_skeleton] copies as they are. *)
Context {F U : Type} (fneg : F → F).

Definition vec3 : Type := F * F * F.

(** A 3x3 array, by rows. *)
Definition mat3 : Type := vec3 * vec3 * vec3.

Context (np_dot : mat3 → vec3 → vec3).

(** One entry of [imported_geomdata.bone_data]. *)
Record BoneData : Type := {
  xpos : F; ypos : F; zpos : F;
  x_axis : vec3; y_axis : vec3; z_axis : vec3
}.

(** The fields of the skeleton reader that [add_skeleton] reads. *)
Record SkelReader : Type := {
  parent_bones : list (nat * Z);
  unknown_0x0C : U;
  unknown_parent_child_data : U;
  bone_data : U;
  unknown_data_1 : U;
  unknown_data_2 : U;
  unknown_data_3 : U;
  unknown_data_4 : U
}.

(** What the lists of a skeleton hold, and what its attributes are: a
    list, or the dictionary [unknown_data], whose entries are lists or values
    of the skeleton reader. *)
Inductive item : Type :=
| Str (s : string)
| Relation (r : nat * Z)
| Vector (v : vec3)
| Matrix (m : mat3).

Inductive entry : Type :=
| Items (l : list item)
| Opaque (u : U).

Inductive value : Type :=
| PyList (l : list item)
| PyDict (d : gmap string entry).

(** An instance of [class Skeleton]: its attributes, by name.  Reading an
    attribute that the instance does not have raises [AttributeError]; the
    class has no attributes of its own and no [__getattr__]. *)
Definition t : Type := gmap string value.

(** [Skeleton()]: the attributes that [__init__] creates. *)
Definition new : t :=
  {[ "bone_names" := PyList [];
     "inverse_bind_pose_matrices" := PyList [];
     "rest_pose" := PyList [];
     "rest_pose_delta" := PyList [];
     "bone_relations" := PyList [];
     "unknown_data" := PyDict ∅ ]}.

(** [skeleton.name = v] *)
Definition setattr (skeleton : t) (name : string) (v : value) : t :=
  <[name := v]> skeleton.

(** [skeleton.name.append(x)]: the attribute must be there, and be a list. *)
Definition attr_append (skeleton : t) (name : string) (x : item) : option t :=
  v ← skeleton !! name;
  match v with
  | PyList l => Some (<[name := PyList (l ++ [x])]> skeleton)
  | PyDict _ => None
  end.

(** [skeleton.unknown_data[key] = e] *)
Definition unknown_set (skeleton : t) (key : string) (e : entry) : option t :=
  v ← skeleton !! "unknown_data";
  match v with
  | PyDict d => Some (<["unknown_data" := PyDict (<[key := e]> d)]> skeleton)
  | PyList _ => None
  end.

(** [skeleton.unknown_data[key].append(x)] *)
Definition unknown_append (skeleton : t) (key : string) (x : item) : option t :=
  v ← skeleton !! "unknown_data";
  match v with
  | PyDict d =>
      e ← d !! key;
      match e with
      | Items l =>
          Some (<["unknown_data" := PyDict (<[key := Items (l ++ [x])]> d)]> skeleton)
      | Opaque _ => None
      end
  | PyList _ => None
  end.

(** [np.array([r0, r1, r2])] *)
Definition np_array (r0 r1 r2 : vec3) : mat3 := (r0, r1, r2).

(** [a.T] *)
Definition np_T (a : mat3) : mat3 :=
  let '((a00, a01, a02), (a10, a11, a12), (a20, a21, a22)) := a in
  ((a00, a10, a20), (a01, a11, a21), (a02, a12, a22)).

(** The body of the loop over [imported_geomdata.bone_data]. *)
Definition add_bone (skeleton : t) (bone_data : BoneData) : option t :=
  let position := (fneg (xpos bone_data), fneg (ypos bone_data), fneg (zpos bone_data)) in
  let transform :=
    np_array (x_axis bone_data) (y_axis bone_data) (z_axis bone_data) in
  let position := np_dot (np_T transform) position in
  skeleton ← attr_append skeleton "bone_positions" (Vector position);
  skeleton ← attr_append skeleton "bone_xaxes" (Vector (x_axis bone_data));
  skeleton ← attr_append skeleton "bone_yaxes" (Vector (y_axis bone_data));
  skeleton ← attr_append skeleton "bone_zaxes" (Vector (z_axis bone_data));
  unknown_append skeleton "transforms" (Matrix transform).

Fixpoint add_bones (skeleton : t) (bones : list BoneData) : option t :=
  match bones with
  | [] => Some skeleton
  | b :: bones' => skeleton ← add_bone skeleton b; add_bones skeleton bones'
  end.

(** [add_skeleton], on [model_data.skeleton], the bone names of the name
    reader, the skeleton reader and the bone transform records of the
    geometry reader. *)
Definition add_skeleton (skeleton : t) (imported_bone_names : list string)
    (imported_skeldata : SkelReader) (imported_bone_data : list BoneData)
  : option t :=
  let skeleton := setattr skeleton "bone_names" (PyList (Str <$> imported_bone_names)) in
  let skeleton :=
    setattr skeleton "bone_relations"
            (PyList (Relation <$> parent_bones imported_skeldata)) in
  skeleton ← unknown_set skeleton "transforms" (Items []);
  skeleton ← add_bones skeleton imported_bone_data;
  skeleton ← unknown_set skeleton "unknown_0x0C"
               (Opaque (unknown_0x0C imported_skeldata));
  skeleton ← unknown_set skeleton "unknown_parent_child_data"
               (Opaque (unknown_parent_child_data imported_skeldata));
  skeleton ← unknown_set skeleton "bone_data" (Opaque (bone_data imported_skeldata));
  skeleton ← unknown_set skeleton "unknown_data_1"
               (Opaque (unknown_data_1 imported_skeldata));
  skeleton ← unknown_set skeleton "unknown_data_2"
               (Opaque (unknown_data_2 imported_skeldata));
  skeleton ← unknown_set skeleton "unknown_data_3"
               (Opaque (unknown_data_3 imported_skeldata));
  unknown_set skeleton "unknown_data_4" (Opaque (unknown_data_4 imported_skeldata)).

(** A skeleton on which the four lists that the loop appends to have been
    created, as [__init__] creates the other lists. *)
Definition with_bone_lists (skeleton : t) : t :=
  setattr (setattr (setattr (setattr skeleton
    "bone_positions" (PyList []))
    "bone_xaxes" (PyList []))
    "bone_yaxes" (PyList []))
    "bone_zaxes" (PyList []).

(** The position the specification gives a bone: the product of the
    transpose of the matrix whose rows are the three axis vectors (its rows
    are the first, the second and the third components of the axes) with the
    negated raw position. *)
Definition transposed_axes_position (bone_data : BoneData) : vec3 :=
  let '(x0, x1, x2) := x_axis bone_data in
  let '(y0, y1, y2) := y_axis bone_data in
  let '(z0, z1, z2) := z_axis bone_data in
  np_dot ((x0, y0, z0), (x1, y1, z1), (x2, y2, z2))
         (fneg (xpos bone_data), fneg (ypos bone_data), fneg (zpos bone_data)).

(** The state of a skeleton that has the four lists, inside the loop:
    [ps] is what [bone_positions] holds. *)
Definition bone_lists (skeleton : t) (ps : list item) : Prop :=
  skeleton !! "bone_positions" = Some (PyList ps)
  ∧ (∃ l, skeleton !! "bone_xaxes" = Some (PyList l))
  ∧ (∃ l, skeleton !! "bone_yaxes" = Some (PyList l))
  ∧ (∃ l, skeleton !! "bone_zaxes" = Some (PyList l))
  ∧ ∃ d l, skeleton !! "unknown_data" = Some (PyDict d)
           ∧ d !! "transforms" = Some (Items l).

End AddSkeleton.

End Skeleton.

(** ** FromReadWrites.py: materials *)

Module MaterialComponent.
Record t : Type := { component_type : Z; data : list Q }.
End MaterialComponent.

Module UnknownComponent.
Record t : Type := { maybe_component_type : Z; data : list Q }.
End UnknownComponent.

(** The fields of a geometry-reader material that [add_materials] reads. *)
Module GeomMaterial.
Record t : Type := {
  unknown_0x00 : Z;
  unknown_0x02 : Z;
  shader_hex : string;
  material_components : list MaterialComponent.t;
  unknown_data : list UnknownComponent.t
}.
End GeomMaterial.

Module MaterialData.
(** A value kept in [unknown_data]: a header scalar or the data of a
    component. *)
Inductive unknown : Type :=
| Scalar (z : Z)
| Data (l : list Q).

Record t : Type := {
  name : option string;
  texture_id : option Q;
  toon_texture_id : option Q;
  rgba : option (list Q);
  specular_coeff : option Q;
  shader_hex : option string;
  unknown_data : gmap string unknown
}.

(** [MaterialData()] *)
Definition new : t :=
  {| name := None; texture_id := None; toon_texture_id := None; rgba := None;
     specular_coeff := None; shader_hex := None; unknown_data := ∅ |}.
End MaterialData.

Module Materials.
Import MaterialData.

(** ["{:03d}".format(i)] for an index [i]. *)
Definition format_03d (i : nat) : string :=
  let digits := pretty i in
  MaterialReader.str_repeat "0" (3 - String.length digits) +:+ digits.

(** The body of the loop over [material.material_components]. *)
Definition add_component (md : MaterialData.t) (c : MaterialComponent.t)
  : option MaterialData.t :=
  let ty := MaterialComponent.component_type c in
  let data := MaterialComponent.data c in
  md ←
    (if decide (ty = 50) then
       d ← Py.index data 0;
       Some {| name := name md; texture_id := Some d;
               toon_texture_id := toon_texture_id md; rgba := rgba md;
               specular_coeff := specular_coeff md; shader_hex := shader_hex md;
               unknown_data := unknown_data md |}
     else if decide (ty = 51) then
       Some {| name := name md; texture_id := texture_id md;
               toon_texture_id := toon_texture_id md; rgba := Some data;
               specular_coeff := specular_coeff md; shader_hex := shader_hex md;
               unknown_data := unknown_data md |}
     else if decide (ty = 56) then
       d ← Py.index data 0;
       Some {| name := name md; texture_id := texture_id md;
               toon_texture_id := toon_texture_id md; rgba := rgba md;
               specular_coeff := Some d; shader_hex := shader_hex md;
               unknown_data := unknown_data md |}
     else if decide (ty = 72) then
       d ← Py.index data 0;
       Some {| name := name md; texture_id := texture_id md;
               toon_texture_id := Some d; rgba := rgba md;
               specular_coeff := specular_coeff md; shader_hex := shader_hex md;
               unknown_data := unknown_data md |}
     else Some md);
  Some {| name := name md; texture_id := texture_id md;
          toon_texture_id := toon_texture_id md; rgba := rgba md;
          specular_coeff := specular_coeff md; shader_hex := shader_hex md;
          unknown_data :=
            <["type_1_component_" +:+ pretty ty := Data data]> (unknown_data md) |}.

Fixpoint add_components (md : MaterialData.t) (cs : list MaterialComponent.t)
  : option MaterialData.t :=
  match cs with
  | [] => Some md
  | c :: cs' => md' ← add_component md c; add_components md' cs'
  end.

(** The body of the loop over [material.unknown_data]. *)
Definition add_unknown (md : MaterialData.t) (c : UnknownComponent.t) : MaterialData.t :=
  {| name := name md; texture_id := texture_id md;
     toon_texture_id := toon_texture_id md; rgba := rgba md;
     specular_coeff := specular_coeff md; shader_hex := shader_hex md;
     unknown_data :=
       <["type_2_component_" +:+ pretty (UnknownComponent.maybe_component_type c)
         := Data (UnknownComponent.data c)]> (unknown_data md) |}.

(** The body of the loop over [enumerate(imported_geomdata.material_data)]. *)
Definition add_material (filename : string) (i : nat) (material : GeomMaterial.t)
  : option MaterialData.t :=
  let md :=
    {| name := Some (filename +:+ "_mat_" +:+ format_03d i);
       texture_id := None; toon_texture_id := None; rgba := None;
       specular_coeff := None;
       shader_hex := Some (GeomMaterial.shader_hex material);
       unknown_data :=
         <["unknown_0x02" := Scalar (GeomMaterial.unknown_0x02 material)]>
         (<["unknown_0x00" := Scalar (GeomMaterial.unknown_0x00 material)]> ∅) |} in
  md ← add_components md (GeomMaterial.material_components material);
  Some (fold_left add_unknown (GeomMaterial.unknown_data material) md).

(** The part of the model that [add_materials] writes: the list of
    materials and the entry ['material names'] of [unknown_data]. *)
Record Model : Type := {
  materials : list MaterialData.t;
  material_names : option (list string)
}.

Definition add_materials (model_data : Model) (imported_material_names : list string)
    (material_data : list GeomMaterial.t) (filename : string) : option Model :=
  new ← mapM (λ im, add_material filename im.1 im.2) (Py.enumerate material_data);
  Some {| materials := materials model_data ++ new;
          material_names := Some imported_material_names |}.

(** The materials whose well-known components (texture id 50, specular
    56, toon texture 72) carry at least one datum, as the reader delivers
    them. *)
Definition component_ok (c : MaterialComponent.t) : Prop :=
  MaterialComponent.component_type c ∈ [50; 56; 72] → MaterialComponent.data c ≠ [].

Definition material_ok (m : GeomMaterial.t) : Prop :=
  Forall component_ok (GeomMaterial.material_components m).

(** Two materials and a name table with a single name, for the examples. *)
Definition example_materials : list GeomMaterial.t :=
  [ {| GeomMaterial.unknown_0x00 := 1; GeomMaterial.unknown_0x02 := 2;
       GeomMaterial.shader_hex := "03020100_07060504_0b0a0908_0f0e0d0c";
       GeomMaterial.material_components :=
         [ {| MaterialComponent.component_type := 50;
              MaterialComponent.data := [3%Q] |};
           {| MaterialComponent.component_type := 51;
              MaterialComponent.data := [1; 1; 1; 1]%Q |} ];
       GeomMaterial.unknown_data :=
         [ {| UnknownComponent.maybe_component_type := 160;
              UnknownComponent.data := [516; 0]%Q |} ] |};
    {| GeomMaterial.unknown_0x00 := 1; GeomMaterial.unknown_0x02 := 2;
       GeomMaterial.shader_hex := "03020100_07060504_0b0a0908_0f0e0d0c";
       GeomMaterial.material_components := [];
       GeomMaterial.unknown_data := [] |} ].

End Materials.

(** ** BlenderIO/Import.py: the armature *)

Module BlenderImport.
Section ImportSkeleton.
(** [M] is a 4x4 array of [inverse_bind_pose_matrices]; [negated bm] is
  [bm] after [pos = bm[:3, 3]; pos *= -1], which writes through the view
  into the array of the model.  The head and tail that Blender's
  [bone.transform] and the additions that follow give the bone are a
  function of that array, and a bone is kept with the array. *)
Context {M : Type} (negated : M → M).

Record EditBone : Type := {
name : string;
matrix : M;
parent : option string
}.

Record Armature : Type := {
list_of_bones : gmap string EditBone;
edit_bones : list EditBone;
bone_matrices : list M
}.

(** The body of the loop over [enumerate(model_data.skeleton.bone_relations)].
  The child id is an unsigned number of the skeleton file, the parent id
  a signed one. *)
Definition import_bone (bone_names : list string) (arm : Armature)
  (relation : nat * Z) : option Armature :=
let '(child, parent) := relation in
child_name ← bone_names !! child;
if decide (is_Some (list_of_bones arm !! child_name)) then Some arm
else
  bm ← bone_matrices arm !! child;
  let bm := negated bm in
  let bone := {| name := child_name; matrix := bm; parent := None |} in
  let bones := <[child_name := bone]> (list_of_bones arm) in
  parent_bone ←
    (if decide (parent ≠ -1) then
       parent_name ← Py.index bone_names parent;
       p ← bones !! parent_name;
       Some (Some (name p))
     else Some None);
  let bone := {| name := child_name; matrix := bm; parent := parent_bone |} in
  Some {| list_of_bones := <[child_name := bone]> (list_of_bones arm);
          edit_bones := edit_bones arm ++ [bone];
          bone_matrices := <[child := bm]> (bone_matrices arm) |}.

Fixpoint import_bones (bone_names : list string) (arm : Armature)
  (relations : list (nat * Z)) : option Armature :=
match relations with
| [] => Some arm
| r :: rs => arm' ← import_bone bone_names arm r; import_bones bone_names arm' rs
end.

(** [import_skeleton], to the end of its loop over the relations: the
    armature with its edit bones.  (After the loop the function copies five
    entries of [model_data.skeleton.unknown_data] to the armature object;
    the object's custom properties are not part of [Armature].) *)
Definition import_skeleton (bone_names : list string)
  (bone_relations : list (nat * Z)) (inverse_bind_pose_matrices : list M)
: option Armature :=
import_bones bone_names
  {| list_of_bones := ∅; edit_bones := [];
     bone_matrices := inverse_bind_pose_matrices |}
  bone_relations.

(** The relations whose child id has not occurred before ([seen] holds
  the child ids met so far). *)
Fixpoint first_occurrences_from (seen : list nat) (relations : list (nat * Z))
: list (nat * Z) :=
match relations with
| [] => []
| (child, parent) :: rs =>
    if decide (child ∈ seen) then first_occurrences_from seen rs
    else (child, parent) :: first_occurrences_from (child :: seen) rs
end.

Definition first_occurrences (relations : list (nat * Z)) : list (nat * Z) :=
first_occurrences_from [] relations.

(** A bone made from a relation: it has the name of the child id, and the
  name of the parent id as its parent, none for the sentinel -1. *)
Definition bone_of (bone_names : list string) (bone : EditBone)
  (relation : nat * Z) : Prop :=
bone_names !! relation.1 = Some (name bone)
∧ parent bone = (if decide (relation.2 ≠ -1)
                 then Py.index bone_names relation.2 else None).

(** Every child id met so far has a name, and a bone under that name. *)
Definition seen_built (bone_names : list string) (arm : Armature)
  (seen : list nat) : Prop :=
∀ c, c ∈ seen → ∃ n, bone_names !! c = Some n ∧ is_Some (list_of_bones arm !! n).

(** Every bone is stored under its own name, and belongs to a child id
  met so far. *)
Definition built_seen (bone_names : list string) (arm : Armature)
  (seen : list nat) : Prop :=
∀ k b, list_of_bones arm !! k = Some b →
       name b = k ∧ ∃ c, c ∈ seen ∧ bone_names !! c = Some k.

End ImportSkeleton.
End BlenderImport.

(** ** Sizes and values of packed data *)

Module StructSize.
Import Struct.

(** The number of bytes [pack] writes for a list of codes, alignment
    included: [struct.calcsize]. *)
Fixpoint calcsize_codes (cs : list code) (off : nat) : nat :=
  match cs with
  | [] => 0
  | c :: cs' =>
      let pad := padding off (size_of c) in
      pad + size_of c + calcsize_codes cs' (off + pad + size_of c)
  end.

(** The value [unpack] reads under code [c] where [pack] wrote [v]: under
    code [f] the single-precision number nearest to [v], as a double; under
    an integer code [v] itself. *)
Definition repacked (c : code) (v : num) : num :=
  match c with
  | cf => match float_value v with
          | Some d => Float (f32_to_f64 (f64_to_f32 d))
          | None => v
          end
  | _ => v
  end.

End StructSize.

(** ** A Python [dict] with its insertion order *)

(** The items of a [dict] in iteration order: assigning to a key that is
    present replaces the value where the key stands, a new key goes to the
    end. *)
Module PyDict.

Definition setitem `{EqDecision K} {V} (d : list (K * V)) (k : K) (v : V)
  : list (K * V) :=
  if decide (k ∈ d.*1)
  then (λ kv : K * V, if decide (kv.1 = k) then (k, v) else kv) <$> d
  else d ++ [(k, v)].

(** [{elem[0]: elem[1] for elem in elems}] *)
Definition from_pairs `{EqDecision K} {V} (elems : list (K * V)) : list (K * V) :=
  foldl (λ d kv, setitem d kv.1 kv.2) [] elems.

End PyDict.

(** ** [MaterialReader]: the record sections of a material *)

Module MaterialSections.
Import Struct MaterialReader.

(** The payload bytes past the floats of a record with float count [nf]
    are zero. *)
Definition payload_tail_clean (nf : Z) (record : list byte) : Prop :=
  nf = 0 ∨ slice (Z.to_nat (4 * nf)) 16 record
           = replicate (16 - Z.to_nat (4 * nf)) x00.

(** The [k]-th 4-byte word of a record, as a little-endian number. *)
Definition word (k : nat) (record : list byte) : Z :=
  le_int (slice (4 * k) (4 * k + 4) record).

(** The float of an unknown-component record (type 160, format [If]) is
    no signalling NaN. *)
Definition umc_float_quiet (t : Z) (record : list byte) : Prop :=
  t = 160 → ¬ signalling32 (word 1 record).

(** None of the [nf] floats of a shader-uniform record is a signalling
    NaN. *)
Definition uniform_floats_quiet (nf : Z) (record : list byte) : Prop :=
  ∀ k : nat, Z.of_nat k < nf → ¬ signalling32 (word k record).

(** The values the decoder reads from the record that the encoder writes
    for [vals]. *)
Definition umc_repacked (t : Z) (vals : list num) : list num :=
  match possibly_umc_types !! t ≫= λ fmt, parse_format fmt None with
  | Some cs => zip_with StructSize.repacked cs vals
  | None => vals
  end.

Definition uniform_repacked (su : ShaderUniform) : ShaderUniform :=
  if decide (num_floats su = 0) then su
  else {| num_floats := num_floats su;
          data := StructSize.repacked cf <$> data su |}.

(** [data[16]], the type of a 24-byte record. *)
Definition record_type (record : list byte) : option Z :=
  Z_of_byte <$> Py.index record 16.

(** [interpret_material], over the 16 raw bytes of [shader_hex] and the
    24-byte chunks that [chunk_list] cuts [shader_uniforms] into. *)
Definition interpret_material (shader_hex : list byte) (chunks : list (list byte))
  : option (string * list (string * ShaderUniform)) :=
  shader_uniforms ← mapM shader_uniform_factory chunks;
  Some (interpret_shader_hex shader_hex, PyDict.from_pairs shader_uniforms).

(** [reinterpret_material]: the bytes of [shader_hex] and of
    [shader_uniforms]. *)
Definition reinterpret_material
    (shader_hex : string) (shader_uniforms : list (string * ShaderUniform))
  : option (list byte * list byte) :=
  shader_hex ← reinterpret_shader_hex shader_hex;
  records ← mapM (λ kv, shader_uniform_data_factory kv.1 kv.2) shader_uniforms;
  Some (shader_hex, mjoin records).

(** [interpret_unknown_material_components], over the chunks of
    [unknown_data]. *)
Definition interpret_unknown_material_components (chunks : list (list byte))
  : option (list (Z * list num)) :=
  unknown_data ← mapM umc_factory chunks;
  Some (PyDict.from_pairs unknown_data).

Definition reinterpret_unknown_material_components
    (unknown_data : list (Z * list num)) : option (list byte) :=
  mjoin <$> mapM (λ kv, umc_data_factory kv.1 kv.2) unknown_data.

(** Two unknown-component records, of types 160 and 163. *)
Definition example_umc_chunks : list (list byte) :=
  [ [x07; x00; x00; x00;  x00; x00; x80; x3f;  x00; x00; x00; x00;
     x00; x00; x00; x00;  xa0; x64;  x00; xff;  x00; x00; x00; x00];
    [x0b; x80; x00; x00;  x00; x00; x00; x00;  x00; x00; x00; x00;
     x00; x00; x00; x00;  xa3; x64;  x00; xff;  x00; x00; x00; x00] ].

(** A record of type 160 whose float 7f800001 is a signalling NaN, and the
    same record with the float 7fc00001, the NaN made quiet. *)
Definition signalling_umc_record : list byte :=
  [x07; x00; x00; x00;  x01; x00; x80; x7f;  x00; x00; x00; x00;
   x00; x00; x00; x00;  xa0; x64;  x00; xff;  x00; x00; x00; x00].

Definition quieted_umc_record : list byte :=
  [x07; x00; x00; x00;  x01; x00; xc0; x7f;  x00; x00; x00; x00;
   x00; x00; x00; x00;  xa0; x64;  x00; xff;  x00; x00; x00; x00].

(** A "Bumpiness" record (type 54, float count 1) whose float is the same
    signalling NaN, and its quiet form. *)
Definition signalling_uniform_record : list byte :=
  [x01; x00; x80; x7f;  x00; x00; x00; x00;  x00; x00; x00; x00;
   x00; x00; x00; x00;  x36; x01;  x00; xff;  x00; x00; x00; x00].

Definition quieted_uniform_record : list byte :=
  [x01; x00; xc0; x7f;  x00; x00; x00; x00;  x00; x00; x00; x00;
   x00; x00; x00; x00;  x36; x01;  x00; xff;  x00; x00; x00; x00].

(** Two records of type 161 with different values. *)
Definition example_umc_twins : list (list byte) :=
  [ [x01; x00; x00; x00;  x02; x00; x00; x00;  x00; x00; x00; x00;
     x00; x00; x00; x00;  xa1; x64;  x00; xff;  x00; x00; x00; x00];
    [x03; x00; x00; x00;  x04; x00; x00; x00;  x00; x00; x00; x00;
     x00; x00; x00; x00;  xa1; x64;  x00; xff;  x00; x00; x00; x00] ].

(** What is left of them in the dictionary. *)
Definition example_umc_twins_data : list (Z * list num) := [(161, [Int 3; Int 4])].

(** A "DiffuseTextureID" record (type 50, float count 0) with texture
    index 3. *)
Definition diffuse_texture_record : list byte :=
  [x03; x00; x00; x00;  x00; x00; x00; x00;  x00; x00; x00; x00;
   x00; x00; x00; x00;  x32; x00;  x00; xff;  x00; x00; x00; x00].

Definition example_shader_hex : list byte :=
  [x00; x01; x02; x03; x04; x05; x06; x07;
   x08; x09; x0a; x0b; x0c; x0d; x0e; x0f].

End MaterialSections.

(** ** Invariants of the curve dictionaries of [add_anims] *)

Module AnimCurves.
Import Anims.

(** What the loops of [add_anims] keep true of a frames dictionary and
    its values dictionary: both are keyed by [range(n)], and no curve has
    more values than frames. *)
Definition curves_inv {V} (n : nat) (fr : gmap Z (list Z)) (vl : gmap Z (list V))
  : Prop :=
  (∀ b, is_Some (fr !! b) ↔ 0 ≤ b < Z.of_nat n)
  ∧ (∀ b, is_Some (vl !! b) ↔ 0 ≤ b < Z.of_nat n)
  ∧ ∀ b f v, fr !! b = Some f → vl !! b = Some v → (length v ≤ length f)%nat.

Definition in_range (n : nat) (bone_idxs : list Z) : Prop :=
  Forall (λ b, 0 ≤ b < Z.of_nat n) bone_idxs.

(** The same of a dictionary of [FCurve]s. *)
Definition fcurves_inv {V} (n : nat) (d : gmap Z (FCurve V)) : Prop :=
  (∀ b, is_Some (d !! b) ↔ 0 ≤ b < Z.of_nat n)
  ∧ ∀ b c, d !! b = Some c → (length (values c) ≤ length (frames c))%nat.

(** A dictionary of lists after some [append]s and [extend]s: every list
    that was there is still there, with more at its end. *)
Definition extends {A} (d d' : gmap Z (list A)) : Prop :=
  ∀ b l, d !! b = Some l → ∃ l', d' !! b = Some (l ++ l').

Definition all_inv {V} (n : nat) (c : Curves V) : Prop :=
  curves_inv n (rotation_fcurves_frames c) (rotation_fcurves_values c)
  ∧ curves_inv n (location_fcurves_frames c) (location_fcurves_values c)
  ∧ curves_inv n (scale_fcurves_frames c) (scale_fcurves_values c).

Definition all_extends {V} (c c' : Curves V) : Prop :=
  extends (rotation_fcurves_frames c) (rotation_fcurves_frames c')
  ∧ extends (rotation_fcurves_values c) (rotation_fcurves_values c')
  ∧ extends (location_fcurves_frames c) (location_fcurves_frames c')
  ∧ extends (location_fcurves_values c) (location_fcurves_values c')
  ∧ extends (scale_fcurves_frames c) (scale_fcurves_frames c')
  ∧ extends (scale_fcurves_values c) (scale_fcurves_values c').

Definition keyframes_in_range {V} (ar : AnimReader V) : Prop :=
  in_range (num_bones ar) (keyframe_rotations_bone_idxs ar)
  ∧ in_range (num_bones ar) (keyframe_locations_bone_idxs ar)
  ∧ in_range (num_bones ar) (keyframe_scales_bone_idxs ar).

(** The curve of a bone starts with frame 0 and the value [v]. *)
Definition starts_with {V} (d : gmap Z (FCurve V)) (b : Z) (v : V) : Prop :=
  ∃ c fs vs, d !! b = Some c ∧ frames c = 0 :: fs ∧ values c = v :: vs.

(** A reader with two bones, one keyframe block of four frames and one
    animated rotation channel. *)
Definition example_block : Substructure.t Z :=
  {| Substructure.unknown_data_1 := [110];
     Substructure.unknown_data_2 := [];
     Substructure.unknown_data_3 := [];
     Substructure.unknown_data_5 := "1010";
     Substructure.unknown_data_6 := [120; 121];
     Substructure.unknown_data_7 := [];
     Substructure.unknown_data_8 := [] |}.

Definition example_anim : AnimReader Z :=
  {| num_bones := 2;
     initial_pose_rotations_bone_idxs := [0; 1];
     initial_pose_bone_rotations := [100; 101];
     initial_pose_locations_bone_idxs := [1];
     initial_pose_bone_locations := [200];
     initial_pose_scales_bone_idxs := [];
     initial_pose_bone_scales := [];
     keyframe_counts := [(0, 4)];
     unknown_data_8 := [example_block; example_block];
     keyframe_rotations_bone_idxs := [0];
     keyframe_locations_bone_idxs := [];
     keyframe_scales_bone_idxs := [] |}.

End AnimCurves.

(** ** [IntermediateFormat.Animation.num_frames] *)

Module IntermediateFormat.
Import Anims.

(** [[subitem for item in [e.frames for e in d.values()] for subitem in
    item]]: the frames of all curves of a dictionary.  (The order of the
    values does not matter to the [max] below.) *)
Definition all_frames {V} (d : gmap Z (FCurve V)) : list Z :=
  mjoin (frames <$> (map_to_list d).*2).

(** [max(res)] for a non-empty sequence of integers. *)
Definition py_max (res : list Z) : option Z :=
  match res with
  | [] => None
  | x :: rest => Some (foldl Z.max x rest)
  end.

(** The property [Animation.num_frames]. *)
Definition num_frames {V} (a : Animation V) : option Z :=
  let rot_frames := all_frames (rotations a) in
  let loc_frames := all_frames (locations a) in
  let scl_frames := all_frames (scales a) in
  let res := rot_frames ++ loc_frames ++ scl_frames in
  if decide (length res ≠ 0%nat) then py_max res else Some 0.

(** A frame of some curve of the animation. *)
Definition is_frame {V} (a : Animation V) (f : Z) : Prop :=
  ∃ b c, (rotations a !! b = Some c ∨ locations a !! b = Some c
          ∨ scales a !! b = Some c) ∧ f ∈ frames c.

End IntermediateFormat.

(** ** [add_anims]: what a keyframe block gives a bone *)

Module AnimBlocks.
Import Anims.

(** The three channels of an animation.  Each has its own bone-index
    lists, its own values at the block boundary ([unknown_data_1], [_2],
    [_3]), its own value stream ([unknown_data_6], [_7], [_8]) and its own
    pair of curve dictionaries. *)
Inductive channel : Type := Rotation | Location | Scale.

Definition keyframe_bone_idxs {V} (ch : channel) (ar : AnimReader V) : list Z :=
  match ch with
  | Rotation => keyframe_rotations_bone_idxs ar
  | Location => keyframe_locations_bone_idxs ar
  | Scale => keyframe_scales_bone_idxs ar
  end.

Definition initial_pose_bone_idxs {V} (ch : channel) (ar : AnimReader V) : list Z :=
  match ch with
  | Rotation => initial_pose_rotations_bone_idxs ar
  | Location => initial_pose_locations_bone_idxs ar
  | Scale => initial_pose_scales_bone_idxs ar
  end.

Definition initial_pose_values {V} (ch : channel) (ar : AnimReader V) : list V :=
  match ch with
  | Rotation => initial_pose_bone_rotations ar
  | Location => initial_pose_bone_locations ar
  | Scale => initial_pose_bone_scales ar
  end.

Definition boundary_values {V} (ch : channel) (sub : Substructure.t V) : list V :=
  match ch with
  | Rotation => Substructure.unknown_data_1 sub
  | Location => Substructure.unknown_data_2 sub
  | Scale => Substructure.unknown_data_3 sub
  end.

Definition value_stream {V} (ch : channel) (sub : Substructure.t V) : list V :=
  match ch with
  | Rotation => Substructure.unknown_data_6 sub
  | Location => Substructure.unknown_data_7 sub
  | Scale => Substructure.unknown_data_8 sub
  end.

Definition curves_of {V} (ch : channel) (ad : Animation V) : gmap Z (FCurve V) :=
  match ch with
  | Rotation => rotations ad
  | Location => locations ad
  | Scale => scales ad
  end.

Definition frames_of {V} (ch : channel) (c : Curves V) : gmap Z (list Z) :=
  match ch with
  | Rotation => rotation_fcurves_frames c
  | Location => location_fcurves_frames c
  | Scale => scale_fcurves_frames c
  end.

Definition values_of {V} (ch : channel) (c : Curves V) : gmap Z (list V) :=
  match ch with
  | Rotation => rotation_fcurves_values c
  | Location => location_fcurves_values c
  | Scale => scale_fcurves_values c
  end.

(** The keyframe blocks that the loop of [add_anims] goes through:
    [zip(ar.keyframe_counts, ar.unknown_data_8[:-1])]. *)
Definition blocks {V} (ar : AnimReader V) : list ((Z * Z) * Substructure.t V) :=
  zip (keyframe_counts ar)
      (take (length (unknown_data_8 ar) - 1) (unknown_data_8 ar)).

(** The bitmasks of a block with span [nframes]: its bit string cut into
    pieces of [nframes] characters, none when the span is 0. *)
Definition block_masks {V} (nframes : Z) (sub : Substructure.t V) : list (list ascii) :=
  let bits := list_ascii_of_string (Substructure.unknown_data_5 sub) in
  if decide (0 < nframes)
  then chunks_upto (length bits) bits (Z.to_nat nframes)
  else [].

(** The bitmasks are handed out in file order: one to each bone of the
    rotation list, then one to each bone of the location list, then one to
    each bone of the scale list. *)
Definition mask_offset {V} (ch : channel) (ar : AnimReader V) : nat :=
  match ch with
  | Rotation => 0
  | Location => length (keyframe_rotations_bone_idxs ar)
  | Scale => length (keyframe_rotations_bone_idxs ar)
             + length (keyframe_locations_bone_idxs ar)
  end.

Definition channel_masks {V} (ch : channel) (ar : AnimReader V)
    (nframes : Z) (sub : Substructure.t V) : list (list ascii) :=
  drop (mask_offset ch ar) (block_masks nframes sub).

(** What a block gives the bone at position [i] of a channel's bone list:
    the boundary frame [cumulative_frames] with the [i]-th boundary value
    (when there is one), then the frames marked by the [i]-th bitmask of the
    channel, with the next unread values of the channel's stream: those that
    follow the values taken for the masks before it. *)
Definition block_frames {V} (ch : channel) (ar : AnimReader V)
    (block : (Z * Z) * Substructure.t V) (i : nat) : list Z :=
  let '((cumulative_frames, nframes), sub) := block in
  (if decide (i < length (boundary_values ch sub))%nat then [cumulative_frames] else [])
  ++ from_option (mask_frames cumulative_frames) []
       (channel_masks ch ar nframes sub !! i).

Definition block_values {V} (ch : channel) (ar : AnimReader V)
    (block : (Z * Z) * Substructure.t V) (i : nat) : list V :=
  let '((cumulative_frames, nframes), sub) := block in
  let masks := channel_masks ch ar nframes sub in
  option_list (boundary_values ch sub !! i)
  ++ from_option
       (λ mask, take (length (mask_frames cumulative_frames mask))
                     (drop (consumed cumulative_frames masks i) (value_stream ch sub)))
       [] (masks !! i).

(** The initial-pose values that the bone [b] is listed with. *)
Definition initial_values_of {V} (ch : channel) (ar : AnimReader V) (b : Z) : list V :=
  (filter (λ bv, bv.1 = b)
          (zip (initial_pose_bone_idxs ch ar) (initial_pose_values ch ar))).*2.

(** The curve of the bone [b] at position [i] of a channel's keyframe bone
    list: frame 0 for each of its initial-pose values, then what the blocks
    give it, block after block. *)
Definition expected_curve {V} (ch : channel) (ar : AnimReader V) (i : nat) (b : Z)
  : FCurve V :=
  {| frames := ((λ _, 0) <$> initial_values_of ch ar b)
               ++ mjoin ((λ block, block_frames ch ar block i) <$> blocks ar);
     values := initial_values_of ch ar b
               ++ mjoin ((λ block, block_values ch ar block i) <$> blocks ar) |}.

(** A reader with three bones and one keyframe block at cumulative frame
    10 with span 4: the rotations of bones 2 and 0 are animated with the
    masks "1010" and "0110", the location of bone 1 with the mask "0001". *)
Definition example_block : Substructure.t Z :=
  {| Substructure.unknown_data_1 := [500; 501];
     Substructure.unknown_data_2 := [];
     Substructure.unknown_data_3 := [];
     Substructure.unknown_data_5 := "101001100001";
     Substructure.unknown_data_6 := [600; 601; 602; 603];
     Substructure.unknown_data_7 := [700];
     Substructure.unknown_data_8 := [] |}.

Definition example_reader : AnimReader Z :=
  {| num_bones := 3;
     initial_pose_rotations_bone_idxs := [0; 1; 2];
     initial_pose_bone_rotations := [100; 101; 102];
     initial_pose_locations_bone_idxs := [1];
     initial_pose_bone_locations := [200];
     initial_pose_scales_bone_idxs := [];
     initial_pose_bone_scales := [];
     keyframe_counts := [(10, 4)];
     unknown_data_8 := [example_block; example_block];
     keyframe_rotations_bone_idxs := [2; 0];
     keyframe_locations_bone_idxs := [1];
     keyframe_scales_bone_idxs := [] |}.

End AnimBlocks.

(** ** Invariants of the meshes of [add_meshes] *)

Module MeshInvariants.

(** A vertex group whose two parallel lists have one length and whose
    vertex indices are below [n]. *)
Definition group_ok (n : nat) (g : VertexGroup.t) : Prop :=
  length (VertexGroup.vertex_indices g) = length (VertexGroup.weights g)
  ∧ Forall (λ x, x < n)%nat (VertexGroup.vertex_indices g).

(** [g] after [vertex_indices.append(i)] and [weights.append(weight)]. *)
Definition appended (g : VertexGroup.t) (i : nat) (weight : Q) : VertexGroup.t :=
  {| VertexGroup.bone_idx := VertexGroup.bone_idx g;
     VertexGroup.vertex_indices := VertexGroup.vertex_indices g ++ [i];
     VertexGroup.weights := VertexGroup.weights g ++ [weight] |}.

(** The assembled vertex comes from the raw vertex. *)
Definition vertex_from (vertex : GeomVertex.t) (v' : Vertex.t) : Prop :=
  Some (Vertex.position v') = take 3 <$> GeomVertex.Position vertex
  ∧ Vertex.normal v' = GeomVertex.Normal vertex
  ∧ Vertex.vertex_group_weights v' = GeomVertex.BoneWeight vertex.

(** The vertex groups of a mesh in weight layout 0 after [n] vertices:
    the first group holds all of them with weight 1, the others are empty. *)
Definition mode0_groups (bones : list Z) (n : nat) : list VertexGroup.t :=
  match bones with
  | [] => []
  | b0 :: rest =>
      {| VertexGroup.bone_idx := b0;
         VertexGroup.vertex_indices := seq 0 n;
         VertexGroup.weights := replicate n 1%Q |}
      :: ((λ b, {| VertexGroup.bone_idx := b;
                   VertexGroup.vertex_indices := [];
                   VertexGroup.weights := [] |}) <$> rest)
  end.

(** What the explicit-array branch leaves at a position of the vertex's
    bone-id list: the id divided by 3 where the weight is not zero, the id
    as read where the weight is zero or missing. *)
Definition decoded_id (id : Z) (weight : option Q) : Z :=
  match weight with
  | Some w => if Qeq_bool w 0 then id else id `div` 3
  | None => id
  end.

(** A vertex with three bone ids and weights, the middle weight zero. *)
Definition weighted_vertex : GeomVertex.t :=
  {| GeomVertex.Position := Some [0; 0; 0]%Q;
     GeomVertex.Normal := None;
     GeomVertex.UV := None;
     GeomVertex.WeightedBoneID := Some [3; 6; 0];
     GeomVertex.BoneWeight := Some [1 # 2; 0; 1 # 2]%Q;
     GeomVertex.other := ∅ |}.

End MeshInvariants.

(** ** Weight layout 1: one bone index in the fourth position component *)

Module MeshLayout1.





End MeshLayout1.

(** ** The fields of an assembled material *)

Module MaterialFields.

(** The last component of type [ty] of a material, if it has one. *)
Definition last_of (ty : Z) (cs : list MaterialComponent.t)
  : option MaterialComponent.t :=
  last (filter (λ c, MaterialComponent.component_type c = ty) cs).

(** [component.data[0]] of the last component of type [ty]. *)
Definition first_datum (ty : Z) (cs : list MaterialComponent.t) : option Q :=
  last_of ty cs ≫= λ c, MaterialComponent.data c !! 0%nat.

(** The same for the unknown components. *)
Definition last_unknown_of (ty : Z) (us : list UnknownComponent.t)
  : option UnknownComponent.t :=
  last (filter (λ u, UnknownComponent.maybe_component_type u = ty) us).

(** A material with a texture component, a colour component and one
    unknown component. *)
Definition example_material : GeomMaterial.t :=
  {| GeomMaterial.unknown_0x00 := 1; GeomMaterial.unknown_0x02 := 2;
     GeomMaterial.shader_hex := "03020100_07060504_0b0a0908_0f0e0d0c";
     GeomMaterial.material_components :=
       [ {| MaterialComponent.component_type := 50;
            MaterialComponent.data := [3%Q] |};
         {| MaterialComponent.component_type := 51;
            MaterialComponent.data := [1; 1; 1; 1]%Q |} ];
     GeomMaterial.unknown_data :=
       [ {| UnknownComponent.maybe_component_type := 160;
            UnknownComponent.data := [516; 0]%Q |} ] |}.

End MaterialFields.

(** ** BlenderIO/Import.py: the rest-pose armature, and what an armature
    satisfies *)

Module BlenderRestPose.
Section RestPose.
Import BlenderImport.
Context {M : Type}.

(** The body of the loop of [import_rest_pose_skeleton]: as in
    [import_skeleton], but the matrix of the bone is [bone_matrices[i]] for
    the position [i] of the relation, and no array is written to. *)
Definition import_rest_bone (bone_names : list string) (arm : Armature (M := M))
    (ir : nat * (nat * Z)) : option (Armature (M := M)) :=
  let '(i, (child, parent)) := ir in
  child_name ← bone_names !! child;
  if decide (is_Some (list_of_bones arm !! child_name)) then Some arm
  else
    bone_matrix ← bone_matrices arm !! i;
    let bone := {| name := child_name; matrix := bone_matrix; parent := None |} in
    let bones := <[child_name := bone]> (list_of_bones arm) in
    parent_bone ←
      (if decide (parent ≠ -1) then
         parent_name ← Py.index bone_names parent;
         p ← bones !! parent_name;
         Some (Some (name p))
       else Some None);
    let bone := {| name := child_name; matrix := bone_matrix; parent := parent_bone |} in
    Some {| list_of_bones := <[child_name := bone]> (list_of_bones arm);
            edit_bones := edit_bones arm ++ [bone];
            bone_matrices := bone_matrices arm |}.

Fixpoint import_rest_bones (bone_names : list string) (arm : Armature (M := M))
    (relations : list (nat * (nat * Z))) : option (Armature (M := M)) :=
  match relations with
  | [] => Some arm
  | r :: rs =>
      arm' ← import_rest_bone bone_names arm r; import_rest_bones bone_names arm' rs
  end.

Definition import_rest_pose_skeleton (bone_names : list string)
    (bone_relations : list (nat * Z)) (rest_pose : list M)
  : option (Armature (M := M)) :=
  import_rest_bones bone_names
    {| list_of_bones := ∅; edit_bones := []; bone_matrices := rest_pose |}
    (Py.enumerate bone_relations).

(** The tree of an armature: the bones by name, each with the name of its
    parent. *)
Definition topology (arm : Armature (M := M)) : list (string * option string) :=
  (λ b, (name b, parent b)) <$> edit_bones arm.

(** What the loops keep true of an armature: the bones have pairwise
    different names, the dictionary holds exactly the bones, each under its
    name, and the parent of a bone is a bone made before it, or the bone
    itself. *)
Definition well_formed (arm : Armature (M := M)) : Prop :=
  NoDup (name <$> edit_bones arm)
  ∧ (∀ k b, list_of_bones arm !! k = Some b ↔ b ∈ edit_bones arm ∧ name b = k)
  ∧ ∀ i b pn, edit_bones arm !! i = Some b → parent b = Some pn →
              ∃ j b', (j ≤ i)%nat ∧ edit_bones arm !! j = Some b' ∧ name b' = pn.

(** The two armatures of a model under construction: the same names in
    the dictionaries, the same tree. *)
Definition same_tree (arm1 arm2 : Armature (M := M)) : Prop :=
  (∀ k, name <$> list_of_bones arm1 !! k = name <$> list_of_bones arm2 !! k)
  ∧ topology arm1 = topology arm2.

(** The bone was made for the relation at position [i]: that relation
    names the bone, no earlier relation does, and the bone has the matrix
    at position [i]. *)
Definition made_at (bone_names : list string) (relations : list (nat * Z))
    (rest_pose : list M) (bone : EditBone (M := M)) (i : nat) : Prop :=
  (∃ c p, relations !! i = Some (c, p)
          ∧ bone_names !! c = Some (name bone)
          ∧ rest_pose !! i = Some (matrix bone))
  ∧ ∀ j c p, (j < i)%nat → relations !! j = Some (c, p) →
             bone_names !! c ≠ Some (name bone).

(** The names in the dictionary are the names of the children of the
    relations gone through. *)
Definition names_of (bone_names : list string) (relations : list (nat * Z))
    (arm : Armature (M := M)) : Prop :=
  ∀ n, is_Some (list_of_bones arm !! n)
       ↔ ∃ j c p, relations !! j = Some (c, p) ∧ bone_names !! c = Some n.

End RestPose.
End BlenderRestPose.

Module MeshWeights.

(** The weights that the explicit-array branch appends to the vertex
    group at position [g]: the non-zero weights whose bone id, divided by
    3, is [g], in the order of the arrays. *)
Definition group_weights (g : nat) (pairs : list (Z * Q)) : list Q :=
  omap (λ p : Z * Q,
          if Qeq_bool p.2 0 then None
          else if decide (p.1 `div` 3 = Z.of_nat g) then Some p.2 else None)
       pairs.

End MeshWeights.

(** ** The text form of the shader identifier *)

Module ShaderHexText.
Import MaterialReader.

(** A lower-case hexadecimal digit. *)
Definition lower_hex (c : ascii) : Prop := c ∈ list_ascii_of_string hexdigits.

(** Eight lower-case hexadecimal digits. *)
Definition hex_group (p : string) : Prop :=
  String.length p = 8%nat ∧ Forall lower_hex (list_ascii_of_string p).

(** The text form of a shader identifier: four groups joined by
    underscores. *)
Definition canonical (text : string) : Prop :=
  ∃ p1 p2 p3 p4,
    hex_group p1 ∧ hex_group p2 ∧ hex_group p3 ∧ hex_group p4
    ∧ text = String.concat "_" [p1; p2; p3; p4].

End ShaderHexText.

(** ** BlenderIO/Import.py: [build_loops_and_verts] *)

Module BuildLoops.
Section BuildLoopsAndVerts.
(** [P] is a vertex position as a tuple; [py_set_list l] is
    [list(set(l))]: the distinct elements of [l], in the order in which the
    interpreter iterates over the set. *)
Context {P : Type} `{EqDecision P} (py_set_list : list P → list P).

(** [l.index(v)]: the first position of [v]; [ValueError] without one. *)
Definition index_of (v : P) (l : list P) : option nat :=
  fst <$> list_find (λ x, x = v) l.

(** The indices of a polygon, as the loop visits them. *)
Definition corners (poly : Polygon.t) : list Z :=
  let '(a, b, c) := Polygon.indices poly in [a; b; c].

(** The loop over [poly.indices]. *)
Fixpoint poly_loop (map_of_model_verts_to_verts : gmap Z nat) (poly_idx : nat)
    (indices : list Z) (poly_verts : list nat)
    (map_of_loops_to_model_vertices : gmap (nat * nat) Z)
  : option (list nat * gmap (nat * nat) Z) :=
  match indices with
  | [] => Some (poly_verts, map_of_loops_to_model_vertices)
  | model_vertex_idx :: rest =>
      vert_idx ← map_of_model_verts_to_verts !! model_vertex_idx;
      poly_loop map_of_model_verts_to_verts poly_idx rest (poly_verts ++ [vert_idx])
        (<[(poly_idx, vert_idx) := model_vertex_idx]> map_of_loops_to_model_vertices)
  end.

(** The loop over [enumerate(model_polygons)]. *)
Fixpoint polys_loop (map_of_model_verts_to_verts : gmap Z nat)
    (model_polygons : list (nat * Polygon.t)) (polys : list (list nat))
    (map_of_loops_to_model_vertices : gmap (nat * nat) Z)
  : option (list (list nat) * gmap (nat * nat) Z) :=
  match model_polygons with
  | [] => Some (polys, map_of_loops_to_model_vertices)
  | (poly_idx, poly) :: rest =>
      '(poly_verts, loops) ←
        poly_loop map_of_model_verts_to_verts poly_idx (corners poly) []
          map_of_loops_to_model_vertices;
      polys_loop map_of_model_verts_to_verts rest (polys ++ [poly_verts]) loops
  end.

(** [build_loops_and_verts], on the positions of the model vertices. *)
Definition build_loops_and_verts (positions : list P) (model_polygons : list Polygon.t)
  : option (list P * list (list nat) * gmap (nat * nat) Z * gmap Z nat) :=
  let verts := py_set_list positions in
  idxs ← mapM (λ vert, index_of vert verts) positions;
  let map_of_model_verts_to_verts : gmap Z nat :=
    list_to_map (imap (λ i k, (Z.of_nat i, k)) idxs) in
  '(polys, loops) ←
    polys_loop map_of_model_verts_to_verts (Py.enumerate model_polygons) [] ∅;
  Some (verts, polys, loops, map_of_model_verts_to_verts).

(** Every entry of the loop dictionary: the model vertex it names is a
    corner of the polygon and is mapped to the vertex of the key. *)
Definition loops_ok (model_polygons : list Polygon.t)
    (map_of_model_verts_to_verts : gmap Z nat) (loops : gmap (nat * nat) Z) : Prop :=
  ∀ j k idx, loops !! (j, k) = Some idx →
             map_of_model_verts_to_verts !! idx = Some k
             ∧ ∃ poly, model_polygons !! j = Some poly ∧ idx ∈ corners poly.

(** All corners of all polygons are positions of model vertices. *)
Definition corners_in_range (n : nat) (model_polygons : list Polygon.t) : Prop :=
  Forall (λ poly, Forall (λ idx, 0 ≤ idx < Z.of_nat n) (corners poly)) model_polygons.

End BuildLoopsAndVerts.
End BuildLoops.

(* ===================================================================== *)
(** * Part II: properties                                                 *)
(* ===================================================================== *)

Section PolysFacts.
Import Polys.

Lemma size_pair_le (x y : Z) : (size ({[x]} ∪ {[y]} : gset Z) ≤ 2)%nat.
Proof.
  rewrite size_union_alt, size_singleton.
  assert (size (({[y]} : gset Z) ∖ {[x]}) ≤ size ({[y]} : gset Z))%nat as Hle
    by (apply subseteq_size; set_solver).
  rewrite size_singleton in Hle. lia.
Qed.

Lemma size_py_set a b c :
  size (py_set (a, b, c)) = 3%nat ↔ pairwise_distinct (a, b, c).
Proof.
  unfold py_set, pairwise_distinct. split.
  - intros Hsz.
    assert (∀ x y, py_set (a, b, c) ⊆ {[x]} ∪ {[y]} → False) as Hno.
    { intros x y Hsub. apply subseteq_size in Hsub.
      pose proof (size_pair_le x y). unfold py_set in Hsub. lia. }
    repeat split; intros ->.
    + apply (Hno b c). unfold py_set. set_solver.
    + apply (Hno a c). unfold py_set. set_solver.
    + apply (Hno b c). unfold py_set. set_solver.
  - intros (Hab & Hbc & Hac).
    rewrite size_list_to_set; [done|].
    repeat constructor; set_solver.
Qed.

Lemma enumerate_snoc {A} (l : list A) x :
  Py.enumerate (l ++ [x]) = Py.enumerate l ++ [(length l, x)].
Proof.
  unfold Py.enumerate. rewrite imap_app. simpl. by rewrite Nat.add_0_r.
Qed.

(** The loop body, read on the triple the strip proposes. *)
Lemma strip_step_emit acc k a b c :
  strip_step acc (k, (a, b, c)) = emit acc (wound k a b c).
Proof.
  unfold strip_step, emit, wound.
  rewrite <- Nat.negb_odd. unfold Nat.odd.
  destruct (Nat.even k) eqn:Hev.
  - apply Nat.even_spec in Hev. destruct Hev as [m ->].
    replace ((2 * m) mod 2)%nat with 0%nat
      by (symmetry; rewrite Nat.mul_comm; apply Nat.Div0.mod_mul).
    simpl tri_get. done.
  - assert (Nat.odd k = true) as Hodd by (unfold Nat.odd; by rewrite Hev).
    apply Nat.odd_spec in Hodd. destruct Hodd as [m ->].
    replace ((2 * m + 1) mod 2)%nat with 1%nat.
    2:{ symmetry. rewrite Nat.add_comm, Nat.mul_comm, Nat.Div0.mod_add. done. }
    simpl tri_get. done.
Qed.

Lemma strips_as_emit idxs :
  triangle_strips_to_polys idxs = fold_left emit (candidates idxs) [].
Proof.
  unfold triangle_strips_to_polys, candidates, Py.enumerate.
  generalize (Py.zip3 idxs (drop 1 idxs) (drop 2 idxs)).
  intros l. generalize (@nil tri).
  induction l as [|[[a b] c] l IH] using rev_ind; intros acc; [done|].
  rewrite !imap_app, !fold_left_app. simpl.
  rewrite IH, Nat.add_0_r. apply strip_step_emit.
Qed.

Lemma emit_spec acc t :
  emit acc t = if decide (pairwise_distinct t ∧ t ∉ acc) then acc ++ [t] else acc.
Proof.
  unfold emit. destruct t as [[a b] c].
  pose proof (size_py_set a b c) as Hsz.
  destruct (decide _) as [[Hd Hni]|Hn]; repeat case_bool_decide; simpl;
    try done; naive_solver.
Qed.

Lemma fold_emit_elem W : ∀ acc t,
  t ∈ fold_left emit W acc ↔ t ∈ acc ∨ (t ∈ W ∧ pairwise_distinct t).
Proof.
  induction W as [|w W IH]; intros acc t; simpl.
  { set_solver. }
  rewrite IH, emit_spec. destruct (decide _) as [[Hd Hni]|Hn].
  - rewrite elem_of_app, list_elem_of_singleton, elem_of_cons. naive_solver.
  - rewrite elem_of_cons. split; [naive_solver|].
    intros [?|[[->|?] ?]]; [by left| |by right].
    left. apply dec_stable. naive_solver.
Qed.

Lemma fold_emit_NoDup W : ∀ acc, NoDup acc → NoDup (fold_left emit W acc).
Proof.
  induction W as [|w W IH]; intros acc Hnd; simpl; [done|].
  apply IH. rewrite emit_spec. destruct (decide _) as [[Hd Hni]|Hn]; [|done].
  apply NoDup_app. split; [done|]. split; [|apply NoDup_singleton].
  intros x Hx ->%list_elem_of_singleton. done.
Qed.

Lemma fold_emit_sublist W : ∀ acc,
  ∃ new, fold_left emit W acc = acc ++ new ∧ sublist new W.
Proof.
  induction W as [|w W IH]; intros acc; simpl.
  { exists []. by rewrite app_nil_r. }
  destruct (IH (emit acc w)) as (new & -> & Hsub).
  rewrite emit_spec. destruct (decide _).
  - exists (w :: new). rewrite <- app_assoc. split; [done|]. by constructor.
  - exists new. split; [done|]. by constructor.
Qed.

Lemma candidates_lookup idxs k t :
  candidates idxs !! k = Some t ↔
  ∃ a b c, idxs !! k = Some a ∧ idxs !! S k = Some b ∧ idxs !! S (S k) = Some c
           ∧ t = wound k a b c.
Proof.
  unfold candidates, Py.zip3.
  rewrite list_lookup_imap, lookup_zip_with.
  rewrite lookup_zip_with, !lookup_drop. simpl.
  destruct (idxs !! k) as [a|]; simpl; [|naive_solver].
  destruct (idxs !! S k) as [b|]; simpl; [|naive_solver].
  destruct (idxs !! S (S k)) as [c|]; simpl; naive_solver.
Qed.

Lemma wound_distinct k a b c :
  pairwise_distinct (wound k a b c) ↔ pairwise_distinct (a, b, c).
Proof. unfold wound, pairwise_distinct. destruct (Nat.even k); naive_solver. Qed.

(** C2, as worded, fails on the code.  The strip [0,1,2,0,1] proposes
    (0,1,2), then (1,2,0) rewound to (2,1,0), then (2,0,1); all three carry
    the index set {0,1,2}, and all three are emitted, because the membership
    test [tri in triangles] compares ordered tuples. *)
Lemma strip_unordered_duplicate_emitted :
  triangle_strips_to_polys [0; 1; 2; 0; 1] = [(0, 1, 2); (2, 1, 0); (2, 0, 1)]
  ∧ ¬ no_unordered_duplicates (triangle_strips_to_polys [0; 1; 2; 0; 1]).
Proof.
  assert (triangle_strips_to_polys [0; 1; 2; 0; 1]
          = [(0, 1, 2); (2, 1, 0); (2, 0, 1)]) as E by (vm_compute; reflexivity).
  split; [exact E|]. rewrite E. intros Hno.
  apply (Hno 0%nat 1%nat (0, 1, 2) (2, 1, 0)); [done|done|done|].
  unfold py_set. set_solver.
Qed.

Lemma filter_ext_elem {A} (P Q : A → Prop) `{!∀ x, Decision (P x)}
    `{!∀ x, Decision (Q x)} (l : list A) :
  (∀ x, x ∈ l → P x ↔ Q x) → filter P l = filter Q l.
Proof.
  induction l as [|x l IH]; intros Hext; [done|].
  rewrite !filter_cons. rewrite IH by (intros y Hy; apply Hext; by right).
  destruct (decide (P x)) as [HP|HP], (decide (Q x)) as [HQ|HQ]; try done;
    exfalso; apply (Hext x) in HP || apply (Hext x) in HQ; try done; by left.
Qed.

(** What has been emitted after the proposed triples [W]: the triples of
    [W] that are kept, in the order of [W]. *)
Lemma fold_emit_kept (W : list tri) :
  fold_left emit W [] = (filter (kept W) (Py.enumerate W)).*2.
Proof.
  induction W as [|w W IH] using rev_ind; [done|].
  rewrite fold_left_app. cbn [fold_left]. rewrite IH, emit_spec.
  rewrite enumerate_snoc, filter_app, fmap_app.
  assert (filter (kept (W ++ [w])) (Py.enumerate W) = filter (kept W) (Py.enumerate W))
    as ->.
  { apply filter_ext_elem. intros [k t] Hin. unfold kept. cbn [fst snd].
    apply list_elem_of_lookup in Hin as [j Hj]. unfold Py.enumerate in Hj.
    rewrite list_lookup_imap in Hj.
    destruct (W !! j) as [x|] eqn:Hx; [|done]. injection Hj as <- <-.
    apply lookup_lt_Some in Hx. by rewrite take_app_le by lia. }
  assert (w ∈ (filter (kept W) (Py.enumerate W)).*2 ↔ w ∈ W ∧ pairwise_distinct w)
    as Hold.
  { rewrite <- IH, fold_emit_elem. rewrite elem_of_nil. naive_solver. }
  assert (kept (W ++ [w]) (length W, w) ↔ pairwise_distinct w ∧ w ∉ W) as Hnew.
  { unfold kept. cbn [fst snd]. by rewrite take_app_length. }
  rewrite filter_cons, filter_nil.
  destruct (decide (kept (W ++ [w]) (length W, w))) as [Hk|Hk];
    destruct (decide _) as [[Hd Hni]|Hn]; try done.
  - exfalso. apply Hn. apply Hnew in Hk as [? ?]. split; [done|]. rewrite Hold. tauto.
  - exfalso. apply Hk, Hnew. split; [done|]. intros Hin. apply Hni, Hold. done.
  - by rewrite app_nil_r.
Qed.

(** C2, amended: triangle [k] of a strip is proposed from
    [(i_k, i_k+1, i_k+2)] with the first two indices exchanged when [k] is
    odd.  The output is the list of the proposed triples, in strip order,
    without those whose indices are not pairwise distinct and without those
    that equal, as ordered triples after the exchange, a triple proposed
    earlier: of equal triples the first one stays.  Hence the output holds
    exactly the proposed triples with pairwise distinct indices, each once,
    in strip order; and [0,1,2,3,4] decodes to (0,1,2), (2,1,3), (2,3,4). *)
Theorem triangle_strips_to_polys_spec (idxs : list Z) :
  triangle_strips_to_polys idxs
  = (filter (kept (candidates idxs)) (Py.enumerate (candidates idxs))).*2
  ∧ (∀ k t, candidates idxs !! k = Some t ↔
            ∃ a b c, idxs !! k = Some a ∧ idxs !! S k = Some b
                     ∧ idxs !! S (S k) = Some c ∧ t = wound k a b c)
  ∧ (∀ t, t ∈ triangle_strips_to_polys idxs ↔
          ∃ k a b c, idxs !! k = Some a ∧ idxs !! S k = Some b
                     ∧ idxs !! S (S k) = Some c
                     ∧ pairwise_distinct (a, b, c) ∧ t = wound k a b c)
  ∧ NoDup (triangle_strips_to_polys idxs)
  ∧ sublist (triangle_strips_to_polys idxs) (candidates idxs)
  ∧ triangle_strips_to_polys [0; 1; 2; 3; 4] = [(0, 1, 2); (2, 1, 3); (2, 3, 4)].
Proof.
  rewrite strips_as_emit. split; [apply fold_emit_kept|].
  split; [apply candidates_lookup|]. split; [split|split; [|split]].
  - intros Ht. apply fold_emit_elem in Ht as [Ht|[Ht Hd]]; [by apply elem_of_nil in Ht|].
    apply list_elem_of_lookup in Ht as [k Hk].
    apply candidates_lookup in Hk as (a & b & c & ? & ? & ? & ->).
    exists k, a, b, c. by rewrite <- (wound_distinct k).
  - intros (k & a & b & c & Ha & Hb & Hc & Hd & ->).
    apply fold_emit_elem. right. split; [|by apply wound_distinct].
    apply list_elem_of_lookup. exists k. apply candidates_lookup. naive_solver.
  - apply fold_emit_NoDup, NoDup_nil_2.
  - destruct (fold_emit_sublist (candidates idxs) []) as (new & -> & Hsub). done.
  - vm_compute. reflexivity.
Qed.

End PolysFacts.

Section ShaderHexFacts.
Import Struct MaterialReader.

Lemma hex_byte_inverse (b : byte) :
  let hi := (Byte.to_N b / 16)%N in
  let lo := (Byte.to_N b mod 16)%N in
  is_space (hex_digit hi) = false
  ∧ hex_value (hex_digit hi) = Some hi
  ∧ hex_value (hex_digit lo) = Some lo
  ∧ byte_of_Z (Z.of_N (16 * hi + lo)) = b
  ∧ hex_digit hi ≠ "_"%char ∧ hex_digit lo ≠ "_"%char.
Proof. destruct b; vm_compute; repeat split; congruence. Qed.

Lemma bytes_fromhex_hex (bs : list byte) :
  bytes_fromhex (bytes_hex bs) = Some bs.
Proof.
  induction bs as [|b bs IH]; [done|].
  destruct (hex_byte_inverse b) as (Hsp & Hhi & Hlo & Hb & _).
  cbn [bytes_hex bytes_fromhex]. rewrite Hsp, Hhi. cbn [mbind option_bind].
  rewrite Hlo. cbn [mbind option_bind]. rewrite IH. cbn [mbind option_bind].
  by rewrite Hb.
Qed.

Lemma bytes_hex_free (bs : list byte) : str_free "_" (bytes_hex bs).
Proof.
  induction bs as [|b bs IH]; [done|].
  destruct (hex_byte_inverse b) as (_ & _ & _ & _ & Hhi & Hlo).
  cbn [bytes_hex str_free]. done.
Qed.

Lemma str_split_free sep p : str_free sep p → str_split sep p = [p].
Proof.
  induction p as [|c p IH]; [done|]. intros [Hc Hp]. simpl.
  rewrite decide_False by done. by rewrite IH.
Qed.

Lemma str_split_app sep p rest :
  str_free sep p →
  str_split sep (p +:+ String sep rest) = p :: str_split sep rest.
Proof.
  induction p as [|c p IH]; simpl.
  - intros _. by rewrite decide_True.
  - intros [Hc Hp]. rewrite decide_False by done. by rewrite IH.
Qed.

Lemma str_split_join4 p1 p2 p3 p4 :
  str_free "_" p1 → str_free "_" p2 → str_free "_" p3 → str_free "_" p4 →
  str_split "_" (String.concat "_" [p1; p2; p3; p4]) = [p1; p2; p3; p4].
Proof.
  intros H1 H2 H3 H4. cbn [String.concat].
  change (String.append p1 (String.append "_" ?r)) with (p1 +:+ String "_" r).
  rewrite str_split_app by done.
  change (String.append p2 (String.append "_" ?r)) with (p2 +:+ String "_" r).
  rewrite str_split_app by done.
  change (String.append p3 (String.append "_" ?r)) with (p3 +:+ String "_" r).
  rewrite str_split_app by done.
  by rewrite str_split_free.
Qed.

Lemma slices_16 {A} (l : list A) :
  length l = 16%nat →
  slice 0 4 l ++ slice 4 8 l ++ slice 8 12 l ++ slice 12 16 l = l.
Proof.
  intros Hlen. do 17 (destruct l as [|? l]; [done|]); done.
Qed.

(** C3: the text form of a 16-byte shader identifier is its four 4-byte
    groups, each byte-reversed and written in lower-case hexadecimal, joined
    by underscores, and [reinterpret_material] reads that text back to the
    original bytes; bytes 00 01 .. 0F give
    "03020100_07060504_0b0a0908_0f0e0d0c", and a group AA BB CC DD is
    written "ddccbbaa". *)
Theorem shader_hex_roundtrip (b : list byte) :
  length b = 16%nat →
  interpret_shader_hex b
    = bytes_hex (reverse (slice 0 4 b)) +:+ "_"
      +:+ bytes_hex (reverse (slice 4 8 b)) +:+ "_"
      +:+ bytes_hex (reverse (slice 8 12 b)) +:+ "_"
      +:+ bytes_hex (reverse (slice 12 16 b))
  ∧ reinterpret_shader_hex (interpret_shader_hex b) = Some b
  ∧ interpret_shader_hex
      [x00; x01; x02; x03; x04; x05; x06; x07;
       x08; x09; x0a; x0b; x0c; x0d; x0e; x0f]
    = "03020100_07060504_0b0a0908_0f0e0d0c"
  ∧ bytes_hex (reverse [xaa; xbb; xcc; xdd]) = "ddccbbaa".
Proof.
  intros Hlen. split; [done|]. split; [|by vm_compute].
  unfold reinterpret_shader_hex, interpret_shader_hex.
  rewrite str_split_join4 by apply bytes_hex_free.
  cbn [lookup list_lookup mbind option_bind].
  rewrite !bytes_fromhex_hex. cbn [fmap option_fmap option_map mbind option_bind].
  rewrite !reverse_involutive. by rewrite slices_16.
Qed.

Lemma shader_hex_roundtrip_witness :
  reinterpret_shader_hex
    (interpret_shader_hex
       [xaa; xbb; xcc; xdd; x00; x00; x00; x01;
        xff; xfe; xfd; xfc; x10; x20; x30; x40])
  = Some [xaa; xbb; xcc; xdd; x00; x00; x00; x01;
          xff; xfe; xfd; xfc; x10; x20; x30; x40].
Proof.
  apply (shader_hex_roundtrip
           [xaa; xbb; xcc; xdd; x00; x00; x00; x01;
            xff; xfe; xfd; xfc; x10; x20; x30; x40]).
  reflexivity.
Defined.

End ShaderHexFacts.

(** ** Single and double precision *)

Section FloatFacts.
Import Struct.

Ltac pow_consts :=
  change (2 ^ 22) with 4194304 in *;
  change (2 ^ 23) with 8388608 in *;
  change (2 ^ 29) with 536870912 in *;
  change (2 ^ 31) with 2147483648 in *;
  change (2 ^ 32) with 4294967296 in *;
  change (2 ^ 52) with 4503599627370496 in *;
  change (2 ^ 63) with 9223372036854775808 in *;
  change (2 ^ 64) with 18446744073709551616 in *.

Lemma fields32 (s e m : Z) :
  0 ≤ s < 2 → 0 ≤ e < 256 → 0 ≤ m < 2 ^ 23 →
  let b := s * 2 ^ 31 + e * 2 ^ 23 + m in
  b / 2 ^ 31 = s ∧ (b / 2 ^ 23) mod 256 = e ∧ b mod 2 ^ 23 = m.
Proof. intros Hs He Hm b. subst b. pow_consts. Z.div_mod_to_equations. lia. Qed.

Lemma split32 (b : Z) :
  0 ≤ b < 2 ^ 32 →
  b = (b / 2 ^ 31) * 2 ^ 31 + ((b / 2 ^ 23) mod 256) * 2 ^ 23 + b mod 2 ^ 23
  ∧ 0 ≤ b / 2 ^ 31 < 2 ∧ 0 ≤ (b / 2 ^ 23) mod 256 < 256 ∧ 0 ≤ b mod 2 ^ 23 < 2 ^ 23.
Proof. intros Hb. pow_consts. Z.div_mod_to_equations. lia. Qed.

Lemma fields64 (s e m : Z) :
  0 ≤ s < 2 → 0 ≤ e < 2048 → 0 ≤ m < 2 ^ 52 →
  let d := s * 2 ^ 63 + e * 2 ^ 52 + m in
  (d / 2 ^ 63) mod 2 = s ∧ (d / 2 ^ 52) mod 2048 = e ∧ d mod 2 ^ 52 = m.
Proof. intros Hs He Hm d. subst d. pow_consts. Z.div_mod_to_equations. lia. Qed.

Lemma round_half_even_exact (q shift : Z) :
  0 < shift → round_half_even (q * 2 ^ shift) shift = q.
Proof.
  intros Hs. unfold round_half_even.
  assert (0 < 2 ^ shift) by (apply Z.pow_pos_nonneg; lia).
  assert (0 < 2 ^ (shift - 1)) by (apply Z.pow_pos_nonneg; lia).
  rewrite Z.div_mul, Z.mod_mul by lia.
  rewrite decide_False; [done|]. lia.
Qed.

Lemma round_half_even_nonneg (sig shift : Z) :
  0 ≤ sig → 0 ≤ round_half_even sig shift.
Proof.
  intros Hs. unfold round_half_even.
  assert (0 ≤ sig / 2 ^ shift).
  { destruct (decide (0 ≤ shift)).
    - apply Z.div_pos; [done|]. apply Z.pow_pos_nonneg; lia.
    - rewrite Z.pow_neg_r by lia. by rewrite Z.div_0_r. }
  case_decide; lia.
Qed.

Lemma quiet23_range m : 0 ≤ m < 2 ^ 23 → 2 ^ 22 ≤ quiet23 m < 2 ^ 23.
Proof. unfold quiet23. pow_consts. case_decide; lia. Qed.

Lemma quiet23_idemp m : 0 ≤ m → quiet23 (quiet23 m) = quiet23 m.
Proof. unfold quiet23. pow_consts. repeat case_decide; lia. Qed.

Lemma f32_to_f64_fields (b : Z) :
  0 ≤ b < 2 ^ 32 →
  ∃ s e m, f32_to_f64 b = s * 2 ^ 63 + e * 2 ^ 52 + m
           ∧ 0 ≤ s < 2 ∧ 0 ≤ e < 2048 ∧ 0 ≤ m < 2 ^ 52.
Proof.
  intros Hb. destruct (split32 b Hb) as (_ & Hs & He & Hm).
  unfold f32_to_f64.
  set (s := b / 2 ^ 31) in *. set (e := (b / 2 ^ 23) mod 256) in *.
  set (m := b mod 2 ^ 23) in *. exists s.
  destruct (decide (e = 255)) as [He1|He1].
  { destruct (decide (m = 0)).
    - exists 2047, 0. pow_consts. lia.
    - exists 2047, (quiet23 m * 2 ^ 29). pose proof (quiet23_range m Hm).
      pow_consts. lia. }
  destruct (decide (e = 0)) as [He0|He0].
  { destruct (decide (m = 0)).
    - exists 0, 0. pow_consts. lia.
    - destruct (Z.log2_spec m) as [Hlo Hhi]; [lia|].
      set (k := Z.log2 m) in *.
      assert (0 ≤ k) by apply Z.log2_nonneg.
      assert (k < 23).
      { apply Z.log2_lt_pow2; lia. }
      exists (k + 874), ((m - 2 ^ k) * 2 ^ (52 - k)).
      assert (2 ^ k * 2 ^ (52 - k) = 2 ^ 52) as Hpq.
      { rewrite <- Z.pow_add_r by lia. f_equal. lia. }
      rewrite Z.pow_succ_r in Hhi by done.
      assert (0 < 2 ^ (52 - k)) by (apply Z.pow_pos_nonneg; lia).
      split; [done|]. split; [lia|]. split; [lia|]. nia. }
  exists (e + 896), (m * 2 ^ 29). pow_consts. lia.
Qed.

Lemma f32_to_f64_range (b : Z) : 0 ≤ b < 2 ^ 32 → 0 ≤ f32_to_f64 b < 2 ^ 64.
Proof.
  intros (s & e & m & -> & ? & ? & ?)%f32_to_f64_fields. pow_consts. lia.
Qed.

Lemma f64_to_f32_fields (d : Z) :
  ∃ s mag, f64_to_f32 d = s * 2 ^ 31 + mag ∧ 0 ≤ s < 2 ∧ 0 ≤ mag < 2 ^ 31
           ∧ ((mag / 2 ^ 23) mod 256 = 255 → mag mod 2 ^ 23 = 0 ∨ 2 ^ 22 ≤ mag mod 2 ^ 23).
Proof.
  unfold f64_to_f32.
  set (s := (d / 2 ^ 63) mod 2). set (e := (d / 2 ^ 52) mod 2048).
  set (m := d mod 2 ^ 52).
  assert (0 ≤ s < 2) by (apply Z.mod_pos_bound; lia).
  assert (0 ≤ m < 2 ^ 52) by (apply Z.mod_pos_bound; lia).
  exists s.
  destruct (decide (e = 2047)).
  { destruct (decide (m = 0)).
    - exists (255 * 2 ^ 23). pow_consts. split; [done|]. split; [done|]. split; [lia|].
      intros _. left. done.
    - assert (0 ≤ m / 2 ^ 29 < 2 ^ 23) as Hq.
      { pow_consts. Z.div_mod_to_equations. lia. }
      pose proof (quiet23_range _ Hq).
      exists (255 * 2 ^ 23 + quiet23 (m / 2 ^ 29)).
      split; [lia|]. split; [done|]. pow_consts. split; [lia|].
      intros _. right. Z.div_mod_to_equations. lia. }
  destruct (decide (e = 0)).
  { exists 0. pow_consts. split; [lia|]. split; [done|]. split; [lia|]. done. }
  match goal with |- context [Z.min ?x _] => set (mag := x) end.
  assert (0 ≤ mag).
  { subst mag. case_decide.
    - pose proof (round_half_even_nonneg (2 ^ 52 + m) 29). pow_consts. lia.
    - apply round_half_even_nonneg. pow_consts. lia. }
  exists (Z.min mag (255 * 2 ^ 23)). split; [done|]. split; [done|].
  pow_consts. split; [lia|]. intros He. left. Z.div_mod_to_equations. lia.
Qed.

Lemma f64_to_f32_range (d : Z) : 0 ≤ f64_to_f32 d < 2 ^ 32.
Proof.
  destruct (f64_to_f32_fields d) as (s & mag & -> & ? & ? & _). pow_consts. lia.
Qed.

(** [pack] never writes a signalling NaN. *)
Lemma f64_to_f32_quiet (d : Z) : ¬ signalling32 (f64_to_f32 d).
Proof.
  destruct (f64_to_f32_fields d) as (s & mag & -> & Hs & Hmag & Hq).
  unfold signalling32. intros [He Hm].
  assert ((mag / 2 ^ 23) mod 256 = 255 ∧ (s * 2 ^ 31 + mag) mod 2 ^ 23 = mag mod 2 ^ 23)
    as [He' Hm'].
  { pow_consts. clear Hq. Z.div_mod_to_equations. lia. }
  specialize (Hq He'). rewrite Hm' in Hm. lia.
Qed.

(** Reading a single-precision pattern as a double and writing the double
    back as single precision gives the pattern, with the quiet bit set when
    it is a NaN. *)
Lemma f64_to_f32_to_f64 (b : Z) :
  0 ≤ b < 2 ^ 32 → f64_to_f32 (f32_to_f64 b) = quiet32 b.
Proof.
  intros Hb. destruct (split32 b Hb) as (Hbe & Hs & He & Hm).
  unfold quiet32, signalling32, f32_to_f64.
  set (s := b / 2 ^ 31) in *. set (e := (b / 2 ^ 23) mod 256) in *.
  set (m := b mod 2 ^ 23) in *.
  destruct (decide (e = 255)) as [He1|He1].
  { destruct (decide (m = 0)) as [Hm0|Hm0].
    - rewrite (decide_False (P := e = 255 ∧ 0 < m < 2 ^ 22)) by lia.
      destruct (fields64 s 2047 0) as (F1 & F2 & F3); [done|done|by pow_consts|].
      unfold f64_to_f32. replace (s * 2 ^ 63 + 2047 * 2 ^ 52) with (s * 2 ^ 63 + 2047 * 2 ^ 52 + 0) by lia.
      cbv zeta in F1, F2, F3. rewrite F1, F2, F3.
      rewrite !decide_True by done. lia.
    - pose proof (quiet23_range m Hm) as Hq.
      destruct (fields64 s 2047 (quiet23 m * 2 ^ 29)) as (F1 & F2 & F3);
        [done|done|pow_consts; lia|].
      unfold f64_to_f32. cbv zeta in F1, F2, F3. rewrite F1, F2, F3.
      rewrite decide_True by done. rewrite decide_False by (pow_consts; lia).
      rewrite Z.div_mul by (by pow_consts). rewrite quiet23_idemp by lia.
      unfold quiet23. pow_consts. repeat case_decide; lia. }
  rewrite (decide_False (P := e = 255 ∧ 0 < m < 2 ^ 22)) by lia.
  destruct (decide (e = 0)) as [He0|He0].
  { destruct (decide (m = 0)) as [Hm0|Hm0].
    - destruct (fields64 s 0 0) as (F1 & F2 & F3); [done|done|by pow_consts|].
      unfold f64_to_f32. replace (s * 2 ^ 63) with (s * 2 ^ 63 + 0 * 2 ^ 52 + 0) by lia.
      cbv zeta in F1, F2, F3. rewrite F1, F2.
      rewrite decide_False by done. rewrite decide_True by done. lia.
    - destruct (Z.log2_spec m) as [Hlo Hhi]; [lia|].
      set (k := Z.log2 m) in *.
      assert (0 ≤ k) by apply Z.log2_nonneg.
      assert (k < 23) by (apply Z.log2_lt_pow2; lia).
      assert (2 ^ k * 2 ^ (52 - k) = 2 ^ 52) as Hpq.
      { rewrite <- Z.pow_add_r by lia. f_equal. lia. }
      rewrite Z.pow_succ_r in Hhi by done.
      assert (0 < 2 ^ (52 - k)) by (apply Z.pow_pos_nonneg; lia).
      destruct (fields64 s (k + 874) ((m - 2 ^ k) * 2 ^ (52 - k))) as (F1 & F2 & F3);
        [done|lia|nia|].
      unfold f64_to_f32. cbv zeta in F1, F2, F3. rewrite F1, F2, F3.
      rewrite !decide_False by lia.
      replace (2 ^ 52 + (m - 2 ^ k) * 2 ^ (52 - k)) with (m * 2 ^ (52 - k)) by nia.
      replace (29 + (897 - (k + 874))) with (52 - k) by lia.
      rewrite round_half_even_exact by lia.
      pow_consts. lia. }
  destruct (fields64 s (e + 896) (m * 2 ^ 29)) as (F1 & F2 & F3);
    [done|lia|pow_consts; lia|].
  unfold f64_to_f32. cbv zeta in F1, F2, F3. rewrite F1, F2, F3.
  rewrite !decide_False by lia. rewrite decide_True by lia.
  replace (2 ^ 52 + m * 2 ^ 29) with ((2 ^ 23 + m) * 2 ^ 29) by (pow_consts; lia).
  rewrite round_half_even_exact by lia.
  pow_consts. lia.
Qed.

Lemma quiet32_id (b : Z) : ¬ signalling32 b → quiet32 b = b.
Proof. intros H. unfold quiet32. by rewrite decide_False. Qed.

Lemma f32_to_f64_quiet32 (b : Z) :
  0 ≤ b < 2 ^ 32 → f32_to_f64 (quiet32 b) = f32_to_f64 b.
Proof.
  intros Hb. unfold quiet32. case_decide as Hsig; [|done].
  destruct Hsig as [He Hm].
  assert ((b + 2 ^ 22) / 2 ^ 31 = b / 2 ^ 31
          ∧ ((b + 2 ^ 22) / 2 ^ 23) mod 256 = 255
          ∧ (b + 2 ^ 22) mod 2 ^ 23 = b mod 2 ^ 23 + 2 ^ 22) as (H1 & H2 & H3).
  { pow_consts. Z.div_mod_to_equations. lia. }
  unfold f32_to_f64. rewrite H1, H2, H3, He.
  rewrite !decide_True by done. rewrite !decide_False by (pow_consts; lia).
  unfold quiet23. pow_consts. repeat case_decide; lia.
Qed.

End FloatFacts.

Section RecordFacts.
Import Struct MaterialReader.

(** The loop of [shader_uniform_factory] that is to reject a dirty payload
    tail runs over [payload[num_floats:]] after [payload] has been rebound
    to the [num_floats] unpacked floats: it has nothing to visit. *)
Lemma unpack_codes_length cs : ∀ off bs vs,
  unpack_codes cs off bs = Some vs → length vs = length cs.
Proof.
  induction cs as [|c cs IH]; intros off bs vs; simpl.
  - case_decide; naive_solver.
  - case_decide; [|done].
    destruct (decode_item _ _); simpl; [|done].
    destruct (unpack_codes cs _ _) eqn:E; simpl; [|done].
    intros [= <-]. simpl. f_equal. by eapply IH.
Qed.

Lemma parse_repeat_f n : parse_format (str_repeat "f" n) None = Some (replicate n cf).
Proof.
  induction n as [|n IH]; [done|].
  cbn [str_repeat]. change ("f" +:+ ?s) with (String "f" s).
  cbn [parse_format]. change (digit_of "f") with (@None nat).
  cbn [code_of]. change (code_of "f") with (Some cf). cbn [mbind option_bind].
  rewrite IH. done.
Qed.

Lemma float_pad_check_vacuous (n : nat) (bs : list byte) (payload : list num) :
  unpack (str_repeat "f" n) bs = Some payload →
  drop n payload = [].
Proof.
  unfold unpack. rewrite parse_repeat_f. cbn [mbind option_bind].
  intros H%unpack_codes_length. rewrite length_replicate in H.
  apply drop_ge. lia.
Qed.

(** *** Bytes and little-endian integers *)

Lemma Z_of_byte_range b : 0 ≤ Z_of_byte b < 256.
Proof. unfold Z_of_byte. pose proof (Byte.to_N_bounded b). lia. Qed.

Lemma byte_of_Z_of_byte b : byte_of_Z (Z_of_byte b) = b.
Proof.
  unfold byte_of_Z. pose proof (Z_of_byte_range b).
  rewrite Z.mod_small by done. unfold Z_of_byte. by rewrite N2Z.id, Byte.of_to_N.
Qed.

Lemma le_int_range bs : 0 ≤ le_int bs < 256 ^ Z.of_nat (length bs).
Proof.
  induction bs as [|b bs IH]; [done|].
  cbn [le_int foldr length]. fold (le_int bs).
  rewrite Nat2Z.inj_succ, Z.pow_succ_r by lia.
  pose proof (Z_of_byte_range b). lia.
Qed.

Lemma le_bytes_le_int bs : le_bytes (length bs) (le_int bs) = bs.
Proof.
  induction bs as [|b bs IH]; [done|].
  cbn [le_int foldr length le_bytes]. fold (le_int bs).
  pose proof (Z_of_byte_range b).
  replace ((Z_of_byte b + 256 * le_int bs) mod 256) with (Z_of_byte b).
  2:{ apply (Z.mod_unique _ _ (le_int bs)); lia. }
  replace ((Z_of_byte b + 256 * le_int bs) / 256) with (le_int bs).
  2:{ apply (Z.div_unique _ _ _ (Z_of_byte b)); lia. }
  by rewrite byte_of_Z_of_byte, IH.
Qed.

Lemma le_int_zero bs : le_int bs = 0 → bs = replicate (length bs) x00.
Proof.
  intros H. rewrite <- (le_bytes_le_int bs) at 1. rewrite H.
  generalize (length bs). intros n. induction n as [|n IH]; [done|].
  cbn [le_bytes replicate]. rewrite Zdiv_0_l. by rewrite <- IH.
Qed.

Lemma unpack0_H b0 b1 : unpack0 "H" [b0; b1] = Some (Int (le_int [b0; b1])).
Proof. reflexivity. Qed.
Lemma unpack0_I b0 b1 b2 b3 : unpack0 "I" [b0; b1; b2; b3] = Some (Int (le_int [b0; b1; b2; b3])).
Proof. reflexivity. Qed.
Lemma unpack_If b0 b1 b2 b3 b4 b5 b6 b7 :
  unpack "If" [b0; b1; b2; b3; b4; b5; b6; b7]
  = Some [Int (le_int [b0; b1; b2; b3]); Float (f32_to_f64 (le_int [b4; b5; b6; b7]))].
Proof. reflexivity. Qed.
Lemma unpack_II b0 b1 b2 b3 b4 b5 b6 b7 :
  unpack "II" [b0; b1; b2; b3; b4; b5; b6; b7] = Some [Int (le_int [b0; b1; b2; b3]); Int (le_int [b4;b5;b6;b7])].
Proof. reflexivity. Qed.
Lemma unpack_HHI b0 b1 b2 b3 b4 b5 b6 b7 :
  unpack "HHI" [b0; b1; b2; b3; b4; b5; b6; b7] = Some [Int (le_int [b0; b1]); Int (le_int [b2;b3]); Int (le_int [b4;b5;b6;b7])].
Proof. reflexivity. Qed.

Lemma encode_le c bs :
  c ≠ cf → length bs = size_of c → encode_item c (Int (le_int bs)) = Some bs.
Proof.
  intros Hc Hlen. pose proof (le_int_range bs) as Hr. rewrite Hlen in Hr.
  destruct c; try done; cbn [encode_item]; rewrite decide_True by done;
    by rewrite <- Hlen, le_bytes_le_int.
Qed.

(** [pack] under code [f] writes back the four bytes [unpack] read, unless
    they hold a signalling NaN. *)
Lemma encode_float bs :
  length bs = 4%nat →
  encode_item cf (Float (f32_to_f64 (le_int bs))) = Some (le_bytes 4 (quiet32 (le_int bs))).
Proof.
  intros Hlen. cbn [encode_item float_value mbind option_bind].
  pose proof (le_int_range bs) as Hr. rewrite Hlen in Hr.
  by rewrite f64_to_f32_to_f64.
Qed.

Lemma encode_float_quiet bs :
  length bs = 4%nat → ¬ signalling32 (le_int bs) →
  encode_item cf (Float (f32_to_f64 (le_int bs))) = Some bs.
Proof.
  intros Hlen Hq. rewrite encode_float, quiet32_id by done.
  by rewrite <- Hlen, le_bytes_le_int.
Qed.

Lemma pack_floats_quiet (groups : list (list byte)) : ∀ off,
  (off mod 4 = 0)%nat →
  Forall (λ g, length g = 4%nat ∧ ¬ signalling32 (le_int g)) groups →
  pack_codes (replicate (length groups) cf) off
             ((λ g, Float (f32_to_f64 (le_int g))) <$> groups)
  = Some (mjoin groups).
Proof.
  induction groups as [|g groups IH]; intros off Hoff Hg; [done|].
  apply Forall_cons in Hg as [[Hlen Hq] Hg].
  cbn [length replicate fmap list_fmap pack_codes].
  rewrite encode_float_quiet by done. cbn [mbind option_bind].
  assert (padding off (size_of cf) = 0%nat) as ->.
  { unfold padding. cbn [size_of]. by rewrite Hoff. }
  rewrite IH; [done| |done].
  cbn [size_of]. rewrite Nat.add_0_r.
  rewrite <- Nat.Div0.add_mod_idemp_l, Hoff. done.
Qed.

Lemma umc_formats k fmt :
  possibly_umc_types !! k = Some fmt → fmt = "If" ∨ fmt = "II" ∨ fmt = "HHI".
Proof.
  assert (map_Forall (λ _ f, f ∈ ["If"; "II"; "HHI"]) possibly_umc_types) as H.
  { apply (bool_decide_unpack _). by vm_compute. }
  intros Hk. specialize (H k fmt Hk). set_solver.
Qed.


Lemma pack_int c bs fmt :
  parse_format fmt None = Some [c] → c ≠ cf → length bs = size_of c →
  pack fmt [Int (le_int bs)] = Some bs.
Proof.
  intros Hfmt Hc Hlen. unfold pack. rewrite Hfmt. cbn [mbind option_bind pack_codes].
  rewrite encode_le by done. cbn [mbind option_bind].
  replace (padding 0 (size_of c)) with 0%nat by (by destruct c).
  cbn. by rewrite app_nil_r.
Qed.

Lemma int_bytes bs z : Int (le_int bs) = Int z → bs = le_bytes (length bs) z.
Proof. intros [= <-]. by rewrite le_bytes_le_int. Qed.

Lemma pack_B b : pack "B" [Int (Z_of_byte b)] = Some [b].
Proof.
  pose proof (Z_of_byte_range b) as Hr.
  unfold pack. change (parse_format "B" None) with (Some [cB]).
  cbn [mbind option_bind pack_codes encode_item size_of].
  rewrite decide_True by (change (256 ^ Z.of_nat 1) with 256; done).
  cbn [le_bytes mbind option_bind]. rewrite Z.mod_small by done.
  by rewrite byte_of_Z_of_byte.
Qed.

Lemma pack_If a0 a1 a2 a3 a4 a5 a6 a7 :
  ¬ signalling32 (le_int [a4; a5; a6; a7]) →
  pack "If" [Int (le_int [a0; a1; a2; a3]); Float (f32_to_f64 (le_int [a4; a5; a6; a7]))]
  = Some [a0; a1; a2; a3; a4; a5; a6; a7].
Proof.
  intros Hq. unfold pack. change (parse_format "If" None) with (Some [cI; cf]).
  cbn [mbind option_bind pack_codes]. rewrite (encode_le cI) by done.
  rewrite (encode_float_quiet [a4; a5; a6; a7]) by done.
  reflexivity.
Qed.

Lemma umc_float_type k : possibly_umc_types !! k = Some "If" → k = 160.
Proof.
  assert (map_Forall (λ k f, f = "If" → k = 160) possibly_umc_types) as H.
  { apply (bool_decide_unpack _). by vm_compute. }
  intros Hk. by apply (H k "If").
Qed.

Lemma pack_II a0 a1 a2 a3 a4 a5 a6 a7 :
  pack "II" [Int (le_int [a0; a1; a2; a3]); Int (le_int [a4; a5; a6; a7])]
  = Some [a0; a1; a2; a3; a4; a5; a6; a7].
Proof.
  unfold pack. change (parse_format "II" None) with (Some [cI; cI]).
  cbn [mbind option_bind pack_codes]. rewrite !(encode_le cI) by done.
  reflexivity.
Qed.

Lemma pack_HHI a0 a1 a2 a3 a4 a5 a6 a7 :
  pack "HHI" [Int (le_int [a0; a1]); Int (le_int [a2; a3]); Int (le_int [a4; a5; a6; a7])]
  = Some [a0; a1; a2; a3; a4; a5; a6; a7].
Proof.
  unfold pack. change (parse_format "HHI" None) with (Some [cH; cH; cI]).
  cbn [mbind option_bind pack_codes].
  rewrite !(encode_le cH), (encode_le cI) by done.
  reflexivity.
Qed.

(** Re-encoding an unknown-component record that decodes gives back its
    24 bytes, unless the record is of type 160 and its float is a signalling
    NaN (which [unpack] has made quiet). *)
Theorem umc_roundtrip (data : list byte) t vals :
  length data = 24%nat →
  umc_factory data = Some (t, vals) →
  (t = 160 → ¬ signalling32 (le_int (slice 4 8 data))) →
  umc_data_factory t vals = Some data.
Proof.
  intros Hlen.
  destruct data as [|a0 [|a1 [|a2 [|a3 [|a4 [|a5 [|a6 [|a7 [|a8 [|a9 [|a10 [|a11 [|a12 [|a13 [|a14 [|a15 [|a16 [|a17 [|a18 [|a19 [|a20 [|a21 [|a22 [|a23 [|? ?]]]]]]]]]]]]]]]]]]]]]]]]]; try discriminate Hlen.
  clear Hlen. unfold umc_factory.
  change (slice 8 10 ?l) with [a8; a9].
  change (slice 10 12 ?l) with [a10; a11].
  change (slice 12 14 ?l) with [a12; a13].
  change (slice 14 16 ?l) with [a14; a15].
  change (slice 18 20 ?l) with [a18; a19].
  change (slice 20 24 ?l) with [a20; a21; a22; a23].
  change (slice 0 8 ?l) with [a0; a1; a2; a3; a4; a5; a6; a7].
  change (Py.index ?l 16) with (Some a16).
  change (Py.index ?l 17) with (Some a17).
  rewrite !unpack0_H, !unpack0_I.
  cbn [mbind option_bind fmap option_fmap option_map]. unfold assert.
  case_bool_decide as H8; [|done]. case_bool_decide as H10; [|done].
  case_bool_decide as H12; [|done]. case_bool_decide as H14; [|done].
  case_bool_decide as H17; [|done]. case_bool_decide as H18; [|done].
  case_bool_decide as H20; [|done].
  apply int_bytes in H8, H10, H12, H14, H18, H20.
  vm_compute in H8, H10, H12, H14, H18, H20.
  assert (a17 = x64) as -> by (by rewrite <- (byte_of_Z_of_byte a17), H17).
  injection H8 as -> ->. injection H10 as -> ->. injection H12 as -> ->.
  injection H14 as -> ->. injection H18 as -> ->. injection H20 as -> -> -> ->.
  destruct (possibly_umc_types !! Z_of_byte a16) as [fmt|] eqn:Hfmt; [|done].
  cbn [mbind option_bind]. unfold umc_data_factory.
  destruct (umc_formats _ _ Hfmt) as [->|[->| ->]].
  - rewrite unpack_If. cbn [mbind option_bind]. intros Heq Hq.
    replace t with (Z_of_byte a16) in * by congruence.
    replace vals with [Int (le_int [a0; a1; a2; a3]);
                       Float (f32_to_f64 (le_int [a4; a5; a6; a7]))] by congruence.
    rewrite Hfmt. cbn [mbind option_bind].
    rewrite pack_If, pack_B; [reflexivity|].
    apply Hq. by apply umc_float_type.
  - rewrite unpack_II. cbn [mbind option_bind]. intros Heq _.
    replace t with (Z_of_byte a16) by congruence.
    replace vals with [Int (le_int [a0; a1; a2; a3]); Int (le_int [a4; a5; a6; a7])]
      by congruence.
    rewrite Hfmt. cbn [mbind option_bind].
    rewrite pack_II, pack_B. reflexivity.
  - rewrite unpack_HHI. cbn [mbind option_bind]. intros Heq _.
    replace t with (Z_of_byte a16) by congruence.
    replace vals with [Int (le_int [a0; a1]); Int (le_int [a2; a3]);
                       Int (le_int [a4; a5; a6; a7])] by congruence.
    rewrite Hfmt. cbn [mbind option_bind].
    rewrite pack_HHI, pack_B. reflexivity.
Qed.

Lemma uniform_tables_inverse k n :
  shader_uniform_from_ids !! k = Some n → shader_uniform_from_names !! n = Some k.
Proof.
  assert (map_Forall (λ k n, shader_uniform_from_names !! n = Some k)
                     shader_uniform_from_ids) as H.
  { apply (bool_decide_unpack _). by vm_compute. }
  apply H.
Qed.

Lemma shader_uniforms_from_defn_Some key mk :
  shader_uniforms_from_defn key = Some mk →
  mk = λ payload, {| num_floats := key.2; data := payload |}.
Proof. unfold shader_uniforms_from_defn. case_decide; [|done]. by intros [= <-]. Qed.

Lemma unpack_codes_f_size n : ∀ off bs vals,
  (off mod 4 = 0)%nat →
  unpack_codes (replicate n cf) off bs = Some vals → length bs = (4 * n)%nat.
Proof.
  induction n as [|n IH]; intros off bs vals Hoff; cbn [replicate unpack_codes].
  - case_decide; [by subst|done].
  - assert (padding off (size_of cf) = 0%nat) as ->.
    { unfold padding. cbn [size_of]. by rewrite Hoff. }
    cbn [drop]. case_decide as Hlen; [|done].
    destruct (decode_item cf _); cbn [mbind option_bind]; [|done].
    destruct (unpack_codes _ _ _) as [vs|] eqn:Hrest; cbn [mbind option_bind]; [|done].
    intros _. apply IH in Hrest.
    + rewrite drop_0, length_drop in Hrest. cbn [size_of] in *. lia.
    + cbn [size_of]. rewrite Nat.add_0_r.
      rewrite <- Nat.Div0.add_mod_idemp_l, Hoff. done.
Qed.

Lemma float_count_bound (n : nat) (payload : list byte) vals :
  length payload = 16%nat →
  unpack (str_repeat "f" n) (take (n * 4) payload) = Some vals → (n ≤ 4)%nat.
Proof.
  intros Hlen. unfold unpack. rewrite parse_repeat_f. cbn [mbind option_bind].
  intros H%unpack_codes_f_size; [|done].
  rewrite length_take in H. lia.
Qed.

Lemma unpack_H8 a0 a1 a2 a3 a4 a5 a6 a7 a8 a9 a10 a11 a12 a13 a14 a15 :
  unpack (str_repeat "H" 8)
    [a0; a1; a2; a3; a4; a5; a6; a7; a8; a9; a10; a11; a12; a13; a14; a15]
  = Some [Int (le_int [a0; a1]); Int (le_int [a2; a3]); Int (le_int [a4; a5]);
          Int (le_int [a6; a7]); Int (le_int [a8; a9]); Int (le_int [a10; a11]);
          Int (le_int [a12; a13]); Int (le_int [a14; a15])].
Proof. reflexivity. Qed.

Lemma pack_H a0 a1 : pack "H" [Int (le_int [a0; a1])] = Some [a0; a1].
Proof. by apply (pack_int cH). Qed.

Lemma pack_HH a0 a1 a2 a3 :
  pack "HH" [Int (le_int [a0; a1]); Int (le_int [a2; a3])] = Some [a0; a1; a2; a3].
Proof.
  unfold pack. change (parse_format "HH" None) with (Some [cH; cH]).
  cbn [mbind option_bind pack_codes]. rewrite !(encode_le cH) by done.
  reflexivity.
Qed.

Lemma num_is_zero_int bs : num_is_zero (Int (le_int bs)) = true → bs = replicate (length bs) x00.
Proof. cbn [num_is_zero]. intros H%bool_decide_eq_true. by apply le_int_zero. Qed.

Lemma unpack_floats (groups : list (list byte)) : ∀ off,
  (off mod 4 = 0)%nat →
  Forall (λ g, length g = 4%nat) groups →
  unpack_codes (replicate (length groups) cf) off (mjoin groups)
  = Some ((λ g, Float (f32_to_f64 (le_int g))) <$> groups).
Proof.
  induction groups as [|g groups IH]; intros off Hoff Hg; [done|].
  apply Forall_cons in Hg as [Hlen Hg].
  cbn [length replicate fmap list_fmap unpack_codes].
  assert (padding off (size_of cf) = 0%nat) as ->.
  { unfold padding. cbn [size_of]. by rewrite Hoff. }
  change (mjoin (g :: groups)) with (g ++ mjoin groups).
  cbn [size_of]. rewrite drop_0, length_app, Hlen.
  rewrite decide_True by lia.
  rewrite take_app_length' by done. rewrite drop_app_length' by done.
  rewrite IH; [|by rewrite Nat.add_0_r, <- Nat.Div0.add_mod_idemp_l, Hoff|done].
  destruct g as [|? [|? [|? [|? [|? ?]]]]]; try discriminate Hlen. done.
Qed.

Lemma float_payload_roundtrip (groups : list (list byte)) (n : nat) payload :
  length groups = n →
  Forall (λ g, length g = 4%nat) groups →
  Forall (λ g, ¬ signalling32 (le_int g)) groups →
  unpack_codes (replicate n cf) 0 (mjoin groups) = Some payload →
  pack_codes (replicate n cf) 0 (take n payload) = Some (mjoin groups).
Proof.
  intros <- Hlen Hq. rewrite unpack_floats by done. intros [= <-].
  rewrite take_ge by (by rewrite length_fmap).
  apply pack_floats_quiet; [done|].
  apply Forall_forall. intros g Hg. split.
  - by apply (proj1 (Forall_forall _ _) Hlen).
  - by apply (proj1 (Forall_forall _ _) Hq).
Qed.

(** Re-encoding a shader-uniform record that decodes gives back its 24
    bytes when the float count is 0, or when the payload bytes past the floats
    are zero and no float is a signalling NaN (which [unpack] has made
    quiet). *)
Theorem shader_uniform_roundtrip_clean (data : list byte) name su :
  length data = 24%nat →
  shader_uniform_factory data = Some (name, su) →
  (num_floats su ≠ 0 →
   slice (Z.to_nat (4 * num_floats su)) 16 data
   = replicate (16 - Z.to_nat (4 * num_floats su)) x00) →
  (∀ k : nat, Z.of_nat k < num_floats su →
              ¬ signalling32 (le_int (slice (4 * k) (4 * k + 4) data))) →
  shader_uniform_data_factory name su = Some data.
Proof.
  intros Hlen.
  destruct data as [|a0 [|a1 [|a2 [|a3 [|a4 [|a5 [|a6 [|a7 [|a8 [|a9 [|a10 [|a11 [|a12 [|a13 [|a14 [|a15 [|a16 [|a17 [|a18 [|a19 [|a20 [|a21 [|a22 [|a23 [|? ?]]]]]]]]]]]]]]]]]]]]]]]]]; try discriminate Hlen.
  clear Hlen. unfold shader_uniform_factory.
  change (take 16 ?l) with [a0; a1; a2; a3; a4; a5; a6; a7; a8; a9; a10; a11; a12; a13; a14; a15].
  change (slice 18 20 ?l) with [a18; a19].
  change (drop 20 ?l) with [a20; a21; a22; a23].
  change (Py.index ?l 16) with (Some a16).
  change (Py.index ?l 17) with (Some a17).
  cbn [mbind option_bind fmap option_fmap option_map].
  destruct (shader_uniform_from_ids !! Z_of_byte a16) as [uname|] eqn:Hname; [|done].
  cbn [mbind option_bind]. rewrite unpack0_H, unpack0_I.
  cbn [mbind option_bind]. unfold assert.
  case_bool_decide as H18; [|done]. case_bool_decide as H20; [|done].
  apply int_bytes in H18, H20. vm_compute in H18, H20.
  injection H18 as -> ->. injection H20 as -> -> -> ->.
  apply uniform_tables_inverse in Hname.
  pose proof (Z_of_byte_range a17) as Hr17.
  destruct (decide (Z_of_byte a17 = 0)) as [Hz|Hnz].
  - assert (a17 = x00) as -> by (by rewrite <- (byte_of_Z_of_byte a17), Hz).
    rewrite unpack_H8. cbn [mbind option_bind].
    change (slice 1 6 ?l) with
      [Int (le_int [a2; a3]); Int (le_int [a4; a5]); Int (le_int [a6; a7]);
       Int (le_int [a8; a9]); Int (le_int [a10; a11])].
    cbn [forallb].
    destruct (num_is_zero (Int (le_int [a2; a3]))) eqn:Z1; [|done].
    destruct (num_is_zero (Int (le_int [a4; a5]))) eqn:Z2; [|done].
    destruct (num_is_zero (Int (le_int [a6; a7]))) eqn:Z3; [|done].
    destruct (num_is_zero (Int (le_int [a8; a9]))) eqn:Z4; [|done].
    destruct (num_is_zero (Int (le_int [a10; a11]))) eqn:Z5; [|done].
    apply num_is_zero_int in Z1, Z2, Z3, Z4, Z5.
    injection Z1 as -> ->. injection Z2 as -> ->. injection Z3 as -> ->.
    injection Z4 as -> ->. injection Z5 as -> ->.
    cbn [andb lookup list_lookup mbind option_bind drop].
    destruct (shader_uniforms_from_defn _) as [mk|] eqn:Hmk; [|done].
    apply shader_uniforms_from_defn_Some in Hmk as ->.
    cbn [mbind option_bind snd]. intros Heq _ _.
    replace name with uname by congruence.
    replace su with {| num_floats := Z_of_byte x00;
                       data := [Int (le_int [a0; a1]); Int (le_int [a12; a13]);
                                Int (le_int [a14; a15])] |} by congruence.
    unfold shader_uniform_data_factory. cbn [num_floats data].
    rewrite decide_True by done.
    cbn [lookup list_lookup mbind option_bind drop].
    rewrite pack_H, pack_HH, Hname. cbn [mbind option_bind].
    rewrite (pack_B a16). reflexivity.
  - destruct (unpack _ _) as [payload|] eqn:Hunpack; [|done].
    cbn [mbind option_bind].
    assert (Z.to_nat (Z_of_byte a17) ≤ 4)%nat as Hle.
    { eapply (float_count_bound _ [a0; a1; a2; a3; a4; a5; a6; a7; a8; a9; a10; a11; a12; a13; a14; a15]); [done|].
      rewrite <- Hunpack. f_equal. f_equal. lia. }
    rewrite (float_pad_check_vacuous _ _ _ Hunpack). cbn [forallb].
    destruct (shader_uniforms_from_defn _) as [mk|] eqn:Hmk; [|done].
    apply shader_uniforms_from_defn_Some in Hmk as ->.
    cbn [mbind option_bind snd]. intros Heq Hclean Hquiet.
    replace name with uname by congruence.
    replace su with {| num_floats := Z_of_byte a17;
                       data := take (Z.to_nat (Z_of_byte a17)) payload |} in *
      by congruence.
    cbn [num_floats] in Hclean, Hquiet. specialize (Hclean Hnz). clear Heq.
    assert (a17 = x01 ∨ a17 = x02 ∨ a17 = x03 ∨ a17 = x04) as Hcases.
    { rewrite <- (byte_of_Z_of_byte a17).
      assert (Z_of_byte a17 = 1 ∨ Z_of_byte a17 = 2 ∨ Z_of_byte a17 = 3 ∨ Z_of_byte a17 = 4)
        as [->|[->|[->| ->]]] by lia; auto. }
    unfold shader_uniform_data_factory. cbn [num_floats data].
    rewrite decide_False by done.
    pose proof (Hquiet 0%nat) as Hq0. pose proof (Hquiet 1%nat) as Hq1.
    pose proof (Hquiet 2%nat) as Hq2. pose proof (Hquiet 3%nat) as Hq3.
    change (slice (4 * 0) (4 * 0 + 4) ?l) with [a0; a1; a2; a3] in Hq0.
    change (slice (4 * 1) (4 * 1 + 4) ?l) with [a4; a5; a6; a7] in Hq1.
    change (slice (4 * 2) (4 * 2 + 4) ?l) with [a8; a9; a10; a11] in Hq2.
    change (slice (4 * 3) (4 * 3 + 4) ?l) with [a12; a13; a14; a15] in Hq3.
    clear Hquiet. unfold unpack in Hunpack.
    destruct Hcases as [->|[->|[->| ->]]].
    + change (Z_of_byte x01) with 1 in *.
      change (parse_format _ None) with (Some (replicate 1 cf)) in Hunpack.
      cbn [mbind option_bind] in Hunpack.
      change (take _ _) with
        (mjoin [[a0; a1; a2; a3]]) in Hunpack.
      apply float_payload_roundtrip in Hunpack;
        [|done|by repeat constructor|repeat constructor; auto with lia].
      change (pack (pretty 1 +:+ "f") ?v) with (pack_codes (replicate 1 cf) 0 v).
      change (Z.to_nat 1) with 1%nat. rewrite Hunpack. cbn [mbind option_bind].
      change (slice _ 16 ?l) with
        [a4; a5; a6; a7; a8; a9; a10; a11; a12; a13; a14; a15] in Hclean.
      injection Hclean; intros; subst.
      rewrite Hname. cbn [mbind option_bind]. rewrite (pack_B a16). reflexivity.
    + change (Z_of_byte x02) with 2 in *.
      change (parse_format _ None) with (Some (replicate 2 cf)) in Hunpack.
      cbn [mbind option_bind] in Hunpack.
      change (take _ _) with
        (mjoin [[a0; a1; a2; a3]; [a4; a5; a6; a7]]) in Hunpack.
      apply float_payload_roundtrip in Hunpack;
        [|done|by repeat constructor|repeat constructor; auto with lia].
      change (pack (pretty 2 +:+ "f") ?v) with (pack_codes (replicate 2 cf) 0 v).
      change (Z.to_nat 2) with 2%nat. rewrite Hunpack. cbn [mbind option_bind].
      change (slice _ 16 ?l) with
        [a8; a9; a10; a11; a12; a13; a14; a15] in Hclean.
      injection Hclean; intros; subst.
      rewrite Hname. cbn [mbind option_bind]. rewrite (pack_B a16). reflexivity.
    + change (Z_of_byte x03) with 3 in *.
      change (parse_format _ None) with (Some (replicate 3 cf)) in Hunpack.
      cbn [mbind option_bind] in Hunpack.
      change (take _ _) with
        (mjoin [[a0; a1; a2; a3]; [a4; a5; a6; a7]; [a8; a9; a10; a11]]) in Hunpack.
      apply float_payload_roundtrip in Hunpack;
        [|done|by repeat constructor|repeat constructor; auto with lia].
      change (pack (pretty 3 +:+ "f") ?v) with (pack_codes (replicate 3 cf) 0 v).
      change (Z.to_nat 3) with 3%nat. rewrite Hunpack. cbn [mbind option_bind].
      change (slice _ 16 ?l) with
        [a12; a13; a14; a15] in Hclean.
      injection Hclean; intros; subst.
      rewrite Hname. cbn [mbind option_bind]. rewrite (pack_B a16). reflexivity.
    + change (Z_of_byte x04) with 4 in *.
      change (parse_format _ None) with (Some (replicate 4 cf)) in Hunpack.
      cbn [mbind option_bind] in Hunpack.
      change (take _ _) with
        (mjoin [[a0; a1; a2; a3]; [a4; a5; a6; a7]; [a8; a9; a10; a11];
                 [a12; a13; a14; a15]]) in Hunpack.
      apply float_payload_roundtrip in Hunpack;
        [|done|by repeat constructor|repeat constructor; auto with lia].
      change (pack (pretty 4 +:+ "f") ?v) with (pack_codes (replicate 4 cf) 0 v).
      change (Z.to_nat 4) with 4%nat. rewrite Hunpack. cbn [mbind option_bind].
      rewrite Hname. cbn [mbind option_bind]. rewrite (pack_B a16). reflexivity.
Qed.

(** C5 at its failing input: the record has float count 1 and the byte 01
    at payload offset 4, past the 4-byte float prefix; the specification calls for a
    parse error, the decoder returns the uniform. *)
Theorem shader_uniform_dirty_tail_accepted :
  bumpiness_dirty_record !! 17%nat = Some x01
  ∧ bumpiness_dirty_record !! 4%nat = Some x01
  ∧ shader_uniform_factory bumpiness_dirty_record
    = Some ("Bumpiness", {| num_floats := 1; data := [Float 0x3ff0000000000000] |}).
Proof. by vm_compute. Qed.

(** C1 at its failing input: the same record decodes, and re-encoding the
    decoded uniform writes zeros over the payload tail, so that the bytes
    written differ from the bytes read. *)
Theorem shader_uniform_roundtrip_broken :
  ∃ name uniform,
    shader_uniform_factory bumpiness_dirty_record = Some (name, uniform)
    ∧ shader_uniform_data_factory name uniform = Some bumpiness_clean_record
    ∧ bumpiness_clean_record ≠ bumpiness_dirty_record.
Proof.
  exists "Bumpiness"%string, {| num_floats := 1; data := [Float 0x3ff0000000000000] |}.
  split; [by vm_compute|]. split; [by vm_compute|]. by intros [=].
Qed.

End RecordFacts.

Section AnimFacts.
Import Anims.
Context {V : Type}.

Lemma mask_frames_shift (mask : list ascii) : ∀ (k : nat) (c : Z),
  omap (λ je : nat * ascii,
          if decide (je.2 = "1"%char) then Some (Z.of_nat je.1 + c + 1) else None)
       (imap (λ i x, ((k + i)%nat, x)) mask)
  = mask_frames (c + Z.of_nat k) mask.
Proof.
  unfold mask_frames, Py.enumerate.
  induction mask as [|e mask IH]; intros k c; [done|].
  rewrite !imap_cons. cbn [omap list_omap]. cbn [fst snd].
  rewrite (imap_ext _ (λ i x, ((S k + i)%nat, x))) by (intros; simpl; f_equal; lia).
  rewrite IH.
  rewrite (imap_ext ((λ i x, (i, x)) ∘ S) (λ i x, ((1 + i)%nat, x))) by done.
  rewrite (IH 1%nat (c + Z.of_nat k)).
  replace (c + Z.of_nat k + Z.of_nat 1) with (c + Z.of_nat (S k)) by lia.
  replace (Z.of_nat (k + 0) + c + 1) with (Z.of_nat 0 + (c + Z.of_nat k) + 1) by lia.
  done.
Qed.

Lemma mask_frames_cons c e mask :
  mask_frames c (e :: mask)
  = (if decide (e = "1"%char) then [c + 1] else []) ++ mask_frames (c + 1) mask.
Proof.
  unfold mask_frames at 1. unfold Py.enumerate. rewrite imap_cons.
  cbn [omap list_omap]. cbn [fst snd].
  rewrite (imap_ext ((λ i x, (i, x)) ∘ S) (λ i x, ((1 + i)%nat, x))) by done.
  rewrite mask_frames_shift.
  change (Z.of_nat 1) with 1. change (Z.of_nat 0 + c + 1) with (c + 1).
  by destruct (decide (e = "1"%char)).
Qed.

Lemma mask_frames_elem c mask f :
  f ∈ mask_frames c mask ↔
  ∃ j : nat, mask !! j = Some "1"%char ∧ f = c + Z.of_nat j + 1.
Proof.
  revert c. induction mask as [|e mask IH]; intros c.
  - split; [by intros ?%elem_of_nil|]. by intros (j & ? & _).
  - rewrite mask_frames_cons, elem_of_app, IH. split.
    + intros [Hf|(j & Hj & ->)].
      * destruct (decide (e = "1"%char)) as [->|]; [|by apply elem_of_nil in Hf].
        apply list_elem_of_singleton in Hf as ->. exists 0%nat. split; [done|lia].
      * exists (S j). split; [done|lia].
    + intros ([|j] & Hj & ->).
      * left. simpl in Hj. injection Hj as ->. rewrite decide_True by done.
        apply list_elem_of_singleton. lia.
      * right. exists j. split; [done|lia].
Qed.

Lemma mask_frames_bounds c mask f :
  f ∈ mask_frames c mask → c < f ≤ c + Z.of_nat (length mask).
Proof.
  intros (j & Hj & ->)%mask_frames_elem.
  apply lookup_lt_Some in Hj. lia.
Qed.

(** The bitmasks of a block: [chunks] is not called with a span of 0. *)
Lemma block_chunks {A} (lst : list A) (nframes : Z) :
  (if decide (nframes ≠ 0) then chunks lst nframes else Some [])
  = Some (if decide (0 < nframes)
          then chunks_upto (length lst) lst (Z.to_nat nframes) else []).
Proof.
  unfold chunks. destruct (decide (nframes ≠ 0)) as [Hn|Hn].
  - by rewrite decide_False.
  - rewrite decide_False by lia. done.
Qed.

Lemma consumed_S c mask masks i :
  consumed c (mask :: masks) (S i)
  = (length (mask_frames c mask) + consumed c masks i)%nat.
Proof. done. Qed.

End AnimFacts.

Section MeshFacts.
Import Meshes.
Context {U : Type}.

Lemma py_index_nat {A} (l : list A) (n : nat) : Py.index l (Z.of_nat n) = l !! n.
Proof.
  unfold Py.index, Py.resolve. rewrite decide_True by lia.
  case_decide as Hlt; simpl.
  - by rewrite Nat2Z.id.
  - symmetry. apply lookup_ge_None. lia.
Qed.

Lemma py_update_nat {A} (l : list A) (n : nat) (f : A → A) x :
  l !! n = Some x → Py.update l (Z.of_nat n) f = Some (<[n := f x]> l).
Proof.
  intros Hx. unfold Py.update, Py.resolve. rewrite decide_True by lia.
  apply lookup_lt_Some in Hx as Hlt. rewrite decide_True by lia. simpl.
  by rewrite Nat2Z.id, Hx.
Qed.

Lemma py_update_Z {A} (l : list A) (z : Z) (f : A → A) x :
  0 ≤ z → l !! Z.to_nat z = Some x →
  Py.update l z f = Some (<[Z.to_nat z := f x]> l).
Proof.
  intros Hz Hx. rewrite <- (py_update_nat _ _ _ _ Hx). by rewrite Z2Nat.id.
Qed.


(** *** The UV channel *)

Lemma add_vertex_step_vertices mode (m m' : MeshData.t U) i vertex :
  add_vertex_step mode m (i, vertex) = Some m' →
  ∃ v', MeshData.vertices m' = MeshData.vertices m ++ [v']
        ∧ flip_uv (GeomVertex.UV vertex) = Some (Vertex.UV v').
Proof.
  unfold add_vertex_step.
  destruct (flip_uv _) as [uv|]; simpl; [|done].
  destruct (assign_groups _ _ _ _) as [[vg gs]|]; simpl; [|done].
  destruct (GeomVertex.Position vertex) as [pos|]; simpl; [|done].
  intros [= <-]. simpl. eauto.
Qed.

Lemma add_vertices_vertices mode ivs : ∀ (m m' : MeshData.t U),
  add_vertices mode m ivs = Some m' →
  ∃ new, MeshData.vertices m' = MeshData.vertices m ++ new
         ∧ Forall2 (λ iv v', flip_uv (GeomVertex.UV iv.2) = Some (Vertex.UV v'))
                   ivs new.
Proof.
  induction ivs as [|[i vertex] ivs IH]; intros m m'; cbn [add_vertices].
  - intros [= <-]. exists []. by rewrite app_nil_r.
  - destruct (add_vertex_step mode m (i, vertex)) as [m1|] eqn:Hstep;
      cbn [mbind option_bind]; [|done].
    intros Hrest. apply add_vertex_step_vertices in Hstep as (v' & Hv & Huv).
    apply IH in Hrest as (new & Hnew & Hall).
    exists (v' :: new). rewrite Hnew, Hv, <- app_assoc. split; [done|].
    by constructor.
Qed.

Lemma py_index_last {A} (l : list A) : Py.index l (-1) = last l.
Proof.
  unfold Py.index, Py.resolve. rewrite decide_False by lia.
  destruct l as [|x l] using rev_ind.
  - rewrite decide_False by (simpl; lia). done.
  - rewrite last_snoc, length_app. cbn [length].
    rewrite decide_True by lia. cbn [mbind option_bind].
    replace (Z.to_nat (Z.of_nat (length l + 1) + -1)) with (length l) by lia.
    by rewrite lookup_app_r, Nat.sub_diag by lia.
Qed.

Lemma flip_uv_Some (uv : list float) r :
  flip_uv (Some uv) = Some r →
  ∃ u v, uv !! 0%nat = Some u ∧ last uv = Some v ∧ r = Some (u, (1 - v)%float).
Proof.
  unfold flip_uv. rewrite py_index_last.
  replace (Py.index uv 0) with (uv !! 0%nat)
    by (symmetry; apply (py_index_nat uv 0)).
  destruct (uv !! 0%nat) as [u|]; cbn [mbind option_bind]; [|done].
  destruct (last uv) as [v|]; cbn [mbind option_bind]; [|done].
  intros [= <-]. eauto.
Qed.

(** C10: in an assembled mesh, the vertex at position [i] comes from the
    raw vertex at position [i].  When the raw vertex carries a UV channel,
    the assembled vertex has the UV pair of the channel's first component
    and of 1 minus its last component: [(u, 1 - v)] for a channel [(u, v)].
    When it carries none, the assembled vertex has UV [None].  The
    subtraction is the one of Python's floats, in double precision: for
    [v] = 2^-60 it gives 1. *)
Theorem add_meshes_uv_flip (mesh : GeomMesh.t U) (md : MeshData.t U) :
  add_mesh mesh = Some md →
  length (MeshData.vertices md) = length (GeomMesh.vertex_data mesh)
  ∧ (∀ i vertex, GeomMesh.vertex_data mesh !! i = Some vertex →
       ∃ v', MeshData.vertices md !! i = Some v'
             ∧ (GeomVertex.UV vertex = None → Vertex.UV v' = None)
             ∧ (∀ u v, GeomVertex.UV vertex = Some [u; v] →
                       Vertex.UV v' = Some (u, (1 - v)%float))
             ∧ (∀ uv, GeomVertex.UV vertex = Some uv →
                      ∃ u v, uv !! 0%nat = Some u ∧ last uv = Some v
                             ∧ Vertex.UV v' = Some (u, (1 - v)%float)))
  ∧ flip_uv (Some [0.5; 0x1p-60]%float) = Some (Some (0.5, 1)%float).
Proof.
  unfold add_mesh.
  destruct (add_vertices _ _ _) as [m|] eqn:Hvs; simpl; [|done].
  destruct (Polys.triangle_converters !! _) as [conv|]; simpl; [|done].
  intros [= <-]. simpl.
  apply add_vertices_vertices in Hvs as (new & Hnew & Hall). simpl in Hnew.
  rewrite Hnew. split; [|split; [|by vm_compute]].
  - apply Forall2_length in Hall. rewrite <- Hall.
    unfold Py.enumerate. by rewrite length_imap.
  - intros i vertex Hi.
    assert (Py.enumerate (GeomMesh.vertex_data mesh) !! i = Some (i, vertex)) as Hen.
    { unfold Py.enumerate. by rewrite list_lookup_imap, Hi. }
    destruct (Forall2_lookup_l _ _ _ _ _ Hall Hen) as (v' & Hv' & Huv).
    exists v'. split; [done|]. cbn [snd] in Huv. split; [|split].
    + intros Hnone. rewrite Hnone in Huv. simpl in Huv. by injection Huv as <-.
    + intros u v Hsome. rewrite Hsome in Huv.
      apply flip_uv_Some in Huv as (u' & v'' & Hu & Hl & ->).
      cbn in Hu, Hl. by injection Hu as <-; injection Hl as <-.
    + intros uv Hsome. rewrite Hsome in Huv.
      apply flip_uv_Some in Huv as (u & v & Hu & Hl & ->). eauto.
Qed.

End MeshFacts.

Lemma add_meshes_uv_flip_witness :
  ∃ md, Meshes.add_mesh (Meshes.example_mesh 0) = Some md
        ∧ (∃ v', MeshData.vertices md !! 0%nat = Some v'
                 ∧ Vertex.UV v' = Some (0.25, 0.75)%float)
        ∧ (∃ v', MeshData.vertices md !! 1%nat = Some v' ∧ Vertex.UV v' = None).
Proof.
  destruct (Meshes.add_mesh (Meshes.example_mesh 0)) as [md|] eqn:Hrun;
    [|vm_compute in Hrun; discriminate Hrun].
  exists md. split; [reflexivity|].
  destruct (add_meshes_uv_flip _ _ Hrun) as (_ & Hall & _).
  split.
  - destruct (Hall 0%nat Meshes.vertex_with_uv eq_refl) as (v' & Hv' & _ & Huv & _).
    exists v'. split; [exact Hv'|]. exact (Huv _ _ eq_refl).
  - destruct (Hall 1%nat Meshes.vertex_without_uv eq_refl) as (v' & Hv' & Huv & _).
    exists v'. split; [exact Hv'|]. exact (Huv eq_refl).
Defined.

Section SkeletonFacts.
Import Skeleton.
Context {F U : Type} (fneg : F → F) (np_dot : mat3 (F := F) → vec3 (F := F) → vec3 (F := F)).

(** The first statement of the loop body that touches the skeleton reads
    an attribute that the skeleton does not have. *)
Lemma add_bone_no_attribute (skeleton : t (F := F) (U := U)) b :
  skeleton !! "bone_positions" = None → add_bone fneg np_dot skeleton b = None.
Proof. intros Hno. unfold add_bone, attr_append. by rewrite Hno. Qed.

Lemma add_bone_stores (skeleton : t (F := F) (U := U)) ps b :
  bone_lists skeleton ps →
  ∃ skeleton', add_bone fneg np_dot skeleton b = Some skeleton'
    ∧ bone_lists skeleton' (ps ++ [Vector (transposed_axes_position fneg np_dot b)]).
Proof.
  intros (Hp & [lx Hx] & [ly Hy] & [lz Hz] & d & l & Hd & Ht).
  unfold add_bone, attr_append, unknown_append, bone_lists. unfold t in *.
  rewrite Hp. cbn [mbind option_bind].
  rewrite lookup_insert_ne, Hx by done. cbn [mbind option_bind].
  rewrite !lookup_insert_ne, Hy by done. cbn [mbind option_bind].
  rewrite !lookup_insert_ne, Hz by done. cbn [mbind option_bind].
  rewrite !lookup_insert_ne, Hd by done. cbn [mbind option_bind].
  rewrite Ht. cbn [mbind option_bind].
  eexists. split; [done|].
  repeat (rewrite ?lookup_insert_eq, ?lookup_insert_ne by done).
  split.
  - do 3 f_equal. unfold transposed_axes_position, np_T, np_array.
    by destruct (x_axis b) as [[? ?] ?], (y_axis b) as [[? ?] ?], (z_axis b) as [[? ?] ?].
  - split; [eauto|]. split; [eauto|]. split; [eauto|].
    eexists _, _. split; [done|]. by rewrite lookup_insert_eq.
Qed.

Lemma add_bones_stores bones : ∀ (skeleton : t (F := F) (U := U)) ps,
  bone_lists skeleton ps →
  ∃ skeleton', add_bones fneg np_dot skeleton bones = Some skeleton'
    ∧ bone_lists skeleton'
        (ps ++ ((λ b, Vector (transposed_axes_position fneg np_dot b)) <$> bones)).
Proof.
  induction bones as [|b bones IH]; intros skeleton ps Hsk.
  - exists skeleton. by rewrite app_nil_r.
  - destruct (add_bone_stores skeleton ps b Hsk) as (sk1 & H1 & Hsk1).
    destruct (IH _ _ Hsk1) as (sk2 & H2 & Hsk2).
    exists sk2. cbn [add_bones]. rewrite H1. cbn [mbind option_bind].
    split; [done|]. by rewrite <- app_assoc in Hsk2.
Qed.

Lemma unknown_set_positions (skeleton : t (F := F) (U := U)) key e :
  (∃ d, skeleton !! "unknown_data" = Some (PyDict d)) →
  ∃ skeleton', unknown_set skeleton key e = Some skeleton'
    ∧ skeleton' !! "bone_positions" = skeleton !! "bone_positions"
    ∧ ∃ d, skeleton' !! "unknown_data" = Some (PyDict d).
Proof.
  intros [d Hd]. unfold unknown_set. unfold t in *. rewrite Hd. cbn [mbind option_bind].
  eexists. split; [done|]. rewrite lookup_insert_ne by done.
  rewrite lookup_insert_eq. eauto.
Qed.

(** C8: [add_skeleton] assembles no bone position.  On the skeleton of a
    new [IntermediateFormat], the loop body computes the product of the
    transposed axis matrix with the negated raw position and then appends it
    to [model_data.skeleton.bone_positions], an attribute that
    [class Skeleton] does not create: with one bone transform record or
    more the call raises [AttributeError], and it completes only when there
    is none.  On a skeleton that has the four lists the loop appends to, the
    call completes, and the positions it stores are those of the
    specification: for each record the product of the transpose of the axis
    matrix with the negated raw position. *)
Theorem add_skeleton_attribute_error (names : list string)
    (imported_skeldata : SkelReader (U := U)) (bones : list (BoneData (F := F))) :
  (new (F := F) (U := U)) !! "bone_positions" = None
  ∧ (is_Some (add_skeleton fneg np_dot new names imported_skeldata bones)
     ↔ bones = [])
  ∧ (∀ b rest, add_skeleton fneg np_dot new names imported_skeldata (b :: rest) = None)
  ∧ ∃ skeleton,
      add_skeleton fneg np_dot (with_bone_lists new) names imported_skeldata bones
      = Some skeleton
      ∧ skeleton !! "bone_positions"
        = Some (PyList ((λ b, Vector (transposed_axes_position fneg np_dot b)) <$> bones)).
Proof.
  assert (∀ b rest, add_skeleton fneg np_dot new names imported_skeldata (b :: rest)
                    = None) as Hfail.
  { intros b rest. unfold add_skeleton.
    destruct (unknown_set _ "transforms" _) as [sk|] eqn:Hsk;
      cbn [mbind option_bind]; [|done].
    cbn [add_bones]. rewrite add_bone_no_attribute; [done|].
    unfold unknown_set in Hsk.
    destruct (setattr _ _ _ !! "unknown_data") as [[|d]|];
      cbn [mbind option_bind] in Hsk; try done.
    injection Hsk as <-. by vm_compute. }
  split; [by vm_compute|]. split; [|split; [exact Hfail|]].
  - split.
    + intros Hsome. destruct bones as [|b rest]; [done|].
      rewrite Hfail in Hsome. by destruct Hsome.
    + intros ->. unfold add_skeleton, unknown_set, setattr. cbn [add_bones].
      repeat (rewrite ?lookup_insert_eq, ?lookup_insert_ne by done;
              cbn [mbind option_bind]).
      eauto.
  - unfold add_skeleton.
    set (sk0 := setattr (setattr (with_bone_lists new) _ _) _ _).
    assert (∃ sk1, unknown_set sk0 "transforms" (Items []) = Some sk1
                   ∧ bone_lists sk1 []) as (sk1 & -> & Hsk1).
    { unfold unknown_set, sk0, with_bone_lists, setattr, new, bone_lists. unfold t.
      repeat (rewrite ?lookup_insert_eq, ?lookup_insert_ne by done).
      change (({[ "bone_names" := PyList [];
                  "inverse_bind_pose_matrices" := PyList [];
                  "rest_pose" := PyList [];
                  "rest_pose_delta" := PyList [];
                  "bone_relations" := PyList [];
                  "unknown_data" := PyDict ∅ ]} : gmap string value) !! "unknown_data")
        with (Some (PyDict (F := F) (U := U) ∅)).
      cbn [mbind option_bind]. eexists. split; [done|].
      repeat (rewrite ?lookup_insert_eq, ?lookup_insert_ne by done).
      split; [done|]. split; [eauto|]. split; [eauto|]. split; [eauto|].
      eexists _, _. split; [done|]. by rewrite lookup_insert_eq. }
    cbn [mbind option_bind].
    destruct (add_bones_stores bones sk1 [] Hsk1) as (sk2 & -> & Hsk2).
    cbn [mbind option_bind app] in *.
    destruct Hsk2 as (Hp & _ & _ & _ & d & _ & Hd & _).
    destruct (unknown_set_positions sk2 "unknown_0x0C"
                (Opaque (unknown_0x0C imported_skeldata))) as (sk3 & -> & Hp3 & Hd3);
      [eauto|]. cbn [mbind option_bind].
    destruct (unknown_set_positions sk3 "unknown_parent_child_data"
                (Opaque (unknown_parent_child_data imported_skeldata)))
      as (sk4 & -> & Hp4 & Hd4); [done|]. cbn [mbind option_bind].
    destruct (unknown_set_positions sk4 "bone_data"
                (Opaque (bone_data imported_skeldata))) as (sk5 & -> & Hp5 & Hd5);
      [done|]. cbn [mbind option_bind].
    destruct (unknown_set_positions sk5 "unknown_data_1"
                (Opaque (unknown_data_1 imported_skeldata))) as (sk6 & -> & Hp6 & Hd6);
      [done|]. cbn [mbind option_bind].
    destruct (unknown_set_positions sk6 "unknown_data_2"
                (Opaque (unknown_data_2 imported_skeldata))) as (sk7 & -> & Hp7 & Hd7);
      [done|]. cbn [mbind option_bind].
    destruct (unknown_set_positions sk7 "unknown_data_3"
                (Opaque (unknown_data_3 imported_skeldata))) as (sk8 & -> & Hp8 & Hd8);
      [done|]. cbn [mbind option_bind].
    destruct (unknown_set_positions sk8 "unknown_data_4"
                (Opaque (unknown_data_4 imported_skeldata))) as (sk9 & -> & Hp9 & Hd9);
      [done|].
    exists sk9. split; [done|]. congruence.
Qed.

End SkeletonFacts.

Section MaterialFacts.
Import Materials.

Lemma add_component_name md c :
  component_ok c →
  ∃ md', add_component md c = Some md' ∧ MaterialData.name md' = MaterialData.name md.
Proof.
  unfold component_ok, add_component. intros Hok.
  destruct c as [ty data]. simpl in *.
  assert (ty ∈ [50; 56; 72] → ∃ d, Py.index data 0 = Some d) as Hd.
  { intros Hty. destruct data as [|d data]; [by destruct (Hok Hty)|]. by exists d. }
  repeat case_decide; subst.
  - destruct Hd as [d ->]; [set_solver|]. simpl. eauto.
  - simpl. eauto.
  - destruct Hd as [d ->]; [set_solver|]. simpl. eauto.
  - destruct Hd as [d ->]; [set_solver|]. simpl. eauto.
  - simpl. eauto.
Qed.

Lemma add_components_name cs : ∀ md,
  Forall component_ok cs →
  ∃ md', add_components md cs = Some md' ∧ MaterialData.name md' = MaterialData.name md.
Proof.
  induction cs as [|c cs IH]; intros md Hok; simpl; [eauto|].
  apply Forall_cons in Hok as [Hc Hcs].
  destruct (add_component_name md c Hc) as (md1 & -> & Hn1). simpl.
  destruct (IH md1 Hcs) as (md2 & -> & Hn2). exists md2. split; [done|congruence].
Qed.

Lemma add_unknowns_name us : ∀ md,
  MaterialData.name (fold_left add_unknown us md) = MaterialData.name md.
Proof. induction us as [|u us IH]; intros md; simpl; [done|]. by rewrite IH. Qed.

Lemma add_material_name filename i m :
  material_ok m →
  ∃ md, add_material filename i m = Some md
        ∧ MaterialData.name md = Some (filename +:+ "_mat_" +:+ format_03d i).
Proof.
  intros Hok. unfold add_material.
  edestruct add_components_name as (md & -> & Hn); [exact Hok|]. simpl.
  eexists. split; [done|]. by rewrite add_unknowns_name, Hn.
Qed.

(** C9: whatever the name table holds, and however many names there are,
    [add_materials] completes on the materials of the geometry file and
    makes one material per geometry material, each named from the file name
    and its index ("<filename>_mat_<index, three digits>"); no material
    takes a name from the name table. *)
Theorem add_materials_synthesized_names (model_data : Model)
    (material_data : list GeomMaterial.t) (filename : string) :
  Forall material_ok material_data →
  ∃ new,
    (∀ names, add_materials model_data names material_data filename
              = Some {| materials := materials model_data ++ new;
                        material_names := Some names |})
    ∧ length new = length material_data
    ∧ (∀ i md, new !! i = Some md →
               MaterialData.name md = Some (filename +:+ "_mat_" +:+ format_03d i))
    ∧ format_03d 7 = "007" ∧ format_03d 1234 = "1234".
Proof.
  intros Hok.
  assert (is_Some (mapM (λ im, add_material filename im.1 im.2)
                        (Py.enumerate material_data))) as [new Hnew].
  { apply mapM_is_Some, Forall_forall. intros [i m] Him. simpl.
    apply list_elem_of_lookup in Him as [k Hk].
    unfold Py.enumerate in Hk. rewrite list_lookup_imap in Hk.
    destruct (material_data !! k) as [m'|] eqn:Hm; [|done].
    simpl in Hk. injection Hk as <- <-.
    destruct (add_material_name filename k m') as (md & -> & _); [|done].
    eapply Forall_lookup_1; eauto. }
  exists new. split; [|split; [|split]].
  - intros names. unfold add_materials. by rewrite Hnew.
  - apply mapM_Some, Forall2_length in Hnew. rewrite <- Hnew.
    unfold Py.enumerate. by rewrite length_imap.
  - intros i md Hi. apply mapM_Some in Hnew.
    destruct (Forall2_lookup_r _ _ _ _ _ Hnew Hi) as ([k m] & Hk & Hrun).
    unfold Py.enumerate in Hk. rewrite list_lookup_imap in Hk.
    destruct (material_data !! i) as [m'|] eqn:Hm; [|done].
    simpl in Hk, Hrun. injection Hk as <- <-. simpl in Hrun.
    destruct (add_material_name filename i m') as (md' & Hrun' & Hname).
    { eapply Forall_lookup_1; eauto. }
    congruence.
  - by vm_compute.
Qed.

End MaterialFacts.

Lemma add_materials_synthesized_names_witness :
  ∃ new,
    Materials.add_materials
      {| Materials.materials := []; Materials.material_names := None |}
      ["body"] Materials.example_materials "chr001"
    = Some {| Materials.materials := new; Materials.material_names := Some ["body"] |}
    ∧ length new = 2%nat
    ∧ ∀ i md, new !! i = Some md →
        MaterialData.name md = Some ("chr001_mat_" +:+ Materials.format_03d i).
Proof.
  destruct (add_materials_synthesized_names
              {| Materials.materials := []; Materials.material_names := None |}
              Materials.example_materials "chr001")
    as (new & Hrun & Hlen & Hnames & _).
  - repeat constructor; intros Hty; discriminate.
  - exists new. split; [exact (Hrun ["body"])|]. split; [exact Hlen|]. exact Hnames.
Defined.

Section ImportFacts.
Import BlenderImport.
Context {M : Type} (negated : M → M) (bone_names : list string).

Lemma import_bone_duplicate arm seen c p :
  seen_built bone_names arm seen → c ∈ seen →
  import_bone negated bone_names arm (c, p) = Some arm.
Proof.
  intros Hinv Hc. destruct (Hinv c Hc) as (n & Hn & Hb).
  unfold import_bone. rewrite Hn. cbn [mbind option_bind].
  by rewrite decide_True.
Qed.

Lemma import_bone_seen arm arm' seen c p :
  seen_built bone_names arm seen →
  import_bone negated bone_names arm (c, p) = Some arm' →
  seen_built bone_names arm' (c :: seen).
Proof.
  intros Hinv Hstep. unfold import_bone in Hstep.
  destruct (bone_names !! c) as [n|] eqn:Hn; cbn [mbind option_bind] in Hstep; [|done].
  case_decide as Hin.
  - injection Hstep as <-. intros c' [->|Hc']%elem_of_cons; [eauto|by apply Hinv].
  - destruct (bone_matrices arm !! c) as [bm|]; cbn [mbind option_bind] in Hstep; [|done].
    match type of Hstep with
    | (?pb ≫= _) = _ => destruct pb as [pb'|]; cbn [mbind option_bind] in Hstep; [|done]
    end.
    injection Hstep as <-.
    intros c' [->|Hc']%elem_of_cons; cbn [list_of_bones].
    + exists n. by rewrite lookup_insert_eq.
    + destruct (Hinv c' Hc') as (n' & Hn' & Hb'). exists n'. split; [done|].
      rewrite lookup_insert. by case_decide.
Qed.

(** A relation whose child id was met before leaves the armature as it
    is, so the import runs as it does on the first occurrences alone. *)
Lemma import_bones_first_occurrences rels : ∀ arm seen,
  seen_built bone_names arm seen →
  import_bones negated bone_names arm rels
  = import_bones negated bone_names arm (first_occurrences_from seen rels).
Proof.
  induction rels as [|[c p] rels IH]; intros arm seen Hinv; [done|].
  cbn [first_occurrences_from]. case_decide as Hc.
  - cbn [import_bones]. rewrite (import_bone_duplicate arm seen) by done.
    cbn [mbind option_bind]. by apply IH.
  - cbn [import_bones].
    destruct (import_bone negated bone_names arm (c, p)) as [arm'|] eqn:Hstep;
      cbn [mbind option_bind]; [|done].
    apply IH. by eapply import_bone_seen.
Qed.

Lemma import_bone_fresh arm arm' seen c p :
  NoDup bone_names → built_seen bone_names arm seen → c ∉ seen →
  import_bone negated bone_names arm (c, p) = Some arm' →
  ∃ bone, edit_bones arm' = edit_bones arm ++ [bone]
          ∧ bone_of bone_names bone (c, p)
          ∧ built_seen bone_names arm' (c :: seen).
Proof.
  intros Hnd Hinv Hc Hstep. unfold import_bone in Hstep.
  destruct (bone_names !! c) as [n|] eqn:Hn; cbn [mbind option_bind] in Hstep; [|done].
  case_decide as Hin.
  { exfalso. destruct Hin as [b Hb]. destruct (Hinv n b Hb) as (_ & c' & Hc' & Hn').
    by rewrite (NoDup_lookup _ _ _ _ Hnd Hn Hn') in Hc. }
  destruct (bone_matrices arm !! c) as [bm|]; cbn [mbind option_bind] in Hstep; [|done].
  match type of Hstep with
  | (?pb ≫= _) = _ => destruct pb as [pb'|] eqn:Hpb; cbn [mbind option_bind] in Hstep; [|done]
  end.
  injection Hstep as <-. eexists. split; [done|]. split; [split|].
  - done.
  - cbn [parent snd]. case_decide as Hp; [|by injection Hpb as <-].
    destruct (Py.index bone_names p) as [pn|]; cbn [mbind option_bind] in Hpb; [|done].
    rewrite lookup_insert in Hpb. case_decide as Hpn.
    + cbn [mbind option_bind] in Hpb. injection Hpb as <-. by subst.
    + destruct (list_of_bones arm !! pn) as [pbone|] eqn:Hpbone;
        cbn [mbind option_bind] in Hpb; [|done].
      injection Hpb as <-. by destruct (Hinv pn pbone Hpbone) as [-> _].
  - intros k b. cbn [list_of_bones]. rewrite lookup_insert.
    destruct (decide (n = k)) as [<-|Hk].
    + intros Hb. injection Hb as <-. split; [done|].
      exists c. split; [by left|done].
    + intros Hb. destruct (Hinv k b Hb) as (Hname & c' & Hc' & Hn').
      split; [done|]. exists c'. split; [by right|done].
Qed.

Lemma import_bones_edit_bones rels : ∀ arm arm' seen,
  NoDup bone_names → built_seen bone_names arm seen →
  import_bones negated bone_names arm (first_occurrences_from seen rels) = Some arm' →
  ∃ new, edit_bones arm' = edit_bones arm ++ new
         ∧ Forall2 (bone_of bone_names) new (first_occurrences_from seen rels).
Proof.
  induction rels as [|[c p] rels IH]; intros arm arm' seen Hnd Hinv.
  { intros [= <-]. exists []. by rewrite app_nil_r. }
  cbn [first_occurrences_from]. case_decide as Hc; [by apply IH|].
  cbn [import_bones].
  destruct (import_bone negated bone_names arm (c, p)) as [arm1|] eqn:Hstep;
    cbn [mbind option_bind]; [|done].
  intros Hrest.
  destruct (import_bone_fresh _ _ _ _ _ Hnd Hinv Hc Hstep) as (bone & Hb & Hof & Hinv1).
  destruct (IH _ _ _ Hnd Hinv1 Hrest) as (new & Hnew & Hall).
  exists (bone :: new). rewrite Hnew, Hb, <- app_assoc. split; [done|].
  by constructor.
Qed.

Lemma first_occurrences_from_spec rels : ∀ seen c p,
  (c, p) ∈ first_occurrences_from seen rels →
  (c ∉ seen)
  ∧ ∃ i, rels !! i = Some (c, p)
         ∧ ∀ j p', (j < i)%nat → rels !! j ≠ Some (c, p').
Proof.
  induction rels as [|[c0 p0] rels IH]; intros seen c p.
  { by intros ?%elem_of_nil. }
  cbn [first_occurrences_from]. case_decide as Hc0.
  - intros Hin. destruct (IH _ _ _ Hin) as (Hc & i & Hi & Hfirst).
    split; [done|]. exists (S i). split; [done|].
    intros [|j] p' Hj; simpl.
    + intros [= -> _]. done.
    + apply Hfirst. lia.
  - intros [[= -> ->]|Hin]%elem_of_cons.
    + split; [done|]. exists 0%nat. split; [done|]. intros j p' Hj. lia.
    + destruct (IH _ _ _ Hin) as (Hc & i & Hi & Hfirst).
      apply not_elem_of_cons in Hc as [Hne Hc].
      split; [done|]. exists (S i). split; [done|].
      intros [|j] p' Hj; simpl.
      * by intros [= -> _].
      * apply Hfirst. lia.
Qed.

Lemma first_occurrences_from_children rels : ∀ seen,
  NoDup ((first_occurrences_from seen rels).*1)
  ∧ ∀ c, c ∈ (first_occurrences_from seen rels).*1 ↔ c ∈ rels.*1 ∧ c ∉ seen.
Proof.
  induction rels as [|[c0 p0] rels IH]; intros seen.
  { split; [constructor|]. intros c. cbn. set_solver. }
  cbn [first_occurrences_from]. case_decide as Hc0.
  - destruct (IH seen) as [Hnd Hiff]. split; [done|].
    intros c. rewrite Hiff. cbn. set_solver.
  - destruct (IH (c0 :: seen)) as [Hnd Hiff]. split.
    + cbn. apply NoDup_cons. split; [|done]. rewrite Hiff. set_solver.
    + intros c. cbn. rewrite elem_of_cons, Hiff. rewrite elem_of_cons.
      destruct (decide (c = c0)) as [->|]; set_solver.
Qed.

(** C6: a relation whose child id occurred earlier in the list changes
    nothing and raises nothing: the import runs exactly as on the list of
    first occurrences, which holds every child id of the list once, with the
    relation of its first occurrence.  With bone names that are distinct (as
    the data model has them), a completed import has made one bone per
    distinct child id, in the order of first occurrence, named after the
    child and parented as the first occurrence says. *)
Theorem import_skeleton_first_occurrence_wins
    (relations : list (nat * Z)) (matrices : list M) :
  import_skeleton negated bone_names relations matrices
  = import_skeleton negated bone_names (first_occurrences relations) matrices
  ∧ NoDup (first_occurrences relations).*1
  ∧ (∀ c, c ∈ (first_occurrences relations).*1 ↔ c ∈ relations.*1)
  ∧ (∀ c p, (c, p) ∈ first_occurrences relations →
            ∃ i, relations !! i = Some (c, p)
                 ∧ ∀ j p', (j < i)%nat → relations !! j ≠ Some (c, p'))
  ∧ (NoDup bone_names →
     ∀ arm, import_skeleton negated bone_names relations matrices = Some arm →
            Forall2 (bone_of bone_names) (edit_bones arm) (first_occurrences relations)).
Proof.
  set (arm0 := {| list_of_bones := ∅; edit_bones := [];
                  bone_matrices := matrices |} : Armature (M := M)).
  assert (seen_built bone_names arm0 []) as Hinv0 by (by intros c ?%elem_of_nil).
  assert (built_seen bone_names arm0 []) as Hinv1.
  { intros k b Hb. unfold arm0 in Hb. cbn [list_of_bones] in Hb.
    by rewrite lookup_empty in Hb. }
  destruct (first_occurrences_from_children relations []) as [Hnd Hiff].
  split; [|split; [|split; [|split]]].
  - unfold import_skeleton, first_occurrences. fold arm0.
    by apply import_bones_first_occurrences.
  - exact Hnd.
  - intros c. rewrite Hiff. set_solver.
  - intros c p Hin. by destruct (first_occurrences_from_spec _ _ _ _ Hin) as [_ ?].
  - intros Hnames arm Hrun. unfold import_skeleton in Hrun. fold arm0 in Hrun.
    rewrite (import_bones_first_occurrences relations arm0 []) in Hrun by done.
    destruct (import_bones_edit_bones _ _ _ _ Hnames Hinv1 Hrun) as (new & Hnew & Hall).
    by rewrite Hnew.
Qed.

End ImportFacts.

Lemma import_skeleton_first_occurrence_wins_witness :
  NoDup ["root"; "arm"; "hand"]
  ∧ ∃ arm,
      BlenderImport.import_skeleton Z.opp ["root"; "arm"; "hand"]
        [(0%nat, -1); (1%nat, 0); (1%nat, 7); (2%nat, 1); (0%nat, 2)] [10; 20; 30]
      = Some arm
      ∧ Forall2 (BlenderImport.bone_of ["root"; "arm"; "hand"])
          (BlenderImport.edit_bones arm) [(0%nat, -1); (1%nat, 0); (2%nat, 1)].
Proof.
  assert (NoDup ["root"; "arm"; "hand"]) as Hnd.
  { apply (bool_decide_unpack _). vm_compute. reflexivity. }
  split; [exact Hnd|].
  destruct (BlenderImport.import_skeleton Z.opp ["root"; "arm"; "hand"]
              [(0%nat, -1); (1%nat, 0); (1%nat, 7); (2%nat, 1); (0%nat, 2)] [10; 20; 30])
    as [arm|] eqn:Hrun; [|vm_compute in Hrun; discriminate Hrun].
  exists arm. split; [reflexivity|].
  destruct (import_skeleton_first_occurrence_wins Z.opp ["root"; "arm"; "hand"]
              [(0%nat, -1); (1%nat, 0); (1%nat, 7); (2%nat, 1); (0%nat, 2)] [10; 20; 30])
    as (_ & _ & _ & _ & Hbones).
  exact (Hbones Hnd arm Hrun).
Defined.

(** ** The record codecs of [MaterialReader] as inverse pairs *)

Section PackFacts.
Import Struct StructSize MaterialReader.

Lemma Z_of_byte_of_Z z : Z_of_byte (byte_of_Z z) = z mod 256.
Proof.
  unfold Z_of_byte, byte_of_Z.
  pose proof (Z.mod_pos_bound z 256 eq_refl) as Hr.
  destruct (Byte.of_N (Z.to_N (z mod 256))) as [b|] eqn:Hb.
  - apply Byte.to_of_N in Hb. simpl. rewrite Hb. lia.
  - apply Byte.of_N_None_iff in Hb. lia.
Qed.

Lemma length_le_bytes n z : length (le_bytes n z) = n.
Proof. revert z. induction n as [|n IH]; intros z; simpl; [done|]. by rewrite IH. Qed.

Lemma le_int_le_bytes n : ∀ z, 0 ≤ z < 256 ^ Z.of_nat n → le_int (le_bytes n z) = z.
Proof.
  induction n as [|n IH]; intros z Hz.
  - simpl in *. lia.
  - cbn [le_bytes le_int foldr]. fold (le_int (le_bytes n (z / 256))).
    rewrite Nat2Z.inj_succ, Z.pow_succ_r in Hz by lia.
    rewrite IH.
    + rewrite Z_of_byte_of_Z, Z.mod_mod by done.
      pose proof (Z.div_mod z 256). lia.
    + split; [apply Z.div_pos; lia|]. apply Z.div_lt_upper_bound; lia.
Qed.

(** What [pack] accepts under an integer code, and what it writes. *)
Lemma encode_item_int c v bs :
  c ≠ cf → encode_item c v = Some bs →
  ∃ z, v = Int z ∧ length bs = size_of c ∧ le_int bs = z.
Proof.
  intros Hc. destruct v as [z|d]; [|by destruct c].
  assert (encode_item c (Int z)
          = if decide (0 ≤ z < 256 ^ Z.of_nat (size_of c))
            then Some (le_bytes (size_of c) z) else None) as -> by (by destruct c).
  case_decide as Hr; [|done]. intros Heq.
  assert (bs = le_bytes (size_of c) z) as -> by congruence.
  exists z. by rewrite length_le_bytes, le_int_le_bytes.
Qed.

(** What [pack] accepts under code [f], and what it writes. *)
Lemma encode_item_float v bs :
  encode_item cf v = Some bs →
  ∃ d, float_value v = Some d ∧ bs = le_bytes 4 (f64_to_f32 d).
Proof.
  cbn [encode_item]. destruct (float_value v) as [d|]; cbn [mbind option_bind]; [|done].
  intros [= <-]. eauto.
Qed.

Lemma le_int_single d : le_int (le_bytes 4 (f64_to_f32 d)) = f64_to_f32 d.
Proof. apply le_int_le_bytes. apply (f64_to_f32_range d). Qed.

Lemma decode_item_float bs :
  length bs = 4%nat → decode_item cf bs = Some (Float (f32_to_f64 (le_int bs))).
Proof. intros Hlen. by destruct bs as [|? [|? [|? [|? [|? ?]]]]]. Qed.

Lemma encode_decode_item c v bs :
  encode_item c v = Some bs →
  decode_item c bs = Some (repacked c v) ∧ length bs = size_of c.
Proof.
  assert (c = cf ∨ c ≠ cf) as [->|Hc] by (destruct c; auto).
  - intros (d & Hd & ->)%encode_item_float.
    rewrite decode_item_float by apply length_le_bytes.
    rewrite le_int_single. cbn [repacked]. rewrite Hd.
    split; [done|apply length_le_bytes].
  - intros (z & -> & Hl & <-)%encode_item_int; [|done]. split; [|done]. by destruct c.
Qed.

(** [pack] never writes a signalling NaN. *)
Lemma encode_item_quiet v bs :
  encode_item cf v = Some bs → ¬ signalling32 (le_int bs).
Proof.
  intros (d & _ & ->)%encode_item_float. rewrite le_int_single.
  apply f64_to_f32_quiet.
Qed.

(** A value that [unpack] has read is written and read back unchanged. *)
Lemma repacked_decoded c bs v : decode_item c bs = Some v → repacked c v = v.
Proof.
  destruct c; cbn [decode_item repacked]; try done.
  destruct bs as [|b0 [|b1 [|b2 [|b3 [|? ?]]]]]; try done. intros [= <-].
  cbn [float_value].
  pose proof (le_int_range [b0; b1; b2; b3]) as Hr.
  change (256 ^ Z.of_nat (length [b0; b1; b2; b3])) with (2 ^ 32) in Hr.
  by rewrite f64_to_f32_to_f64, f32_to_f64_quiet32.
Qed.

Lemma unpack_codes_repacked cs : ∀ off bs vals,
  unpack_codes cs off bs = Some vals → zip_with repacked cs vals = vals.
Proof.
  induction cs as [|c cs IH]; intros off bs vals; cbn [unpack_codes].
  - case_decide; [|done]. by intros [= <-].
  - case_decide; [|done].
    destruct (decode_item c _) as [v|] eqn:Hv; cbn [mbind option_bind]; [|done].
    destruct (unpack_codes cs _ _) as [vs|] eqn:Hvs; cbn [mbind option_bind]; [|done].
    intros [= <-]. cbn [zip_with]. f_equal; [by eapply repacked_decoded|by eapply IH].
Qed.

Lemma pack_unpack_codes cs : ∀ off vals d,
  pack_codes cs off vals = Some d →
  unpack_codes cs off d = Some (zip_with repacked cs vals).
Proof.
  induction cs as [|c cs IH]; intros off [|v vals] d; cbn [pack_codes unpack_codes];
    try done.
  - by intros [= <-].
  - destruct (encode_item c v) as [b|] eqn:Hb; cbn [mbind option_bind]; [|done].
    destruct (pack_codes cs _ vals) as [rest|] eqn:Hrest; cbn [mbind option_bind]; [|done].
    intros [= <-]. apply encode_decode_item in Hb as [Hdec Hlen].
    apply IH in Hrest.
    rewrite decide_True by (rewrite !length_app, length_replicate; lia).
    rewrite drop_app_length' by (by rewrite length_replicate).
    rewrite take_app_length' by done. rewrite drop_app_length' by done.
    rewrite Hdec. cbn [mbind option_bind zip_with]. by rewrite Hrest.
Qed.

Lemma pack_codes_length cs : ∀ off vals d,
  pack_codes cs off vals = Some d → length d = calcsize_codes cs off.
Proof.
  induction cs as [|c cs IH]; intros off [|v vals] d; cbn [pack_codes calcsize_codes];
    try done.
  - by intros [= <-].
  - destruct (encode_item c v) as [b|] eqn:Hb; cbn [mbind option_bind]; [|done].
    destruct (pack_codes cs _ vals) as [rest|] eqn:Hrest; cbn [mbind option_bind]; [|done].
    intros [= <-]. apply encode_decode_item in Hb as [_ Hlen]. apply IH in Hrest.
    rewrite !length_app, length_replicate. lia.
Qed.

Lemma pack_codes_arity cs : ∀ off vals d,
  pack_codes cs off vals = Some d → length vals = length cs.
Proof.
  induction cs as [|c cs IH]; intros off [|v vals] d; cbn [pack_codes]; try done.
  destruct (encode_item c v) as [b|]; cbn [mbind option_bind]; [|done].
  destruct (pack_codes cs _ vals) as [rest|] eqn:Hrest; cbn [mbind option_bind]; [|done].
  intros _. cbn [length]. f_equal. by eapply IH.
Qed.

(** Whatever [pack] writes under a format, [unpack] reads back under the
    same format, floats rounded to single precision. *)
Lemma pack_unpack fmt cs vals d :
  parse_format fmt None = Some cs →
  pack fmt vals = Some d →
  length d = calcsize_codes cs 0
  ∧ length vals = length cs
  ∧ unpack fmt d = Some (zip_with repacked cs vals).
Proof.
  unfold pack, unpack. intros ->. cbn [mbind option_bind]. intros Hd.
  split; [by eapply pack_codes_length|].
  split; [by eapply pack_codes_arity|by apply pack_unpack_codes].
Qed.

Lemma length_1_inv {A} (l : list A) : length l = 1%nat → ∃ a, l = [a].
Proof. destruct l as [|a [|? ?]]; try done. eauto. Qed.

Lemma length_2_inv {A} (l : list A) : length l = 2%nat → ∃ a b, l = [a; b].
Proof. destruct l as [|a [|b [|? ?]]]; try done. eauto. Qed.

Lemma length_4_inv {A} (l : list A) :
  length l = 4%nat → ∃ a b c d, l = [a; b; c; d].
Proof. destruct l as [|a [|b [|c [|d [|? ?]]]]]; try done. eauto 10. Qed.

Lemma pack_B_inv t bs :
  pack "B" [Int t] = Some bs → ∃ a, bs = [a] ∧ Z_of_byte a = t.
Proof.
  intros (Hl & _ & Hun)%(pack_unpack "B" [cB]); [|done].
  apply length_1_inv in Hl as (a & ->). exists a. split; [done|].
  injection Hun as Hun. cbn [le_int foldr] in Hun. lia.
Qed.

Lemma pack_H_inv v bs :
  pack "H" [v] = Some bs → ∃ a b, bs = [a; b] ∧ v = Int (le_int [a; b]).
Proof.
  intros (Hl & _ & Hun)%(pack_unpack "H" [cH]); [|done].
  apply length_2_inv in Hl as (a & b & ->). exists a, b. split; [done|].
  change (unpack "H" [a; b]) with (Some [Int (le_int [a; b])]) in Hun.
  cbn [zip_with repacked] in Hun. congruence.
Qed.

Lemma pack_HH_inv vals bs :
  pack "HH" vals = Some bs →
  ∃ a b c d, bs = [a; b; c; d] ∧ vals = [Int (le_int [a; b]); Int (le_int [c; d])].
Proof.
  intros (Hl & Hv & Hun)%(pack_unpack "HH" [cH; cH]); [|done].
  apply length_4_inv in Hl as (a & b & c & d & ->). exists a, b, c, d. split; [done|].
  apply length_2_inv in Hv as (v1 & v2 & ->).
  change (unpack "HH" [a; b; c; d])
    with (Some [Int (le_int [a; b]); Int (le_int [c; d])]) in Hun.
  cbn [zip_with repacked] in Hun. congruence.
Qed.

End PackFacts.

(** The bytes of a list of known length, named one by one. *)
Ltac explode l H :=
  lazymatch type of H with
  | length l = O => apply nil_length_inv in H; subst l
  | length l = S _ =>
      destruct l as [|? l]; [discriminate H|];
      cbn [length] in H; apply Nat.succ_inj in H; explode l H
  end.

(** The decoder on a float record whose pieces are in the context, up to
    the floats, which are the 4-byte groups [groups]. *)
Ltac float_record_decodes groups :=
  unfold MaterialReader.shader_uniform_factory;
  match goal with
  | Ht : Struct.Z_of_byte ?a = ?id,
    Hids : MaterialReader.shader_uniform_from_ids !! ?id = Some _ |- _ =>
      change (Py.index ?l 16) with (Some a);
      cbn [mbind option_bind]; rewrite Ht, Hids
  end;
  unfold MaterialReader.shader_uniforms_from_defn;
  match goal with
  | Hin : (?name, ?k) ∈ MaterialReader.shader_uniform_defns |- _ =>
      change (Struct.Z_of_byte <$> Py.index ?l 17) with (Some k);
      cbn [mbind option_bind];
      rewrite (decide_True (P := (name, k) ∈ MaterialReader.shader_uniform_defns))
        by done;
      rewrite (decide_False (P := k = 0)) by done
  end;
  change (MaterialReader.unpack0 "H" (MaterialReader.slice 18 20 ?l))
    with (Some (Struct.Int 65280));
  change (MaterialReader.unpack0 "I" (drop 20 ?l)) with (Some (Struct.Int 0));
  cbn [mbind option_bind]; unfold MaterialReader.assert;
  rewrite !bool_decide_eq_true_2 by done;
  change (Struct.unpack _ _)
    with (Struct.unpack_codes (replicate (length groups) Struct.cf) 0 (mjoin groups)).

Section CodecFacts.
Import Struct StructSize MaterialReader MaterialSections.

(** The float that [pack] writes under format [If] is no signalling
    NaN. *)
Lemma pack_If_quiet vals d rest :
  pack "If" vals = Some d → ¬ signalling32 (le_int (slice 4 8 (d ++ rest))).
Proof.
  unfold pack. change (parse_format "If" None) with (Some [cI; cf]).
  cbn [mbind option_bind].
  destruct vals as [|v1 [|v2 [|? ?]]]; try done.
  - cbn [pack_codes]. by destruct (encode_item cI v1).
  - cbn [pack_codes].
    destruct (encode_item cI v1) as [b1|] eqn:H1; cbn [mbind option_bind]; [|done].
    destruct (encode_item cf v2) as [b2|] eqn:H2; cbn [mbind option_bind]; [|done].
    intros [= <-].
    apply encode_decode_item in H1 as [_ Hl1]. cbn [size_of] in Hl1.
    apply encode_item_quiet in H2 as Hq.
    apply encode_decode_item in H2 as [_ Hl2]. cbn [size_of] in Hl2.
    apply length_4_inv in Hl1 as (p0 & p1 & p2 & p3 & ->).
    apply length_4_inv in Hl2 as (q0 & q1 & q2 & q3 & ->).
    exact Hq.
  - cbn [pack_codes].
    destruct (encode_item cI v1); cbn [mbind option_bind]; [|done].
    by destruct (encode_item cf v2).
Qed.

Lemma umc_encode_decode t vals record :
  umc_data_factory t vals = Some record →
  length record = 24%nat
  ∧ umc_factory record = Some (t, umc_repacked t vals)
  ∧ umc_float_quiet t record.
Proof.
  unfold umc_data_factory, umc_repacked.
  destruct (possibly_umc_types !! t) as [fmt|] eqn:Hfmt; cbn [mbind option_bind]; [|done].
  destruct (pack fmt vals) as [d|] eqn:Hd; cbn [mbind option_bind]; [|done].
  change (pack "H" [Int 0]) with (Some [x00; x00]).
  change (pack "B" [Int 100]) with (Some [x64]).
  change (pack "H" [Int 65280]) with (Some [x00; xff]).
  change (pack "I" [Int 0]) with (Some [x00; x00; x00; x00]).
  cbn [mbind option_bind].
  destruct (pack "B" [Int t]) as [ty|] eqn:Hty; cbn [mbind option_bind]; [|done].
  apply pack_B_inv in Hty as (a16 & -> & Ht).
  unfold assert. case_bool_decide as Hlen; [|done]. intros [= <-].
  split; [done|].
  assert (∃ cs, parse_format fmt None = Some cs
                ∧ length d = 8%nat ∧ unpack fmt d = Some (zip_with repacked cs vals))
    as (cs & -> & Hl & Hun).
  { destruct (umc_formats _ _ Hfmt) as [->|[->| ->]].
    - exists [cI; cf]. split; [done|].
      by apply (pack_unpack "If" [cI; cf]) in Hd as (? & _ & ?).
    - exists [cI; cI]. split; [done|].
      by apply (pack_unpack "II" [cI; cI]) in Hd as (? & _ & ?).
    - exists [cH; cH; cI]. split; [done|].
      by apply (pack_unpack "HHI" [cH; cH; cI]) in Hd as (? & _ & ?). }
  split.
  2:{ intros ->. unfold word.
      replace fmt with "If"%string in Hd by (vm_compute in Hfmt; congruence).
      change (4 * 1 + 4)%nat with 8%nat. change (4 * 1)%nat with 4%nat.
      by eapply pack_If_quiet. }
  clear Hlen Hd.
  destruct d as [|a0 [|a1 [|a2 [|a3 [|a4 [|a5 [|a6 [|a7 [|? ?]]]]]]]]];
    try discriminate Hl. clear Hl.
  unfold umc_factory. cbn [app].
  change (slice 8 10 ?l) with [x00; x00].
  change (slice 10 12 ?l) with [x00; x00].
  change (slice 12 14 ?l) with [x00; x00].
  change (slice 14 16 ?l) with [x00; x00].
  change (slice 18 20 ?l) with [x00; xff].
  change (slice 20 24 ?l) with [x00; x00; x00; x00].
  change (slice 0 8 ?l) with [a0; a1; a2; a3; a4; a5; a6; a7].
  change (Py.index ?l 16) with (Some a16).
  change (Py.index ?l 17) with (Some x64).
  change (unpack0 "H" [x00; x00]) with (Some (Int 0)).
  change (unpack0 "H" [x00; xff]) with (Some (Int 65280)).
  change (unpack0 "I" [x00; x00; x00; x00]) with (Some (Int 0)).
  cbn [mbind option_bind fmap option_fmap option_map]. unfold assert.
  rewrite bool_decide_eq_true_2 by done.
  change (bool_decide (Z_of_byte x64 = 100)) with true.
  rewrite bool_decide_eq_true_2 by done.
  cbn [mbind option_bind].
  rewrite Ht, Hfmt. cbn [mbind option_bind]. rewrite Hun. done.
Qed.

(** The values the decoder reads are written and read back unchanged. *)
Lemma umc_factory_repacked record t vals :
  umc_factory record = Some (t, vals) → umc_repacked t vals = vals.
Proof.
  unfold umc_factory, assert, umc_repacked.
  destruct (unpack0 "H" (slice 8 10 record)); cbn [mbind option_bind]; [|done].
  destruct (unpack0 "H" (slice 10 12 record)); cbn [mbind option_bind]; [|done].
  destruct (unpack0 "H" (slice 12 14 record)); cbn [mbind option_bind]; [|done].
  destruct (unpack0 "H" (slice 14 16 record)); cbn [mbind option_bind]; [|done].
  repeat (case_bool_decide; [|done]).
  destruct (Py.index record 16) as [b|] eqn:Hb;
    cbn [fmap option_fmap option_map mbind option_bind]; [|done].
  destruct (Z_of_byte <$> Py.index record 17); cbn [mbind option_bind]; [|done].
  destruct (unpack0 "H" _); cbn [mbind option_bind]; [|done].
  destruct (unpack0 "I" _); cbn [mbind option_bind]; [|done].
  repeat (case_bool_decide; [|done]).
  destruct (possibly_umc_types !! _) as [fmt|] eqn:Hfmt; cbn [mbind option_bind]; [|done].
  destruct (unpack fmt _) as [vs|] eqn:Hvs; cbn [mbind option_bind]; [|done].
  intros [= <- <-]. rewrite Hfmt. cbn [mbind option_bind].
  unfold unpack in Hvs.
  destruct (parse_format fmt None) as [cs|]; cbn [mbind option_bind] in Hvs; [|done].
  by eapply unpack_codes_repacked.
Qed.

(** Every (name, float count) pair of the class table has a float count
    of at most 4 and a name that the two type tables map to an id and
    back. *)
Lemma defn_facts name nf :
  (name, nf) ∈ shader_uniform_defns →
  0 ≤ nf ≤ 4 ∧
  ∃ id, shader_uniform_from_names !! name = Some id
        ∧ shader_uniform_from_ids !! id = Some name.
Proof.
  assert (Forall (λ key : string * Z,
            0 ≤ key.2 ≤ 4 ∧
            shader_uniform_from_names !! key.1
              ≫= (λ id, shader_uniform_from_ids !! id) = Some key.1)
          shader_uniform_defns) as H.
  { apply (bool_decide_unpack _). by vm_compute. }
  intros Hin. apply (proj1 (Forall_forall _ _) H) in Hin as [Hnf Hid].
  split; [done|]. cbn [fst] in Hid.
  destruct (shader_uniform_from_names !! name) as [id|]; [|done]. eauto.
Qed.

Lemma shader_uniform_factory_defn record name su :
  shader_uniform_factory record = Some (name, su) →
  (name, num_floats su) ∈ shader_uniform_defns.
Proof.
  unfold shader_uniform_factory, assert.
  destruct (Py.index record 16 ≫= _) as [ty|]; cbn [mbind option_bind]; [|done].
  destruct (Z_of_byte <$> Py.index record 17) as [nf|]; cbn [mbind option_bind]; [|done].
  destruct (unpack0 "H" _); cbn [mbind option_bind]; [|done].
  destruct (unpack0 "I" _); cbn [mbind option_bind]; [|done].
  case_bool_decide; [|done]. case_bool_decide; [|done].
  match goal with |- context [mbind _ ?p] => destruct p as [payload|] end;
    cbn [mbind option_bind]; [|done].
  unfold shader_uniforms_from_defn.
  destruct (decide ((ty, nf) ∈ shader_uniform_defns)) as [Hin|]; [|done].
  cbn [mbind option_bind]. by intros [= <- <-].
Qed.

(** What [pack] writes for [n] floats. *)
Lemma pack_floats_inv (n : nat) : ∀ off vals d,
  (off mod 4 = 0)%nat →
  pack_codes (replicate n cf) off vals = Some d →
  ∃ ds, length ds = n
        ∧ Forall2 (λ v dd, float_value v = Some dd) vals ds
        ∧ d = mjoin ((λ dd, le_bytes 4 (f64_to_f32 dd)) <$> ds).
Proof.
  induction n as [|n IH]; intros off [|v vals] d Hoff; cbn [replicate pack_codes];
    try done.
  - intros [= <-]. exists []. by repeat split.
  - assert (padding off (size_of cf) = 0%nat) as Hpad
      by (unfold padding; cbn [size_of]; by rewrite Hoff).
    rewrite Hpad.
    destruct (encode_item cf v) as [b|] eqn:Hb; cbn [mbind option_bind]; [|done].
    destruct (pack_codes _ _ vals) as [rest|] eqn:Hrest; cbn [mbind option_bind]; [|done].
    intros Hd. assert (d = b ++ rest) as -> by (cbn [replicate app] in Hd; congruence).
    apply encode_item_float in Hb as (dd & Hdd & ->).
    apply IH in Hrest as (ds & Hlen & Hvals & ->).
    2:{ cbn [size_of]. rewrite Nat.add_0_r.
        rewrite <- Nat.Div0.add_mod_idemp_l, Hoff. done. }
    exists (dd :: ds). split; [by rewrite <- Hlen|]. split; [by constructor|done].
Qed.

Lemma repacked_floats vals ds :
  Forall2 (λ v dd, float_value v = Some dd) vals ds →
  repacked cf <$> vals = (λ dd, Float (f32_to_f64 (f64_to_f32 dd))) <$> ds.
Proof.
  induction 1 as [|v dd vals ds Hv _ IH]; [done|].
  cbn [fmap list_fmap repacked]. rewrite Hv. f_equal. exact IH.
Qed.

Lemma uniform_repacked_floats nf vals :
  nf ≠ 0 →
  uniform_repacked {| num_floats := nf; data := vals |}
  = {| num_floats := nf; data := repacked cf <$> vals |}.
Proof. intros Hnf. unfold uniform_repacked. cbn [num_floats data]. by rewrite decide_False. Qed.

Lemma shader_uniform_encode_decode name su record :
  (name, num_floats su) ∈ shader_uniform_defns →
  shader_uniform_data_factory name su = Some record →
  length record = 24%nat
  ∧ shader_uniform_factory record = Some (name, uniform_repacked su)
  ∧ payload_tail_clean (num_floats su) record
  ∧ uniform_floats_quiet (num_floats su) record.
Proof.
  intros Hin. destruct (defn_facts _ _ Hin) as (Hnf & id & Hnames & Hids).
  destruct su as [nf vals]. cbn [num_floats] in *.
  unfold shader_uniform_data_factory. cbn [num_floats data].
  rewrite Hnames. cbn [mbind option_bind].
  change (pack "H" [Int 65280]) with (Some [x00; xff]).
  change (pack "I" [Int 0]) with (Some [x00; x00; x00; x00]).
  destruct (decide (nf = 0)) as [->|Hnz].
  - destruct (vals !! 0%nat) as [v0|] eqn:Hv0; cbn [mbind option_bind]; [|done].
    destruct (pack "H" [v0]) as [d0|] eqn:Hd0; cbn [mbind option_bind]; [|done].
    destruct (pack "HH" (drop 1 vals)) as [d1|] eqn:Hd1; cbn [mbind option_bind]; [|done].
    destruct (pack "B" [Int id]) as [ty|] eqn:Hty; cbn [mbind option_bind]; [|done].
    change (pack "B" [Int 0]) with (Some [x00]). cbn [mbind option_bind].
    apply pack_B_inv in Hty as (a16 & -> & Ht).
    apply pack_H_inv in Hd0 as (p0 & p1 & -> & ->).
    apply pack_HH_inv in Hd1 as (p2 & p3 & p4 & p5 & -> & Hrest).
    assert (vals = [Int (le_int [p0; p1]); Int (le_int [p2; p3]); Int (le_int [p4; p5])]) as ->.
    { destruct vals as [|v vals]; [done|].
      cbn [lookup list_lookup drop] in Hv0, Hrest. rewrite drop_0 in Hrest. congruence. }
    intros [= <-]. split; [done|]. split; [|split; [by left|]].
    2:{ intros k Hk. lia. }
    unfold shader_uniform_factory.
    change (Py.index ?l 16) with (Some a16).
    change (Py.index ?l 17) with (Some x00).
    cbn [mbind option_bind fmap option_fmap option_map].
    rewrite Ht, Hids. cbn [mbind option_bind].
    change (unpack0 "H" (slice 18 20 ?l)) with (Some (Int 65280)).
    change (unpack0 "I" (drop 20 ?l)) with (Some (Int 0)).
    cbn [mbind option_bind]. unfold assert.
    rewrite !bool_decide_eq_true_2 by done.
    change (Z_of_byte x00) with 0. rewrite decide_True by done.
    change (take 16 ?l) with
      [p0; p1; x00; x00; x00; x00; x00; x00; x00; x00; x00; x00; p2; p3; p4; p5].
    rewrite unpack_H8. cbn [mbind option_bind].
    change (forallb num_is_zero (slice 1 6 ?l)) with true.
    cbn [lookup list_lookup mbind option_bind drop].
    unfold shader_uniforms_from_defn. rewrite decide_True by done.
    reflexivity.
  - destruct (pack (pretty nf +:+ "f") vals) as [d|] eqn:Hd; cbn [mbind option_bind]; [|done].
    destruct (pack "B" [Int id]) as [ty|] eqn:Hty; cbn [mbind option_bind]; [|done].
    apply pack_B_inv in Hty as (a16 & -> & Ht).
    unfold pack in Hd. rewrite uniform_repacked_floats by done.
    assert (nf = 1 ∨ nf = 2 ∨ nf = 3 ∨ nf = 4) as [->|[->|[->| ->]]] by lia.
    + change (parse_format _ None) with (Some (replicate 1 cf)) in Hd.
      apply pack_floats_inv in Hd as (ds & Hl & Hvals & ->); [|done].
      apply repacked_floats in Hvals as ->.
      destruct ds as [|d0 [|? ?]]; try discriminate Hl. clear Hl.
      change (pack "B" [Int 1]) with (Some [x01]). cbn [mbind option_bind].
      intros [= <-]. split; [done|]. split; [|split; [by right|]].
      * float_record_decodes [le_bytes 4 (f64_to_f32 d0)].
        rewrite unpack_floats by (by repeat constructor).
        cbn [fmap list_fmap]. rewrite !le_int_single. reflexivity.
      * intros [|k] Hk; [|lia]. unfold word.
        change (slice _ _ _) with (le_bytes 4 (f64_to_f32 d0)).
        rewrite le_int_single. apply f64_to_f32_quiet.
    + change (parse_format _ None) with (Some (replicate 2 cf)) in Hd.
      apply pack_floats_inv in Hd as (ds & Hl & Hvals & ->); [|done].
      apply repacked_floats in Hvals as ->.
      destruct ds as [|d0 [|d1 [|? ?]]]; try discriminate Hl. clear Hl.
      change (pack "B" [Int 2]) with (Some [x02]). cbn [mbind option_bind].
      intros [= <-]. split; [done|]. split; [|split; [by right|]].
      * float_record_decodes [le_bytes 4 (f64_to_f32 d0); le_bytes 4 (f64_to_f32 d1)].
        rewrite unpack_floats by (by repeat constructor).
        cbn [fmap list_fmap]. rewrite !le_int_single. reflexivity.
      * intros [|[|k]] Hk; [| |lia]; unfold word.
        -- change (slice _ _ _) with (le_bytes 4 (f64_to_f32 d0)).
           rewrite le_int_single. apply f64_to_f32_quiet.
        -- change (slice _ _ _) with (le_bytes 4 (f64_to_f32 d1)).
           rewrite le_int_single. apply f64_to_f32_quiet.
    + change (parse_format _ None) with (Some (replicate 3 cf)) in Hd.
      apply pack_floats_inv in Hd as (ds & Hl & Hvals & ->); [|done].
      apply repacked_floats in Hvals as ->.
      destruct ds as [|d0 [|d1 [|d2 [|? ?]]]]; try discriminate Hl. clear Hl.
      change (pack "B" [Int 3]) with (Some [x03]). cbn [mbind option_bind].
      intros [= <-]. split; [done|]. split; [|split; [by right|]].
      * float_record_decodes [le_bytes 4 (f64_to_f32 d0); le_bytes 4 (f64_to_f32 d1);
                              le_bytes 4 (f64_to_f32 d2)].
        rewrite unpack_floats by (by repeat constructor).
        cbn [fmap list_fmap]. rewrite !le_int_single. reflexivity.
      * intros [|[|[|k]]] Hk; [| | |lia]; unfold word.
        -- change (slice _ _ _) with (le_bytes 4 (f64_to_f32 d0)).
           rewrite le_int_single. apply f64_to_f32_quiet.
        -- change (slice _ _ _) with (le_bytes 4 (f64_to_f32 d1)).
           rewrite le_int_single. apply f64_to_f32_quiet.
        -- change (slice _ _ _) with (le_bytes 4 (f64_to_f32 d2)).
           rewrite le_int_single. apply f64_to_f32_quiet.
    + change (parse_format _ None) with (Some (replicate 4 cf)) in Hd.
      apply pack_floats_inv in Hd as (ds & Hl & Hvals & ->); [|done].
      apply repacked_floats in Hvals as ->.
      destruct ds as [|d0 [|d1 [|d2 [|d3 [|? ?]]]]]; try discriminate Hl. clear Hl.
      change (pack "B" [Int 4]) with (Some [x04]). cbn [mbind option_bind].
      intros [= <-]. split; [done|]. split; [|split; [by right|]].
      * float_record_decodes [le_bytes 4 (f64_to_f32 d0); le_bytes 4 (f64_to_f32 d1);
                              le_bytes 4 (f64_to_f32 d2); le_bytes 4 (f64_to_f32 d3)].
        rewrite unpack_floats by (by repeat constructor).
        cbn [fmap list_fmap]. rewrite !le_int_single. reflexivity.
      * intros [|[|[|[|k]]]] Hk; [| | | |lia]; unfold word.
        -- change (slice _ _ _) with (le_bytes 4 (f64_to_f32 d0)).
           rewrite le_int_single. apply f64_to_f32_quiet.
        -- change (slice _ _ _) with (le_bytes 4 (f64_to_f32 d1)).
           rewrite le_int_single. apply f64_to_f32_quiet.
        -- change (slice _ _ _) with (le_bytes 4 (f64_to_f32 d2)).
           rewrite le_int_single. apply f64_to_f32_quiet.
        -- change (slice _ _ _) with (le_bytes 4 (f64_to_f32 d3)).
           rewrite le_int_single. apply f64_to_f32_quiet.
Qed.

(** The uniform the decoder reads is written and read back unchanged. *)
Lemma shader_uniform_factory_repacked record name su :
  shader_uniform_factory record = Some (name, su) → uniform_repacked su = su.
Proof.
  unfold shader_uniform_factory, assert.
  destruct (Py.index record 16 ≫= _) as [ty|]; cbn [mbind option_bind]; [|done].
  destruct (Z_of_byte <$> Py.index record 17) as [nf|]; cbn [mbind option_bind]; [|done].
  destruct (unpack0 "H" _); cbn [mbind option_bind]; [|done].
  destruct (unpack0 "I" _); cbn [mbind option_bind]; [|done].
  case_bool_decide; [|done]. case_bool_decide; [|done].
  destruct (decide (nf = 0)) as [->|Hnz].
  - match goal with |- context [mbind _ ?p] => destruct p as [payload|] end;
      cbn [mbind option_bind]; [|done].
    destruct (shader_uniforms_from_defn _) as [mk|] eqn:Hmk; cbn [mbind option_bind]; [|done].
    apply shader_uniforms_from_defn_Some in Hmk as ->. intros [= _ <-].
    unfold uniform_repacked. cbn [num_floats snd]. by rewrite decide_True.
  - destruct (unpack _ _) as [payload|] eqn:Hun; cbn [mbind option_bind]; [|done].
    rewrite (float_pad_check_vacuous _ _ _ Hun). cbn [forallb mbind option_bind].
    destruct (shader_uniforms_from_defn _) as [mk|] eqn:Hmk; cbn [mbind option_bind]; [|done].
    apply shader_uniforms_from_defn_Some in Hmk as ->. intros [= _ <-].
    cbn [snd]. rewrite uniform_repacked_floats by done. f_equal.
    unfold unpack in Hun. rewrite parse_repeat_f in Hun. cbn [mbind option_bind] in Hun.
    apply unpack_codes_length in Hun as Hlen. rewrite length_replicate in Hlen.
    rewrite take_ge by lia.
    apply unpack_codes_repacked in Hun.
    rewrite zip_with_replicate_l in Hun by lia. exact Hun.
Qed.

(** X1: [umc_data_factory] and [umc_factory] are inverse to each other
    between value lists whose float is a single-precision number and 24-byte
    records whose float is no signalling NaN: the encoder writes [record]
    for a type and such values exactly when [record] is such a record and the
    decoder reads that type and those values from it.  For any values, what
    the encoder writes has 24 bytes and decodes to the same type and the
    values with the float rounded to single precision (an [int] under code
    [f] converted: for type 160 the values 7, 1 give the record of 7, 1.0).
    A signalling NaN does not survive: the record with float 7f800001
    decodes, and its values are written with float 7fc00001. *)
Theorem umc_codec_inverse t vals record :
  (umc_data_factory t vals = Some record ∧ umc_repacked t vals = vals
   ↔ length record = 24%nat
     ∧ umc_factory record = Some (t, vals)
     ∧ umc_float_quiet t record)
  ∧ (umc_data_factory t vals = Some record →
     length record = 24%nat ∧ umc_factory record = Some (t, umc_repacked t vals))
  ∧ umc_data_factory 160 [Int 7; Int 1] = example_umc_chunks !! 0%nat
  ∧ umc_factory signalling_umc_record = Some (160, [Int 7; Float 0x7ff8000020000000])
  ∧ umc_data_factory 160 [Int 7; Float 0x7ff8000020000000] = Some quieted_umc_record.
Proof.
  split; [split|split; [|by vm_compute]].
  - intros [(Hlen & Hdec & Hq)%umc_encode_decode Hv]. by rewrite Hv in Hdec.
  - intros (Hlen & Hdec & Hq). split; [by apply umc_roundtrip|].
    by eapply umc_factory_repacked.
  - by intros (Hlen & Hdec & _)%umc_encode_decode.
Qed.

(** X2: for the shader uniforms, the encoder writes [record] for a name
    and a uniform of the class table whose floats are single-precision
    numbers exactly when [record] has 24 bytes, has zero payload bytes past
    its floats and no signalling NaN among them, and decodes to that name and
    uniform.  For any uniform of the class table, what the encoder writes
    decodes to the same name and the uniform with its floats rounded to
    single precision.  A signalling NaN does not survive: the "Bumpiness"
    record with float 7f800001 decodes, and its uniform is written with
    float 7fc00001. *)
Theorem shader_uniform_codec_inverse name su record :
  (shader_uniform_data_factory name su = Some record
   ∧ (name, num_floats su) ∈ shader_uniform_defns
   ∧ uniform_repacked su = su
   ↔ length record = 24%nat
     ∧ shader_uniform_factory record = Some (name, su)
     ∧ payload_tail_clean (num_floats su) record
     ∧ uniform_floats_quiet (num_floats su) record)
  ∧ ((name, num_floats su) ∈ shader_uniform_defns →
     shader_uniform_data_factory name su = Some record →
     shader_uniform_factory record = Some (name, uniform_repacked su))
  ∧ shader_uniform_factory signalling_uniform_record
    = Some ("Bumpiness", {| num_floats := 1; data := [Float 0x7ff8000020000000] |})
  ∧ shader_uniform_data_factory "Bumpiness"
      {| num_floats := 1; data := [Float 0x7ff8000020000000] |}
    = Some quieted_uniform_record.
Proof.
  split; [split|split; [|by vm_compute]].
  - intros (Henc & Hin & Hv).
    apply shader_uniform_encode_decode in Henc as (? & Hdec & ? & ?); [|done].
    by rewrite Hv in Hdec.
  - intros (Hlen & Hdec & Hclean & Hquiet). split; [|split].
    + apply shader_uniform_roundtrip_clean; [done..| |exact Hquiet].
      intros Hnz. by destruct Hclean.
    + by eapply shader_uniform_factory_defn.
    + by eapply shader_uniform_factory_repacked.
  - intros Hin Henc.
    by apply shader_uniform_encode_decode in Henc as (? & Hdec & ? & ?).
Qed.

End CodecFacts.

(** ** The record sections of a material *)

Section DictFacts.
Context `{EqDecision K} {V : Type}.
Implicit Types (d elems : list (K * V)).

Lemma setitem_keys d k v :
  (PyDict.setitem d k v).*1 = if decide (k ∈ d.*1) then d.*1 else d.*1 ++ [k].
Proof.
  unfold PyDict.setitem. case_decide as Hk.
  - rewrite <- list_fmap_compose. apply list_fmap_ext. intros i [k' v'] _. simpl.
    by case_decide.
  - by rewrite fmap_app.
Qed.

Lemma from_pairs_snoc elems k v :
  PyDict.from_pairs (elems ++ [(k, v)]) = PyDict.setitem (PyDict.from_pairs elems) k v.
Proof. unfold PyDict.from_pairs. by rewrite foldl_snoc. Qed.

(** The keys of a dictionary are pairwise distinct, and they are the keys
    it was built from. *)
Lemma from_pairs_keys elems :
  NoDup (PyDict.from_pairs elems).*1
  ∧ ∀ k, k ∈ (PyDict.from_pairs elems).*1 ↔ k ∈ elems.*1.
Proof.
  induction elems as [|[k v] elems [IHn IHk]] using rev_ind.
  - split; [constructor|done].
  - rewrite from_pairs_snoc, setitem_keys, fmap_app. cbn [fmap list_fmap fst].
    case_decide as Hk.
    + split; [done|]. intros k'. rewrite elem_of_app, <- IHk.
      rewrite list_elem_of_singleton. naive_solver.
    + split.
      * apply NoDup_app. split; [done|]. split; [|apply NoDup_singleton].
        intros k' Hk' ->%list_elem_of_singleton. done.
      * intros k'. rewrite !elem_of_app, IHk. done.
Qed.

Lemma from_pairs_NoDup elems : NoDup elems.*1 → PyDict.from_pairs elems = elems.
Proof.
  induction elems as [|[k v] elems IH] using rev_ind; [done|].
  rewrite fmap_app, NoDup_app. intros (Hn & Hk & _).
  rewrite from_pairs_snoc, IH by done. unfold PyDict.setitem.
  rewrite decide_False; [done|]. intros Hin. apply (Hk k Hin). cbn. left.
Qed.

End DictFacts.

Section SectionFacts.
Import Struct MaterialReader MaterialSections.

Lemma mapM_inverse {A B} (f : A → option B) (g : B → option A) l l' :
  Forall (λ a, ∀ b, f a = Some b → g b = Some a) l →
  mapM f l = Some l' → mapM g l' = Some l.
Proof.
  intros Hinv Hl. apply mapM_Some in Hl. apply mapM_Some.
  induction Hl as [|a b l l' Hab Hl IH]; [constructor|].
  apply Forall_cons in Hinv as [Ha Hinv]. constructor; auto.
Qed.

Lemma mapM_keys {A B C} (f : A → option B) (h : A → C) (g : B → C) l l' :
  (∀ a b, f a = Some b → h a = g b) →
  mapM f l = Some l' → h <$> l = g <$> l'.
Proof.
  intros Hfg Hl. apply mapM_Some in Hl.
  induction Hl as [|a b l l' Hab Hl IH]; [done|].
  cbn [fmap list_fmap]. f_equal; auto.
Qed.

Lemma umc_factory_type record t vals :
  umc_factory record = Some (t, vals) → record_type record = Some t.
Proof.
  unfold umc_factory, assert, record_type.
  destruct (unpack0 "H" (slice 8 10 record)); cbn [mbind option_bind]; [|done].
  destruct (unpack0 "H" (slice 10 12 record)); cbn [mbind option_bind]; [|done].
  destruct (unpack0 "H" (slice 12 14 record)); cbn [mbind option_bind]; [|done].
  destruct (unpack0 "H" (slice 14 16 record)); cbn [mbind option_bind]; [|done].
  repeat (case_bool_decide; [|done]).
  destruct (Py.index record 16) as [b|] eqn:Hb;
    cbn [fmap option_fmap option_map mbind option_bind]; [|done].
  destruct (Z_of_byte <$> Py.index record 17); cbn [mbind option_bind]; [|done].
  destruct (unpack0 "H" _); cbn [mbind option_bind]; [|done].
  destruct (unpack0 "I" _); cbn [mbind option_bind]; [|done].
  repeat (case_bool_decide; [|done]).
  destruct (possibly_umc_types !! _); cbn [mbind option_bind]; [|done].
  destruct (unpack _ _); cbn [mbind option_bind]; [|done].
  by intros [= <- <-].
Qed.

Lemma shader_uniform_factory_type record name su :
  shader_uniform_factory record = Some (name, su) →
  record_type record = shader_uniform_from_names !! name.
Proof.
  unfold shader_uniform_factory, assert, record_type.
  destruct (Py.index record 16) as [b|] eqn:Hb; cbn [mbind option_bind]; [|done].
  destruct (shader_uniform_from_ids !! Z_of_byte b) as [ty|] eqn:Hty;
    cbn [mbind option_bind]; [|done].
  destruct (Z_of_byte <$> Py.index record 17) as [nf|]; cbn [mbind option_bind]; [|done].
  destruct (unpack0 "H" _); cbn [mbind option_bind]; [|done].
  destruct (unpack0 "I" _); cbn [mbind option_bind]; [|done].
  case_bool_decide; [|done]. case_bool_decide; [|done].
  match goal with |- context [mbind _ ?p] => destruct p as [payload|] end;
    cbn [mbind option_bind]; [|done].
  destruct (shader_uniforms_from_defn _); cbn [mbind option_bind]; [|done].
  intros [= <- _]. by rewrite (uniform_tables_inverse _ _ Hty).
Qed.

Lemma shader_uniform_factory_num_floats record name su :
  shader_uniform_factory record = Some (name, su) →
  Z_of_byte <$> record !! 17%nat = Some (num_floats su).
Proof.
  unfold shader_uniform_factory, assert.
  destruct (Py.index record 16 ≫= _) as [ty|]; cbn [mbind option_bind]; [|done].
  replace (Py.index record 17) with (record !! 17%nat)
    by (symmetry; apply (py_index_nat record 17)).
  destruct (Z_of_byte <$> record !! 17%nat) as [nf|]; cbn [mbind option_bind]; [|done].
  destruct (unpack0 "H" _); cbn [mbind option_bind]; [|done].
  destruct (unpack0 "I" _); cbn [mbind option_bind]; [|done].
  case_bool_decide; [|done]. case_bool_decide; [|done].
  match goal with |- context [mbind _ ?p] => destruct p as [payload|] end;
    cbn [mbind option_bind]; [|done].
  destruct (shader_uniforms_from_defn _) as [mk|] eqn:Hmk; cbn [mbind option_bind]; [|done].
  apply shader_uniforms_from_defn_Some in Hmk as ->. by intros [= _ <-].
Qed.

Lemma reinterpret_interpret_shader_hex shader_hex :
  length shader_hex = 16%nat →
  reinterpret_shader_hex (interpret_shader_hex shader_hex) = Some shader_hex.
Proof.
  intros Hlen. unfold reinterpret_shader_hex, interpret_shader_hex.
  rewrite str_split_join4 by apply bytes_hex_free.
  cbn [lookup list_lookup mbind option_bind].
  rewrite !bytes_fromhex_hex. cbn [fmap option_fmap option_map mbind option_bind].
  rewrite !reverse_involutive. by rewrite slices_16.
Qed.

(** X3: a section of unknown-component records survives reading and
    writing: when the chunks have 24 bytes each and pairwise different type
    bytes, and no chunk of type 160 holds a signalling NaN as its float, the
    dictionary [interpret_unknown_material_components] builds is written
    back by [reinterpret_unknown_material_components] as the concatenation of
    the chunks, in their order. *)
Theorem unknown_material_components_roundtrip chunks unknown_data :
  Forall (λ record,
            length record = 24%nat
            ∧ (record_type record = Some 160 → ¬ signalling32 (word 1 record)))
         chunks →
  NoDup (record_type <$> chunks) →
  interpret_unknown_material_components chunks = Some unknown_data →
  reinterpret_unknown_material_components unknown_data = Some (mjoin chunks).
Proof.
  intros Hlen Hnd. unfold interpret_unknown_material_components.
  destruct (mapM umc_factory chunks) as [elems|] eqn:Helems; cbn [mbind option_bind]; [|done].
  intros [= <-].
  assert (NoDup elems.*1) as Hkeys.
  { apply (NoDup_fmap_1 Some).
    rewrite <- list_fmap_compose.
    erewrite <- (mapM_keys umc_factory record_type); [done| |done].
    intros record [t vals]. apply umc_factory_type. }
  rewrite from_pairs_NoDup by done.
  unfold reinterpret_unknown_material_components.
  erewrite (mapM_inverse umc_factory); [done| |done].
  eapply Forall_impl; [exact Hlen|]. intros record [Hr Hq] [t vals] Hdec.
  cbn [fst snd]. apply umc_roundtrip; [done..|].
  intros ->. apply Hq. by eapply umc_factory_type.
Qed.

(** X4: a material survives reading and writing: for a 16-byte shader
    identifier and 24-byte shader-uniform chunks with pairwise different
    type bytes, zero payload bytes past their floats and no signalling NaN
    among their floats, what [interpret_material] builds is written back by
    [reinterpret_material] as the same identifier bytes and the
    concatenation of the chunks. *)
Theorem material_roundtrip shader_hex chunks text shader_uniforms :
  length shader_hex = 16%nat →
  Forall (λ record,
            length record = 24%nat
            ∧ ∃ b, record !! 17%nat = Some b
                   ∧ payload_tail_clean (Z_of_byte b) record
                   ∧ uniform_floats_quiet (Z_of_byte b) record) chunks →
  NoDup (record_type <$> chunks) →
  interpret_material shader_hex chunks = Some (text, shader_uniforms) →
  reinterpret_material text shader_uniforms = Some (shader_hex, mjoin chunks).
Proof.
  intros Hhex Hclean Hnd. unfold interpret_material.
  destruct (mapM shader_uniform_factory chunks) as [elems|] eqn:Helems;
    cbn [mbind option_bind]; [|done].
  intros [= <- <-].
  assert (NoDup elems.*1) as Hkeys.
  { apply (NoDup_fmap_1 (λ name, shader_uniform_from_names !! name)).
    rewrite <- list_fmap_compose.
    erewrite <- (mapM_keys shader_uniform_factory record_type); [done| |done].
    intros record [name su]. apply shader_uniform_factory_type. }
  rewrite from_pairs_NoDup by done.
  unfold reinterpret_material.
  rewrite reinterpret_interpret_shader_hex by done. cbn [mbind option_bind].
  erewrite (mapM_inverse shader_uniform_factory); [done| |done].
  eapply Forall_impl; [exact Hclean|].
  intros record (Hr & b & Hb & Hc & Hq) [name su] Hdec. cbn [fst snd].
  apply shader_uniform_factory_num_floats in Hdec as Hnf.
  rewrite Hb in Hnf. injection Hnf as Hnf. rewrite Hnf in Hc, Hq.
  apply shader_uniform_roundtrip_clean; [done..| |exact Hq].
  intros Hnz. by destruct Hc.
Qed.

(** X5: records of one type collapse into one dictionary entry.  Whenever
    a section is read and written back, the section written has 24 bytes per
    dictionary entry, there are at most as many entries as chunks read, and
    there are as many exactly when the type bytes of the chunks are pairwise
    different: with a repeated type the section written is shorter than the
    section read. *)
Theorem unknown_material_components_collapse chunks unknown_data section :
  interpret_unknown_material_components chunks = Some unknown_data →
  reinterpret_unknown_material_components unknown_data = Some section →
  length section = (24 * length unknown_data)%nat
  ∧ (length unknown_data ≤ length chunks)%nat
  ∧ (length unknown_data = length chunks ↔ NoDup (record_type <$> chunks)).
Proof.
  unfold interpret_unknown_material_components, reinterpret_unknown_material_components.
  destruct (mapM umc_factory chunks) as [elems|] eqn:Helems; cbn [mbind option_bind]; [|done].
  intros [= <-].
  destruct (mapM _ (PyDict.from_pairs elems)) as [records|] eqn:Hrecords;
    cbn [fmap option_fmap option_map]; [|done].
  intros [= <-].
  assert (record_type <$> chunks = Some <$> elems.*1) as Htypes.
  { rewrite <- list_fmap_compose. apply (mapM_keys umc_factory); [|done].
    intros record [t vals]. apply umc_factory_type. }
  apply mapM_Some in Hrecords, Helems.
  destruct (from_pairs_keys elems) as [Hnd Hkeys].
  assert ((PyDict.from_pairs elems).*1 ⊆+ elems.*1) as Hsub.
  { apply NoDup_submseteq; [done|]. intros k. by rewrite Hkeys. }
  apply submseteq_length in Hsub as Hle. rewrite !length_fmap in Hle.
  split; [|split].
  - rewrite (Forall2_length _ _ _ Hrecords).
    clear -Hrecords. induction Hrecords as [|[t vals] record d records Hr _ IH]; [done|].
    apply umc_encode_decode in Hr as [Hr _].
    change (mjoin (record :: records)) with (record ++ mjoin records).
    rewrite length_app, IH, Hr. cbn [length]. lia.
  - by rewrite (Forall2_length _ _ _ Helems).
  - rewrite Htypes, (Forall2_length _ _ _ Helems). split.
    + intros Heq. apply NoDup_fmap_2; [apply _|].
      assert ((PyDict.from_pairs elems).*1 ≡ₚ elems.*1) as <-; [|done].
      apply submseteq_length_Permutation; [done|]. rewrite !length_fmap. lia.
    + intros Hd%NoDup_fmap_1. by rewrite from_pairs_NoDup.
Qed.

End SectionFacts.

Lemma unknown_material_components_roundtrip_witness :
  MaterialSections.reinterpret_unknown_material_components
    [(160, [Struct.Int 7; Struct.Float 0x3ff0000000000000]);
     (163, [Struct.Int 32779; Struct.Int 0; Struct.Int 0])]
  = Some (mjoin MaterialSections.example_umc_chunks).
Proof.
  apply (unknown_material_components_roundtrip MaterialSections.example_umc_chunks).
  - repeat constructor; try reflexivity.
    + intros _. apply (bool_decide_unpack _). by vm_compute.
    + intros Ht. by vm_compute in Ht.
  - apply (bool_decide_unpack _). by vm_compute.
  - by vm_compute.
Defined.

Lemma material_roundtrip_witness :
  MaterialSections.reinterpret_material "03020100_07060504_0b0a0908_0f0e0d0c"
    [("DiffuseTextureID"%string,
      {| MaterialReader.num_floats := 0;
         MaterialReader.data := [Struct.Int 3; Struct.Int 0; Struct.Int 0] |});
     ("Bumpiness"%string,
      {| MaterialReader.num_floats := 1;
         MaterialReader.data := [Struct.Float 0x3ff0000000000000] |})]
  = Some (MaterialSections.example_shader_hex,
          mjoin [MaterialSections.diffuse_texture_record;
                 MaterialReader.bumpiness_clean_record]).
Proof.
  apply (material_roundtrip MaterialSections.example_shader_hex
           [MaterialSections.diffuse_texture_record;
            MaterialReader.bumpiness_clean_record]).
  - reflexivity.
  - repeat constructor.
    + exists x00. split; [reflexivity|]. split; [by left|].
      intros k Hk. change (Struct.Z_of_byte x00) with 0 in Hk. lia.
    + exists x01. split; [reflexivity|]. split; [right; reflexivity|].
      intros [|k] Hk; [|change (Struct.Z_of_byte x01) with 1 in Hk; lia].
      apply (bool_decide_unpack _). by vm_compute.
  - apply (bool_decide_unpack _). by vm_compute.
  - by vm_compute.
Defined.

Lemma unknown_material_components_collapse_witness :
  length (drop 24 (mjoin MaterialSections.example_umc_twins))
  = (24 * length MaterialSections.example_umc_twins_data)%nat
  ∧ (length MaterialSections.example_umc_twins_data
     ≤ length MaterialSections.example_umc_twins)%nat
  ∧ (length MaterialSections.example_umc_twins_data
     = length MaterialSections.example_umc_twins
     ↔ NoDup (MaterialSections.record_type <$> MaterialSections.example_umc_twins)).
Proof.
  apply (unknown_material_components_collapse MaterialSections.example_umc_twins).
  - by vm_compute.
  - by vm_compute.
Defined.

(** ** The polygon converters, continued *)

Section ConverterFacts.
Import Polys.

(** [l[start::3]], element by element. *)
Lemma every3_from o : ∀ (l : list Z) k,
  omap (λ ix : nat * Z, if decide (ix.1 mod 3 = 0)%nat then Some ix.2 else None)
       (imap (λ i x, ((o + i)%nat, x)) l) !! k
  = l !! ((3 - o mod 3) mod 3 + 3 * k)%nat.
Proof.
  intros l. revert o. induction l as [|x l IH]; intros o k.
  - by rewrite lookup_nil.
  - cbn [imap omap list_omap]. rewrite (imap_ext _ (λ i x, ((S o + i)%nat, x))).
    2:{ intros i y _. simpl. f_equal. lia. }
    cbn [fst snd]. rewrite Nat.add_0_r.
    pose proof (Nat.mod_upper_bound o 3 ltac:(done)) as Ho.
    assert ((S o) mod 3 = (if decide (o mod 3 = 2) then 0 else S (o mod 3)))%nat as HS.
    { case_decide as H2.
      - replace (S o) with (o + 1)%nat by lia.
        rewrite Nat.Div0.add_mod, H2. done.
      - replace (S o) with (o + 1)%nat by lia.
        rewrite Nat.Div0.add_mod. replace (1 mod 3)%nat with 1%nat by done.
        rewrite Nat.mod_small; lia. }
    destruct (decide (o mod 3 = 0)%nat) as [H0|H0].
    + rewrite H0. change ((3 - 0) mod 3)%nat with 0%nat.
      destruct k as [|k]; [done|].
      cbn [lookup list_lookup]. rewrite IH, HS, H0. rewrite decide_False by done.
      replace (0 + 3 * S k)%nat with (S ((3 - 1) mod 3 + 3 * k))%nat by (simpl; lia).
      done.
    + rewrite IH, HS. case_decide as H2.
      * rewrite H2. change ((3 - 0) mod 3)%nat with 0%nat.
        change ((3 - 2) mod 3)%nat with 1%nat. done.
      * assert (o mod 3 = 1)%nat as -> by lia. done.
Qed.

Lemma every3_lookup (start : nat) (l : list Z) k :
  Py.every start 3 l !! k = l !! (start + 3 * k)%nat.
Proof.
  unfold Py.every. rewrite (every3_from 0), lookup_drop. done.
Qed.

Lemma zip3_lookup {A B C} (a : list A) (b : list B) (c : list C) k :
  Py.zip3 a b c !! k
  = (x ← a !! k; y ← b !! k; z ← c !! k; Some (x, y, z)).
Proof.
  unfold Py.zip3. rewrite lookup_zip_with, lookup_zip_with.
  destruct (a !! k); simpl; [|done]. destruct (b !! k); simpl; [|done].
  by destruct (c !! k).
Qed.

(** X6: a triangle list is cut into consecutive
    index triples: there are [len(idxs) // 3] triangles, triangle [k] is
    [(idxs[3k], idxs[3k+1], idxs[3k+2])], and one or two indices left over
    at the end are dropped. *)
Theorem triangles_to_polys_spec idxs :
  length (triangles_to_polys idxs) = (length idxs / 3)%nat
  ∧ ∀ k a b c,
      triangles_to_polys idxs !! k = Some (a, b, c)
      ↔ idxs !! (3 * k)%nat = Some a ∧ idxs !! (3 * k + 1)%nat = Some b
        ∧ idxs !! (3 * k + 2)%nat = Some c.
Proof.
  assert (∀ k a b c,
      triangles_to_polys idxs !! k = Some (a, b, c)
      ↔ idxs !! (3 * k)%nat = Some a ∧ idxs !! (3 * k + 1)%nat = Some b
        ∧ idxs !! (3 * k + 2)%nat = Some c) as Hlookup.
  { intros k a b c. unfold triangles_to_polys, tri.
    rewrite zip3_lookup, !every3_lookup.
    replace (0 + 3 * k)%nat with (3 * k)%nat by lia.
    replace (1 + 3 * k)%nat with (3 * k + 1)%nat by lia.
    replace (2 + 3 * k)%nat with (3 * k + 2)%nat by lia.
    destruct (idxs !! (3 * k)%nat) as [a'|]; cbn [mbind option_bind];
      [|split; [done|by intros [? _]]].
    destruct (idxs !! (3 * k + 1)%nat) as [b'|]; cbn [mbind option_bind];
      [|split; [done|by intros (_ & ? & _)]].
    destruct (idxs !! (3 * k + 2)%nat) as [c'|]; cbn [mbind option_bind];
      [|split; [done|by intros (_ & _ & ?)]].
    split; [by intros [= -> -> ->]|by intros ([= ->] & [= ->] & [= ->])]. }
  split; [|done].
  pose proof (Nat.div_mod_eq (length idxs) 3) as Hdm.
  pose proof (Nat.mod_upper_bound (length idxs) 3 ltac:(done)) as Hm.
  apply Nat.le_antisymm.
  - destruct (decide (length (triangles_to_polys idxs) ≤ length idxs / 3)%nat) as [|Hgt];
      [done|exfalso].
    destruct (lookup_lt_is_Some_2 (triangles_to_polys idxs) (length idxs / 3)) as [[[a b] c] Ht];
      [lia|].
    apply Hlookup in Ht as (_ & _ & Hc). apply lookup_lt_Some in Hc. lia.
  - destruct (decide (length idxs / 3 ≤ length (triangles_to_polys idxs))%nat) as [|Hlt];
      [done|exfalso].
    remember (length (triangles_to_polys idxs)) as k eqn:Hk.
    destruct (lookup_lt_is_Some_2 idxs (3 * k)) as [a Ha]; [lia|].
    destruct (lookup_lt_is_Some_2 idxs (3 * k + 1)) as [b Hb]; [lia|].
    destruct (lookup_lt_is_Some_2 idxs (3 * k + 2)) as [c Hc]; [lia|].
    assert (triangles_to_polys idxs !! k = Some (a, b, c)) as Ht by (by apply Hlookup).
    apply lookup_lt_Some in Ht. unfold tri in *. lia.
Qed.

(** A strip whose indices are pairwise different yields every triple it
    proposes. *)
Lemma fold_emit_all W : ∀ acc,
  Forall pairwise_distinct W → NoDup (acc ++ W) →
  fold_left emit W acc = acc ++ W.
Proof.
  induction W as [|w W IH]; intros acc Hd Hnd; simpl.
  { by rewrite app_nil_r. }
  apply Forall_cons in Hd as [Hw Hd].
  rewrite emit_spec, decide_True.
  - rewrite IH; [by rewrite <- app_assoc|done|by rewrite <- app_assoc].
  - split; [done|]. apply NoDup_app in Hnd as (_ & Hnd & _).
    intros Hin. apply (Hnd w Hin). left.
Qed.

(** X7: a strip whose indices are pairwise
    different loses no triangle: the output is the list of all proposed
    triples, one per window of three consecutive indices, so a strip of
    [n] indices gives [n - 2] triangles (none for fewer than three
    indices). *)
Theorem strip_of_distinct_indices idxs :
  NoDup idxs →
  triangle_strips_to_polys idxs = candidates idxs
  ∧ length (triangle_strips_to_polys idxs) = (length idxs - 2)%nat.
Proof.
  intros Hnd.
  assert (length (candidates idxs) = (length idxs - 2)%nat) as Hlen.
  { unfold candidates, Py.zip3. rewrite length_imap, length_zip_with, length_zip_with.
    rewrite !length_drop. lia. }
  rewrite strips_as_emit, fold_emit_all; [done| |].
  - apply Forall_lookup. intros k t Hk.
    apply candidates_lookup in Hk as (a & b & c & Ha & Hb & Hc & ->).
    apply wound_distinct. unfold pairwise_distinct.
    repeat split; intros ->.
    + pose proof (NoDup_lookup _ _ _ _ Hnd Ha Hb). lia.
    + pose proof (NoDup_lookup _ _ _ _ Hnd Hb Hc). lia.
    + pose proof (NoDup_lookup _ _ _ _ Hnd Ha Hc). lia.
  - rewrite app_nil_l. apply NoDup_alt. intros i j t Hi Hj.
    apply candidates_lookup in Hi as (a & b & c & _ & _ & Hc & ->).
    apply candidates_lookup in Hj as (a' & b' & c' & _ & _ & Hc' & Heq).
    assert (c = c') as <-.
    { unfold wound in Heq. destruct (Nat.even i), (Nat.even j); congruence. }
    pose proof (NoDup_lookup _ _ _ _ Hnd Hc Hc'). lia.
Qed.


End ConverterFacts.

(** ** [chunks] *)

Section ChunksFacts.
Import Anims.
Context {A : Type}.
Implicit Types (lst : list A).

Lemma chunks_upto_nil fuel (n : nat) : chunks_upto fuel (@nil A) n = [].
Proof. by destruct fuel. Qed.

Lemma chunks_upto_join (n : nat) : (0 < n)%nat → ∀ fuel lst,
  (length lst ≤ fuel)%nat → mjoin (chunks_upto fuel lst n) = lst.
Proof.
  intros Hn. induction fuel as [|fuel IH]; intros lst Hf.
  - destruct lst; [done|simpl in Hf; lia].
  - destruct lst as [|x lst]; [done|].
    cbn [chunks_upto]. change (mjoin (?c :: ?cs)) with (c ++ mjoin cs).
    rewrite IH; [apply take_drop|].
    rewrite length_drop. simpl in *. lia.
Qed.

Lemma chunks_upto_lookup (n : nat) : (0 < n)%nat → ∀ fuel lst k,
  (length lst ≤ fuel)%nat →
  chunks_upto fuel lst n !! k
  = if decide (k * n < length lst)%nat then Some (take n (drop (k * n) lst)) else None.
Proof.
  intros Hn. induction fuel as [|fuel IH]; intros lst k Hf.
  - destruct lst; [|simpl in Hf; lia]. cbn [chunks_upto].
    rewrite lookup_nil. by rewrite decide_False by (cbn [length]; lia).
  - destruct lst as [|x lst].
    { cbn [chunks_upto]. rewrite lookup_nil.
      by rewrite decide_False by (cbn [length]; lia). }
    cbn [chunks_upto]. destruct k as [|k].
    + cbn [lookup list_lookup]. rewrite decide_True by (simpl; lia). done.
    + cbn [lookup list_lookup]. rewrite IH by (rewrite length_drop; simpl in *; lia).
      rewrite length_drop, drop_drop.
      replace (n + k * n)%nat with (S k * n)%nat by lia.
      destruct (decide (k * n < length (x :: lst) - n)%nat);
        destruct (decide (S k * n < length (x :: lst))%nat); try done; lia.
Qed.

Lemma chunks_upto_length (n : nat) : (0 < n)%nat → ∀ fuel lst,
  (length lst ≤ fuel)%nat →
  length (chunks_upto fuel lst n) = ((length lst + n - 1) / n)%nat.
Proof.
  intros Hn. induction fuel as [|fuel IH]; intros lst Hf.
  - destruct lst; [|simpl in Hf; lia]. simpl.
    symmetry. apply Nat.div_small. lia.
  - destruct lst as [|x lst].
    { simpl. symmetry. apply Nat.div_small. lia. }
    cbn [chunks_upto length]. rewrite IH by (rewrite length_drop; simpl in *; lia).
    rewrite length_drop. cbn [length].
    destruct (decide (n ≤ S (length lst))%nat) as [Hle|Hgt].
    + replace (S (length lst) + n - 1)%nat with ((S (length lst) - n + n - 1) + 1 * n)%nat by lia.
      rewrite Nat.div_add by lia. lia.
    + replace (S (length lst) - n + n - 1)%nat with (n - 1)%nat by lia.
      rewrite (Nat.div_small (n - 1) n) by lia.
      apply (Nat.div_unique _ _ 1 (length lst)); lia.
Qed.

(** X8: for a positive chunk size [n], [chunks] gives the
    chunks of a list: they concatenate to the list, there are
    [ceil(len / n)] of them, none is empty, and chunk [k] is
    [lst[k*n : k*n + n]]: [n] elements, except that the last chunk holds what
    is left.  For the chunk size [-n] there are no chunks, and the chunk size
    0 is an error. *)
Theorem chunks_spec lst (n : Z) :
  0 < n →
  (∃ cs, chunks lst n = Some cs
         ∧ mjoin cs = lst
         ∧ length cs = ((length lst + Z.to_nat n - 1) / Z.to_nat n)%nat
         ∧ ∀ k c, cs !! k = Some c →
                  (0 < length c)%nat
                  ∧ length c = (Z.to_nat n `min` (length lst - k * Z.to_nat n))%nat
                  ∧ c = take (Z.to_nat n) (drop (k * Z.to_nat n) lst))
  ∧ chunks lst (- n) = Some []
  ∧ chunks lst 0 = None.
Proof.
  intros Hn. unfold chunks.
  rewrite (decide_False (P := n = 0)), (decide_True (P := 0 < n)) by lia.
  rewrite (decide_False (P := - n = 0)), (decide_False (P := 0 < - n)) by lia.
  split; [|done].
  assert (0 < Z.to_nat n)%nat as Hn' by lia.
  eexists. split; [done|].
  split; [by apply chunks_upto_join|]. split; [by apply chunks_upto_length|].
  intros k c. rewrite chunks_upto_lookup by done.
  case_decide as Hk; [|done]. intros [= <-].
  rewrite length_take, length_drop. split; [lia|]. split; [lia|done].
Qed.

End ChunksFacts.

Lemma strip_of_distinct_indices_witness :
  Polys.triangle_strips_to_polys [4; 7; 5; 9; 8] = Polys.candidates [4; 7; 5; 9; 8]
  ∧ length (Polys.triangle_strips_to_polys [4; 7; 5; 9; 8])
    = (length [4; 7; 5; 9; 8] - 2)%nat.
Proof.
  apply (strip_of_distinct_indices [4; 7; 5; 9; 8]).
  apply (bool_decide_unpack _). by vm_compute.
Defined.

Lemma chunks_spec_witness :
  ∃ cs, Anims.chunks [1; 2; 3; 4; 5; 6; 7] 3 = Some cs
        ∧ mjoin cs = [1; 2; 3; 4; 5; 6; 7]
        ∧ length cs = 3%nat.
Proof.
  destruct (chunks_spec [1; 2; 3; 4; 5; 6; 7] 3) as ((cs & Hcs & Hjoin & Hlen & _) & _);
    [lia|].
  exists cs. split; [exact Hcs|]. split; [exact Hjoin|exact Hlen].
Defined.

(** ** [add_anims]: the curve dictionaries *)

Section AnimCurveFacts.
Import Anims AnimCurves.
Context {V : Type}.

Lemma empty_fcurves_lookup {A} (n : nat) (b : Z) :
  @empty_fcurves A n !! b = if decide (0 ≤ b < Z.of_nat n) then Some [] else None.
Proof.
  unfold empty_fcurves. case_decide as Hb.
  - apply elem_of_list_to_map_1.
    + rewrite <- list_fmap_compose. apply NoDup_fmap_2; [|apply NoDup_seq].
      intros i j Hij. simpl in Hij. lia.
    + apply list_elem_of_fmap. exists (Z.to_nat b). split; [f_equal; lia|].
      apply elem_of_seq. lia.
  - apply not_elem_of_list_to_map_1. rewrite <- list_fmap_compose.
    intros (i & -> & Hi%elem_of_seq)%list_elem_of_fmap. simpl in Hb. lia.
Qed.

Lemma empty_curves_inv n : curves_inv n (@empty_fcurves Z n) (@empty_fcurves V n).
Proof.
  split; [|split].
  - intros b. rewrite empty_fcurves_lookup. case_decide; [by split; eauto|].
    split; [by intros [? ?]|done].
  - intros b. rewrite empty_fcurves_lookup. case_decide; [by split; eauto|].
    split; [by intros [? ?]|done].
  - intros b f v. rewrite !empty_fcurves_lookup. case_decide; [|done].
    by intros [= <-] [= <-].
Qed.

Lemma dict_extend_Some {A} (d : gmap Z (list A)) k xs d' :
  dict_extend d k xs = Some d' ↔ ∃ l, d !! k = Some l ∧ d' = <[k := l ++ xs]> d.
Proof.
  unfold dict_extend. destruct (d !! k) as [l|]; simpl.
  - split; [intros [= <-]; eauto|]. by intros (l' & [= <-] & ->).
  - split; [done|]. by intros (l' & ? & _).
Qed.

Lemma extend_inv n fr vl k (fs : list Z) (vs : list V) fr' vl' :
  curves_inv n fr vl → (length vs ≤ length fs)%nat →
  dict_extend fr k fs = Some fr' → dict_extend vl k vs = Some vl' →
  curves_inv n fr' vl'.
Proof.
  intros (Hf & Hv & Hlen) Hle (f & Hkf & ->)%dict_extend_Some
         (v & Hkv & ->)%dict_extend_Some.
  split; [|split].
  - intros b. rewrite <- Hf. destruct (decide (b = k)) as [->|Hne].
    + rewrite lookup_insert_eq, Hkf. split; eauto.
    + by rewrite lookup_insert_ne.
  - intros b. rewrite <- Hv. destruct (decide (b = k)) as [->|Hne].
    + rewrite lookup_insert_eq, Hkv. split; eauto.
    + by rewrite lookup_insert_ne.
  - intros b f' v'. destruct (decide (b = k)) as [->|Hne].
    + rewrite !lookup_insert_eq. intros [= <-] [= <-].
      rewrite !length_app. specialize (Hlen _ _ _ Hkf Hkv). lia.
    + rewrite !lookup_insert_ne by done. apply Hlen.
Qed.

Lemma extend_ok n fr vl k (fs : list Z) (vs : list V) :
  curves_inv n fr vl → 0 ≤ k < Z.of_nat n →
  ∃ fr' vl', dict_extend fr k fs = Some fr' ∧ dict_extend vl k vs = Some vl'.
Proof.
  intros (Hf & Hv & _) Hk. apply Hf in Hk as Hkf. apply Hv in Hk as Hkv.
  destruct Hkf as [f Hkf], Hkv as [v Hkv]. unfold dict_extend.
  rewrite Hkf, Hkv. simpl. eauto.
Qed.

Lemma add_samples_inv n frame (samples : list (Z * V)) : ∀ fr vl fr' vl',
  curves_inv n fr vl →
  add_samples frame samples fr vl = Some (fr', vl') → curves_inv n fr' vl'.
Proof.
  induction samples as [|[b v] samples IH]; intros fr vl fr' vl' Hinv; cbn [add_samples].
  - by intros [= <- <-].
  - destruct (dict_extend fr b [frame]) as [fr1|] eqn:H1; cbn [mbind option_bind]; [|done].
    destruct (dict_extend vl b [v]) as [vl1|] eqn:H2; cbn [mbind option_bind]; [|done].
    apply IH. by eapply (extend_inv n fr vl b [frame] [v]).
Qed.

Lemma add_samples_ok n frame (samples : list (Z * V)) : ∀ fr vl,
  curves_inv n fr vl → in_range n samples.*1 →
  is_Some (add_samples frame samples fr vl).
Proof.
  induction samples as [|[b v] samples IH]; intros fr vl Hinv Hr; cbn [add_samples].
  - eauto.
  - apply Forall_cons in Hr as [Hb Hr]. cbn [fst] in Hb.
    destruct (extend_ok n fr vl b [frame] [v] Hinv Hb) as (fr1 & vl1 & H1 & H2).
    rewrite H1, H2. cbn [mbind option_bind]. apply IH; [|done].
    by eapply (extend_inv n fr vl b [frame] [v]).
Qed.

Lemma in_range_zip {A} n (bs : list Z) (vs : list A) :
  in_range n bs → in_range n (zip bs vs).*1.
Proof.
  unfold in_range. intros H. revert vs.
  induction H as [|b bs Hb H IH]; intros [|v vs]; simpl; try constructor; auto.
Qed.

Lemma mask_loop_inv n c (bs : list Z) : ∀ masks (stream : list V) fr vl m' s' fr' vl',
  curves_inv n fr vl →
  mask_loop c bs masks stream fr vl = Some (m', s', fr', vl') →
  curves_inv n fr' vl'.
Proof.
  induction bs as [|b bs IH]; intros masks stream fr vl m' s' fr' vl' Hinv.
  { cbn [mask_loop]. by intros [= _ _ <- <-]. }
  destruct masks as [|mask masks].
  { cbn [mask_loop]. by intros [= _ _ <- <-]. }
  cbn [mask_loop].
  destruct (dict_extend fr b _) as [fr1|] eqn:H1; cbn [mbind option_bind]; [|done].
  destruct (dict_extend vl b _) as [vl1|] eqn:H2; cbn [mbind option_bind]; [|done].
  apply IH. eapply (extend_inv n fr vl b); [done| |done..].
  rewrite length_take. lia.
Qed.

Lemma mask_loop_ok n c (bs : list Z) : ∀ masks (stream : list V) fr vl,
  curves_inv n fr vl → in_range n bs →
  is_Some (mask_loop c bs masks stream fr vl).
Proof.
  induction bs as [|b bs IH]; intros masks stream fr vl Hinv Hr.
  { cbn [mask_loop]. eauto. }
  destruct masks as [|mask masks].
  { cbn [mask_loop]. eauto. }
  apply Forall_cons in Hr as [Hb Hr]. cbn [mask_loop].
  destruct (extend_ok n fr vl b (mask_frames c mask)
              (take (length (mask_frames c mask)) stream) Hinv Hb)
    as (fr1 & vl1 & H1 & H2).
  rewrite H1, H2. cbn [mbind option_bind]. apply IH; [|done].
  eapply (extend_inv n fr vl b); [done| |done..].
  rewrite length_take. lia.
Qed.

Lemma add_block_inv (ar : AnimReader V) c block c' :
  all_inv (num_bones ar) c → add_block ar c block = Some c' →
  all_inv (num_bones ar) c'.
Proof.
  intros (Hr & Hl & Hs). destruct block as [[cf nf] sub]. unfold add_block.
  destruct (add_samples cf (zip (keyframe_rotations_bone_idxs ar) _) _ _)
    as [[rf rv]|] eqn:E1; cbn [mbind option_bind]; [|done].
  destruct (add_samples cf (zip (keyframe_locations_bone_idxs ar) _) _ _)
    as [[lf lv]|] eqn:E2; cbn [mbind option_bind]; [|done].
  destruct (add_samples cf (zip (keyframe_scales_bone_idxs ar) _) _ _)
    as [[sf sv]|] eqn:E3; cbn [mbind option_bind]; [|done].
  apply add_samples_inv with (n := num_bones ar) in E1, E2, E3; [|done..].
  rewrite block_chunks. cbn [mbind option_bind].
  destruct (mask_loop cf (keyframe_rotations_bone_idxs ar) _ _ rf rv)
    as [[[[m1 s1] rf' ] rv']|] eqn:M1; cbn [mbind option_bind]; [|done].
  destruct (mask_loop cf (keyframe_locations_bone_idxs ar) _ _ lf lv)
    as [[[[m2 s2] lf' ] lv']|] eqn:M2; cbn [mbind option_bind]; [|done].
  destruct (mask_loop cf (keyframe_scales_bone_idxs ar) _ _ sf sv)
    as [[[[m3 s3] sf' ] sv']|] eqn:M3; cbn [mbind option_bind]; [|done].
  apply mask_loop_inv with (n := num_bones ar) in M1, M2, M3; [|done..].
  by intros [= <-].
Qed.

Lemma add_block_ok (ar : AnimReader V) c block :
  all_inv (num_bones ar) c → keyframes_in_range ar →
  is_Some (add_block ar c block).
Proof.
  intros (Hr & Hl & Hs) (Kr & Kl & Ks). destruct block as [[cf nf] sub].
  unfold add_block.
  destruct (add_samples_ok (num_bones ar) cf
              (zip (keyframe_rotations_bone_idxs ar) (Substructure.unknown_data_1 sub))
              _ _ Hr (in_range_zip _ _ _ Kr)) as [[rf rv] E1].
  destruct (add_samples_ok (num_bones ar) cf
              (zip (keyframe_locations_bone_idxs ar) (Substructure.unknown_data_2 sub))
              _ _ Hl (in_range_zip _ _ _ Kl)) as [[lf lv] E2].
  destruct (add_samples_ok (num_bones ar) cf
              (zip (keyframe_scales_bone_idxs ar) (Substructure.unknown_data_3 sub))
              _ _ Hs (in_range_zip _ _ _ Ks)) as [[sf sv] E3].
  rewrite E1. cbn [mbind option_bind]. rewrite E2. cbn [mbind option_bind].
  rewrite E3. cbn [mbind option_bind].
  apply add_samples_inv with (n := num_bones ar) in E1, E2, E3; [|done..].
  rewrite block_chunks. cbn [mbind option_bind].
  match goal with |- context [mask_loop cf (keyframe_rotations_bone_idxs ar) ?m ?s rf rv] =>
    destruct (mask_loop_ok (num_bones ar) cf _ m s rf rv E1 Kr) as [[[[m1 s1] rf'] rv'] M1]
  end.
  rewrite M1. cbn [mbind option_bind].
  match goal with |- context [mask_loop cf (keyframe_locations_bone_idxs ar) ?m ?s lf lv] =>
    destruct (mask_loop_ok (num_bones ar) cf _ m s lf lv E2 Kl) as [[[[m2 s2] lf'] lv'] M2]
  end.
  rewrite M2. cbn [mbind option_bind].
  match goal with |- context [mask_loop cf (keyframe_scales_bone_idxs ar) ?m ?s sf sv] =>
    destruct (mask_loop_ok (num_bones ar) cf _ m s sf sv E3 Ks) as [[[[m3 s3] sf'] sv'] M3]
  end.
  rewrite M3. cbn [mbind option_bind]. eauto.
Qed.

Lemma add_blocks_inv (ar : AnimReader V) blocks : ∀ c c',
  all_inv (num_bones ar) c → add_blocks ar c blocks = Some c' →
  all_inv (num_bones ar) c'.
Proof.
  induction blocks as [|b blocks IH]; intros c c' Hinv; cbn [add_blocks].
  - by intros [= <-].
  - destruct (add_block ar c b) as [c1|] eqn:E; cbn [mbind option_bind]; [|done].
    apply IH. by eapply add_block_inv.
Qed.

Lemma add_blocks_ok (ar : AnimReader V) blocks : ∀ c,
  all_inv (num_bones ar) c → keyframes_in_range ar →
  is_Some (add_blocks ar c blocks).
Proof.
  induction blocks as [|b blocks IH]; intros c Hinv Hk; cbn [add_blocks].
  - eauto.
  - destruct (add_block_ok ar c b Hinv Hk) as [c1 E]. rewrite E.
    cbn [mbind option_bind]. apply IH; [|done]. by eapply add_block_inv.
Qed.

Lemma add_fcurves_spec (bs : list Z) fr (vl : gmap Z (list V)) : ∀ acc,
  (∀ b, b ∈ bs → is_Some (fr !! b) ∧ is_Some (vl !! b)) →
  ∃ d, add_fcurves bs fr vl acc = Some d
       ∧ ∀ b, d !! b = if decide (b ∈ bs)
                       then f ← fr !! b; v ← vl !! b; Some {| frames := f; values := v |}
                       else acc !! b.
Proof.
  induction bs as [|b0 bs IH]; intros acc Hkeys; cbn [add_fcurves].
  - exists acc. split; [done|]. intros b. rewrite decide_False; [done|]. apply not_elem_of_nil.
  - destruct (Hkeys b0) as [[f Hf] [v Hv]]; [left|].
    rewrite Hf, Hv. cbn [mbind option_bind].
    destruct (IH (<[b0 := {| frames := f; values := v |}]> acc)) as (d & Hd & Hlk).
    { intros b Hb. apply Hkeys. by right. }
    exists d. split; [done|]. intros b. rewrite Hlk.
    destruct (decide (b ∈ bs)) as [Hin|Hni].
    + rewrite decide_True; [done|by right].
    + destruct (decide (b = b0)) as [->|Hne].
      * rewrite decide_True by left. rewrite lookup_insert_eq, Hf, Hv. done.
      * rewrite decide_False; [by rewrite lookup_insert_ne|].
        intros [?|?]%elem_of_cons; done.
Qed.

Lemma add_fcurves_range n fr (vl : gmap Z (list V)) :
  curves_inv n fr vl →
  ∃ d, add_fcurves ((λ i : nat, Z.of_nat i) <$> seq 0 n) fr vl ∅ = Some d
       ∧ fcurves_inv n d
       ∧ ∀ b c, d !! b = Some c → fr !! b = Some (frames c) ∧ vl !! b = Some (values c).
Proof.
  intros (Hf & Hv & Hlen).
  assert (∀ b, b ∈ (λ i : nat, Z.of_nat i) <$> seq 0 n ↔ 0 ≤ b < Z.of_nat n) as Hseq.
  { intros b. rewrite list_elem_of_fmap. split.
    - intros (i & -> & Hi%elem_of_seq). lia.
    - intros Hb. exists (Z.to_nat b). split; [lia|]. apply elem_of_seq. lia. }
  destruct (add_fcurves_spec ((λ i : nat, Z.of_nat i) <$> seq 0 n) fr vl ∅)
    as (d & Hd & Hlk).
  { intros b Hb%Hseq. split; [by apply Hf|by apply Hv]. }
  exists d. split; [done|].
  assert (∀ b c, d !! b = Some c →
                 0 ≤ b < Z.of_nat n ∧ fr !! b = Some (frames c) ∧ vl !! b = Some (values c))
    as Hd'.
  { intros b c. rewrite Hlk. case_decide as Hb; [|by rewrite lookup_empty].
    apply Hseq in Hb.
    destruct (fr !! b) as [f|]; cbn [mbind option_bind]; [|done].
    destruct (vl !! b) as [v|]; cbn [mbind option_bind]; [|done].
    by intros [= <-]. }
  split; [split|].
  - intros b. split.
    + intros [c Hc]. by apply Hd' in Hc as [? _].
    + intros Hb. rewrite Hlk, decide_True by (by apply Hseq).
      apply Hf in Hb as Hbf. apply Hv in Hb as Hbv.
      destruct Hbf as [f ->], Hbv as [v ->]. simpl. eauto.
  - intros b c Hc. apply Hd' in Hc as (_ & Hcf & Hcv). by eapply Hlen.
  - intros b c Hc. by apply Hd' in Hc as (_ & ? & ?).
Qed.

(** X9: an animation that [add_anims] builds has, in
    each of its three channels, one curve for every bone index of
    [range(num_bones)] and for no other key, no curve has more values than
    frames, and the playback rate is 24. *)
Theorem add_anim_curves (ar : AnimReader V) ad :
  add_anim ar = Some ad →
  playback_rate ad = 24
  ∧ fcurves_inv (num_bones ar) (rotations ad)
  ∧ fcurves_inv (num_bones ar) (locations ad)
  ∧ fcurves_inv (num_bones ar) (scales ad).
Proof.
  unfold add_anim.
  destruct (add_samples 0 (zip (initial_pose_rotations_bone_idxs ar) _) _ _)
    as [[rf rv]|] eqn:E1; cbn [mbind option_bind]; [|done].
  destruct (add_samples 0 (zip (initial_pose_locations_bone_idxs ar) _) _ _)
    as [[lf lv]|] eqn:E2; cbn [mbind option_bind]; [|done].
  destruct (add_samples 0 (zip (initial_pose_scales_bone_idxs ar) _) _ _)
    as [[sf sv]|] eqn:E3; cbn [mbind option_bind]; [|done].
  apply add_samples_inv with (n := num_bones ar) in E1, E2, E3;
    [|apply empty_curves_inv..].
  destruct (add_blocks ar _ _) as [c|] eqn:Hc; cbn [mbind option_bind]; [|done].
  apply add_blocks_inv in Hc as (Cr & Cl & Cs); [|by split; [|split]].
  destruct (add_fcurves_range _ _ _ Cr) as (r & -> & Hr & _).
  destruct (add_fcurves_range _ _ _ Cl) as (l & -> & Hl & _).
  destruct (add_fcurves_range _ _ _ Cs) as (s & -> & Hs & _).
  cbn [mbind option_bind]. by intros [= <-].
Qed.

(** X10: when all six bone-index lists of a reader
    hold indices of [range(num_bones)] only, the loops of [add_anims] raise
    no [KeyError]: the animation is built, whatever the lengths of the value
    lists, masks and streams. *)
Theorem add_anim_in_range (ar : AnimReader V) :
  in_range (num_bones ar) (initial_pose_rotations_bone_idxs ar) →
  in_range (num_bones ar) (initial_pose_locations_bone_idxs ar) →
  in_range (num_bones ar) (initial_pose_scales_bone_idxs ar) →
  in_range (num_bones ar) (keyframe_rotations_bone_idxs ar) →
  in_range (num_bones ar) (keyframe_locations_bone_idxs ar) →
  in_range (num_bones ar) (keyframe_scales_bone_idxs ar) →
  is_Some (add_anim ar).
Proof.
  intros Ir Il Is Kr Kl Ks. unfold add_anim.
  destruct (add_samples_ok (num_bones ar) 0
              (zip (initial_pose_rotations_bone_idxs ar) (initial_pose_bone_rotations ar))
              _ _ (empty_curves_inv _) (in_range_zip _ _ _ Ir)) as [[rf rv] E1].
  destruct (add_samples_ok (num_bones ar) 0
              (zip (initial_pose_locations_bone_idxs ar) (initial_pose_bone_locations ar))
              _ _ (empty_curves_inv _) (in_range_zip _ _ _ Il)) as [[lf lv] E2].
  destruct (add_samples_ok (num_bones ar) 0
              (zip (initial_pose_scales_bone_idxs ar) (initial_pose_bone_scales ar))
              _ _ (empty_curves_inv _) (in_range_zip _ _ _ Is)) as [[sf sv] E3].
  rewrite E1. cbn [mbind option_bind]. rewrite E2. cbn [mbind option_bind].
  rewrite E3. cbn [mbind option_bind].
  apply add_samples_inv with (n := num_bones ar) in E1, E2, E3;
    [|apply empty_curves_inv..].
  match goal with |- context [add_blocks ar ?c ?bl] =>
    destruct (add_blocks_ok ar bl c) as [c' Hc]; [by split; [|split]|done|]
  end.
  rewrite Hc. cbn [mbind option_bind].
  apply add_blocks_inv in Hc as (Cr & Cl & Cs); [|by split; [|split]].
  destruct (add_fcurves_range _ _ _ Cr) as (r & -> & _).
  destruct (add_fcurves_range _ _ _ Cl) as (l & -> & _).
  destruct (add_fcurves_range _ _ _ Cs) as (s & -> & _).
  cbn [mbind option_bind]. eauto.
Qed.

(** *** Failing lookups *)

Lemma add_samples_Some_in_range n frame (samples : list (Z * V)) : ∀ fr vl,
  curves_inv n fr vl →
  is_Some (add_samples frame samples fr vl) → in_range n samples.*1.
Proof.
  induction samples as [|[b v] samples IH]; intros fr vl Hinv; cbn [add_samples].
  - intros _. constructor.
  - destruct (dict_extend fr b [frame]) as [fr1|] eqn:H1; cbn [mbind option_bind];
      [|by intros [? ?]].
    destruct (dict_extend vl b [v]) as [vl1|] eqn:H2; cbn [mbind option_bind];
      [|by intros [? ?]].
    intros Hs. constructor.
    + apply dict_extend_Some in H1 as (l & Hl & _). pose proof Hinv as (Hf & _ & _).
      cbn [fst]. apply Hf. by eexists.
    + eapply IH; [|done]. by eapply (extend_inv n fr vl b [frame] [v]).
Qed.

(** X11: conversely, an animation is only built
    when every initial-pose bone index that has a value to go with it lies
    in [range(num_bones)]; an index outside raises [KeyError]. *)
Theorem add_anim_initial_indices (ar : AnimReader V) ad :
  add_anim ar = Some ad →
  in_range (num_bones ar)
    (zip (initial_pose_rotations_bone_idxs ar) (initial_pose_bone_rotations ar)).*1
  ∧ in_range (num_bones ar)
      (zip (initial_pose_locations_bone_idxs ar) (initial_pose_bone_locations ar)).*1
  ∧ in_range (num_bones ar)
      (zip (initial_pose_scales_bone_idxs ar) (initial_pose_bone_scales ar)).*1.
Proof.
  unfold add_anim.
  destruct (add_samples 0 (zip (initial_pose_rotations_bone_idxs ar) _) _ _)
    as [[rf rv]|] eqn:E1; cbn [mbind option_bind]; [|done].
  destruct (add_samples 0 (zip (initial_pose_locations_bone_idxs ar) _) _ _)
    as [[lf lv]|] eqn:E2; cbn [mbind option_bind]; [|done].
  destruct (add_samples 0 (zip (initial_pose_scales_bone_idxs ar) _) _ _)
    as [[sf sv]|] eqn:E3; cbn [mbind option_bind]; [|done].
  intros _. split; [|split].
  - eapply add_samples_Some_in_range; [apply empty_curves_inv|]. rewrite E1. eauto.
  - eapply add_samples_Some_in_range; [apply empty_curves_inv|]. rewrite E2. eauto.
  - eapply add_samples_Some_in_range; [apply empty_curves_inv|]. rewrite E3. eauto.
Qed.

(** *** Append only *)

Lemma extends_refl {A} (d : gmap Z (list A)) : extends d d.
Proof. intros b l Hl. exists []. by rewrite app_nil_r. Qed.

Lemma extends_trans {A} (d1 d2 d3 : gmap Z (list A)) :
  extends d1 d2 → extends d2 d3 → extends d1 d3.
Proof.
  intros H12 H23 b l Hl. destruct (H12 b l Hl) as (l1 & Hl1).
  destruct (H23 b _ Hl1) as (l2 & Hl2). exists (l1 ++ l2). by rewrite app_assoc.
Qed.

Lemma dict_extend_extends {A} (d : gmap Z (list A)) k xs d' :
  dict_extend d k xs = Some d' → extends d d'.
Proof.
  intros (l0 & Hl0 & ->)%dict_extend_Some b l Hl.
  destruct (decide (b = k)) as [->|Hne].
  - rewrite lookup_insert_eq. exists xs. congruence.
  - rewrite lookup_insert_ne by done. exists []. by rewrite app_nil_r.
Qed.

Lemma add_samples_extends frame (samples : list (Z * V)) : ∀ fr vl fr' vl',
  add_samples frame samples fr vl = Some (fr', vl') → extends fr fr' ∧ extends vl vl'.
Proof.
  induction samples as [|[b v] samples IH]; intros fr vl fr' vl'; cbn [add_samples].
  - intros [= <- <-]. split; apply extends_refl.
  - destruct (dict_extend fr b [frame]) as [fr1|] eqn:H1; cbn [mbind option_bind]; [|done].
    destruct (dict_extend vl b [v]) as [vl1|] eqn:H2; cbn [mbind option_bind]; [|done].
    intros [Hf Hv]%IH. apply dict_extend_extends in H1, H2.
    split; by eapply extends_trans.
Qed.

Lemma mask_loop_extends c (bs : list Z) : ∀ masks (stream : list V) fr vl m' s' fr' vl',
  mask_loop c bs masks stream fr vl = Some (m', s', fr', vl') →
  extends fr fr' ∧ extends vl vl'.
Proof.
  induction bs as [|b bs IH]; intros masks stream fr vl m' s' fr' vl'.
  { cbn [mask_loop]. intros [= _ _ <- <-]. split; apply extends_refl. }
  destruct masks as [|mask masks].
  { cbn [mask_loop]. intros [= _ _ <- <-]. split; apply extends_refl. }
  cbn [mask_loop].
  destruct (dict_extend fr b _) as [fr1|] eqn:H1; cbn [mbind option_bind]; [|done].
  destruct (dict_extend vl b _) as [vl1|] eqn:H2; cbn [mbind option_bind]; [|done].
  intros [Hf Hv]%IH. apply dict_extend_extends in H1, H2.
  split; by eapply extends_trans.
Qed.

Lemma add_block_extends (ar : AnimReader V) c block c' :
  add_block ar c block = Some c' → all_extends c c'.
Proof.
  destruct block as [[cf nf] sub]. unfold add_block.
  destruct (add_samples cf (zip (keyframe_rotations_bone_idxs ar) _) _ _)
    as [[rf rv]|] eqn:E1; cbn [mbind option_bind]; [|done].
  destruct (add_samples cf (zip (keyframe_locations_bone_idxs ar) _) _ _)
    as [[lf lv]|] eqn:E2; cbn [mbind option_bind]; [|done].
  destruct (add_samples cf (zip (keyframe_scales_bone_idxs ar) _) _ _)
    as [[sf sv]|] eqn:E3; cbn [mbind option_bind]; [|done].
  apply add_samples_extends in E1 as [? ?], E2 as [? ?], E3 as [? ?].
  rewrite block_chunks. cbn [mbind option_bind].
  destruct (mask_loop cf (keyframe_rotations_bone_idxs ar) _ _ rf rv)
    as [[[[m1 s1] rf' ] rv']|] eqn:M1; cbn [mbind option_bind]; [|done].
  destruct (mask_loop cf (keyframe_locations_bone_idxs ar) _ _ lf lv)
    as [[[[m2 s2] lf' ] lv']|] eqn:M2; cbn [mbind option_bind]; [|done].
  destruct (mask_loop cf (keyframe_scales_bone_idxs ar) _ _ sf sv)
    as [[[[m3 s3] sf' ] sv']|] eqn:M3; cbn [mbind option_bind]; [|done].
  apply mask_loop_extends in M1 as [? ?], M2 as [? ?], M3 as [? ?].
  intros [= <-]. unfold all_extends. cbn.
  repeat split; by eapply extends_trans.
Qed.

Lemma add_blocks_extends (ar : AnimReader V) blocks : ∀ c c',
  add_blocks ar c blocks = Some c' → all_extends c c'.
Proof.
  induction blocks as [|b blocks IH]; intros c c'; cbn [add_blocks].
  - intros [= <-]. repeat split; apply extends_refl.
  - destruct (add_block ar c b) as [c1|] eqn:E; cbn [mbind option_bind]; [|done].
    intros (?&?&?&?&?&?)%IH. apply add_block_extends in E as (?&?&?&?&?&?).
    repeat split; by eapply extends_trans.
Qed.

(** The first loop over a channel, on a list of pairwise different bones. *)
Lemma add_samples_untouched frame (samples : list (Z * V)) b : ∀ fr vl fr' vl',
  add_samples frame samples fr vl = Some (fr', vl') → b ∉ samples.*1 →
  fr' !! b = fr !! b ∧ vl' !! b = vl !! b.
Proof.
  induction samples as [|[b1 v1] samples IH]; intros fr vl fr' vl'; cbn [add_samples].
  - by intros [= <- <-].
  - destruct (dict_extend fr b1 [frame]) as [fr1|] eqn:H1; cbn [mbind option_bind]; [|done].
    destruct (dict_extend vl b1 [v1]) as [vl1|] eqn:H2; cbn [mbind option_bind]; [|done].
    intros Hrest [Hne Hni]%not_elem_of_cons. cbn [fst] in Hne.
    destruct (IH _ _ _ _ Hrest Hni) as [-> ->].
    apply dict_extend_Some in H1 as (? & _ & ->), H2 as (? & _ & ->).
    by rewrite !lookup_insert_ne.
Qed.

Lemma add_samples_first frame (samples : list (Z * V)) : ∀ fr vl fr' vl',
  NoDup samples.*1 →
  add_samples frame samples fr vl = Some (fr', vl') →
  ∀ b v, (b, v) ∈ samples →
         ∃ f0 v0, fr !! b = Some f0 ∧ vl !! b = Some v0
                  ∧ fr' !! b = Some (f0 ++ [frame]) ∧ vl' !! b = Some (v0 ++ [v]).
Proof.
  induction samples as [|[b0 v0] samples IH]; intros fr vl fr' vl' Hnd; cbn [add_samples].
  - intros _ b v Hin. by apply elem_of_nil in Hin.
  - apply NoDup_cons in Hnd as [Hb0 Hnd].
    destruct (dict_extend fr b0 [frame]) as [fr1|] eqn:H1; cbn [mbind option_bind]; [|done].
    destruct (dict_extend vl b0 [v0]) as [vl1|] eqn:H2; cbn [mbind option_bind]; [|done].
    apply dict_extend_Some in H1 as (f & Hf & Hfr1), H2 as (w & Hw & Hvl1).
    intros Hrest b v [[= -> ->]|Hin]%elem_of_cons.
    + exists f, w. split; [done|]. split; [done|].
      destruct (add_samples_untouched _ _ b0 _ _ _ _ Hrest Hb0) as [-> ->].
      subst fr1 vl1. by rewrite !lookup_insert_eq.
    + destruct (IH _ _ _ _ Hnd Hrest b v Hin) as (f1 & w1 & Hf1 & Hw1 & Hf' & Hw').
      assert (b ≠ b0) as Hne.
      { intros ->. apply Hb0. apply list_elem_of_fmap. by exists (b0, v). }
      subst fr1 vl1. rewrite lookup_insert_ne in Hf1 by done.
      rewrite lookup_insert_ne in Hw1 by done. eauto 10.
Qed.

Lemma zip_keys_NoDup {A} (bs : list Z) (vs : list A) :
  NoDup bs → NoDup (zip bs vs).*1.
Proof.
  intros Hnd. revert vs. induction Hnd as [|b bs Hb Hnd IH]; intros [|v vs]; simpl;
    try constructor; [|apply IH].
  intros (y & Hy & Hin)%list_elem_of_fmap. destruct y as [b' v']. simpl in Hy. subst b'.
  apply Hb. by apply elem_of_zip_l in Hin.
Qed.

(** One channel of [add_anims], from the empty dictionaries to the
    [FCurve]s. *)
Lemma channel_starts_with n (idxs : list Z) (vals : list V) fr vl fr' vl' d i b v :
  NoDup idxs →
  add_samples 0 (zip idxs vals) (empty_fcurves n) (empty_fcurves n) = Some (fr, vl) →
  extends fr fr' → extends vl vl' →
  (∀ b, is_Some (d !! b) ↔ is_Some (fr' !! b)) →
  (∀ b c, d !! b = Some c → fr' !! b = Some (frames c) ∧ vl' !! b = Some (values c)) →
  idxs !! i = Some b → vals !! i = Some v →
  starts_with d b v.
Proof.
  intros Hnd Hadd Hef Hev Hdom Hd Hb Hv.
  destruct (add_samples_first 0 (zip idxs vals) _ _ _ _ (zip_keys_NoDup _ _ Hnd) Hadd b v)
    as (f0 & v0 & Hf0 & Hv0 & Hf & Hw).
  { apply list_elem_of_lookup. exists i. rewrite lookup_zip_with, Hb, Hv. done. }
  rewrite empty_fcurves_lookup in Hf0. rewrite empty_fcurves_lookup in Hv0.
  case_decide; [|done]. injection Hf0 as <-. injection Hv0 as <-.
  destruct (Hef _ _ Hf) as (fs & Hfs). destruct (Hev _ _ Hw) as (vs & Hvs).
  destruct (proj2 (Hdom b)) as [c Hc]; [by eexists|].
  destruct (Hd _ _ Hc) as [Hcf Hcv].
  exists c, fs, vs. split; [done|]. split; simpl in *; congruence.
Qed.

(** X12: the initial pose is the first key of a
    curve: in each channel whose initial-pose bone indices are pairwise
    different, the curve of the [i]-th such bone starts with frame 0 and
    with the [i]-th initial-pose value, whatever the keyframe blocks add
    after it. *)
Theorem add_anim_initial_pose (ar : AnimReader V) ad :
  add_anim ar = Some ad →
  (NoDup (initial_pose_rotations_bone_idxs ar) →
   ∀ i b v, initial_pose_rotations_bone_idxs ar !! i = Some b →
            initial_pose_bone_rotations ar !! i = Some v →
            starts_with (rotations ad) b v)
  ∧ (NoDup (initial_pose_locations_bone_idxs ar) →
     ∀ i b v, initial_pose_locations_bone_idxs ar !! i = Some b →
              initial_pose_bone_locations ar !! i = Some v →
              starts_with (locations ad) b v)
  ∧ (NoDup (initial_pose_scales_bone_idxs ar) →
     ∀ i b v, initial_pose_scales_bone_idxs ar !! i = Some b →
              initial_pose_bone_scales ar !! i = Some v →
              starts_with (scales ad) b v).
Proof.
  unfold add_anim.
  destruct (add_samples 0 (zip (initial_pose_rotations_bone_idxs ar) _) _ _)
    as [[rf rv]|] eqn:E1; cbn [mbind option_bind]; [|done].
  destruct (add_samples 0 (zip (initial_pose_locations_bone_idxs ar) _) _ _)
    as [[lf lv]|] eqn:E2; cbn [mbind option_bind]; [|done].
  destruct (add_samples 0 (zip (initial_pose_scales_bone_idxs ar) _) _ _)
    as [[sf sv]|] eqn:E3; cbn [mbind option_bind]; [|done].
  pose proof E1 as I1. pose proof E2 as I2. pose proof E3 as I3.
  apply add_samples_inv with (n := num_bones ar) in I1, I2, I3;
    [|apply empty_curves_inv..].
  destruct (add_blocks ar _ _) as [c|] eqn:Hc; cbn [mbind option_bind]; [|done].
  pose proof Hc as Hext.
  apply add_blocks_extends in Hext as (Xrf & Xrv & Xlf & Xlv & Xsf & Xsv).
  cbn in Xrf, Xrv, Xlf, Xlv, Xsf, Xsv.
  apply add_blocks_inv in Hc as (Cr & Cl & Cs); [|by split; [|split]].
  destruct (add_fcurves_range _ _ _ Cr) as (r & -> & [Hr _] & Hr').
  destruct (add_fcurves_range _ _ _ Cl) as (l & -> & [Hl _] & Hl').
  destruct (add_fcurves_range _ _ _ Cs) as (s & -> & [Hs _] & Hs').
  cbn [mbind option_bind]. intros [= <-]. cbn [rotations locations scales].
  split; [|split]; intros Hnd i b v Hb Hv.
  - apply (channel_starts_with _ _ _ _ _ _ _ _ i b v Hnd E1 Xrf Xrv); [|done..].
    intros b'. rewrite Hr. symmetry. apply Cr.
  - apply (channel_starts_with _ _ _ _ _ _ _ _ i b v Hnd E2 Xlf Xlv); [|done..].
    intros b'. rewrite Hl. symmetry. apply Cl.
  - apply (channel_starts_with _ _ _ _ _ _ _ _ i b v Hnd E3 Xsf Xsv); [|done..].
    intros b'. rewrite Hs. symmetry. apply Cs.
Qed.

End AnimCurveFacts.

(** ** [num_frames] *)

Section NumFramesFacts.
Import Anims IntermediateFormat.
Context {V : Type}.

Lemma foldl_max_spec (rest : list Z) : ∀ x,
  (∀ y, y ∈ x :: rest → y ≤ foldl Z.max x rest) ∧ foldl Z.max x rest ∈ x :: rest.
Proof.
  induction rest as [|z rest IH]; intros x; cbn [foldl].
  - split; [|left]. intros y ->%list_elem_of_singleton. lia.
  - destruct (IH (Z.max x z)) as [Hub Hin]. split.
    + intros y [->|[->|Hy]%elem_of_cons]%elem_of_cons.
      * specialize (Hub (Z.max x z)). rewrite elem_of_cons in Hub.
        specialize (Hub (or_introl eq_refl)). lia.
      * specialize (Hub (Z.max x z)). rewrite elem_of_cons in Hub.
        specialize (Hub (or_introl eq_refl)). lia.
      * apply Hub. by right.
    + apply elem_of_cons in Hin as [Heq|Hin]; [|by do 2 right].
      rewrite Heq. destruct (Z.max_spec x z) as [[_ ->]|[_ ->]]; [right; left|left].
Qed.

Lemma all_frames_elem (d : gmap Z (FCurve V)) f :
  f ∈ all_frames d ↔ ∃ b c, d !! b = Some c ∧ f ∈ frames c.
Proof.
  unfold all_frames. rewrite list_elem_of_join. split.
  - intros (fs & Hf & (c & -> & ([b c'] & -> & Hbc)%list_elem_of_fmap)%list_elem_of_fmap).
    apply elem_of_map_to_list in Hbc. eauto.
  - intros (b & c & Hbc & Hf). exists (frames c). split; [done|].
    apply list_elem_of_fmap. exists c. split; [done|].
    apply list_elem_of_fmap. exists (b, c). split; [done|].
    by apply elem_of_map_to_list.
Qed.

(** X13: [num_frames] is the largest frame of any curve
    of the animation: it bounds every frame of every rotation, location and
    scale curve, it is one of those frames when there is any, and it is 0
    when there is none. *)
Theorem num_frames_spec (a : Animation V) :
  ∃ n, num_frames a = Some n
       ∧ (∀ f, is_frame a f → f ≤ n)
       ∧ ((∃ f, is_frame a f) → is_frame a n)
       ∧ ((∀ f, ¬ is_frame a f) → n = 0).
Proof.
  unfold num_frames.
  set (res := all_frames (rotations a) ++ all_frames (locations a) ++ all_frames (scales a)).
  assert (∀ f, f ∈ res ↔ is_frame a f) as Hres.
  { intros f. unfold res, is_frame. rewrite !elem_of_app, !all_frames_elem.
    split.
    - intros [(b & c & ? & ?)|[(b & c & ? & ?)|(b & c & ? & ?)]]; exists b, c; eauto.
    - intros (b & c & [?|[?|?]] & ?); eauto 10. }
  destruct res as [|x rest] eqn:Hr.
  - exists 0. rewrite decide_False by (cbn; lia). split; [done|].
    split; [|split; [|done]].
    + intros f Hf%Hres. by apply elem_of_nil in Hf.
    + intros [f Hf%Hres]. by apply elem_of_nil in Hf.
  - exists (foldl Z.max x rest). rewrite decide_True by (cbn; lia).
    destruct (foldl_max_spec rest x) as [Hub Hin].
    split; [done|]. split; [|split].
    + intros f Hf%Hres. by apply Hub.
    + intros _. by apply Hres.
    + intros Hnone. exfalso. apply (Hnone x), Hres. left.
Qed.

End NumFramesFacts.

Lemma add_anim_curves_witness :
  ∃ ad, Anims.add_anim AnimCurves.example_anim = Some ad
        ∧ Anims.playback_rate ad = 24
        ∧ AnimCurves.fcurves_inv 2 (Anims.rotations ad)
        ∧ AnimCurves.fcurves_inv 2 (Anims.locations ad)
        ∧ AnimCurves.fcurves_inv 2 (Anims.scales ad).
Proof.
  destruct (Anims.add_anim AnimCurves.example_anim) as [ad|] eqn:E;
    [|vm_compute in E; discriminate E].
  exists ad. split; [reflexivity|].
  exact (add_anim_curves AnimCurves.example_anim ad E).
Defined.

Lemma add_anim_in_range_witness : is_Some (Anims.add_anim AnimCurves.example_anim).
Proof.
  apply (add_anim_in_range AnimCurves.example_anim);
    unfold AnimCurves.in_range; simpl; repeat constructor; lia.
Defined.

Lemma add_anim_initial_indices_witness :
  ∃ ad, Anims.add_anim AnimCurves.example_anim = Some ad
        ∧ AnimCurves.in_range 2 [0; 1]
        ∧ AnimCurves.in_range 2 [1]
        ∧ AnimCurves.in_range 2 [].
Proof.
  destruct (Anims.add_anim AnimCurves.example_anim) as [ad|] eqn:E;
    [|vm_compute in E; discriminate E].
  exists ad. split; [reflexivity|].
  exact (add_anim_initial_indices AnimCurves.example_anim ad E).
Defined.

Lemma add_anim_initial_pose_witness :
  ∃ ad, Anims.add_anim AnimCurves.example_anim = Some ad
        ∧ AnimCurves.starts_with (Anims.rotations ad) 1 101.
Proof.
  destruct (Anims.add_anim AnimCurves.example_anim) as [ad|] eqn:E;
    [|vm_compute in E; discriminate E].
  exists ad. split; [reflexivity|].
  destruct (add_anim_initial_pose AnimCurves.example_anim ad E) as (Hrot & _ & _).
  apply (Hrot ltac:(apply (bool_decide_unpack _); vm_compute; reflexivity)
              1%nat 1 101 eq_refl eq_refl).
Defined.

(** ** [add_anims]: the curves, block by block *)

Section AnimBlockFacts.
Import Anims AnimCurves AnimBlocks.
Context {V : Type}.

Lemma fmap_app_nil {A} (x : option (list A)) : (λ l, l ++ []) <$> x = x.
Proof. destruct x as [l|]; [|done]. simpl. by rewrite app_nil_r. Qed.

(** The values that [zip(bone_idxs, vals)] pairs with the bone [b]. *)
Lemma add_samples_char frame (samples : list (Z * V)) : ∀ fr vl fr' vl',
  add_samples frame samples fr vl = Some (fr', vl') →
  ∀ b, fr' !! b
       = (λ f, f ++ ((λ _, frame) <$> (filter (λ bv, bv.1 = b) samples).*2)) <$> fr !! b
       ∧ vl' !! b = (λ v, v ++ (filter (λ bv, bv.1 = b) samples).*2) <$> vl !! b.
Proof.
  induction samples as [|[b0 v0] samples IH]; intros fr vl fr' vl'; cbn [add_samples].
  - intros [= <- <-] b. rewrite filter_nil. cbn [fmap list_fmap].
    by rewrite !fmap_app_nil.
  - destruct (dict_extend fr b0 [frame]) as [fr1|] eqn:H1; cbn [mbind option_bind]; [|done].
    destruct (dict_extend vl b0 [v0]) as [vl1|] eqn:H2; cbn [mbind option_bind]; [|done].
    apply dict_extend_Some in H1 as (f0 & Hf0 & ->).
    apply dict_extend_Some in H2 as (w0 & Hw0 & ->).
    intros Hrest b. destruct (IH _ _ _ _ Hrest b) as [-> ->].
    rewrite filter_cons. cbn [fst]. destruct (decide (b0 = b)) as [->|Hne].
    + rewrite !lookup_insert_eq, Hf0, Hw0. cbn [fmap option_fmap option_map list_fmap snd].
      by rewrite <- !app_assoc.
    + by rewrite !lookup_insert_ne.
Qed.

Lemma filter_zip_absent {A} (b : Z) (idxs : list Z) : ∀ (vals : list A),
  b ∉ idxs → filter (λ bv, bv.1 = b) (zip idxs vals) = [].
Proof.
  induction idxs as [|b0 idxs IH]; intros [|v vals] Hni; try done.
  apply not_elem_of_cons in Hni as [Hne Hni]. cbn [zip zip_with].
  rewrite filter_cons. cbn [fst]. rewrite decide_False by done. by apply IH.
Qed.

Lemma filter_zip_NoDup {A} (b : Z) (idxs : list Z) : ∀ (vals : list A) i,
  NoDup idxs → idxs !! i = Some b →
  (filter (λ bv, bv.1 = b) (zip idxs vals)).*2 = option_list (vals !! i).
Proof.
  induction idxs as [|b0 idxs IH]; intros vals i Hnd Hi; [done|].
  apply NoDup_cons in Hnd as [Hb0 Hnd].
  destruct vals as [|v vals]; [by rewrite lookup_nil|].
  cbn [zip zip_with]. rewrite filter_cons. cbn [fst].
  destruct i as [|i]; simpl in Hi.
  - injection Hi as ->. rewrite decide_True by done.
    rewrite filter_zip_absent by done. done.
  - rewrite decide_False.
    + change ((v :: vals) !! S i) with (vals !! i). by apply IH.
    + intros ->. apply Hb0. by eapply list_elem_of_lookup_2.
Qed.

(** The loop over the bitmasks, when it completes. *)
Lemma mask_loop_char c (bs : list Z) : ∀ masks (stream : list V) fr vl m' s' fr' vl',
  NoDup bs →
  mask_loop c bs masks stream fr vl = Some (m', s', fr', vl') →
  m' = drop (length bs) masks
  ∧ (∀ i b, bs !! i = Some b →
       fr' !! b = (λ f, f ++ from_option (mask_frames c) [] (masks !! i)) <$> fr !! b
       ∧ vl' !! b
         = (λ v, v ++ from_option
                        (λ mask, take (length (mask_frames c mask))
                                      (drop (consumed c masks i) stream))
                        [] (masks !! i)) <$> vl !! b)
  ∧ (∀ b, b ∉ bs → fr' !! b = fr !! b ∧ vl' !! b = vl !! b).
Proof.
  induction bs as [|b0 bs IH]; intros masks stream fr vl m' s' fr' vl' Hnd.
  { cbn [mask_loop]. intros [= <- <- <- <-]. split; [done|]. split; [|done].
    intros i b Hi. by rewrite lookup_nil in Hi. }
  destruct masks as [|mask masks].
  { cbn [mask_loop]. intros [= <- <- <- <-]. split; [done|]. split; [|done].
    intros i b _. rewrite lookup_nil. cbn [from_option]. by rewrite !fmap_app_nil. }
  apply NoDup_cons in Hnd as [Hb0 Hnd]. cbn [mask_loop].
  destruct (dict_extend fr b0 _) as [fr1|] eqn:H1; cbn [mbind option_bind]; [|done].
  destruct (dict_extend vl b0 _) as [vl1|] eqn:H2; cbn [mbind option_bind]; [|done].
  apply dict_extend_Some in H1 as (f0 & Hf0 & ->).
  apply dict_extend_Some in H2 as (w0 & Hw0 & ->).
  intros Hrest. destruct (IH _ _ _ _ _ _ _ _ Hnd Hrest) as (-> & Hin & Hout).
  split; [done|]. split.
  - intros [|i] b Hi; simpl in Hi.
    + injection Hi as <-. destruct (Hout b0 Hb0) as [-> ->].
      rewrite !lookup_insert_eq, Hf0, Hw0. done.
    + destruct (Hin i b Hi) as [-> ->].
      assert (b ≠ b0) as Hne.
      { intros ->. apply Hb0. by eapply list_elem_of_lookup_2. }
      rewrite !lookup_insert_ne by done. cbn [lookup list_lookup].
      split; [done|]. f_equal.
      destruct (masks !! i) as [m|]; [|done]. cbn [from_option].
      by rewrite consumed_S, drop_drop.
  - intros b [Hne Hni]%not_elem_of_cons. destruct (Hout b Hni) as [-> ->].
    by rewrite !lookup_insert_ne.
Qed.

(** A channel in one block: the boundary samples, then the bitmasks. *)
Lemma channel_block cum (idxs : list Z) (firsts : list V) masks stream
    fr vl fr1 vl1 m' s' fr' vl' :
  NoDup idxs →
  add_samples cum (zip idxs firsts) fr vl = Some (fr1, vl1) →
  mask_loop cum idxs masks stream fr1 vl1 = Some (m', s', fr', vl') →
  m' = drop (length idxs) masks
  ∧ ∀ i b, idxs !! i = Some b →
      fr' !! b
      = (λ f, f ++ ((if decide (i < length firsts)%nat then [cum] else [])
                    ++ from_option (mask_frames cum) [] (masks !! i))) <$> fr !! b
      ∧ vl' !! b
        = (λ v, v ++ (option_list (firsts !! i)
                      ++ from_option
                           (λ mask, take (length (mask_frames cum mask))
                                         (drop (consumed cum masks i) stream))
                           [] (masks !! i))) <$> vl !! b.
Proof.
  intros Hnd Hs Hm. destruct (mask_loop_char _ _ _ _ _ _ _ _ _ _ Hnd Hm) as (-> & Hin & _).
  split; [done|]. intros i b Hi. destruct (Hin i b Hi) as [-> ->].
  destruct (add_samples_char _ _ _ _ _ _ Hs b) as [-> ->].
  rewrite (filter_zip_NoDup b idxs firsts i) by done.
  rewrite <- !option_fmap_compose.
  assert ((λ _ : V, cum) <$> option_list (firsts !! i)
          = if decide (i < length firsts)%nat then [cum] else []) as ->.
  { case_decide as Hlt.
    - apply lookup_lt_is_Some_2 in Hlt as [v ->]. done.
    - rewrite lookup_ge_None_2 by lia. done. }
  split; (destruct (_ !! b) as [l|]; [|done]); simpl; by rewrite <- app_assoc.
Qed.

Lemma add_block_char (ar : AnimReader V) c block c' :
  NoDup (keyframe_rotations_bone_idxs ar) →
  NoDup (keyframe_locations_bone_idxs ar) →
  NoDup (keyframe_scales_bone_idxs ar) →
  add_block ar c block = Some c' →
  ∀ ch i b, keyframe_bone_idxs ch ar !! i = Some b →
    frames_of ch c' !! b = (λ f, f ++ block_frames ch ar block i) <$> frames_of ch c !! b
    ∧ values_of ch c' !! b
      = (λ v, v ++ block_values ch ar block i) <$> values_of ch c !! b.
Proof.
  intros Nr Nl Ns. destruct block as [[cf nf] sub]. unfold add_block.
  destruct (add_samples cf (zip (keyframe_rotations_bone_idxs ar) _) _ _)
    as [[rf rv]|] eqn:E1; cbn [mbind option_bind]; [|done].
  destruct (add_samples cf (zip (keyframe_locations_bone_idxs ar) _) _ _)
    as [[lf lv]|] eqn:E2; cbn [mbind option_bind]; [|done].
  destruct (add_samples cf (zip (keyframe_scales_bone_idxs ar) _) _ _)
    as [[sf sv]|] eqn:E3; cbn [mbind option_bind]; [|done].
  rewrite block_chunks. cbn [mbind option_bind]. fold (block_masks nf sub).
  destruct (mask_loop cf (keyframe_rotations_bone_idxs ar) _ _ rf rv)
    as [[[[m1 s1] rf' ] rv']|] eqn:M1; cbn [mbind option_bind]; [|done].
  destruct (mask_loop cf (keyframe_locations_bone_idxs ar) _ _ lf lv)
    as [[[[m2 s2] lf' ] lv']|] eqn:M2; cbn [mbind option_bind]; [|done].
  destruct (mask_loop cf (keyframe_scales_bone_idxs ar) _ _ sf sv)
    as [[[[m3 s3] sf' ] sv']|] eqn:M3; cbn [mbind option_bind]; [|done].
  intros [= <-].
  destruct (channel_block _ _ _ _ _ _ _ _ _ _ _ _ _ Nr E1 M1) as [-> Hr].
  destruct (channel_block _ _ _ _ _ _ _ _ _ _ _ _ _ Nl E2 M2) as [-> Hl].
  destruct (channel_block _ _ _ _ _ _ _ _ _ _ _ _ _ Ns E3 M3) as [_ Hs].
  rewrite drop_drop in Hs.
  intros [] i b Hi; cbn [keyframe_bone_idxs] in Hi.
  - destruct (Hr i b Hi) as [Hf Hv].
    unfold block_frames, block_values, channel_masks, mask_offset.
    cbn [frames_of values_of rotation_fcurves_frames rotation_fcurves_values
         boundary_values value_stream]. rewrite drop_0. done.
  - destruct (Hl i b Hi) as [Hf Hv].
    unfold block_frames, block_values, channel_masks, mask_offset.
    cbn [frames_of values_of location_fcurves_frames location_fcurves_values
         boundary_values value_stream]. done.
  - destruct (Hs i b Hi) as [Hf Hv].
    unfold block_frames, block_values, channel_masks, mask_offset.
    cbn [frames_of values_of scale_fcurves_frames scale_fcurves_values
         boundary_values value_stream]. done.
Qed.

Lemma add_blocks_char (ar : AnimReader V) blks : ∀ c c',
  NoDup (keyframe_rotations_bone_idxs ar) →
  NoDup (keyframe_locations_bone_idxs ar) →
  NoDup (keyframe_scales_bone_idxs ar) →
  add_blocks ar c blks = Some c' →
  ∀ ch i b, keyframe_bone_idxs ch ar !! i = Some b →
    frames_of ch c' !! b
    = (λ f, f ++ mjoin ((λ block, block_frames ch ar block i) <$> blks))
        <$> frames_of ch c !! b
    ∧ values_of ch c' !! b
      = (λ v, v ++ mjoin ((λ block, block_values ch ar block i) <$> blks))
          <$> values_of ch c !! b.
Proof.
  induction blks as [|blk blks IH]; intros c c' Nr Nl Ns; cbn [add_blocks].
  - intros [= <-] ch i b _. cbn [fmap list_fmap mjoin list_join].
    by rewrite !fmap_app_nil.
  - destruct (add_block ar c blk) as [c1|] eqn:E; cbn [mbind option_bind]; [|done].
    intros Hrest ch i b Hi.
    destruct (IH _ _ Nr Nl Ns Hrest ch i b Hi) as [-> ->].
    destruct (add_block_char _ _ _ _ Nr Nl Ns E ch i b Hi) as [-> ->].
    rewrite <- !option_fmap_compose. cbn [fmap list_fmap mjoin list_join].
    split; (destruct (_ !! b) as [l|]; [|done]); simpl; by rewrite <- app_assoc.
Qed.

Lemma mask_frames_sorted c mask : StronglySorted Z.lt (mask_frames c mask).
Proof.
  revert c. induction mask as [|e mask IH]; intros c; [constructor|].
  rewrite mask_frames_cons. destruct (decide (e = "1"%char)); [|apply IH].
  cbn [app]. constructor; [apply IH|].
  apply Forall_forall. intros f Hf%mask_frames_bounds. lia.
Qed.

Lemma block_masks_lookup nframes (sub : Substructure.t V) k mask :
  0 < nframes →
  block_masks nframes sub !! k = Some mask →
  mask = take (Z.to_nat nframes)
              (drop (k * Z.to_nat nframes)
                    (list_ascii_of_string (Substructure.unknown_data_5 sub)))
  ∧ (0 < length mask ≤ Z.to_nat nframes)%nat.
Proof.
  intros Hn. unfold block_masks. cbv zeta. rewrite decide_True by done.
  rewrite chunks_upto_lookup by lia. case_decide as Hk; [|done].
  intros [= <-]. split; [done|]. rewrite length_take, length_drop. lia.
Qed.

Lemma add_anim_expansion (ar : AnimReader V) ad :
  NoDup (keyframe_rotations_bone_idxs ar) →
  NoDup (keyframe_locations_bone_idxs ar) →
  NoDup (keyframe_scales_bone_idxs ar) →
  add_anim ar = Some ad →
  ∀ ch i b, keyframe_bone_idxs ch ar !! i = Some b →
            0 ≤ b < Z.of_nat (num_bones ar) →
            curves_of ch ad !! b = Some (expected_curve ch ar i b).
Proof.
  intros Nr Nl Ns Hrun.
  revert Hrun. unfold add_anim.
  destruct (add_samples 0 (zip (initial_pose_rotations_bone_idxs ar) _) _ _)
    as [[rf rv]|] eqn:E1; cbn [mbind option_bind]; [|done].
  destruct (add_samples 0 (zip (initial_pose_locations_bone_idxs ar) _) _ _)
    as [[lf lv]|] eqn:E2; cbn [mbind option_bind]; [|done].
  destruct (add_samples 0 (zip (initial_pose_scales_bone_idxs ar) _) _ _)
    as [[sf sv]|] eqn:E3; cbn [mbind option_bind]; [|done].
  fold (blocks ar).
  destruct (add_blocks ar _ _) as [c|] eqn:Hc; cbn [mbind option_bind]; [|done].
  pose proof (add_blocks_char _ _ _ _ Nr Nl Ns Hc) as Hchar.
  pose proof (add_samples_inv (num_bones ar) _ _ _ _ _ _ (empty_curves_inv _) E1) as I1.
  pose proof (add_samples_inv (num_bones ar) _ _ _ _ _ _ (empty_curves_inv _) E2) as I2.
  pose proof (add_samples_inv (num_bones ar) _ _ _ _ _ _ (empty_curves_inv _) E3) as I3.
  apply add_blocks_inv in Hc as (Cr & Cl & Cs); [|by split; [|split]].
  destruct (add_fcurves_range _ _ _ Cr) as (r & -> & [Kr _] & Hr).
  destruct (add_fcurves_range _ _ _ Cl) as (l & -> & [Kl _] & Hl).
  destruct (add_fcurves_range _ _ _ Cs) as (s & -> & [Ks _] & Hs).
  cbn [mbind option_bind]. intros [= <-] ch i b Hi Hb.
  destruct (Hchar ch i b Hi) as [Hf Hv].
  assert (∀ (idxs : list Z) (vals : list V) fr vl,
            add_samples 0 (zip idxs vals) (empty_fcurves (num_bones ar))
              (empty_fcurves (num_bones ar)) = Some (fr, vl) →
            fr !! b = Some ((λ _, 0) <$> (filter (λ bv, bv.1 = b) (zip idxs vals)).*2)
            ∧ vl !! b = Some (filter (λ bv, bv.1 = b) (zip idxs vals)).*2) as Hinit.
  { intros idxs vals fr vl E. destruct (add_samples_char _ _ _ _ _ _ E b) as [-> ->].
    rewrite !empty_fcurves_lookup, !decide_True by done. done. }
  destruct ch; cbn [curves_of frames_of values_of keyframe_bone_idxs
                    rotations locations scales
                    rotation_fcurves_frames rotation_fcurves_values
                    location_fcurves_frames location_fcurves_values
                    scale_fcurves_frames scale_fcurves_values] in *.
  - destruct (Hinit _ _ _ _ E1) as [H0f H0v]. rewrite H0f in Hf. rewrite H0v in Hv.
    destruct (proj2 (Kr b) Hb) as [cv Hcv]. rewrite Hcv.
    destruct (Hr b cv Hcv) as [Hcf Hcw]. rewrite Hcf in Hf. rewrite Hcw in Hv.
    simpl in Hf, Hv. injection Hf as Hf. injection Hv as Hv.
    destruct cv as [cf cw]. cbn [frames values] in *. subst. done.
  - destruct (Hinit _ _ _ _ E2) as [H0f H0v]. rewrite H0f in Hf. rewrite H0v in Hv.
    destruct (proj2 (Kl b) Hb) as [cv Hcv]. rewrite Hcv.
    destruct (Hl b cv Hcv) as [Hcf Hcw]. rewrite Hcf in Hf. rewrite Hcw in Hv.
    simpl in Hf, Hv. injection Hf as Hf. injection Hv as Hv.
    destruct cv as [cf cw]. cbn [frames values] in *. subst. done.
  - destruct (Hinit _ _ _ _ E3) as [H0f H0v]. rewrite H0f in Hf. rewrite H0v in Hv.
    destruct (proj2 (Ks b) Hb) as [cv Hcv]. rewrite Hcv.
    destruct (Hs b cv Hcv) as [Hcf Hcw]. rewrite Hcf in Hf. rewrite Hcw in Hv.
    simpl in Hf, Hv. injection Hf as Hf. injection Hv as Hv.
    destruct cv as [cf cw]. cbn [frames values] in *. subst. done.
Qed.

(** [add_anims] stores, under each key, the animation of that key's
    reader. *)
Lemma add_anims_lookup (imported_animdata : list (string * AnimReader V)) :
  ∀ animations result,
    NoDup imported_animdata.*1 →
    add_anims animations imported_animdata = Some result →
    ∀ key ar, (key, ar) ∈ imported_animdata →
              ∃ ad, add_anim ar = Some ad ∧ result !! key = Some ad.
Proof.
  assert (∀ (data : list (string * AnimReader V)) animations result key,
            key ∉ data.*1 → add_anims animations data = Some result →
            result !! key = animations !! key) as Hkeep.
  { induction data as [|[k a] data IH]; intros animations result key Hni;
      cbn [add_anims].
    - by intros [= <-].
    - destruct (add_anim a) as [ad|]; cbn [mbind option_bind]; [|done].
      cbn [fmap list_fmap fst] in Hni. apply not_elem_of_cons in Hni as [Hne Hni].
      intros Hrest. rewrite (IH _ _ _ Hni Hrest). by rewrite lookup_insert_ne. }
  induction imported_animdata as [|[k a] data IH]; intros animations result Hnd;
    cbn [add_anims].
  - intros _ key ar Hin. by apply elem_of_nil in Hin.
  - cbn [fmap list_fmap fst] in Hnd. apply NoDup_cons in Hnd as [Hk Hnd].
    destruct (add_anim a) as [ad|] eqn:Ha; cbn [mbind option_bind]; [|done].
    intros Hrest key ar [Heq|Hin]%elem_of_cons.
    + injection Heq as -> ->. exists ad. split; [done|].
      rewrite (Hkeep _ _ _ _ Hk Hrest). by rewrite lookup_insert_eq.
    + by apply (IH _ _ Hnd Hrest).
Qed.

(** C4: an animation that [add_anims] builds from a reader whose keyframe
    bone lists have no repeated index.  The curve of the bone at position
    [i] of a channel's list holds frame 0 for the initial pose, and then,
    for each keyframe block in order, with cumulative frame count [c] and
    span [n]: the frame [c] with the block's boundary value for the bone,
    and the frames of the bone's bitmask, which is the piece of [n]
    characters of the block's bit string at the bone's place (rotation
    bones first, then location bones, then scale bones).  The frames of a
    bitmask are exactly [c + j + 1] for the positions [j], counted from 0,
    that hold '1', in increasing order; each comes with the next unread
    value of the channel's value stream of the block, the values being
    taken in file order, after those of the masks before it.  Cumulative
    frame 10 and bitmask "1010" give the frames 11 and 13. *)
Theorem anim_bitmask_expansion (animations : gmap string (Animation V))
    (imported_animdata : list (string * AnimReader V)) result :
  NoDup imported_animdata.*1 →
  Forall (λ kar, NoDup (keyframe_rotations_bone_idxs kar.2)
                 ∧ NoDup (keyframe_locations_bone_idxs kar.2)
                 ∧ NoDup (keyframe_scales_bone_idxs kar.2)) imported_animdata →
  add_anims animations imported_animdata = Some result →
  (∀ key ar, (key, ar) ∈ imported_animdata →
     ∃ ad, result !! key = Some ad
           ∧ ∀ ch i b, keyframe_bone_idxs ch ar !! i = Some b →
                       0 ≤ b < Z.of_nat (num_bones ar) →
                       curves_of ch ad !! b = Some (expected_curve ch ar i b))
  ∧ (∀ c mask f, f ∈ mask_frames c mask ↔
                 ∃ j : nat, mask !! j = Some "1"%char ∧ f = c + Z.of_nat j + 1)
  ∧ (∀ c mask, StronglySorted Z.lt (mask_frames c mask))
  ∧ (∀ nframes (sub : Substructure.t V) k mask,
       0 < nframes → block_masks nframes sub !! k = Some mask →
       mask = take (Z.to_nat nframes)
                   (drop (k * Z.to_nat nframes)
                         (list_ascii_of_string (Substructure.unknown_data_5 sub)))
       ∧ (0 < length mask ≤ Z.to_nat nframes)%nat)
  ∧ mask_frames 10 (list_ascii_of_string "1010") = [11; 13].
Proof.
  intros Hkeys Hnd Hrun.
  split; [|split; [apply mask_frames_elem|split; [apply mask_frames_sorted|
            split; [apply block_masks_lookup|by vm_compute]]]].
  intros key ar Hin.
  destruct (add_anims_lookup _ _ _ Hkeys Hrun key ar Hin) as (ad & Had & Hlk).
  exists ad. split; [done|].
  rewrite Forall_forall in Hnd. destruct (Hnd _ Hin) as (Nr & Nl & Ns).
  by apply add_anim_expansion.
Qed.

End AnimBlockFacts.

Lemma anim_bitmask_expansion_witness :
  ∃ result ad,
    Anims.add_anims ∅ [("walk"%string, AnimBlocks.example_reader)] = Some result
    ∧ result !! "walk"%string = Some ad
    ∧ Anims.rotations ad !! 2
      = Some {| Anims.frames := [0; 10; 11; 13];
                Anims.values := [102; 500; 600; 601] |}
    ∧ Anims.rotations ad !! 0
      = Some {| Anims.frames := [0; 10; 12; 13];
                Anims.values := [100; 501; 602; 603] |}
    ∧ Anims.locations ad !! 1
      = Some {| Anims.frames := [0; 14]; Anims.values := [200; 700] |}.
Proof.
  destruct (Anims.add_anims ∅ [("walk"%string, AnimBlocks.example_reader)])
    as [result|] eqn:Hrun; [|vm_compute in Hrun; discriminate Hrun].
  exists result.
  assert (NoDup [2; 0]) as N1 by (apply (bool_decide_unpack _); vm_compute; reflexivity).
  assert (NoDup [1]) as N2 by (apply NoDup_singleton).
  destruct (anim_bitmask_expansion ∅ [("walk"%string, AnimBlocks.example_reader)] result)
    as (Hcurves & _).
  - apply NoDup_singleton.
  - constructor; [|constructor]. split; [exact N1|]. split; [exact N2|].
    apply NoDup_nil_2.
  - exact Hrun.
  - destruct (Hcurves "walk"%string AnimBlocks.example_reader) as (ad & Had & Hc).
    { apply list_elem_of_singleton. reflexivity. }
    exists ad. split; [reflexivity|]. split; [exact Had|]. split; [|split].
    + apply (Hc AnimBlocks.Rotation 0%nat 2 eq_refl). simpl. lia.
    + apply (Hc AnimBlocks.Rotation 1%nat 0 eq_refl). simpl. lia.
    + apply (Hc AnimBlocks.Location 0%nat 1 eq_refl). simpl. lia.
Defined.

(** ** [add_meshes]: the assembled mesh *)

Section MeshInvariantFacts.
Import Meshes MeshInvariants.
Context {U : Type}.

Lemma py_update_Some {A} (l : list A) (z : Z) (f : A → A) l' :
  Py.update l z f = Some l' →
  ∃ n x, Py.resolve (length l) z = Some n ∧ l !! n = Some x ∧ l' = <[n := f x]> l.
Proof.
  unfold Py.update. destruct (Py.resolve _ _) as [n|]; cbn [mbind option_bind]; [|done].
  destruct (l !! n) as [x|] eqn:Hx; cbn [mbind option_bind]; [|done].
  intros [= <-]. eauto.
Qed.

Lemma group_append_Some groups idx i w groups' :
  group_append groups idx i w = Some groups' →
  ∃ n g, Py.resolve (length groups) idx = Some n ∧ groups !! n = Some g
         ∧ groups' = <[n := appended g i w]> groups.
Proof. unfold group_append. apply py_update_Some. Qed.

Lemma group_ok_mono n n' g : (n ≤ n')%nat → group_ok n g → group_ok n' g.
Proof.
  intros Hle [Hlen Hall]. split; [done|].
  eapply Forall_impl; [exact Hall|]. intros x Hx. simpl in Hx. lia.
Qed.

Lemma group_append_ok groups idx i w groups' :
  group_append groups idx i w = Some groups' →
  Forall (group_ok (S i)) groups →
  Forall (group_ok (S i)) groups'
  ∧ VertexGroup.bone_idx <$> groups' = VertexGroup.bone_idx <$> groups.
Proof.
  intros (n & g & _ & Hg & ->)%group_append_Some Hall. split.
  - apply Forall_insert; [done|].
    destruct (proj1 (Forall_lookup _ _) Hall n g Hg) as [Hlen Hidx].
    split; cbn; [rewrite !length_app; cbn; lia|].
    apply Forall_app. split; [done|]. repeat constructor.
  - rewrite list_fmap_insert. cbn. apply list_insert_id.
    by rewrite list_lookup_fmap, Hg.
Qed.

Lemma weighted_loop_ok i pairs : ∀ j vgroups groups vgroups' groups',
  weighted_loop i j pairs vgroups groups = Some (vgroups', groups') →
  Forall (group_ok (S i)) groups →
  Forall (group_ok (S i)) groups'
  ∧ VertexGroup.bone_idx <$> groups' = VertexGroup.bone_idx <$> groups.
Proof.
  induction pairs as [|[id w] pairs IH]; intros j vgroups groups vgroups' groups';
    cbn [weighted_loop].
  - by intros [= _ <-].
  - destruct (Qeq_bool w 0); [apply IH|].
    destruct (group_append groups _ i w) as [groups1|] eqn:Happ;
      cbn [mbind option_bind]; [|done].
    intros Hrest Hall. destruct (group_append_ok _ _ _ _ _ Happ Hall) as [Hall1 Hb1].
    destruct (IH _ _ _ _ _ Hrest Hall1) as [Hall' Hb']. split; [done|congruence].
Qed.

Lemma assign_groups_ok mode i vertex groups vg groups' :
  assign_groups mode i vertex groups = Some (vg, groups') →
  Forall (group_ok (S i)) groups →
  Forall (group_ok (S i)) groups'
  ∧ VertexGroup.bone_idx <$> groups' = VertexGroup.bone_idx <$> groups.
Proof.
  unfold assign_groups.
  destruct (GeomVertex.WeightedBoneID vertex) as [ids|].
  - destruct (GeomVertex.BoneWeight vertex) as [ws|]; cbn [mbind option_bind]; [|done].
    destruct (weighted_loop i 0 _ ids groups) as [[vg1 groups1]|] eqn:Hloop;
      cbn [mbind option_bind]; [|done].
    intros [= _ <-]. by eapply weighted_loop_ok.
  - destruct (decide (mode = 0)).
    + destruct (group_append groups 0 i 1) as [groups1|] eqn:Happ;
        cbn [mbind option_bind]; [|done].
      intros [= _ <-]. by eapply group_append_ok.
    + destruct (decide (mode = 1)); [|by intros [= _ <-]].
      destruct (GeomVertex.Position vertex) as [pos|]; cbn [mbind option_bind]; [|done].
      destruct (Py.index pos 3) as [raw|]; cbn [mbind option_bind]; [|done].
      destruct (group_append groups _ i 1) as [groups1|] eqn:Happ;
        cbn [mbind option_bind]; [|done].
      intros [= _ <-]. by eapply group_append_ok.
Qed.

Lemma add_vertex_step_ok mode (m m' : MeshData.t U) vertex :
  add_vertex_step mode m (length (MeshData.vertices m), vertex) = Some m' →
  Forall (group_ok (length (MeshData.vertices m))) (MeshData.vertex_groups m) →
  Forall (group_ok (length (MeshData.vertices m'))) (MeshData.vertex_groups m')
  ∧ VertexGroup.bone_idx <$> MeshData.vertex_groups m'
    = VertexGroup.bone_idx <$> MeshData.vertex_groups m
  ∧ length (MeshData.vertices m') = S (length (MeshData.vertices m))
  ∧ MeshData.polygons m' = MeshData.polygons m
  ∧ ∃ v', MeshData.vertices m' = MeshData.vertices m ++ [v']
          ∧ Some (Vertex.position v') = take 3 <$> GeomVertex.Position vertex
          ∧ Vertex.normal v' = GeomVertex.Normal vertex
          ∧ Vertex.vertex_group_weights v' = GeomVertex.BoneWeight vertex.
Proof.
  unfold add_vertex_step.
  destruct (flip_uv _) as [uv|]; cbn [mbind option_bind]; [|done].
  destruct (assign_groups _ _ _ _) as [[vg gs]|] eqn:Hassign; cbn [mbind option_bind]; [|done].
  destruct (GeomVertex.Position vertex) as [pos|]; cbn [mbind option_bind]; [|done].
  intros [= <-] Hall. cbn.
  destruct (assign_groups_ok _ _ _ _ _ _ Hassign) as [Hall' Hb].
  { eapply Forall_impl; [exact Hall|]. intros g. apply group_ok_mono. lia. }
  rewrite length_app. cbn. rewrite Nat.add_1_r.
  split; [done|]. split; [done|]. split; [done|]. split; [done|].
  eexists. split; [done|]. done.
Qed.

Lemma add_vertices_ok mode (l : list GeomVertex.t) : ∀ (m m' : MeshData.t U),
  add_vertices mode m (imap (λ j x, ((length (MeshData.vertices m) + j)%nat, x)) l)
  = Some m' →
  Forall (group_ok (length (MeshData.vertices m))) (MeshData.vertex_groups m) →
  Forall (group_ok (length (MeshData.vertices m'))) (MeshData.vertex_groups m')
  ∧ VertexGroup.bone_idx <$> MeshData.vertex_groups m'
    = VertexGroup.bone_idx <$> MeshData.vertex_groups m
  ∧ MeshData.polygons m' = MeshData.polygons m
  ∧ ∃ new, MeshData.vertices m' = MeshData.vertices m ++ new
           ∧ Forall2 vertex_from l new.
Proof.
  induction l as [|vertex l IH]; intros m m'; cbn [imap add_vertices].
  - intros [= <-] Hall. repeat split; try done. exists []. by rewrite app_nil_r.
  - rewrite Nat.add_0_r.
    destruct (add_vertex_step mode m _) as [m1|] eqn:Hstep; cbn [mbind option_bind]; [|done].
    intros Hrest Hall.
    destruct (add_vertex_step_ok _ _ _ _ Hstep Hall)
      as (Hall1 & Hb1 & Hlen1 & Hp1 & v' & Hv' & Hfrom).
    rewrite (imap_ext _ (λ j x, ((length (MeshData.vertices m1) + j)%nat, x))) in Hrest.
    2:{ intros j x _. simpl. f_equal. lia. }
    destruct (IH _ _ Hrest Hall1) as (Hall' & Hb' & Hp' & new & Hnew & Hfrom').
    split; [done|]. split; [congruence|]. split; [congruence|].
    exists (v' :: new). rewrite Hnew, Hv', <- app_assoc. split; [done|].
    by constructor.
Qed.

(** X14: what every assembled mesh satisfies: its
    vertex groups are those of [weighted_bone_idxs], in order; in each
    group the index list and the weight list have one length and every
    index is the position of a vertex of the mesh; vertex [i] has the first
    three position components, the normal and the weight array of raw
    vertex [i]; the material id is copied; and the polygons are what the
    converter named by [polygon_data_type] makes of [polygon_data]. *)
Theorem add_mesh_invariants (mesh : GeomMesh.t U) (md : MeshData.t U) :
  add_mesh mesh = Some md →
  VertexGroup.bone_idx <$> MeshData.vertex_groups md = GeomMesh.weighted_bone_idxs mesh
  ∧ Forall (group_ok (length (MeshData.vertices md))) (MeshData.vertex_groups md)
  ∧ Forall2 vertex_from (GeomMesh.vertex_data mesh) (MeshData.vertices md)
  ∧ MeshData.material_id md = Some (GeomMesh.material_id mesh)
  ∧ ∃ converter,
      Polys.triangle_converters !! GeomMesh.polygon_data_type mesh = Some converter
      ∧ Polygon.indices <$> MeshData.polygons md = converter (GeomMesh.polygon_data mesh).
Proof.
  unfold add_mesh.
  destruct (add_vertices _ _ _) as [m|] eqn:Hvs; cbn [mbind option_bind]; [|done].
  destruct (Polys.triangle_converters !! _) as [conv|] eqn:Hconv;
    cbn [mbind option_bind]; [|done].
  intros [= <-]. cbn.
  apply (add_vertices_ok _ (GeomMesh.vertex_data mesh)) in Hvs
    as (Hall & Hb & Hp & new & Hnew & Hfrom).
  2:{ cbn. apply Forall_fmap, Forall_true. intros b. split; cbn; [done|constructor]. }
  cbn in Hb, Hp, Hnew. subst new.
  split; [|split; [done|split; [done|split; [done|]]]].
  - rewrite Hb, <- list_fmap_compose. apply list_fmap_id.
  - exists conv. split; [done|]. rewrite Hp. cbn.
    rewrite <- list_fmap_compose. apply list_fmap_id.
Qed.

(** *** The explicit per-vertex arrays *)

Lemma weighted_loop_vgroups i pairs : ∀ j vgroups groups vgroups' groups',
  weighted_loop i j pairs vgroups groups = Some (vgroups', groups') →
  length vgroups' = length vgroups
  ∧ ∀ k, vgroups' !! k
         = if decide (k < j)%nat then vgroups !! k
           else match pairs !! (k - j)%nat with
                | Some (id, w) =>
                    if Qeq_bool w 0 then vgroups !! k
                    else (λ _, id `div` 3) <$> vgroups !! k
                | None => vgroups !! k
                end.
Proof.
  induction pairs as [|[id w] pairs IH]; intros j vgroups groups vgroups' groups';
    cbn [weighted_loop].
  - intros [= <- _]. split; [done|]. intros k. by case_decide.
  - destruct (Qeq_bool w 0) eqn:Hw.
    + intros [Hlen Hk]%IH. split; [done|]. intros k. rewrite Hk.
      destruct (decide (k < S j)%nat), (decide (k < j)%nat); try lia; try done.
      * assert (k = j) as -> by lia. rewrite Nat.sub_diag. cbn. by rewrite Hw.
      * replace (k - j)%nat with (S (k - S j)) by lia. done.
    + destruct (group_append groups _ i w) as [groups1|];
        cbn [mbind option_bind]; [|done].
      intros [Hlen Hk]%IH. rewrite length_insert in Hlen. split; [done|].
      intros k. rewrite Hk.
      destruct (decide (k < S j)%nat), (decide (k < j)%nat); try lia.
      * rewrite list_lookup_insert_ne by lia. done.
      * assert (k = j) as -> by lia. rewrite Nat.sub_diag. cbn. rewrite Hw.
        rewrite list_lookup_insert. case_decide as Hj.
        -- destruct (lookup_lt_is_Some_2 vgroups j) as [x ->]; [lia|]. done.
        -- rewrite (proj2 (lookup_ge_None vgroups j)) by lia. done.
      * replace (k - j)%nat with (S (k - S j)) by lia. cbn.
        rewrite list_lookup_insert_ne by lia. done.
Qed.

(** X15: a vertex with a bone-id array of its
    own is decoded by the first branch whatever the weight layout of the
    mesh says; without a weight array the branch fails; and with one, the
    vertex-group list of the vertex keeps its length and holds, at each
    position, the id divided by 3 where the weight is not zero and the id
    as read (not divided) where the weight is zero or missing. *)
Theorem explicit_weights_decoding mode i vertex groups ids :
  GeomVertex.WeightedBoneID vertex = Some ids →
  assign_groups mode i vertex groups = assign_groups 0 i vertex groups
  ∧ (GeomVertex.BoneWeight vertex = None → assign_groups mode i vertex groups = None)
  ∧ ∀ ws vg groups',
      GeomVertex.BoneWeight vertex = Some ws →
      assign_groups mode i vertex groups = Some (vg, groups') →
      ∃ vgroups, vg = Some vgroups
                 ∧ length vgroups = length ids
                 ∧ ∀ k id, ids !! k = Some id →
                           vgroups !! k = Some (decoded_id id (ws !! k)).
Proof.
  intros Hids. unfold assign_groups. rewrite Hids.
  split; [done|]. split; [by intros ->|].
  intros ws vg groups' ->. cbn [mbind option_bind].
  destruct (weighted_loop i 0 _ ids groups) as [[vg1 groups1]|] eqn:Hloop;
    cbn [mbind option_bind]; [|done].
  intros [= <- <-]. exists vg1. split; [done|].
  apply weighted_loop_vgroups in Hloop as [Hlen Hk]. split; [done|].
  intros k id Hid. rewrite Hk, decide_False by lia. rewrite Nat.sub_0_r.
  rewrite lookup_zip_with, Hid. cbn [mbind option_bind].
  destruct (ws !! k) as [w|]; cbn; [|done].
  by destruct (Qeq_bool w 0).
Qed.

(** *** Weight layout 0 *)

Lemma mode0_step bones (n : nat) :
  group_append (mode0_groups bones n) 0 n 1
  = if decide (bones = []) then None else Some (mode0_groups bones (S n)).
Proof.
  destruct bones as [|b0 rest]; [done|]. rewrite decide_False by done.
  unfold mode0_groups. rewrite seq_S, replicate_S_end. reflexivity.
Qed.

Lemma mode0_vertices (bones : list Z) (l : list GeomVertex.t) : ∀ (m m' : MeshData.t U),
  Forall (λ v, GeomVertex.WeightedBoneID v = None) l →
  MeshData.vertex_groups m = mode0_groups bones (length (MeshData.vertices m)) →
  Forall (λ v', Vertex.vertex_groups v' = Some [0]) (MeshData.vertices m) →
  add_vertices 0 m (imap (λ j x, ((length (MeshData.vertices m) + j)%nat, x)) l)
  = Some m' →
  MeshData.vertex_groups m' = mode0_groups bones (length (MeshData.vertices m'))
  ∧ Forall (λ v', Vertex.vertex_groups v' = Some [0]) (MeshData.vertices m')
  ∧ length (MeshData.vertices m') = (length (MeshData.vertices m) + length l)%nat
  ∧ (bones = [] → l = []).
Proof.
  induction l as [|vertex l IH]; intros m m' Hno Hg Hv; cbn [imap add_vertices].
  - intros [= <-]. cbn. by rewrite Nat.add_0_r.
  - apply Forall_cons in Hno as [Hno1 Hno]. rewrite Nat.add_0_r.
    destruct (add_vertex_step 0 m _) as [m1|] eqn:Hstep; cbn [mbind option_bind]; [|done].
    intros Hrest.
    rewrite (imap_ext _ (λ j x, ((S (length (MeshData.vertices m)) + j)%nat, x))) in Hrest.
    2:{ intros j x _. simpl. f_equal. lia. }
    revert Hstep. unfold add_vertex_step, assign_groups. rewrite Hno1.
    destruct (flip_uv _) as [uv|]; cbn [mbind option_bind]; [|done].
    rewrite decide_True by done. rewrite Hg, mode0_step.
    case_decide as Hb; cbn [mbind option_bind]; [done|].
    destruct (GeomVertex.Position vertex) as [pos|]; cbn [mbind option_bind]; [|done].
    intros [= <-].
    cbn in Hrest.
    match type of Hrest with add_vertices 0 ?m1 _ = _ =>
      destruct (IH m1 m') as (Hg' & Hv' & Hlen' & _) end.
    + done.
    + cbn. rewrite length_app. cbn. by rewrite Nat.add_1_r.
    + cbn. apply Forall_app. split; [done|]. by repeat constructor.
    + cbn. rewrite length_app. cbn. by rewrite Nat.add_1_r.
    + cbn in Hlen'. rewrite length_app in Hlen'. cbn in Hlen'.
      split; [done|]. split; [done|]. split; [cbn [length]; lia|done].
Qed.

(** X16: in weight layout 0 (and without per-vertex arrays)
    the whole mesh is bound to the first vertex group: that group lists the
    vertices 0, 1, .., n-1 with weight 1 each, all other groups stay empty,
    every vertex names group 0 as its only group, and a mesh that has a
    vertex but no weighted bone is not assembled. *)
Theorem mode0_mesh (mesh : GeomMesh.t U) (md : MeshData.t U) :
  GeomMesh.max_vertex_groups_per_vertex mesh = 0 →
  Forall (λ v, GeomVertex.WeightedBoneID v = None) (GeomMesh.vertex_data mesh) →
  add_mesh mesh = Some md →
  MeshData.vertex_groups md
  = mode0_groups (GeomMesh.weighted_bone_idxs mesh) (length (GeomMesh.vertex_data mesh))
  ∧ Forall (λ v', Vertex.vertex_groups v' = Some [0]) (MeshData.vertices md)
  ∧ (GeomMesh.weighted_bone_idxs mesh = [] → GeomMesh.vertex_data mesh = []).
Proof.
  intros Hmode Hno. unfold add_mesh. rewrite Hmode.
  destruct (add_vertices _ _ _) as [m|] eqn:Hvs; cbn [mbind option_bind]; [|done].
  destruct (Polys.triangle_converters !! _) as [conv|] eqn:Hconv;
    cbn [mbind option_bind]; [|done].
  intros [= <-]. cbn.
  apply (mode0_vertices (GeomMesh.weighted_bone_idxs mesh) (GeomMesh.vertex_data mesh))
    in Hvs as (Hg & Hv & Hlen & Hempty); cbn; try done.
  - cbn in Hlen. by rewrite Hg, Hlen.
  - by destruct (GeomMesh.weighted_bone_idxs mesh).
Qed.

End MeshInvariantFacts.

Lemma add_mesh_invariants_witness :
  ∃ md, Meshes.add_mesh (Meshes.example_mesh 0) = Some md
        ∧ VertexGroup.bone_idx <$> MeshData.vertex_groups md = [5; 9; 12]
        ∧ Forall (MeshInvariants.group_ok (length (MeshData.vertices md)))
                 (MeshData.vertex_groups md).
Proof.
  destruct (Meshes.add_mesh (Meshes.example_mesh 0)) as [md|] eqn:Hrun;
    [|vm_compute in Hrun; discriminate Hrun].
  exists md. split; [reflexivity|].
  destruct (add_mesh_invariants _ _ Hrun) as (Hb & Hok & _).
  split; [exact Hb|exact Hok].
Defined.

Lemma explicit_weights_decoding_witness :
  ∃ vgroups,
    fst <$> Meshes.assign_groups 5 0 MeshInvariants.weighted_vertex Meshes.example_groups
    = Some (Some vgroups)
    ∧ vgroups !! 0%nat = Some 1 ∧ vgroups !! 1%nat = Some 6 ∧ vgroups !! 2%nat = Some 0.
Proof.
  destruct (Meshes.assign_groups 5 0 MeshInvariants.weighted_vertex Meshes.example_groups)
    as [[vg groups']|] eqn:Hrun; [|vm_compute in Hrun; discriminate Hrun].
  destruct (explicit_weights_decoding 5 0 MeshInvariants.weighted_vertex
              Meshes.example_groups [3; 6; 0] eq_refl) as (_ & _ & Hdec).
  destruct (Hdec [1 # 2; 0; 1 # 2]%Q vg groups' eq_refl Hrun) as (vgroups & -> & _ & Hk).
  exists vgroups. split; [reflexivity|].
  split; [exact (Hk 0%nat 3 eq_refl)|].
  split; [exact (Hk 1%nat 6 eq_refl)|exact (Hk 2%nat 0 eq_refl)].
Defined.

Lemma mode0_mesh_witness :
  ∃ md, Meshes.add_mesh (Meshes.example_mesh 0) = Some md
        ∧ MeshData.vertex_groups md = MeshInvariants.mode0_groups [5; 9; 12] 2.
Proof.
  destruct (Meshes.add_mesh (Meshes.example_mesh 0)) as [md|] eqn:Hrun;
    [|vm_compute in Hrun; discriminate Hrun].
  exists md. split; [reflexivity|].
  destruct (mode0_mesh (Meshes.example_mesh 0) md eq_refl) as (Hg & _ & _);
    [by repeat constructor|exact Hrun|exact Hg].
Defined.

(** ** Weight layout 1 *)

Section MeshLayout1Facts.
Import Meshes MeshInvariants MeshLayout1.
Context {U : Type}.



(** On a negative number that is no integer the two differ: [int] rounds
    toward zero. *)
Lemma int_div3_negative_fraction :
  Py.int ((-1) # 2) `div` 3 = 0 ∧ Qfloor (((-1) # 2) / 3) = -1.
Proof. done. Qed.














End MeshLayout1Facts.


(** ** [add_materials]: fields and dictionary of a material *)

Section MaterialFieldFacts.
Import Materials MaterialFields.

Lemma add_components_snoc cs c : ∀ md,
  add_components md (cs ++ [c]) = add_components md cs ≫= λ md', add_component md' c.
Proof.
  induction cs as [|c0 cs IH]; intros md; cbn [app add_components].
  - cbn [mbind option_bind]. by destruct (add_component md c).
  - destruct (add_component md c0) as [md1|]; cbn [mbind option_bind]; [apply IH|done].
Qed.

Lemma last_of_snoc ty cs c :
  last_of ty (cs ++ [c])
  = if decide (MaterialComponent.component_type c = ty) then Some c else last_of ty cs.
Proof.
  unfold last_of. rewrite filter_app, filter_cons, filter_nil.
  case_decide; [by rewrite last_snoc|by rewrite app_nil_r].
Qed.

Lemma py_index_0 {A} (l : list A) : Py.index l 0 = l !! 0%nat.
Proof. apply (py_index_nat l 0). Qed.

(** One component: the field it sets, if any, and the data it needs. *)
Lemma add_component_fields md c md' :
  add_component md c = Some md' →
  let ty := MaterialComponent.component_type c in
  let data := MaterialComponent.data c in
  component_ok c
  ∧ MaterialData.name md' = MaterialData.name md
  ∧ MaterialData.shader_hex md' = MaterialData.shader_hex md
  ∧ MaterialData.texture_id md'
    = (if decide (ty = 50) then data !! 0%nat else MaterialData.texture_id md)
  ∧ MaterialData.rgba md'
    = (if decide (ty = 51) then Some data else MaterialData.rgba md)
  ∧ MaterialData.specular_coeff md'
    = (if decide (ty = 56) then data !! 0%nat else MaterialData.specular_coeff md)
  ∧ MaterialData.toon_texture_id md'
    = (if decide (ty = 72) then data !! 0%nat else MaterialData.toon_texture_id md).
Proof.
  unfold add_component, component_ok. destruct c as [ty data].
  cbn [MaterialComponent.component_type MaterialComponent.data].
  rewrite !py_index_0.
  assert (data !! 0%nat = None → data = []) as Hnil by (by destruct data).
  destruct (decide (ty = 50)) as [->|H50];
    [|destruct (decide (ty = 51)) as [->|H51];
      [|destruct (decide (ty = 56)) as [->|H56];
        [|destruct (decide (ty = 72)) as [->|H72]]]].
  - destruct (data !! 0%nat) as [d|] eqn:Hd; cbn [mbind option_bind]; [|done].
    intros [= <-]. cbn. split; [|done]. intros _ ->. done.
  - cbn [mbind option_bind]. intros [= <-]. cbn. split; [|done].
    intros Hin. set_solver.
  - destruct (data !! 0%nat) as [d|] eqn:Hd; cbn [mbind option_bind]; [|done].
    intros [= <-]. cbn. split; [|done]. intros _ ->. done.
  - destruct (data !! 0%nat) as [d|] eqn:Hd; cbn [mbind option_bind]; [|done].
    intros [= <-]. cbn. split; [|done]. intros _ ->. done.
  - cbn [mbind option_bind]. intros [= <-]. cbn. split; [|done].
    intros Hin. set_solver.
Qed.

(** The fields after the loop over the components, from the fields before
    it: the last component of a type decides. *)
Lemma add_components_fields cs : ∀ md0 md,
  add_components md0 cs = Some md →
  Forall component_ok cs
  ∧ MaterialData.name md = MaterialData.name md0
  ∧ MaterialData.shader_hex md = MaterialData.shader_hex md0
  ∧ MaterialData.texture_id md
    = match last_of 50 cs with
      | Some _ => first_datum 50 cs
      | None => MaterialData.texture_id md0
      end
  ∧ MaterialData.rgba md
    = match last_of 51 cs with
      | Some c => Some (MaterialComponent.data c)
      | None => MaterialData.rgba md0
      end
  ∧ MaterialData.specular_coeff md
    = match last_of 56 cs with
      | Some _ => first_datum 56 cs
      | None => MaterialData.specular_coeff md0
      end
  ∧ MaterialData.toon_texture_id md
    = match last_of 72 cs with
      | Some _ => first_datum 72 cs
      | None => MaterialData.toon_texture_id md0
      end.
Proof.
  induction cs as [|c cs IH] using rev_ind; intros md0 md.
  - intros [= <-]. by repeat split.
  - rewrite add_components_snoc.
    destruct (add_components md0 cs) as [md1|] eqn:Hcs; cbn [mbind option_bind]; [|done].
    destruct (IH _ _ Hcs) as (Hok & Hn & Hs & Ht & Hr & Hsp & Hto).
    intros (Hc & Hn' & Hs' & Ht' & Hr' & Hsp' & Hto')%add_component_fields.
    cbn zeta in *. unfold first_datum in *. rewrite !last_of_snoc.
    split; [by apply Forall_app; split; [|repeat constructor]|].
    split; [congruence|]. split; [congruence|].
    rewrite Ht', Hr', Hsp', Hto'.
    repeat split;
      match goal with |- context [decide ?P] => destruct (decide P) end; done.
Qed.

Lemma add_unknowns_fields us : ∀ md,
  MaterialData.shader_hex (fold_left add_unknown us md) = MaterialData.shader_hex md
  ∧ MaterialData.texture_id (fold_left add_unknown us md) = MaterialData.texture_id md
  ∧ MaterialData.rgba (fold_left add_unknown us md) = MaterialData.rgba md
  ∧ MaterialData.specular_coeff (fold_left add_unknown us md)
    = MaterialData.specular_coeff md
  ∧ MaterialData.toon_texture_id (fold_left add_unknown us md)
    = MaterialData.toon_texture_id md.
Proof.
  induction us as [|u us IH]; intros md; cbn [fold_left]; [done|].
  destruct (IH (add_unknown md u)) as (-> & -> & -> & -> & ->). done.
Qed.

Lemma add_material_Some filename i (m : GeomMaterial.t) md :
  add_material filename i m = Some md →
  material_ok m
  ∧ MaterialData.shader_hex md = Some (GeomMaterial.shader_hex m)
  ∧ MaterialData.texture_id md = first_datum 50 (GeomMaterial.material_components m)
  ∧ MaterialData.rgba md
    = MaterialComponent.data <$> last_of 51 (GeomMaterial.material_components m)
  ∧ MaterialData.specular_coeff md = first_datum 56 (GeomMaterial.material_components m)
  ∧ MaterialData.toon_texture_id md
    = first_datum 72 (GeomMaterial.material_components m).
Proof.
  unfold add_material.
  destruct (add_components _ _) as [md1|] eqn:Hcs; cbn [mbind option_bind]; [|done].
  intros [= <-].
  apply add_components_fields in Hcs as (Hok & _ & Hs & Ht & Hr & Hsp & Hto).
  destruct (add_unknowns_fields (GeomMaterial.unknown_data m) md1)
    as (-> & -> & -> & -> & ->).
  cbn in Hs, Ht, Hr, Hsp, Hto. unfold first_datum in *.
  split; [done|]. split; [done|].
  rewrite Ht, Hr, Hsp, Hto.
  by repeat split; match goal with |- context [last_of ?t ?cs] => destruct (last_of t cs) end.
Qed.

(** X17: a material is assembled exactly when every
    component of type 50, 56 or 72 has a datum.  Then the shader identifier
    is copied; [texture_id], [specular_coeff] and [toon_texture_id] are the
    first datum of the last component of type 50, 56 and 72, [rgba] is the
    data of the last component of type 51, and a field whose type does not
    occur stays [None]. *)
Theorem add_material_fields filename i (m : GeomMaterial.t) :
  (is_Some (add_material filename i m) ↔ material_ok m)
  ∧ ∀ md,
      add_material filename i m = Some md →
      MaterialData.shader_hex md = Some (GeomMaterial.shader_hex m)
      ∧ MaterialData.texture_id md = first_datum 50 (GeomMaterial.material_components m)
      ∧ MaterialData.rgba md
        = MaterialComponent.data <$> last_of 51 (GeomMaterial.material_components m)
      ∧ MaterialData.specular_coeff md
        = first_datum 56 (GeomMaterial.material_components m)
      ∧ MaterialData.toon_texture_id md
        = first_datum 72 (GeomMaterial.material_components m).
Proof.
  split.
  - split.
    + intros [md Hmd]. by apply add_material_Some in Hmd as [? _].
    + intros Hok. destruct (add_material_name filename i m Hok) as (md & -> & _). eauto.
  - intros md Hmd. by apply add_material_Some in Hmd as (_ & ? & ? & ? & ? & ?).
Qed.

(** *** The dictionary [unknown_data] of a material *)

Lemma add_component_unknown md c md' :
  add_component md c = Some md' →
  MaterialData.unknown_data md'
  = <["type_1_component_" +:+ pretty (MaterialComponent.component_type c)
      := MaterialData.Data (MaterialComponent.data c)]> (MaterialData.unknown_data md).
Proof.
  unfold add_component.
  match goal with |- context [mbind _ ?x] => destruct x as [md1|] eqn:Hmd1 end;
    cbn [mbind option_bind]; [|done].
  intros [= <-]. cbn. f_equal.
  repeat case_decide;
    repeat match goal with
      | H : context [Py.index ?l 0] |- _ => destruct (Py.index l 0); cbn in H
      end;
    try done; by injection Hmd1 as <-.
Qed.

Lemma last_filter_snoc {A} (P : A → Prop) `{!∀ x, Decision (P x)} (l : list A) x :
  last (filter P (l ++ [x])) = if decide (P x) then Some x else last (filter P l).
Proof.
  rewrite filter_app, filter_cons, filter_nil.
  case_decide; [by rewrite last_snoc|by rewrite app_nil_r].
Qed.

Lemma add_components_unknown cs : ∀ md0 md key,
  add_components md0 cs = Some md →
  MaterialData.unknown_data md !! key
  = match last (filter (λ c, "type_1_component_"
                             +:+ pretty (MaterialComponent.component_type c) = key) cs)
    with
    | Some c => Some (MaterialData.Data (MaterialComponent.data c))
    | None => MaterialData.unknown_data md0 !! key
    end.
Proof.
  induction cs as [|c cs IH] using rev_ind; intros md0 md key.
  - by intros [= <-].
  - rewrite add_components_snoc.
    destruct (add_components md0 cs) as [md1|] eqn:Hcs; cbn [mbind option_bind]; [|done].
    intros ->%add_component_unknown. rewrite last_filter_snoc.
    destruct (decide (_ = key)) as [<-|Hne].
    + by rewrite lookup_insert_eq.
    + rewrite lookup_insert_ne by done. by apply IH.
Qed.

Lemma add_unknowns_unknown us : ∀ md key,
  MaterialData.unknown_data (fold_left add_unknown us md) !! key
  = match last (filter (λ u, "type_2_component_"
                             +:+ pretty (UnknownComponent.maybe_component_type u) = key) us)
    with
    | Some u => Some (MaterialData.Data (UnknownComponent.data u))
    | None => MaterialData.unknown_data md !! key
    end.
Proof.
  induction us as [|u us IH] using rev_ind; intros md key; [done|].
  rewrite fold_left_app. cbn [fold_left]. rewrite last_filter_snoc.
  unfold add_unknown at 1. cbn [MaterialData.unknown_data].
  destruct (decide (_ = key)) as [<-|Hne].
  - by rewrite lookup_insert_eq.
  - rewrite lookup_insert_ne by done. apply IH.
Qed.

Lemma filter_none {A} (P : A → Prop) `{!∀ x, Decision (P x)} (l : list A) :
  (∀ x, ¬ P x) → filter P l = [].
Proof.
  intros Hno. induction l as [|x l IH]; [done|].
  rewrite filter_cons, decide_False by apply Hno. done.
Qed.

(** X18: the dictionary [unknown_data] of an
    assembled material: the two header fields under their names, and for
    every type the data of the last material component of that type under
    "type_1_component_<type>" and of the last unknown component of that
    type under "type_2_component_<type>"; a type that does not occur has
    no entry, and components of one type overwrite each other. *)
Theorem add_material_unknown_data filename i (m : GeomMaterial.t) md :
  add_material filename i m = Some md →
  MaterialData.unknown_data md !! "unknown_0x00"
  = Some (MaterialData.Scalar (GeomMaterial.unknown_0x00 m))
  ∧ MaterialData.unknown_data md !! "unknown_0x02"
    = Some (MaterialData.Scalar (GeomMaterial.unknown_0x02 m))
  ∧ (∀ ty, MaterialData.unknown_data md !! ("type_1_component_" +:+ pretty ty)
           = (λ c, MaterialData.Data (MaterialComponent.data c))
               <$> last_of ty (GeomMaterial.material_components m))
  ∧ (∀ ty, MaterialData.unknown_data md !! ("type_2_component_" +:+ pretty ty)
           = (λ u, MaterialData.Data (UnknownComponent.data u))
               <$> last_unknown_of ty (GeomMaterial.unknown_data m)).
Proof.
  unfold add_material.
  destruct (add_components _ _) as [md1|] eqn:Hcs; cbn [mbind option_bind]; [|done].
  intros [= <-].
  pose proof (λ key, add_components_unknown _ _ _ key Hcs) as H1.
  cbn [MaterialData.unknown_data] in H1.
  split; [|split; [|split]].
  - rewrite add_unknowns_unknown, filter_none by (by intros u [=]).
    rewrite H1, filter_none by (by intros c [=]). done.
  - rewrite add_unknowns_unknown, filter_none by (by intros u [=]).
    rewrite H1, filter_none by (by intros c [=]). done.
  - intros ty. rewrite add_unknowns_unknown, filter_none by (by intros u [=]).
    rewrite H1. unfold last_of.
    rewrite (list_filter_iff _ (λ c, MaterialComponent.component_type c = ty)).
    2:{ intros c. split; [|by intros ->].
        intros Heq. apply (inj (String.append "type_1_component_")) in Heq.
        by apply (inj pretty) in Heq. }
    cbn [last]. destruct (last (filter _ _)); [done|].
    rewrite !lookup_insert_ne by (cbn; by intros [=]). done.
  - intros ty. rewrite add_unknowns_unknown. unfold last_unknown_of.
    rewrite (list_filter_iff _ (λ u, UnknownComponent.maybe_component_type u = ty)).
    2:{ intros u. split; [|by intros ->].
        intros Heq. apply (inj (String.append "type_2_component_")) in Heq.
        by apply (inj pretty) in Heq. }
    destruct (last (filter _ _)); [done|].
    rewrite H1, filter_none by (by intros c [=]). cbn [last].
    rewrite !lookup_insert_ne by (cbn; by intros [=]). done.
Qed.

End MaterialFieldFacts.

Lemma add_material_fields_witness :
  ∃ md, Materials.add_material "chr001" 0 MaterialFields.example_material = Some md
        ∧ MaterialData.texture_id md = Some 3%Q
        ∧ MaterialData.rgba md = Some [1; 1; 1; 1]%Q
        ∧ MaterialData.specular_coeff md = None.
Proof.
  destruct (Materials.add_material "chr001" 0 MaterialFields.example_material)
    as [md|] eqn:Hrun; [|vm_compute in Hrun; discriminate Hrun].
  exists md. split; [reflexivity|].
  destruct (add_material_fields "chr001" 0 MaterialFields.example_material) as [_ Hf].
  destruct (Hf md Hrun) as (_ & Ht & Hr & Hs & _).
  split; [exact Ht|]. split; [exact Hr|exact Hs].
Defined.

Lemma add_material_unknown_data_witness :
  ∃ md, Materials.add_material "chr001" 0 MaterialFields.example_material = Some md
        ∧ MaterialData.unknown_data md !! "unknown_0x00" = Some (MaterialData.Scalar 1)
        ∧ MaterialData.unknown_data md !! "type_1_component_50"
          = Some (MaterialData.Data [3%Q])
        ∧ MaterialData.unknown_data md !! "type_2_component_161" = None.
Proof.
  destruct (Materials.add_material "chr001" 0 MaterialFields.example_material)
    as [md|] eqn:Hrun; [|vm_compute in Hrun; discriminate Hrun].
  exists md. split; [reflexivity|].
  destruct (add_material_unknown_data _ _ _ _ Hrun) as (H0 & _ & H1 & H2).
  split; [exact H0|]. split; [exact (H1 50)|exact (H2 161)].
Defined.

(** ** The armatures of [import_skeleton] and [import_rest_pose_skeleton] *)

Section ArmatureFacts.
Import BlenderImport BlenderRestPose.
Context {M : Type} (negated : M → M) (bone_names : list string).
Implicit Types (arm : Armature (M := M)).

(** A new bone for an armature: its name is new, and its parent is a bone
    of the armature or the bone itself. *)
Lemma well_formed_snoc arm (bone : EditBone (M := M)) lob' ms' :
  well_formed arm →
  list_of_bones arm !! name bone = None →
  lob' = <[name bone := bone]> (list_of_bones arm) →
  (∀ pn, parent bone = Some pn → ∃ p, lob' !! pn = Some p) →
  well_formed {| list_of_bones := lob'; edit_bones := edit_bones arm ++ [bone];
                 bone_matrices := ms' |}.
Proof.
  intros (Hnd & Hdict & Hpar) Hnew -> Hp. split; [|split]; cbn [edit_bones list_of_bones].
  - rewrite fmap_app. apply NoDup_app. split; [done|]. split; [|apply NoDup_singleton].
    intros n (b & -> & Hb)%list_elem_of_fmap Heq%list_elem_of_singleton.
    assert (list_of_bones arm !! name b = Some b) as Hb' by (by apply Hdict).
    congruence.
  - intros k b. rewrite lookup_insert, elem_of_app, list_elem_of_singleton.
    destruct (decide (name bone = k)) as [<-|Hne].
    + split.
      * intros [= <-]. auto.
      * intros [[Hb| ->] Hn]; [|done].
        assert (list_of_bones arm !! name bone = Some b) as Hb' by (by apply Hdict).
        congruence.
    + rewrite Hdict. split; [intros [? ?]; auto|].
      intros [[Hb| ->] Hn]; [done|congruence].
  - intros i b pn Hi Hpn.
    apply lookup_app_Some in Hi as [Hi|[Hlen Hi]].
    + destruct (Hpar i b pn Hi Hpn) as (j & b' & Hj & Hb' & Hn).
      exists j, b'. split; [done|]. split; [|done]. by apply lookup_app_l_Some.
    + apply list_lookup_singleton_Some in Hi as [Hi0 <-].
      assert (i = length (edit_bones arm)) as -> by lia.
      destruct (Hp pn Hpn) as [p Hlk]. rewrite lookup_insert in Hlk.
      destruct (decide (name bone = pn)) as [<-|Hne].
      * exists (length (edit_bones arm)), bone. split; [done|]. split; [|done].
        rewrite lookup_app_r by done. by rewrite Nat.sub_diag.
      * apply Hdict in Hlk as [Hin Hname].
        apply list_elem_of_lookup in Hin as [j Hj].
        exists j, p. split; [apply lookup_lt_Some in Hj; lia|].
        split; [by apply lookup_app_l_Some|done].
Qed.

Lemma import_bone_well_formed arm arm' rel :
  well_formed arm →
  import_bone negated bone_names arm rel = Some arm' →
  well_formed arm'
  ∧ (length (edit_bones arm') ≤ S (length (edit_bones arm)))%nat
  ∧ length (bone_matrices arm') = length (bone_matrices arm).
Proof.
  intros Hwf. destruct rel as [c p]. unfold import_bone.
  destruct (bone_names !! c) as [n|] eqn:Hn; cbn [mbind option_bind]; [|done].
  case_decide as Hin.
  { intros [= <-]. split; [done|]. split; [lia|done]. }
  destruct (bone_matrices arm !! c) as [bm|]; cbn [mbind option_bind]; [|done].
  match goal with
  | |- (?pb ≫= _) = _ → _ => destruct pb as [pb'|] eqn:Hpb; cbn [mbind option_bind]; [|done]
  end.
  intros [= <-]. cbn [edit_bones bone_matrices].
  rewrite length_app, length_insert. cbn [length]. split; [|split; [lia|done]].
  apply well_formed_snoc; cbn [name parent]; try done.
  - by apply eq_None_not_Some.
  - intros pn ->. case_decide as Hp; [|done].
    destruct (Py.index bone_names p) as [pn'|]; cbn [mbind option_bind] in Hpb; [|done].
    rewrite lookup_insert in Hpb. rewrite lookup_insert.
    destruct (decide (n = pn')) as [<-|Hne].
    + cbn [mbind option_bind name] in Hpb. injection Hpb as <-.
      rewrite decide_True by done. eauto.
    + destruct (list_of_bones arm !! pn') as [pbone|] eqn:Hpbone;
        cbn [mbind option_bind] in Hpb; [|done].
      injection Hpb as <-.
      destruct Hwf as (_ & Hdict & _). apply Hdict in Hpbone as Hq. destruct Hq as [_ Hq].
      rewrite Hq. rewrite decide_False by congruence. eauto.
Qed.

Lemma import_bones_well_formed rels : ∀ arm arm',
  well_formed arm →
  import_bones negated bone_names arm rels = Some arm' →
  well_formed arm'
  ∧ (length (edit_bones arm') ≤ length (edit_bones arm) + length rels)%nat
  ∧ length (bone_matrices arm') = length (bone_matrices arm).
Proof.
  induction rels as [|r rels IH]; intros arm arm' Hwf; cbn [import_bones].
  - intros [= <-]. split; [done|]. split; [lia|done].
  - destruct (import_bone negated bone_names arm r) as [arm1|] eqn:Hstep;
      cbn [mbind option_bind]; [|done].
    intros Hrest. destruct (import_bone_well_formed _ _ _ Hwf Hstep) as (Hwf1 & Hl1 & Hm1).
    destruct (IH _ _ Hwf1 Hrest) as (Hwf' & Hl' & Hm').
    split; [done|]. cbn [length]. split; [lia|congruence].
Qed.

Lemma empty_well_formed (ms : list M) :
  well_formed {| list_of_bones := ∅; edit_bones := []; bone_matrices := ms |}.
Proof.
  split; [constructor|]. split.
  - intros k b. cbn. rewrite lookup_empty. split; [done|]. by intros [?%elem_of_nil _].
  - intros i b pn Hi. cbn [edit_bones] in Hi. by rewrite lookup_nil in Hi.
Qed.

(** X19: whatever the bone names and relations
    are, a completed import leaves an armature whose bones have pairwise
    different names, whose dictionary holds exactly these bones, each under
    its name, and in which the parent of a bone is a bone made before it (or
    the bone itself); there are at most as many bones as relations, and the
    list of matrices keeps its length. *)
Theorem import_skeleton_armature (relations : list (nat * Z)) (matrices : list M) arm :
  import_skeleton negated bone_names relations matrices = Some arm →
  well_formed arm
  ∧ (length (edit_bones arm) ≤ length relations)%nat
  ∧ length (bone_matrices arm) = length matrices.
Proof.
  unfold import_skeleton. intros Hrun.
  by destruct (import_bones_well_formed _ _ _ (empty_well_formed matrices) Hrun)
    as (? & ? & ?).
Qed.

(** *** The matrices of the model *)

Lemma import_bone_fresh_matrices arm arm' seen c p :
  NoDup bone_names → built_seen bone_names arm seen → c ∉ seen →
  import_bone negated bone_names arm (c, p) = Some arm' →
  ∃ bm bone, bone_matrices arm !! c = Some bm
             ∧ bone_matrices arm' = <[c := negated bm]> (bone_matrices arm)
             ∧ edit_bones arm' = edit_bones arm ++ [bone]
             ∧ matrix bone = negated bm.
Proof.
  intros Hnd Hinv Hc. unfold import_bone.
  destruct (bone_names !! c) as [n|] eqn:Hn; cbn [mbind option_bind]; [|done].
  case_decide as Hin.
  { exfalso. destruct Hin as [b Hb]. destruct (Hinv n b Hb) as (_ & c' & Hc' & Hn').
    by rewrite (NoDup_lookup _ _ _ _ Hnd Hn Hn') in Hc. }
  destruct (bone_matrices arm !! c) as [bm|]; cbn [mbind option_bind]; [|done].
  match goal with
  | |- (?pb ≫= _) = _ → _ => destruct pb as [pb'|]; cbn [mbind option_bind]; [|done]
  end.
  intros [= <-]. eauto 10.
Qed.

Lemma import_bones_matrices rels : ∀ arm arm' seen,
  NoDup bone_names →
  seen_built bone_names arm seen → built_seen bone_names arm seen →
  import_bones negated bone_names arm rels = Some arm' →
  (∀ c, bone_matrices arm' !! c
        = if decide (c ∈ rels.*1 ∧ c ∉ seen)
          then negated <$> bone_matrices arm !! c else bone_matrices arm !! c)
  ∧ ∃ new, edit_bones arm' = edit_bones arm ++ new
           ∧ Forall2 (λ bone rel, Some (matrix bone)
                                  = negated <$> bone_matrices arm !! rel.1)
                     new (first_occurrences_from seen rels).
Proof.
  induction rels as [|[c0 p0] rels IH]; intros arm arm' seen Hnd Hsb Hbs;
    cbn [import_bones].
  { intros [= <-]. split.
    - intros c. rewrite decide_False; [done|]. intros [?%elem_of_nil _]. done.
    - exists []. rewrite app_nil_r. split; [done|constructor]. }
  destruct (import_bone negated bone_names arm (c0, p0)) as [arm1|] eqn:Hstep;
    cbn [mbind option_bind]; [|done].
  intros Hrest. cbn [first_occurrences_from]. destruct (decide (c0 ∈ seen)) as [Hc0|Hc0].
  - rewrite (import_bone_duplicate negated bone_names arm seen) in Hstep by done.
    injection Hstep as <-.
    destruct (IH _ _ _ Hnd Hsb Hbs Hrest) as (Hm & new & Hnew & Hall).
    split; [|by exists new].
    intros c. rewrite Hm. cbn [fmap list_fmap fst].
    destruct (decide (c ∈ rels.*1 ∧ c ∉ seen)) as [[? ?]|Hn].
    + rewrite decide_True; [done|]. split; [by right|done].
    + rewrite decide_False; [done|].
      intros [[->|?]%elem_of_cons ?]; [done|]. by apply Hn.
  - pose proof (import_bone_seen negated bone_names _ _ _ _ _ Hsb Hstep) as Hsb1.
    destruct (import_bone_fresh negated bone_names _ _ _ _ _ Hnd Hbs Hc0 Hstep)
      as (bone0 & Hb0 & _ & Hbs1).
    destruct (import_bone_fresh_matrices _ _ _ _ _ Hnd Hbs Hc0 Hstep)
      as (bm & bone & Hbm & Hms & Hbone & Hmat).
    destruct (IH _ _ _ Hnd Hsb1 Hbs1 Hrest) as (Hm & new & Hnew & Hall).
    split.
    + intros c. rewrite Hm, Hms. cbn [fmap list_fmap fst].
      destruct (decide (c = c0)) as [->|Hne].
      * rewrite decide_False by (intros [_ Hni]; apply Hni; left).
        rewrite decide_True by (split; [left|done]).
        rewrite list_lookup_insert_eq by (by eapply lookup_lt_Some).
        by rewrite Hbm.
      * rewrite list_lookup_insert_ne by done.
        destruct (decide (c ∈ rels.*1 ∧ c ∉ c0 :: seen)) as [[Hin Hni]|Hn].
        -- rewrite decide_True; [done|]. split; [by right|].
           intros ?. apply Hni. by right.
        -- rewrite decide_False; [done|].
           intros [[->|Hin]%elem_of_cons Hni]; [done|]. apply Hn. split; [done|].
           intros [->|?]%elem_of_cons; done.
    + exists (bone :: new). rewrite Hnew, Hbone, <- app_assoc. split; [done|].
      constructor; [cbn [fst]; by rewrite Hbm, Hmat|].
      assert (Forall (λ rel : nat * Z, rel.1 ≠ c0)
                (first_occurrences_from (c0 :: seen) rels)) as Hfresh.
      { apply Forall_forall. intros [c p] Hin.
        apply first_occurrences_from_spec in Hin as [Hni _]. cbn [fst].
        intros ->. apply Hni. left. }
      clear -Hall Hfresh Hms. induction Hall as [|b r new l Hbr Hall IH']; [constructor|].
      apply Forall_cons in Hfresh as [Hr Hfresh]. constructor; [|by apply IH'].
      rewrite Hms, list_lookup_insert_ne in Hbr by done. done.
Qed.

(** X20: the import writes to the matrices of
    the model: with distinct bone names, after a completed import the
    matrix of every child id of the relation list is the negated one, every
    other matrix is as it was, and each bone was made from the negated
    matrix of its child id. *)
Theorem import_skeleton_matrices (relations : list (nat * Z)) (matrices : list M) arm :
  NoDup bone_names →
  import_skeleton negated bone_names relations matrices = Some arm →
  (∀ c, bone_matrices arm !! c
        = if decide (c ∈ relations.*1)
          then negated <$> matrices !! c else matrices !! c)
  ∧ Forall2 (λ bone rel, Some (matrix bone) = negated <$> matrices !! rel.1)
            (edit_bones arm) (first_occurrences relations).
Proof.
  intros Hnd Hrun. unfold import_skeleton in Hrun.
  apply (import_bones_matrices _ _ _ []) in Hrun as (Hm & new & Hnew & Hall); [|done|..].
  - cbn [bone_matrices edit_bones] in *. split.
    + intros c. rewrite Hm.
      destruct (decide (c ∈ relations.*1)) as [Hc|Hc].
      * rewrite decide_True; [done|]. split; [done|apply not_elem_of_nil].
      * rewrite decide_False; [done|]. by intros [? _].
    + by rewrite Hnew.
  - by intros c ?%elem_of_nil.
  - intros k b Hb. cbn [list_of_bones] in Hb. by rewrite lookup_empty in Hb.
Qed.

(** *** The rest-pose armature *)

Lemma import_bone_same_tree arm1 arm2 arm1' arm2' i rel :
  same_tree arm1 arm2 →
  import_bone negated bone_names arm1 rel = Some arm1' →
  import_rest_bone bone_names arm2 (i, rel) = Some arm2' →
  same_tree arm1' arm2' ∧ bone_matrices arm2' = bone_matrices arm2.
Proof.
  intros [Hd Ht]. destruct rel as [c p]. unfold import_bone, import_rest_bone.
  destruct (bone_names !! c) as [n|] eqn:Hn; cbn [mbind option_bind]; [|done].
  assert (is_Some (list_of_bones arm1 !! n) ↔ is_Some (list_of_bones arm2 !! n)) as Hiff.
  { rewrite <- !(fmap_is_Some name). by rewrite Hd. }
  destruct (decide (is_Some (list_of_bones arm1 !! n))) as [H1|H1];
    destruct (decide (is_Some (list_of_bones arm2 !! n))) as [H2|H2];
    try (exfalso; tauto).
  { by intros [= <-] [= <-]. }
  destruct (bone_matrices arm1 !! c) as [bm|]; cbn [mbind option_bind]; [|done].
  destruct (bone_matrices arm2 !! i) as [rm|]; cbn [mbind option_bind]; [|done].
  assert (∀ (b1 b2 : EditBone (M := M)), name b1 = name b2 →
            (if decide (p ≠ -1)
             then parent_name ← Py.index bone_names p;
                  q ← <[n := b1]> (list_of_bones arm1) !! parent_name;
                  Some (Some (name q))
             else Some None)
            = (if decide (p ≠ -1)
               then parent_name ← Py.index bone_names p;
                    q ← <[n := b2]> (list_of_bones arm2) !! parent_name;
                    Some (Some (name q))
               else Some None)) as Hparent.
  { intros b1 b2 Hb. case_decide; [|done].
    destruct (Py.index bone_names p) as [pn|]; cbn [mbind option_bind]; [|done].
    rewrite !lookup_insert. case_decide; cbn [mbind option_bind]; [by rewrite Hb|].
    specialize (Hd pn).
    destruct (list_of_bones arm1 !! pn), (list_of_bones arm2 !! pn);
      cbn in Hd |- *; congruence. }
  rewrite (Hparent _ {| name := n; matrix := rm; parent := None |}) by done.
  match goal with
  | |- (?pb ≫= _) = _ → _ => destruct pb as [pb'|]; cbn [mbind option_bind]; [|done]
  end.
  intros [= <-] [= <-]. split; [|done]. split.
  - intros k. cbn [list_of_bones]. rewrite !lookup_insert.
    destruct (decide (n = k)); [reflexivity|apply Hd].
  - unfold topology in *. cbn [edit_bones]. rewrite !fmap_app, Ht. done.
Qed.

Lemma import_bones_same_tree rels : ∀ i arm1 arm2 arm1' arm2',
  same_tree arm1 arm2 →
  import_bones negated bone_names arm1 rels = Some arm1' →
  import_rest_bones bone_names arm2 (imap (λ j r, ((i + j)%nat, r)) rels) = Some arm2' →
  same_tree arm1' arm2' ∧ bone_matrices arm2' = bone_matrices arm2.
Proof.
  induction rels as [|r rels IH]; intros i arm1 arm2 arm1' arm2' Hs;
    cbn [import_bones imap import_rest_bones].
  - by intros [= <-] [= <-].
  - destruct (import_bone negated bone_names arm1 r) as [a1|] eqn:H1;
      cbn [mbind option_bind]; [|done].
    destruct (import_rest_bone bone_names arm2 _) as [a2|] eqn:H2;
      cbn [mbind option_bind]; [|done].
    intros Hr1 Hr2.
    destruct (import_bone_same_tree _ _ _ _ _ _ Hs H1 H2) as [Hs' Hm].
    rewrite (imap_ext _ (λ j r, ((S i + j)%nat, r))) in Hr2.
    2:{ intros j x _. simpl. f_equal. lia. }
    destruct (IH _ _ _ _ _ Hs' Hr1 Hr2) as [Hs'' Hm']. split; [done|congruence].
Qed.

Lemma import_rest_bones_matrix rels : ∀ pre arm arm',
  names_of bone_names pre arm →
  import_rest_bones bone_names arm (imap (λ j r, ((length pre + j)%nat, r)) rels)
  = Some arm' →
  bone_matrices arm' = bone_matrices arm
  ∧ ∃ new, edit_bones arm' = edit_bones arm ++ new
           ∧ Forall (λ bone, ∃ i, made_at bone_names (pre ++ rels)
                                          (bone_matrices arm) bone i) new.
Proof.
  induction rels as [|[c p] rels IH]; intros pre arm arm' Hnames;
    cbn [imap import_rest_bones].
  - intros [= <-]. split; [done|]. exists []. by rewrite app_nil_r.
  - destruct (import_rest_bone bone_names arm _) as [a|] eqn:Hstep;
      cbn [mbind option_bind]; [|done].
    intros Hrest.
    rewrite (imap_ext _ (λ j r, ((length (pre ++ [(c, p)]) + j)%nat, r))) in Hrest.
    2:{ intros j x _. simpl. rewrite length_app. simpl. f_equal. lia. }
    revert Hstep. unfold import_rest_bone. rewrite Nat.add_0_r.
    destruct (bone_names !! c) as [n|] eqn:Hn; cbn [mbind option_bind]; [|done].
    assert (∀ a' : Armature (M := M),
              (∀ k, is_Some (list_of_bones a' !! k)
                    ↔ is_Some (list_of_bones arm !! k) ∨ k = n) →
              names_of bone_names (pre ++ [(c, p)]) a') as Hnext.
    { intros a' Hkeys k. rewrite Hkeys, (Hnames k). split.
      - intros [(j & c' & p' & Hj & Hc')| ->].
        + exists j, c', p'. split; [|done]. by apply lookup_app_l_Some.
        + exists (length pre), c, p. split; [|done].
          by rewrite lookup_app_r, Nat.sub_diag by lia.
      - intros (j & c' & p' & Hj & Hc').
        apply lookup_app_Some in Hj as [Hj|[Hge Hj]].
        + left. by exists j, c', p'.
        + right. destruct (j - length pre)%nat as [|?] eqn:Hd; [|done].
          simpl in Hj. injection Hj as <- <-. congruence. }
    case_decide as Hin.
    { intros [= <-].
      destruct (IH (pre ++ [(c, p)]) arm arm') as (Hm & new & Hnew & Hall); [|done|].
      { apply Hnext. intros k. split; [by left|]. by intros [?| ->]. }
      split; [done|]. exists new. split; [done|]. by rewrite <- app_assoc in Hall. }
    destruct (bone_matrices arm !! length pre) as [bm|] eqn:Hbm;
      cbn [mbind option_bind]; [|done].
    match goal with
    | |- (?pb ≫= _) = _ → _ => destruct pb as [pb'|]; cbn [mbind option_bind]; [|done]
    end.
    intros [= <-].
    match type of Hrest with
    | import_rest_bones _ ?a' _ = _ =>
        destruct (IH (pre ++ [(c, p)]) a' arm') as (Hm & new & Hnew & Hall); [|done|]
    end.
    { apply Hnext. intros k. cbn [list_of_bones]. rewrite lookup_insert_is_Some.
      destruct (decide (n = k)); naive_solver. }
    cbn [bone_matrices edit_bones] in *. split; [done|].
    eexists (_ :: new). rewrite Hnew, <- app_assoc. split; [done|].
    rewrite <- app_assoc in Hall. constructor; [|done].
    exists (length pre). split.
    + exists c, p. cbn [name matrix].
      by rewrite lookup_app_r, Nat.sub_diag by lia.
    + intros j c' p' Hlt Hj Hc'. cbn [name] in Hc'.
      rewrite lookup_app_l in Hj by done.
      apply Hin, Hnames. by exists j, c', p'.
Qed.

(** X21: when both imports complete, the rest-pose
    armature has the same bones by name, in the same order and with the
    same parents, as the armature of [import_skeleton]; it leaves the
    rest-pose matrices as they are, and each of its bones carries the matrix
    [rest_pose[i]] for the position [i] of the first relation that names the
    bone, the one it was made for (and not the matrix at the child id). *)
Theorem rest_pose_same_tree (relations : list (nat * Z))
    (matrices rest_pose : list M) arm arm' :
  import_skeleton negated bone_names relations matrices = Some arm →
  import_rest_pose_skeleton bone_names relations rest_pose = Some arm' →
  topology arm' = topology arm
  ∧ bone_matrices arm' = rest_pose
  ∧ Forall (λ bone, ∃ i, made_at bone_names relations rest_pose bone i)
           (edit_bones arm').
Proof.
  intros H1 H2.
  assert (topology arm' = topology arm ∧ bone_matrices arm' = rest_pose) as [Ht Hm].
  { unfold import_skeleton in H1. unfold import_rest_pose_skeleton, Py.enumerate in H2.
    destruct (import_bones_same_tree relations 0
                {| list_of_bones := ∅; edit_bones := []; bone_matrices := matrices |}
                {| list_of_bones := ∅; edit_bones := []; bone_matrices := rest_pose |}
                arm arm') as [[_ Ht] Hm]; [by split|done..|].
    split; [done|exact Hm]. }
  split; [done|]. split; [done|].
  unfold import_rest_pose_skeleton, Py.enumerate in H2.
  apply (import_rest_bones_matrix relations []) in H2 as (_ & new & -> & Hall).
  - cbn [edit_bones bone_matrices app] in *. exact Hall.
  - intros n. cbn [list_of_bones]. rewrite lookup_empty. split; [by intros [? ?]|].
    intros (j & ? & ? & Hj & _). by rewrite lookup_nil in Hj.
Qed.

End ArmatureFacts.

Lemma import_skeleton_armature_witness :
  ∃ arm,
    BlenderImport.import_skeleton Z.opp ["root"; "arm"; "hand"]
      [(0%nat, -1); (1%nat, 0); (1%nat, 7); (2%nat, 1); (0%nat, 2)] [10; 20; 30]
    = Some arm
    ∧ BlenderRestPose.well_formed arm
    ∧ (length (BlenderImport.edit_bones arm) ≤ 5)%nat
    ∧ length (BlenderImport.bone_matrices arm) = 3%nat.
Proof.
  destruct (BlenderImport.import_skeleton Z.opp ["root"; "arm"; "hand"]
              [(0%nat, -1); (1%nat, 0); (1%nat, 7); (2%nat, 1); (0%nat, 2)] [10; 20; 30])
    as [arm|] eqn:Hrun; [|vm_compute in Hrun; discriminate Hrun].
  exists arm. split; [reflexivity|].
  exact (import_skeleton_armature Z.opp _ _ _ arm Hrun).
Defined.

Lemma import_skeleton_matrices_witness :
  ∃ arm,
    BlenderImport.import_skeleton Z.opp ["root"; "arm"; "hand"; "tail"]
      [(0%nat, -1); (1%nat, 0); (1%nat, 7); (2%nat, 1)] [10; 20; 30; 40]
    = Some arm
    ∧ BlenderImport.bone_matrices arm !! 1%nat = Some (-20)
    ∧ BlenderImport.bone_matrices arm !! 3%nat = Some 40.
Proof.
  destruct (BlenderImport.import_skeleton Z.opp ["root"; "arm"; "hand"; "tail"]
              [(0%nat, -1); (1%nat, 0); (1%nat, 7); (2%nat, 1)] [10; 20; 30; 40])
    as [arm|] eqn:Hrun; [|vm_compute in Hrun; discriminate Hrun].
  exists arm. split; [reflexivity|].
  destruct (import_skeleton_matrices Z.opp ["root"; "arm"; "hand"; "tail"]
              [(0%nat, -1); (1%nat, 0); (1%nat, 7); (2%nat, 1)] [10; 20; 30; 40] arm)
    as [Hm _].
  - apply (bool_decide_unpack _). vm_compute. reflexivity.
  - exact Hrun.
  - split; [exact (Hm 1%nat)|exact (Hm 3%nat)].
Defined.

Lemma rest_pose_same_tree_witness :
  ∃ arm arm',
    BlenderImport.import_skeleton Z.opp ["root"; "arm"; "hand"]
      [(0%nat, -1); (0%nat, -1); (2%nat, 0); (1%nat, 0)] [10; 20; 30] = Some arm
    ∧ BlenderRestPose.import_rest_pose_skeleton ["root"; "arm"; "hand"]
        [(0%nat, -1); (0%nat, -1); (2%nat, 0); (1%nat, 0)] [1; 2; 3; 4] = Some arm'
    ∧ BlenderRestPose.topology arm' = BlenderRestPose.topology arm
    ∧ BlenderImport.bone_matrices arm' = [1; 2; 3; 4]
    ∧ BlenderImport.matrix <$> BlenderImport.edit_bones arm' = [1; 3; 4]
    ∧ Forall (λ bone, ∃ i, BlenderRestPose.made_at ["root"; "arm"; "hand"]
                             [(0%nat, -1); (0%nat, -1); (2%nat, 0); (1%nat, 0)]
                             [1; 2; 3; 4] bone i)
             (BlenderImport.edit_bones arm').
Proof.
  destruct (BlenderImport.import_skeleton Z.opp ["root"; "arm"; "hand"]
              [(0%nat, -1); (0%nat, -1); (2%nat, 0); (1%nat, 0)] [10; 20; 30])
    as [arm|] eqn:Hrun; [|vm_compute in Hrun; discriminate Hrun].
  destruct (BlenderRestPose.import_rest_pose_skeleton ["root"; "arm"; "hand"]
              [(0%nat, -1); (0%nat, -1); (2%nat, 0); (1%nat, 0)] [1; 2; 3; 4])
    as [arm'|] eqn:Hrest; [|vm_compute in Hrest; discriminate Hrest].
  exists arm, arm'. split; [reflexivity|]. split; [reflexivity|].
  destruct (rest_pose_same_tree Z.opp _ _ _ _ arm arm' Hrun Hrest) as (Ht & Hm & Hb).
  split; [exact Ht|]. split; [exact Hm|]. split; [|exact Hb].
  vm_compute in Hrest. injection Hrest as <-. reflexivity.
Defined.

Section MeshWeightFacts.
Import Meshes MeshInvariants MeshWeights.

Lemma weighted_loop_groups i pairs : ∀ j vgroups groups vgroups' groups',
  Forall (λ p : Z * Q, 0 ≤ p.1) pairs →
  weighted_loop i j pairs vgroups groups = Some (vgroups', groups') →
  length groups' = length groups
  ∧ ∀ g g0, groups !! g = Some g0 →
      groups' !! g
      = Some {| VertexGroup.bone_idx := VertexGroup.bone_idx g0;
                VertexGroup.vertex_indices :=
                  VertexGroup.vertex_indices g0
                  ++ replicate (length (group_weights g pairs)) i;
                VertexGroup.weights :=
                  VertexGroup.weights g0 ++ group_weights g pairs |}.
Proof.
  induction pairs as [|[id w] pairs IH]; intros j vgroups groups vgroups' groups' Hpos;
    cbn [weighted_loop].
  - intros [= _ <-]. split; [done|]. intros g [b vi ws] Hg. cbn.
    by rewrite !app_nil_r.
  - apply Forall_cons in Hpos as [Hid Hpos]. cbn [fst] in Hid.
    unfold group_weights. cbn [omap list_omap snd fst]. fold (group_weights).
    destruct (Qeq_bool w 0) eqn:Hw.
    { intros Hrest. by apply (IH _ _ _ _ _ Hpos Hrest). }
    destruct (group_append groups _ i w) as [groups1|] eqn:Happ;
      cbn [mbind option_bind]; [|done].
    intros Hrest. destruct (IH _ _ _ _ _ Hpos Hrest) as [Hlen Hlk].
    apply group_append_Some in Happ as (n & gn & Hres & Hgn & ->).
    rewrite length_insert in Hlen. split; [done|].
    assert (n = Z.to_nat (id `div` 3)) as Hn.
    { unfold Py.resolve in Hres. assert (0 ≤ id `div` 3) by (apply Z.div_pos; lia).
      rewrite decide_True in Hres by done. case_decide; [|done]. congruence. }
    intros g g0 Hg. destruct (decide (g = n)) as [->|Hne].
    + rewrite Hg in Hgn. injection Hgn as <-.
      rewrite decide_True by (subst n; rewrite Z2Nat.id; [done|apply Z.div_pos; lia]).
      rewrite (Hlk n (appended g0 i w)).
      2:{ apply list_lookup_insert_eq. by eapply lookup_lt_Some. }
      cbn. rewrite <- !app_assoc. done.
    + rewrite decide_False by lia.
      rewrite (Hlk g g0); [done|]. by rewrite list_lookup_insert_ne.
Qed.

(** X22: what the explicit-array branch does to
    the vertex groups, for bone ids that are not negative: the list keeps
    its length, and the group at position [g] receives the vertex index once
    for each non-zero weight whose bone id divided by 3 is [g], together
    with these weights in array order; its bone index and its earlier
    entries stay. *)
Theorem explicit_weights_groups mode i vertex groups ids ws vg groups' :
  GeomVertex.WeightedBoneID vertex = Some ids →
  GeomVertex.BoneWeight vertex = Some ws →
  Forall (λ id, 0 ≤ id) ids →
  assign_groups mode i vertex groups = Some (vg, groups') →
  length groups' = length groups
  ∧ ∀ g g0, groups !! g = Some g0 →
      groups' !! g
      = Some {| VertexGroup.bone_idx := VertexGroup.bone_idx g0;
                VertexGroup.vertex_indices :=
                  VertexGroup.vertex_indices g0
                  ++ replicate (length (group_weights g (zip ids ws))) i;
                VertexGroup.weights :=
                  VertexGroup.weights g0 ++ group_weights g (zip ids ws) |}.
Proof.
  intros Hids Hws Hpos. unfold assign_groups. rewrite Hids, Hws.
  cbn [mbind option_bind].
  destruct (weighted_loop i 0 _ ids groups) as [[vg1 groups1]|] eqn:Hloop;
    cbn [mbind option_bind]; [|done].
  intros [= _ <-]. eapply weighted_loop_groups; [|exact Hloop].
  clear -Hpos. revert ws. induction Hpos as [|id ids Hid Hpos IH]; intros [|w ws];
    cbn; try constructor; auto.
Qed.

End MeshWeightFacts.

Lemma explicit_weights_groups_witness :
  ∃ groups',
    snd <$> Meshes.assign_groups 5 7 MeshInvariants.weighted_vertex Meshes.example_groups
    = Some groups'
    ∧ VertexGroup.weights <$> groups' !! 0%nat = Some [1 # 2]%Q
    ∧ VertexGroup.vertex_indices <$> groups' !! 1%nat = Some [7%nat]
    ∧ VertexGroup.vertex_indices <$> groups' !! 2%nat = Some [].
Proof.
  destruct (Meshes.assign_groups 5 7 MeshInvariants.weighted_vertex Meshes.example_groups)
    as [[vg groups']|] eqn:Hrun; [|vm_compute in Hrun; discriminate Hrun].
  exists groups'. split; [reflexivity|].
  destruct (explicit_weights_groups 5 7 MeshInvariants.weighted_vertex
              Meshes.example_groups [3; 6; 0] [1 # 2; 0; 1 # 2]%Q vg groups'
              eq_refl eq_refl) as [_ Hg]; [repeat constructor; lia|exact Hrun|].
  rewrite (Hg 0%nat _ eq_refl), (Hg 1%nat _ eq_refl), (Hg 2%nat _ eq_refl).
  repeat split.
Defined.

(** ** The float branch of the shader-uniform decoder *)

Section FloatTailFacts.
Import Struct MaterialReader MaterialSections.

Lemma unpack_floats_too_long (n : nat) (payload : list byte) :
  length payload = 16%nat → (4 < n)%nat →
  unpack (str_repeat "f" n) (take (n * 4) payload) = None.
Proof.
  intros Hlen Hn.
  destruct (unpack _ _) as [vals|] eqn:Hun; [|done].
  apply float_count_bound in Hun; [lia|done].
Qed.

(** X23: for a float count other than
    0, the decoder looks at the float bytes and at bytes 16 to 23 only: two
    24-byte records that agree there decode alike, whatever their payload
    bytes past the floats are. *)
Theorem shader_uniform_float_tail_ignored (record record' : list byte) b :
  length record = 24%nat → length record' = 24%nat →
  record !! 17%nat = Some b → Z_of_byte b ≠ 0 →
  drop 16 record = drop 16 record' →
  take (4 * Z.to_nat (Z_of_byte b)) record = take (4 * Z.to_nat (Z_of_byte b)) record' →
  shader_uniform_factory record = shader_uniform_factory record'.
Proof.
  intros Hlen Hlen' Hb Hnz Htrailer Hfloats.
  assert (∀ k, (16 ≤ k)%nat → record !! k = record' !! k) as Hk.
  { intros k Hk. replace k with (16 + (k - 16))%nat by lia.
    by rewrite <- !lookup_drop, Htrailer. }
  assert (∀ z, 16 ≤ z < 24 → Py.index record z = Py.index record' z) as Hidx.
  { intros z Hz. unfold Py.index, Py.resolve. rewrite Hlen, Hlen'.
    rewrite !decide_True by lia. cbn [mbind option_bind]. apply Hk. lia. }
  assert (record' !! 17%nat = Some b) as Hb' by (by rewrite <- Hk by lia).
  unfold shader_uniform_factory.
  rewrite (Hidx 16), (Hidx 17) by lia.
  replace (slice 18 20 record) with (slice 18 20 record').
  2:{ unfold slice. replace 18%nat with (16 + 2)%nat by done.
      by rewrite <- !drop_drop, Htrailer. }
  replace (drop 20 record) with (drop 20 record').
  2:{ replace 20%nat with (16 + 4)%nat by done. by rewrite <- !drop_drop, Htrailer. }
  replace (Py.index record' 17) with (Some b)
    by (symmetry; rewrite <- Hb'; apply (py_index_nat record' 17)).
  cbn [fmap option_fmap option_map].
  destruct (Py.index record' 16 ≫= _) as [ty|]; cbn [mbind option_bind]; [|done].
  destruct (unpack0 "H" _) as [s|]; cbn [mbind option_bind]; [|done].
  destruct (unpack0 "I" _) as [z|]; cbn [mbind option_bind]; [|done].
  unfold assert. case_bool_decide; [|done]. case_bool_decide; [|done].
  rewrite !decide_False by done.
  pose proof (Z_of_byte_range b) as Hr.
  set (nf := Z.to_nat (Z_of_byte b)) in *.
  replace (Z.to_nat (Z_of_byte b * 4)) with (nf * 4)%nat by lia.
  destruct (decide (nf ≤ 4)%nat) as [Hn|Hn].
  - replace (take (nf * 4) (take 16 record)) with (take (nf * 4) (take 16 record'));
      [done|].
    rewrite !take_take. replace (Nat.min (nf * 4) 16) with (4 * nf)%nat by lia.
    symmetry. exact Hfloats.
  - rewrite !unpack_floats_too_long; [done|..]; rewrite ?length_take; lia.
Qed.

End FloatTailFacts.

Lemma shader_uniform_float_tail_ignored_witness :
  MaterialReader.shader_uniform_factory MaterialReader.bumpiness_dirty_record
  = MaterialReader.shader_uniform_factory MaterialReader.bumpiness_clean_record.
Proof.
  apply (shader_uniform_float_tail_ignored MaterialReader.bumpiness_dirty_record
           MaterialReader.bumpiness_clean_record x01); try reflexivity.
  discriminate.
Defined.

(** ** The text form of the shader identifier *)

Section ShaderHexTextFacts.
Import Struct MaterialReader ShaderHexText.

Lemma lower_hex_value c :
  lower_hex c →
  is_space c = false ∧ c ≠ "_"%char
  ∧ ∃ v, hex_value c = Some v ∧ (v < 16)%N ∧ hex_digit v = c.
Proof.
  unfold lower_hex. cbn [list_ascii_of_string hexdigits]. intros H.
  repeat (apply elem_of_cons in H as [->|H]);
    [try (split; [done|]; split; [done|]; eexists; split; [reflexivity|]; split; [done|reflexivity])..|].
  by apply elem_of_nil in H.
Qed.

Lemma hex_digit_lower v : (v < 16)%N → lower_hex (hex_digit v).
Proof.
  intros Hv. unfold lower_hex.
  assert (v ∈ [0; 1; 2; 3; 4; 5; 6; 7; 8; 9; 10; 11; 12; 13; 14; 15]%N) as Hin.
  { assert (v = 0 ∨ v = 1 ∨ v = 2 ∨ v = 3 ∨ v = 4 ∨ v = 5 ∨ v = 6 ∨ v = 7 ∨ v = 8
            ∨ v = 9 ∨ v = 10 ∨ v = 11 ∨ v = 12 ∨ v = 13 ∨ v = 14 ∨ v = 15)%N by lia.
    set_solver. }
  repeat (apply elem_of_cons in Hin as [->|Hin]);
    [apply (bool_decide_unpack _); by vm_compute..|].
  by apply elem_of_nil in Hin.
Qed.

Lemma byte_of_nibbles hi lo :
  (hi < 16)%N → (lo < 16)%N →
  let b := byte_of_Z (Z.of_N (16 * hi + lo)) in
  (Byte.to_N b / 16 = hi)%N ∧ (Byte.to_N b mod 16 = lo)%N.
Proof.
  intros Hhi Hlo b.
  assert (Byte.to_N b = 16 * hi + lo)%N as ->.
  { pose proof (Z_of_byte_of_Z (Z.of_N (16 * hi + lo))) as Hb.
    unfold Z_of_byte in Hb. fold b in Hb. rewrite Z.mod_small in Hb by lia. lia. }
  split.
  - symmetry. apply (N.div_unique _ _ _ lo); lia.
  - symmetry. apply (N.mod_unique _ _ hi); lia.
Qed.

Lemma length_bytes_hex bs : String.length (bytes_hex bs) = (2 * length bs)%nat.
Proof. induction bs as [|b bs IH]; [done|]. cbn [bytes_hex String.length length]. lia. Qed.

Lemma bytes_hex_lower bs : Forall lower_hex (list_ascii_of_string (bytes_hex bs)).
Proof.
  induction bs as [|b bs IH]; [constructor|].
  cbn [bytes_hex list_ascii_of_string].
  pose proof (Byte.to_N_bounded b) as Hb.
  constructor; [|constructor; [|done]]; apply hex_digit_lower.
  - apply N.Div0.div_lt_upper_bound. lia.
  - apply N.mod_lt. done.
Qed.

(** Lower-case hexadecimal text is read to bytes that are written back as
    the same text. *)
Lemma bytes_fromhex_lower (n : nat) : ∀ s,
  String.length s = (2 * n)%nat → Forall lower_hex (list_ascii_of_string s) →
  ∃ bs, bytes_fromhex s = Some bs ∧ bytes_hex bs = s ∧ length bs = n.
Proof.
  induction n as [|n IH]; intros s Hlen Hall.
  - destruct s; [|done]. by exists [].
  - destruct s as [|c [|d s]]; try (cbn in Hlen; lia).
    cbn [list_ascii_of_string] in Hall.
    apply Forall_cons in Hall as [Hc Hall]. apply Forall_cons in Hall as [Hd Hall].
    destruct (lower_hex_value c Hc) as (Hsp & _ & hi & Hhi & Hhi16 & Hhic).
    destruct (lower_hex_value d Hd) as (_ & _ & lo & Hlo & Hlo16 & Hlod).
    destruct (IH s) as (bs & Hbs & Hhex & Hl); [cbn in Hlen; lia|done|].
    exists (byte_of_Z (Z.of_N (16 * hi + lo)) :: bs).
    cbn [bytes_fromhex]. rewrite Hsp, Hhi. cbn [mbind option_bind].
    rewrite Hlo. cbn [mbind option_bind]. rewrite Hbs. cbn [mbind option_bind].
    split; [done|]. split; [|cbn; lia].
    cbn [bytes_hex]. destruct (byte_of_nibbles hi lo Hhi16 Hlo16) as [-> ->].
    by rewrite Hhic, Hlod, Hhex.
Qed.

Lemma lower_hex_free p : Forall lower_hex (list_ascii_of_string p) → str_free "_" p.
Proof.
  induction p as [|c p IH]; [done|]. cbn [list_ascii_of_string str_free].
  intros [Hc Hp]%Forall_cons. split; [|by apply IH].
  by destruct (lower_hex_value c Hc) as (_ & ? & _).
Qed.

Lemma hex_group_bytes p :
  hex_group p → ∃ bs, bytes_fromhex p = Some bs ∧ bytes_hex bs = p ∧ length bs = 4%nat.
Proof. intros [Hlen Hall]. by apply bytes_fromhex_lower. Qed.

(** X24: the texts that [interpret_material]
    writes for 16-byte identifiers are of one shape, four groups of eight
    lower-case hexadecimal digits joined by underscores, and on every text
    of that shape [reinterpret_material] succeeds with 16 bytes whose text
    form is the text again; and the bytes read back from the text of a
    16-byte identifier are the identifier.  So identifiers and texts of that
    shape correspond one to one. *)
Theorem shader_hex_canonical_text :
  (∀ shader_hex, length shader_hex = 16%nat → canonical (interpret_shader_hex shader_hex))
  ∧ (∀ text, canonical text →
             ∃ shader_hex, length shader_hex = 16%nat
                           ∧ reinterpret_shader_hex text = Some shader_hex
                           ∧ interpret_shader_hex shader_hex = text)
  ∧ ∀ shader_hex, length shader_hex = 16%nat →
                  reinterpret_shader_hex (interpret_shader_hex shader_hex)
                  = Some shader_hex.
Proof.
  split; [|split; [|apply reinterpret_interpret_shader_hex]].
  - intros b Hlen. unfold canonical, interpret_shader_hex.
    do 4 eexists. split; [|split; [|split; [|split; [|reflexivity]]]];
      (split; [|apply bytes_hex_lower]);
      rewrite length_bytes_hex, length_reverse; unfold slice;
      rewrite length_take, length_drop; lia.
  - intros text (p1 & p2 & p3 & p4 & H1 & H2 & H3 & H4 & ->).
    pose proof (lower_hex_free _ (proj2 H1)) as F1.
    pose proof (lower_hex_free _ (proj2 H2)) as F2.
    pose proof (lower_hex_free _ (proj2 H3)) as F3.
    pose proof (lower_hex_free _ (proj2 H4)) as F4.
    apply hex_group_bytes in H1 as (b1 & E1 & X1 & L1).
    apply hex_group_bytes in H2 as (b2 & E2 & X2 & L2).
    apply hex_group_bytes in H3 as (b3 & E3 & X3 & L3).
    apply hex_group_bytes in H4 as (b4 & E4 & X4 & L4).
    exists (reverse b1 ++ reverse b2 ++ reverse b3 ++ reverse b4).
    split; [rewrite !length_app, !length_reverse; lia|].
    split.
    + unfold reinterpret_shader_hex. rewrite str_split_join4 by done.
      cbn [lookup list_lookup mbind option_bind].
      rewrite E1, E2, E3, E4. done.
    + destruct b1 as [|a0 [|a1 [|a2 [|a3 [|? ?]]]]]; try discriminate L1.
      destruct b2 as [|a4 [|a5 [|a6 [|a7 [|? ?]]]]]; try discriminate L2.
      destruct b3 as [|a8 [|a9 [|a10 [|a11 [|? ?]]]]]; try discriminate L3.
      destruct b4 as [|a12 [|a13 [|a14 [|a15 [|? ?]]]]]; try discriminate L4.
      rewrite <- X1, <- X2, <- X3, <- X4. reflexivity.
Qed.

End ShaderHexTextFacts.

(** ** [build_loops_and_verts] *)

Section BuildLoopsFacts.
Import BuildLoops.
Context {P : Type} `{EqDecision P} (py_set_list : list P → list P).
Hypothesis set_NoDup : ∀ l, NoDup (py_set_list l).
Hypothesis set_elem : ∀ l x, x ∈ py_set_list l ↔ x ∈ l.

Lemma index_of_Some (v : P) l k : index_of v l = Some k → l !! k = Some v.
Proof.
  unfold index_of. destruct (list_find _ l) as [[i x]|] eqn:Hf; [|done].
  intros [= <-]. apply list_find_Some in Hf as (Hi & -> & _). done.
Qed.

Lemma index_of_elem (v : P) l : v ∈ l → is_Some (index_of v l).
Proof.
  intros Hin. unfold index_of.
  destruct (list_find_elem_of (λ x, x = v) l v Hin eq_refl) as [[i x] ->]. by eexists.
Qed.

Lemma enumerated_lookup {A} (l : list A) (z : Z) :
  (list_to_map (imap (λ i k, (Z.of_nat i, k)) l) : gmap Z A) !! z
  = if decide (0 ≤ z) then l !! Z.to_nat z else None.
Proof.
  case_decide as Hz.
  - destruct (l !! Z.to_nat z) as [x|] eqn:Hx.
    + apply elem_of_list_to_map_1.
      * rewrite fmap_imap. cbn [fst compose].
        apply NoDup_alt. intros i j y. rewrite !list_lookup_imap.
        destruct (l !! i), (l !! j); cbn; try done. intros [= <-] [= Hij]. lia.
      * apply list_elem_of_lookup. exists (Z.to_nat z).
        rewrite list_lookup_imap, Hx. cbn. f_equal. f_equal. lia.
    + apply not_elem_of_list_to_map_1. rewrite fmap_imap.
      intros (i & Hi)%list_elem_of_lookup. rewrite list_lookup_imap in Hi.
      destruct (l !! i) eqn:Hli; cbn in Hi; [|done]. injection Hi as <-.
      rewrite Nat2Z.id in Hx. congruence.
  - apply not_elem_of_list_to_map_1. rewrite fmap_imap.
    intros (i & Hi)%list_elem_of_lookup. rewrite list_lookup_imap in Hi.
    destruct (l !! i); cbn in Hi; [|done]. injection Hi as <-. lia.
Qed.

Lemma poly_loop_spec vmap poly_idx indices : ∀ poly_verts loops pv loops',
  poly_loop vmap poly_idx indices poly_verts loops = Some (pv, loops') →
  ∃ new, pv = poly_verts ++ new
         ∧ Forall2 (λ idx k, vmap !! idx = Some k) indices new
         ∧ ∀ j k idx, loops' !! (j, k) = Some idx →
                      loops !! (j, k) = Some idx
                      ∨ (j = poly_idx ∧ idx ∈ indices ∧ vmap !! idx = Some k).
Proof.
  induction indices as [|idx0 indices IH]; intros poly_verts loops pv loops';
    cbn [poly_loop].
  - intros [= <- <-]. exists []. rewrite app_nil_r. split; [done|]. split; [constructor|].
    auto.
  - destruct (vmap !! idx0) as [k0|] eqn:Hk0; cbn [mbind option_bind]; [|done].
    intros (new & -> & Hall & Hloops)%IH.
    exists (k0 :: new). rewrite <- app_assoc. split; [done|]. split; [by constructor|].
    intros j k idx Hlk. destruct (Hloops j k idx Hlk) as [Hold|(-> & Hin & Hv)].
    + rewrite lookup_insert in Hold. case_decide as Heq; [|by left].
      injection Heq as <- <-. injection Hold as <-. right.
      split; [done|]. split; [left|done].
    + right. split; [done|]. split; [by right|done].
Qed.

Lemma polys_loop_spec vmap (all : list Polygon.t) polygons : ∀ i polys loops polys' loops',
  (∀ j poly, polygons !! j = Some poly → all !! (i + j)%nat = Some poly) →
  loops_ok all vmap loops →
  polys_loop vmap (imap (λ j p, ((i + j)%nat, p)) polygons) polys loops
  = Some (polys', loops') →
  loops_ok all vmap loops'
  ∧ ∃ new, polys' = polys ++ new
           ∧ Forall2 (λ poly pv, Forall2 (λ idx k, vmap !! idx = Some k) (corners poly) pv)
                     polygons new.
Proof.
  induction polygons as [|poly polygons IH]; intros i polys loops polys' loops' Hall Hok;
    cbn [imap polys_loop].
  - intros [= <- <-]. split; [done|]. exists []. rewrite app_nil_r. split; [done|constructor].
  - rewrite Nat.add_0_r.
    destruct (poly_loop vmap i (corners poly) [] loops) as [[pv loops1]|] eqn:Hpoly;
      cbn [mbind option_bind]; [|done].
    apply poly_loop_spec in Hpoly as (new0 & -> & Hcorners & Hloops1).
    rewrite (imap_ext _ (λ j p, ((S i + j)%nat, p))).
    2:{ intros j x _. simpl. f_equal. lia. }
    intros Hrest. apply IH in Hrest as (Hok' & new & -> & Hnew).
    + split; [done|]. exists (new0 :: new). rewrite <- app_assoc. split; [done|].
      by constructor.
    + intros j p Hj. replace (S i + j)%nat with (i + S j)%nat by lia. by apply Hall.
    + intros j k idx Hlk. destruct (Hloops1 j k idx Hlk) as [Hold|(-> & Hin & Hv)].
      * by apply Hok.
      * split; [done|]. exists poly. split; [|done].
        rewrite <- (Nat.add_0_r i). by apply Hall.
Qed.

Lemma poly_loop_ok vmap poly_idx indices : ∀ poly_verts loops,
  Forall (λ idx, is_Some (vmap !! idx)) indices →
  is_Some (poly_loop vmap poly_idx indices poly_verts loops).
Proof.
  induction indices as [|idx indices IH]; intros poly_verts loops Hall; cbn [poly_loop].
  - eauto.
  - apply Forall_cons in Hall as [[k ->] Hall]. cbn [mbind option_bind]. by apply IH.
Qed.

Lemma polys_loop_ok vmap polygons : ∀ polys loops,
  Forall (λ ip : nat * Polygon.t, Forall (λ idx, is_Some (vmap !! idx)) (corners ip.2))
         polygons →
  is_Some (polys_loop vmap polygons polys loops).
Proof.
  induction polygons as [|[i poly] polygons IH]; intros polys loops Hall;
    cbn [polys_loop].
  - eauto.
  - apply Forall_cons in Hall as [Hpoly Hall]. cbn [snd] in Hpoly.
    destruct (poly_loop_ok vmap i (corners poly) [] loops Hpoly) as [[pv loops1] ->].
    cbn [mbind option_bind]. by apply IH.
Qed.

Lemma build_loops_and_verts_Some (positions : list P) (model_polygons : list Polygon.t)
    verts polys loops vmap :
  build_loops_and_verts py_set_list positions model_polygons
  = Some (verts, polys, loops, vmap) →
  NoDup verts
  ∧ (∀ p, p ∈ verts ↔ p ∈ positions)
  ∧ (∀ i p, positions !! i = Some p →
            ∃ k, vmap !! Z.of_nat i = Some k ∧ verts !! k = Some p)
  ∧ (∀ idx k, vmap !! idx = Some k →
              0 ≤ idx < Z.of_nat (length positions) ∧ (k < length verts)%nat)
  ∧ Forall2 (λ poly pv, Forall2 (λ idx k, vmap !! idx = Some k) (corners poly) pv)
            model_polygons polys
  ∧ loops_ok model_polygons vmap loops.
Proof.
  unfold build_loops_and_verts.
  destruct (mapM _ positions) as [idxs|] eqn:Hidxs; cbn [mbind option_bind]; [|done].
  destruct (polys_loop _ _ _ _) as [[polys0 loops0]|] eqn:Hpolys;
    cbn [mbind option_bind]; [|done].
  intros [= <- <- <- <-].
  apply mapM_Some in Hidxs.
  split; [apply set_NoDup|]. split; [apply set_elem|].
  assert (∀ idx k, (list_to_map (imap (λ i k, (Z.of_nat i, k)) idxs) : gmap Z nat) !! idx
                   = Some k →
            0 ≤ idx ∧ ∃ p, positions !! Z.to_nat idx = Some p
                           ∧ py_set_list positions !! k = Some p) as Hvmap.
  { intros idx k. rewrite enumerated_lookup. case_decide as Hz; [|done].
    intros Hk. split; [done|].
    destruct (Forall2_lookup_r _ _ _ _ _ Hidxs Hk) as (p & Hp & Hi).
    exists p. split; [done|]. by apply index_of_Some. }
  split; [|split; [|split]].
  - intros i p Hp.
    destruct (Forall2_lookup_l _ _ _ _ _ Hidxs Hp) as (k & Hk & Hi).
    exists k. rewrite enumerated_lookup, decide_True by lia.
    rewrite Nat2Z.id. split; [done|]. by apply index_of_Some.
  - intros idx k Hk. destruct (Hvmap _ _ Hk) as (Hz & p & Hp & Hv).
    apply lookup_lt_Some in Hp, Hv. lia.
  - apply (polys_loop_spec _ model_polygons model_polygons 0) in Hpolys
      as (_ & new & -> & Hnew); [done|done|].
    intros j k idx Hlk. by rewrite lookup_empty in Hlk.
  - apply (polys_loop_spec _ model_polygons model_polygons 0) in Hpolys
      as (Hok & _); [done|done|].
    intros j k idx Hlk. by rewrite lookup_empty in Hlk.
Qed.

(** X25: [build_loops_and_verts] returns
    exactly when every index of every polygon is the position of a model
    vertex.  It then returns the distinct vertex positions, each once; a
    map that sends every model vertex to a vertex with its position; each
    polygon with its indices replaced through that map; and a loop
    dictionary whose entry for (polygon, vertex) names a corner of that
    polygon that the map sends to that vertex. *)
Theorem build_loops_and_verts_spec (positions : list P) (model_polygons : list Polygon.t) :
  (is_Some (build_loops_and_verts py_set_list positions model_polygons)
   ↔ corners_in_range (length positions) model_polygons)
  ∧ ∀ verts polys loops vmap,
      build_loops_and_verts py_set_list positions model_polygons
      = Some (verts, polys, loops, vmap) →
      NoDup verts
      ∧ (∀ p, p ∈ verts ↔ p ∈ positions)
      ∧ (∀ i p, positions !! i = Some p →
                ∃ k, vmap !! Z.of_nat i = Some k ∧ verts !! k = Some p)
      ∧ Forall2 (λ poly pv, Forall2 (λ idx k, vmap !! idx = Some k) (corners poly) pv)
                model_polygons polys
      ∧ loops_ok model_polygons vmap loops.
Proof.
  split.
  - split.
    + intros [[[[verts polys] loops] vmap] Hrun].
      apply build_loops_and_verts_Some in Hrun as (_ & _ & _ & Hdom & Hpolys & _).
      apply Forall_forall. intros poly Hpoly.
      apply list_elem_of_lookup in Hpoly as [j Hj].
      destruct (Forall2_lookup_l _ _ _ _ _ Hpolys Hj) as (pv & _ & Hc).
      apply Forall_forall. intros idx Hidx.
      apply list_elem_of_lookup in Hidx as [m Hm].
      destruct (Forall2_lookup_l _ _ _ _ _ Hc Hm) as (k & _ & Hk).
      by apply Hdom in Hk as [? _].
    + intros Hrange. unfold build_loops_and_verts.
      assert (is_Some (mapM (λ vert, index_of vert (py_set_list positions)) positions))
        as [idxs Hidxs].
      { apply mapM_is_Some, Forall_forall. intros p Hp.
        apply index_of_elem. by apply set_elem. }
      rewrite Hidxs. cbn [mbind option_bind].
      apply mapM_Some, Forall2_length in Hidxs as Hlen.
      match goal with |- context [polys_loop ?vmap ?ps ?a ?b] =>
        destruct (polys_loop_ok vmap ps a b) as [[polys loops] ->] end; [|by eexists].
      apply Forall_forall. intros [j poly] Hin. cbn [snd].
      apply list_elem_of_lookup in Hin as [m Hm]. unfold Py.enumerate in Hm.
      rewrite list_lookup_imap in Hm.
      destruct (model_polygons !! m) as [poly'|] eqn:Hp; [|done].
      cbn in Hm. injection Hm as <- <-.
      eapply Forall_impl; [exact (Forall_lookup_1 _ _ _ _ Hrange Hp)|].
      intros idx Hidx. cbn beta in Hidx. rewrite enumerated_lookup, decide_True by lia.
      apply lookup_lt_is_Some. lia.
  - intros verts polys loops vmap Hrun.
    apply build_loops_and_verts_Some in Hrun as (? & ? & ? & _ & ? & ?). done.
Qed.

End BuildLoopsFacts.

Lemma build_loops_and_verts_spec_witness :
  is_Some (BuildLoops.build_loops_and_verts remove_dups [1; 2; 1; 3]
             [{| Polygon.indices := (0, 1, 2) |}; {| Polygon.indices := (2, 1, 3) |}])
  ∧ ¬ is_Some (BuildLoops.build_loops_and_verts remove_dups [1; 2; 1; 3]
                 [{| Polygon.indices := (0, 1, 4) |}]).
Proof.
  split.
  - apply (build_loops_and_verts_spec remove_dups NoDup_remove_dups elem_of_remove_dups
             [1; 2; 1; 3]).
    unfold BuildLoops.corners_in_range. repeat constructor; cbn; lia.
  - intros Hrun.
    apply (build_loops_and_verts_spec remove_dups NoDup_remove_dups elem_of_remove_dups
             [1; 2; 1; 3]) in Hrun.
    apply Forall_cons in Hrun as [Hpoly _]. cbn in Hpoly.
    apply Forall_cons in Hpoly as [_ Hpoly]. apply Forall_cons in Hpoly as [_ Hpoly].
    apply Forall_cons in Hpoly as [Hidx _]. cbn in Hidx. lia.
Defined.
